(* ===== verification/_CoqProject ===== *)
-Q . S2P
Prelude.v
Text.v
Errors.v
Codec.v
Framing.v
SignalMsg.v
ServerDataModel.v
Discovery.v
Endpoint.v
IpRange.v
Candidate.v
Sans.v
LanSignaler.v
Identity.v
ServerIdentity.v
IdentityInstance.v
HttpSignaler.v
Webrtc.v
WebrtcInstance.v
Transports.v
Session.v
SessionSafety.v
SessionDelivery.v
SessionInstance.v
Connection.v
Admission.v
AdmissionInstance.v
Pending.v
HttpWire.v
HttpStream.v
Router.v
SharedSocket.v
Pool.v
PoolInstance.v
ServerSessions.v
LanServer.v
LanClient.v
JoinTarget.v
HttpClient.v
Motd.v
TokioBase.v
SessionHandle.v
TokioSession.v
LanTask.v
HttpTask.v
HttpServer.v
HttpServerSafety.v
ServerInstance.v
HttpServerInstance.v
ClientInstance.v
HttpClientInstance.v
TokioInstance.v
TokioServer.v
TokioServerInstance.v
TokioClient.v
TokioClientInstance.v
Jwks.v
KeyFile.v
HttpJoin.v
UtilInstance.v
HttpExchange.v
HttpExchangeInstance.v
Handshake.v
HandshakeInstance.v
Sockets.v
LanDiscovery.v
LanHost.v
LanHostInstance.v
TokioSignals.v
Plugins.v
PluginsInstance.v
