(* ===== verification/Prelude.v ===== *)
(** * NetherNet: verification of a peer-to-peer session protocol

    The repository implements NetherNet, the transport of a game: peers find
    each other over LAN broadcast or over HTTP, exchange session descriptions,
    and then talk over ICE, DTLS and SCTP.  The [nethernet] crate holds the
    protocol as state machines without I/O; [nethernet-tokio] and
    [bevy-nethernet] drive them.  The development models the protocol crate and
    the parts of the two front ends that decide something by themselves.

    ** How the code is modelled

    A byte string, [&str] included, is [bytes], a list of bytes.  Integers are
    [Z], with the width written out where the code depends on it.  A Rust
    [Result] is [Res], which has a third outcome [Panic], so that the absence of
    panics is a theorem.  [&mut self] methods are state transformers in the
    monad [SE], which keeps what an early return leaves behind.  [HashMap] is
    [gmap], [HashSet] is [gset], a queue is a list with its head first.  Clocks,
    random choices and the iteration order of a hash map, where it matters, are
    arguments.  Code that is not in the repository (the cryptographic, JSON, SDP,
    ICE, DTLS, SCTP, HTTP and CIDR crates) is a class of operations, with a
    class of laws for what the crate documents and the code relies on; the
    files ending in [Instance] give instances that satisfy the laws, and
    apply the theorems to concrete inputs there.  The published keys of a token
    trust, which the source shares between clones, are part of the trust as a
    value: replacing them is giving a machine another trust, but for [Jwks], where
    the sharing is modelled.

    ** Files and the code they model (paths under [src/nethernet/src/] unless
    another crate is named)

    - [Prelude]: outcomes, the state monad, bytes, machine integers, tactics and
      hint databases.  [Text]: the string functions of the standard library.
    - [Errors]: [error.rs], [protocol/constants.rs].
    - [Codec]: [protocol/codec.rs].  [Framing]: [protocol/message.rs].
    - [SignalMsg]: [protocol/signal.rs].
    - [ServerDataModel], [Discovery]: [protocol/packet/discovery/].
    - [Endpoint], [IpRange], [Candidate]: [util/endpoint.rs],
      [util/ip_range.rs], [util/candidate.rs].
    - [Sans]: [sans.rs], the interface of every state machine, with its
      reachable states and traces.
    - [LanSignaler]: [signaling/lan/].  [HttpSignaler]: [signaling/http/].
    - [Identity], [ServerIdentity], [IdentityInstance]: [identity/].
    - [Webrtc], [WebrtcInstance]: [protocol/webrtc/] and the fingerprint check of
      [session/dtls.rs].
    - [Transports]: [session/ice.rs], [dtls.rs], [sctp.rs], [dcep.rs].
    - [Session], [SessionSafety], [SessionDelivery], [SessionInstance]:
      [session/mod.rs].
    - [Connection], [Admission], [AdmissionInstance]: [connection.rs],
      [admission.rs].
    - [Pending]: [transport/pending.rs] of [nethernet-tokio] and [pending.rs] of
      [bevy-nethernet].
    - [HttpWire], [HttpStream]: [http_wire.rs], and [http_stream.rs] with
      [tcp_wire.rs] of [bevy-nethernet].
    - [Router], [Pool], [PoolInstance]: [util/stun.rs], and [connection.rs] of
      [bevy-nethernet], the thread that drives the sessions behind one socket.
    - [SharedSocket]: [transport/shared.rs] of [nethernet-tokio].
    - [ServerSessions], [LanServer], [ServerInstance]: [server.rs] of
      [bevy-nethernet]; the session table, and the LAN server around it.
    - [HttpServer], [HttpServerSafety], [HttpServerInstance]: [http_server.rs] of
      [bevy-nethernet].
    - [LanClient], [ClientInstance]: [client.rs] of [bevy-nethernet].
    - [JoinTarget], [HttpClient], [HttpClientInstance]: [http_client.rs] of
      [bevy-nethernet].
    - [Motd], [TokioBase]: [builders/motd.rs], [error/mod.rs], [addr.rs] and
      [transport/mod.rs] of [nethernet-tokio].
    - [SessionHandle]: who keeps a session open, in [session/mod.rs] and
      [transport/server.rs] of [nethernet-tokio].
    - [TokioSession], [LanTask], [HttpTask], [TokioInstance]: the tasks of
      [session/mod.rs], [signaling/lan.rs] and [signaling/http/server.rs] of
      [nethernet-tokio].
    - [TokioServer], [TokioServerInstance]: [transport/server.rs] of
      [nethernet-tokio], with what its signalings differ in ([signaling/mod.rs]).
    - [TokioClient], [TokioClientInstance]: [transport/client.rs] of
      [nethernet-tokio].
    - [HttpJoin], [Jwks], [KeyFile], [UtilInstance]: [signaling/http/client.rs],
      [util/jwks.rs], [util/identity.rs] and [util/tls.rs] of [nethernet-tokio].
    - [TokioSignals]: the streams of signals of [signaling/lan.rs],
      [signaling/http/server.rs] and [signaling/http/client.rs] of [nethernet-tokio].
    - [Sockets]: [socket.rs] of [bevy-nethernet], and the binding of
      [signaling/lan.rs] of [nethernet-tokio].
    - Compositions, which put the parts above together: [HttpExchange],
      [HttpExchangeInstance] (a join over HTTP from the client's bytes to the
      server's answer and back), [Handshake], [HandshakeInstance] (a signed offer
      and a signed answer from one peer to the other), [LanDiscovery] (a client
      finds a server), [LanHost], [LanHostInstance] (the servers and the client of
      [bevy-nethernet] as they bind, and the LAN server from socket to socket),
      [Plugins], [PluginsInstance] (the systems that run them once per frame).

    ** What the theorems show

    - Round trips: codec integers, segments and messages, server data, signals,
      discovery datagrams, session descriptions, chunked bodies.
    - Authenticity: a discovery datagram that decodes carries the checksum of its
      content; claims accepted for a description come from an unexpired, trusted
      token whose key made the ES384 signature, in its place in the assertion, over
      that description's fingerprints (relations such as [compact_says],
      [detached_says] and [es384_signed] say what the text of a token holds, apart
      from the functions that check it); a server's own
      answers pass that validation; an admitted offer carries authentic claims;
      a DTLS peer is accepted exactly when its certificate has the announced
      fingerprint.
    - State machines: invariants of every reachable state of the LAN signaler,
      the HTTP signaler and the session (connection, join and server limits,
      retry budgets, buffers, transports started together or not at all); events
      are emitted once; joins are completed once; deadlines and timers are
      enforced (a session's by the first timeout that is handled without an error).
    - Delivery: messages on the reliable channel arrive exactly and in order,
      empty ones apart, which are not delivered;
      unreliable messages arrive whole; both sides agree on the channels; signals
      reach their addressee and only it.
    - Routing: a datagram reaches only the session that owns its source address,
      or, being STUN, one that it names or that has sent something there, which is
      read off a record of what the sessions have sent; an address has one owner.
      New sessions are assumed to come under ids that are not in use.
    - Servers: a server's runs are runs of its session table, whose events account
      for its sessions; pending sessions stay within the limits, and so do the
      connections that the HTTP server has open and is not about to close; under a
      token trust every session has the authentic claims of the very offer that
      opened it, which the server received; the commands to the pool keep it
      sound, and the pool reports exactly what its sessions produce.
    - Clients: an answer reaches a session only after it was authenticated; the
      offers made for one connect are bounded; whatever is under way has a
      deadline, and the frame that reaches it moves on; the events tell the state
      of the connection.  Some of it is stated for clients that are not told to
      connect while they are connected.
    - Tasks: each turn takes what [select!] has picked; what a task does to the
      world is what its state machine puts out, once and in order; each HTTP
      request gets the response its signaler has for it, or its channel is dropped.
    - Streams: what is queued goes out once and in order; over TLS the socket has
      exactly the bytes that the engine has made and handed over.
    - The tokio server and client: offers are answered within the limits, by one
      session or one refusal each; sessions are handed out once and signals reach
      the session they name; attempts are bounded; what the writer takes is sent
      once; an HTTP join delivers the whole body or an error.
    - Keys: the shared keys are those that were fetched or put in last; they are
      asked for by one party at a time, and not within a minute of a successful
      fetch (nothing delays a request after a failed one); the key file is never
      overwritten.
    - End to end: the offer a new session writes, once signed, is admitted, and the
      answer to it passes the client's check and reaches its session; the bytes of
      an HTTP join are read as the offer they were written for, in whatever pieces
      they arrive, and so is the answer; a broadcast request is answered with the
      server's data and discovers it; a request on a discovery socket is answered
      from it, to where it came from; after every frame the app knows from the
      events which sessions there are; the stream of signals loses nothing as long
      as no more wait for it than its channel was asked to hold.
    - Refinement and equivalence: the pending-offer counters implement the list
      of held slots; address scopes and range sets agree with their
      specifications.

    ** Fuel and bounds

    Loops that consume a byte string take its length as fuel, and the lemmas
    about them show that this is enough for every input (the fuel's end is
    [Panic], which the theorems exclude).  Loops that drain a queue of a foreign
    library take a measure from its law class: the number of items it can still
    yield.  [Sans.drain_machine] polls a machine whose
    outputs feed it again; two rounds are given to it, and the lemmas
    [lan_outputs_end], [http_outputs_end] and [client_outputs_end] show that they
    are enough.  [Sans.take_outputs] empties a queue and takes its length.
    [Instant] and [Duration] are unbounded, and so are the ids an acceptor gives
    out, which are 64-bit counters.

    ** Not modelled

    The runtime under the tasks and the threads (a turn's choice and the state of
    the channels are inputs of the model), the operating system behind the sockets
    (what each call answers is an argument), the engines of HTTP and TLS, the
    process-wide choice of a crypto provider, the registration of the ECS
    plug-ins, methods that only pass a call on, the texts of error messages that
    belong to other crates, log output, and the tests. *)

From Stdlib.Strings Require Export Byte.
From stdpp Require Export prelude gmap strings list numbers.
From Stdlib Require Import Lia ZArith.

#[global] Open Scope Z_scope.

(** ** Outcomes

    [Ok]/[Err] are Rust's [Result]; [Panic] is a Rust panic (an arithmetic
    overflow that the standard library checks, an out-of-range slice), so that
    the absence of panics is something the development states and proves. *)
Inductive Res (E A : Type) : Type :=
| Ok (a : A)
| Err (e : E)
| Panic.
Arguments Ok {E A} a.
Arguments Err {E A} e.
Arguments Panic {E A}.

#[global] Instance res_ret E : MRet (Res E) := fun A a => Ok a.
#[global] Instance res_bind E : MBind (Res E) := fun A B f m =>
  match m with Ok a => f a | Err e => Err e | Panic => Panic end.
#[global] Instance res_fmap E : FMap (Res E) := fun A B f m =>
  match m with Ok a => Ok (f a) | Err e => Err e | Panic => Panic end.

Lemma Ok_inj {E A} (a b : A) : @Ok E A a = Ok b -> a = b.
Proof. congruence. Qed.

Lemma res_bind_Ok {E A B} (a : A) (f : A -> Res E B) : (Ok a ≫= f) = f a.
Proof. reflexivity. Qed.

Lemma res_bind_inv {E A B} (m : Res E A) (f : A -> Res E B) b :
  (m ≫= f) = Ok b -> exists a, m = Ok a /\ f a = Ok b.
Proof. destruct m; [eauto|done..]. Qed.

Definition map_err {E F A} (f : E -> F) (m : Res E A) : Res F A :=
  match m with Ok a => Ok a | Err e => Err (f e) | Panic => Panic end.

(** [Option::ok_or]. *)
Definition ok_or {E A} (e : E) (o : option A) : Res E A :=
  match o with Some a => Ok a | None => Err e end.

(** [Result::ok]; a panic has no value either. *)
Definition res_ok {E A} (m : Res E A) : option A :=
  match m with Ok a => Some a | _ => None end.

Definition is_ok {E A} (m : Res E A) : bool :=
  match m with Ok _ => true | _ => false end.

Definition no_panic {E A} (m : Res E A) : Prop := m <> Panic.

(** Stateful, fallible code: [&mut self] methods returning [Result].  The state
    is returned on the error path too, because Rust keeps the mutations made
    before an early return. *)
Definition SE (S E A : Type) : Type := S -> Res E A * S.

#[global] Instance se_ret S E : MRet (SE S E) := fun A a s => (Ok a, s).
#[global] Instance se_bind S E : MBind (SE S E) := fun A B f m s =>
  match m s with
  | (Ok a, s') => f a s'
  | (Err e, s') => (Err e, s')
  | (Panic, s') => (Panic, s')
  end.

(** A byte reader ([std::io::Read] over a cursor): the value and the rest. *)
Definition reader (E A : Type) : Type := list byte -> Res E (A * list byte).

#[global] Instance reader_ret E : MRet (reader E) := fun A a bs => Ok (a, bs).
#[global] Instance reader_bind E : MBind (reader E) := fun A B f m bs =>
  match m bs with
  | Ok (a, bs') => f a bs'
  | Err e => Err e
  | Panic => Panic
  end.

(** Lifts a pure outcome into the reader. *)
Definition rlift {E A} (m : Res E A) : reader E A := fun bs =>
  match m with Ok a => Ok (a, bs) | Err e => Err e | Panic => Panic end.

(** ** Bytes *)

Abbreviation bytes := (list byte).

#[global] Instance byte_eq_dec : EqDecision byte := Byte.byte_eq_dec.
#[global] Program Instance byte_countable : Countable byte :=
  inj_countable Byte.to_N Byte.of_N _.
Next Obligation. intros b. apply Byte.of_to_N. Qed.

Definition Z_of_byte (b : byte) : Z := Z.of_N (Byte.to_N b).

(** [z as u8]. *)
Definition byte_of_Z (z : Z) : byte :=
  match Byte.of_N (Z.to_N (z mod 256)) with Some b => b | None => x00 end.

(** ASCII text as bytes; Rust strings are byte lists throughout. *)
Definition str (s : string) : bytes := String.list_byte_of_string s.

(** [len()] as a machine integer. *)
Definition blen {A} (l : list A) : Z := Z.of_nat (length l).

Lemma Z_of_byte_range b : 0 <= Z_of_byte b < 256.
Proof. unfold Z_of_byte. pose proof (Byte.to_N_bounded b). lia. Qed.

Lemma byte_of_Z_of_byte b : byte_of_Z (Z_of_byte b) = b.
Proof.
  unfold byte_of_Z. rewrite Z.mod_small by apply Z_of_byte_range.
  unfold Z_of_byte. rewrite N2Z.id. by rewrite Byte.of_to_N.
Qed.

Lemma Z_of_byte_of_Z z : Z_of_byte (byte_of_Z z) = z mod 256.
Proof.
  unfold byte_of_Z. pose proof (Z.mod_pos_bound z 256 ltac:(lia)).
  destruct (Byte.of_N (Z.to_N (z mod 256))) as [b|] eqn:E.
  - apply Byte.to_of_N in E. unfold Z_of_byte. rewrite E. lia.
  - apply Byte.of_N_None_iff in E. lia.
Qed.

Lemma Z_of_byte_inj a b : Z_of_byte a = Z_of_byte b -> a = b.
Proof. intros H. by rewrite <- (byte_of_Z_of_byte a), H, byte_of_Z_of_byte. Qed.

Lemma Z_of_byte_small z : 0 <= z < 256 -> Z_of_byte (byte_of_Z z) = z.
Proof. intros. rewrite Z_of_byte_of_Z. by apply Z.mod_small. Qed.

Lemma blen_nonneg {A} (l : list A) : 0 <= blen l.
Proof. unfold blen. lia. Qed.

Lemma blen_app {A} (l k : list A) : blen (l ++ k) = blen l + blen k.
Proof. unfold blen. rewrite length_app. lia. Qed.

Lemma blen_nil {A} : blen (@nil A) = 0.
Proof. reflexivity. Qed.

Lemma blen_cons {A} (x : A) l : blen (x :: l) = 1 + blen l.
Proof. unfold blen. cbn [length]. lia. Qed.

Lemma blen_zero_nil {A} (l : list A) : blen l = 0 -> l = [].
Proof. destruct l; [done|]. rewrite blen_cons. pose proof (blen_nonneg l). lia. Qed.

(** ** Lists *)

Lemma sublist_filter_bool {A} (f : A -> bool) (l : list A) : sublist (List.filter f l) l.
Proof. induction l as [|x l IH]; cbn; [constructor|]. destruct (f x); by constructor. Qed.

Lemma Forall_sublist_bool {A} (P : A -> Prop) (l k : list A) :
  sublist l k -> Forall P k -> Forall P l.
Proof. induction 1; inversion 1; subst; auto. Qed.

(** ** Little-endian integers *)

Fixpoint le_bytes (n : nat) (z : Z) : bytes :=
  match n with O => [] | S n => byte_of_Z z :: le_bytes n (z / 256) end.

Fixpoint le_value (bs : bytes) : Z :=
  match bs with [] => 0 | b :: bs => Z_of_byte b + 256 * le_value bs end.

Lemma length_le_bytes n z : length (le_bytes n z) = n.
Proof. revert z. induction n; intros; simpl; auto. Qed.

Lemma blen_le_bytes n z : blen (le_bytes n z) = Z.of_nat n.
Proof. unfold blen. by rewrite length_le_bytes. Qed.

Lemma le_value_bytes n z : le_value (le_bytes n z) = z mod 256 ^ Z.of_nat n.
Proof.
  revert z. induction n as [|n IH]; intros z.
  { simpl. by rewrite Z.mod_1_r. }
  cbn [le_bytes le_value]. rewrite IH, Z_of_byte_of_Z.
  rewrite Nat2Z.inj_succ, Z.pow_succ_r by lia.
  rewrite Z.rem_mul_r by (try apply Z.pow_pos_nonneg; lia). reflexivity.
Qed.

Lemma le_value_bytes_small n z :
  0 <= z < 256 ^ Z.of_nat n -> le_value (le_bytes n z) = z.
Proof. intros. rewrite le_value_bytes. by apply Z.mod_small. Qed.

Lemma le_value_range bs : 0 <= le_value bs < 256 ^ blen bs.
Proof.
  induction bs as [|b bs IH]; [done|].
  rewrite blen_cons, Z.pow_add_r by (pose proof (blen_nonneg bs); lia).
  change (256 ^ 1) with 256.
  cbn [le_value]. pose proof (Z_of_byte_range b). lia.
Qed.

Lemma le_bytes_value bs : le_bytes (length bs) (le_value bs) = bs.
Proof.
  induction bs as [|b bs IH]; [done|]. cbn [length le_bytes le_value].
  pose proof (Z_of_byte_range b).
  replace ((Z_of_byte b + 256 * le_value bs) / 256) with (le_value bs).
  2: { rewrite Z.add_comm, Z.mul_comm, Z.div_add_l, Z.div_small by lia. lia. }
  rewrite IH. f_equal. apply Z_of_byte_inj. rewrite Z_of_byte_of_Z.
  rewrite Z.add_comm, Z.mul_comm, Z.add_comm, Z.mod_add, Z.mod_small by lia. done.
Qed.

(** ** Machine integers *)

Definition u8_max : Z := 2 ^ 8 - 1.
Definition u16_max : Z := 2 ^ 16 - 1.
Definition u32_max : Z := 2 ^ 32 - 1.
Definition u64_max : Z := 2 ^ 64 - 1.

Definition u32_wrap (z : Z) : Z := z mod 2 ^ 32.

(** [z as i32] for any integer [z]: two's complement reinterpretation. *)
Definition i32_wrap (z : Z) : Z := (z + 2 ^ 31) mod 2 ^ 32 - 2 ^ 31.

Definition is_u8 (z : Z) : Prop := 0 <= z < 2 ^ 8.
Definition is_u16 (z : Z) : Prop := 0 <= z < 2 ^ 16.
Definition is_u32 (z : Z) : Prop := 0 <= z < 2 ^ 32.
Definition is_u64 (z : Z) : Prop := 0 <= z < 2 ^ 64.
Definition is_i32 (z : Z) : Prop := - 2 ^ 31 <= z < 2 ^ 31.

(** [u8::try_from]. *)
Definition u8_try_from (z : Z) : option Z :=
  if (0 <=? z) && (z <=? 255) then Some z else None.

Lemma i32_wrap_id z : is_i32 z -> i32_wrap z = z.
Proof. unfold is_i32, i32_wrap. intros. rewrite Z.mod_small; lia. Qed.

Lemma i32_wrap_range z : is_i32 (i32_wrap z).
Proof. unfold is_i32, i32_wrap. pose proof (Z.mod_pos_bound (z + 2^31) (2^32)). lia. Qed.

Lemma i32_wrap_u32_wrap z : i32_wrap (u32_wrap z) = i32_wrap z.
Proof. unfold i32_wrap, u32_wrap. by rewrite Zplus_mod_idemp_l. Qed.

Lemma u32_wrap_i32_wrap z : u32_wrap (i32_wrap z) = u32_wrap z.
Proof.
  unfold i32_wrap, u32_wrap. rewrite Zminus_mod_idemp_l. f_equal. lia.
Qed.

Lemma u32_wrap_id z : is_u32 z -> u32_wrap z = z.
Proof. unfold is_u32, u32_wrap. intros. rewrite Z.mod_small; lia. Qed.

(** ** Time

    Instants and durations are integers of nanoseconds. *)
Definition Instant := Z.
Definition Duration := Z.

Definition secs (n : Z) : Duration := n * 1000000000.
Definition millis (n : Z) : Duration := n * 1000000.

(** [Instant::saturating_duration_since]. *)
Definition saturating_duration_since (later earlier : Instant) : Duration :=
  Z.max 0 (later - earlier).

(** ** Bitwise facts *)

Lemma lor_disjoint_add a b k :
  0 <= k -> 0 <= a < 2 ^ k -> Z.lor a (Z.shiftl b k) = a + 2 ^ k * b.
Proof.
  intros Hk Ha. rewrite Z.shiftl_mul_pow2 by lia.
  pose proof (Z.add_lor_land a (b * 2 ^ k)) as Hadd.
  assert (Z.land a (b * 2 ^ k) = 0) as Hland; [|lia].
  apply Z.bits_inj'. intros n Hn. rewrite Z.land_spec, Z.bits_0.
  destruct (Z.lt_ge_cases n k).
  - rewrite Z.mul_pow2_bits_low by lia. apply andb_false_r.
  - rewrite <- (Z.mod_small a (2 ^ k)) by lia.
    rewrite Z.mod_pow2_bits_high by lia. done.
Qed.

Lemma lor_lt a b k : 0 <= k -> 0 <= a < 2 ^ k -> 0 <= b < 2 ^ k -> Z.lor a b < 2 ^ k.
Proof.
  intros Hk Ha Hb. destruct (decide (Z.lor a b = 0)) as [->|Hne].
  { by apply Z.pow_pos_nonneg. }
  assert (0 <= Z.lor a b) by (apply Z.lor_nonneg; lia).
  apply Z.log2_lt_pow2; [lia|]. rewrite Z.log2_lor by lia.
  destruct (decide (k = 0)) as [->|]; [change (2 ^ 0) with 1 in *; exfalso; apply Hne;
    by replace a with 0 by lia; replace b with 0 by lia|].
  apply Z.max_lub_lt.
  - destruct (decide (a = 0)) as [->|]; [simpl; lia|]. apply Z.log2_lt_pow2; lia.
  - destruct (decide (b = 0)) as [->|]; [simpl; lia|]. apply Z.log2_lt_pow2; lia.
Qed.

(** ** Automation *)

(** Splits the scrutinee of the innermost match or if of the goal. *)
Ltac split_match :=
  match goal with
  | |- context [match ?x with _ => _ end] =>
      lazymatch x with
      | context [match _ with _ => _ end] => fail
      | _ => let E := fresh "E" in destruct x eqn:E
      end
  end.

(** The same in a hypothesis. *)
Ltac split_match_in H :=
  match type of H with
  | context [match ?x with _ => _ end] =>
      lazymatch x with
      | context [match _ with _ => _ end] => fail
      | _ => let E := fresh "E" in destruct x eqn:E
      end
  end.

(** Turns boolean comparisons of the context into propositions. *)
Ltac to_props :=
  repeat match goal with
  | H : (_ && _)%bool = true |- _ => apply andb_true_iff in H; destruct H
  | H : (_ || _)%bool = false |- _ => apply orb_false_iff in H; destruct H
  | H : negb _ = true |- _ => apply negb_true_iff in H
  | H : negb _ = false |- _ => apply negb_false_iff in H
  | H : (_ =? _)%Z = true |- _ => apply Z.eqb_eq in H
  | H : (_ =? _)%Z = false |- _ => apply Z.eqb_neq in H
  | H : (_ <? _)%Z = true |- _ => apply Z.ltb_lt in H
  | H : (_ <? _)%Z = false |- _ => apply Z.ltb_ge in H
  | H : (_ <=? _)%Z = true |- _ => apply Z.leb_le in H
  | H : (_ <=? _)%Z = false |- _ => apply Z.leb_gt in H
  | H : (_ >? _)%Z = true |- _ => rewrite Z.gtb_ltb in H; apply Z.ltb_lt in H
  | H : (_ >? _)%Z = false |- _ => rewrite Z.gtb_ltb in H; apply Z.ltb_ge in H
  | H : bool_decide _ = true |- _ => apply bool_decide_eq_true in H
  | H : bool_decide _ = false |- _ => apply bool_decide_eq_false in H
  end.

Create Rewrite HintDb blen.
#[export] Hint Rewrite @blen_app @blen_nil @blen_cons blen_le_bytes : blen.

(** Adds a fact to the context unless it is already there. *)
Ltac learn fact :=
  let T := type of fact in
  match goal with
  | _ : T |- _ => fail 1
  | _ => pose proof fact
  end.

(** Normalises lengths and closes the arithmetic. *)
Ltac blen_lia :=
  autorewrite with blen in *;
  repeat match goal with
  | |- context [blen ?l] => learn constr:(blen_nonneg l)
  | H : context [blen ?l] |- _ => learn constr:(blen_nonneg l)
  end; lia.
