(* ===== verification/Text.v ===== *)
(** * Text: the string operations of the Rust standard library that the crate uses

    A Rust [&str] is its UTF-8 bytes.  The separators the crate splits on are
    all ASCII, so splitting bytes and splitting characters agree. *)
From S2P Require Import Prelude.

(** ** Character classes *)

Definition in_range (b : byte) (lo hi : Z) : bool :=
  (lo <=? Z_of_byte b) && (Z_of_byte b <=? hi).

Definition byte_eqb (a b : byte) : bool := Byte.eqb a b.

Lemma byte_eqb_eq a b : byte_eqb a b = true <-> a = b.
Proof. split; [apply Byte.byte_dec_bl | apply Byte.byte_dec_lb]. Qed.

Lemma byte_eqb_refl a : byte_eqb a a = true.
Proof. by apply byte_eqb_eq. Qed.

Lemma byte_eqb_neq a b : byte_eqb a b = false <-> a <> b.
Proof. rewrite <- not_true_iff_false, byte_eqb_eq. done. Qed.

Definition bytes_eqb (a b : bytes) : bool := bool_decide (a = b).

Definition is_ascii_digit (b : byte) : bool := in_range b 48 57.

Definition is_ascii_hexdigit (b : byte) : bool :=
  in_range b 48 57 || in_range b 65 70 || in_range b 97 102.

(** [u8::to_ascii_lowercase]. *)
Definition ascii_lower (b : byte) : byte :=
  if in_range b 65 90 then byte_of_Z (Z_of_byte b + 32) else b.

Definition to_ascii_lowercase (s : bytes) : bytes := ascii_lower <$> s.

Definition eq_ignore_ascii_case (a b : bytes) : bool :=
  bytes_eqb (to_ascii_lowercase a) (to_ascii_lowercase b).

(** ** UTF-8 validity ([core::str::from_utf8]) *)

Definition is_cont (b : byte) : bool := in_range b 0x80 0xBF.

Fixpoint utf8_valid (s : bytes) : bool :=
  match s with
  | [] => true
  | b0 :: s1 =>
      if Z_of_byte b0 <? 0x80 then utf8_valid s1 else
      match s1 with
      | [] => false
      | b1 :: s2 =>
          if in_range b0 0xC2 0xDF then is_cont b1 && utf8_valid s2 else
          match s2 with
          | [] => false
          | b2 :: s3 =>
              if (in_range b0 0xE0 0xE0 && in_range b1 0xA0 0xBF)
                 || (in_range b0 0xE1 0xEC && is_cont b1)
                 || (in_range b0 0xED 0xED && in_range b1 0x80 0x9F)
                 || (in_range b0 0xEE 0xEF && is_cont b1)
              then is_cont b2 && utf8_valid s3 else
              match s3 with
              | [] => false
              | b3 :: s4 =>
                  ((in_range b0 0xF0 0xF0 && in_range b1 0x90 0xBF)
                   || (in_range b0 0xF1 0xF3 && is_cont b1)
                   || (in_range b0 0xF4 0xF4 && in_range b1 0x80 0x8F))
                  && is_cont b2 && is_cont b3 && utf8_valid s4
              end
          end
      end
  end.

Definition is_ascii (s : bytes) : bool := forallb (fun b => Z_of_byte b <? 0x80) s.

Lemma utf8_valid_app_ascii a s :
  is_ascii a = true -> utf8_valid (a ++ s) = utf8_valid s.
Proof.
  induction a as [|b a IH]; [done|]. unfold is_ascii. cbn [forallb app].
  intros [Hb Ha]%andb_true_iff. cbn [utf8_valid]. rewrite Hb. by apply IH.
Qed.

Lemma is_ascii_utf8 s : is_ascii s = true -> utf8_valid s = true.
Proof. intros H. rewrite <- (app_nil_r s), utf8_valid_app_ascii; done. Qed.

(** [String::from_utf8_lossy]: each maximal invalid sequence becomes U+FFFD. *)
Definition REPLACEMENT : bytes := [xef; xbf; xbd].

Definition lead3 (b0 b1 : byte) : bool :=
  (in_range b0 0xE0 0xE0 && in_range b1 0xA0 0xBF) || (in_range b0 0xE1 0xEC && is_cont b1)
  || (in_range b0 0xED 0xED && in_range b1 0x80 0x9F) || (in_range b0 0xEE 0xEF && is_cont b1).

Definition lead4 (b0 b1 : byte) : bool :=
  (in_range b0 0xF0 0xF0 && in_range b1 0x90 0xBF) || (in_range b0 0xF1 0xF3 && is_cont b1)
  || (in_range b0 0xF4 0xF4 && in_range b1 0x80 0x8F).

Fixpoint from_utf8_lossy (s : bytes) : bytes :=
  match s with
  | [] => []
  | b0 :: s1 =>
      if Z_of_byte b0 <? 0x80 then b0 :: from_utf8_lossy s1 else
      match s1 with
      | [] => REPLACEMENT
      | b1 :: s2 =>
          if in_range b0 0xC2 0xDF then
            if is_cont b1 then b0 :: b1 :: from_utf8_lossy s2
            else REPLACEMENT ++ from_utf8_lossy s1
          else if lead3 b0 b1 then
            match s2 with
            | [] => REPLACEMENT
            | b2 :: s3 =>
                if is_cont b2 then b0 :: b1 :: b2 :: from_utf8_lossy s3
                else REPLACEMENT ++ from_utf8_lossy s2
            end
          else if lead4 b0 b1 then
            match s2 with
            | [] => REPLACEMENT
            | b2 :: s3 =>
                if negb (is_cont b2) then REPLACEMENT ++ from_utf8_lossy s2
                else match s3 with
                     | [] => REPLACEMENT
                     | b3 :: s4 =>
                         if is_cont b3 then b0 :: b1 :: b2 :: b3 :: from_utf8_lossy s4
                         else REPLACEMENT ++ from_utf8_lossy s3
                     end
            end
          else REPLACEMENT ++ from_utf8_lossy s1
      end
  end.

Lemma from_utf8_lossy_ascii s : is_ascii s = true -> from_utf8_lossy s = s.
Proof.
  induction s as [|b s IH]; [done|]. unfold is_ascii. cbn [forallb].
  intros [Hb Hs]%andb_true_iff. cbn [from_utf8_lossy]. rewrite Hb. by rewrite IH.
Qed.

(** ** Prefixes *)

Fixpoint strip_prefix (p s : bytes) : option bytes :=
  match p, s with
  | [], _ => Some s
  | a :: p, b :: s => if byte_eqb a b then strip_prefix p s else None
  | _ :: _, [] => None
  end.

Definition strip_suffix (p s : bytes) : option bytes :=
  option_map (@rev byte) (strip_prefix (rev p) (rev s)).

Definition starts_with (p s : bytes) : bool := bool_decide (is_Some (strip_prefix p s)).

Lemma strip_prefix_app p s : strip_prefix p (p ++ s) = Some s.
Proof. induction p as [|a p IH]; simpl; [done|]. by rewrite byte_eqb_refl. Qed.

Lemma strip_prefix_Some p s r : strip_prefix p s = Some r <-> s = p ++ r.
Proof.
  split; [|intros ->; apply strip_prefix_app].
  revert s. induction p as [|a p IH]; intros s; simpl; [by intros [= ->]|].
  destruct s as [|b s]; [done|]. destruct (byte_eqb a b) eqn:E; [|done].
  apply byte_eqb_eq in E as ->. intros H. by rewrite (IH _ H).
Qed.

Lemma starts_with_true p s : starts_with p s = true <-> exists r, s = p ++ r.
Proof.
  unfold starts_with. rewrite bool_decide_eq_true. unfold is_Some.
  by setoid_rewrite strip_prefix_Some.
Qed.

(** ** Splitting *)

Section split.
Context (sep : byte -> bool).

(** [str::split]: always at least one piece. *)
Fixpoint split_on (s : bytes) : list bytes :=
  match s with
  | [] => [[]]
  | b :: s =>
      if sep b then [] :: split_on s
      else match split_on s with
           | [] => [[b]]
           | w :: ws => (b :: w) :: ws
           end
  end.

(** [str::split_once]. *)
Fixpoint split_once (s : bytes) : option (bytes * bytes) :=
  match s with
  | [] => None
  | b :: s =>
      if sep b then Some ([], s)
      else match split_once s with
           | None => None
           | Some (w, r) => Some (b :: w, r)
           end
  end.

(** [str::splitn n]: at most [n] pieces, the last one unsplit. *)
Fixpoint splitn (n : nat) (s : bytes) : list bytes :=
  match n with
  | O => []
  | S O => [s]
  | S n => match split_once s with
           | None => [s]
           | Some (w, r) => w :: splitn n r
           end
  end.

Definition sep_free (w : bytes) : Prop := Forall (fun b => sep b = false) w.

Lemma split_on_not_nil s : split_on s <> [].
Proof.
  destruct s as [|b s]; simpl; [done|].
  destruct (sep b); [done|]. by destruct (split_on s).
Qed.

Lemma split_on_free w : sep_free w -> split_on w = [w].
Proof. induction 1 as [|b w Hb _ IH]; simpl; [done|]. by rewrite Hb, IH. Qed.

Lemma split_on_app w c s :
  sep_free w -> sep c = true -> split_on (w ++ c :: s) = w :: split_on s.
Proof.
  intros Hw Hc. induction Hw as [|b w Hb _ IH]; simpl; [by rewrite Hc|].
  by rewrite Hb, IH.
Qed.

(** A separator splits the text into the pieces of its two sides. *)
Lemma split_on_sep p c s :
  sep c = true -> split_on (p ++ c :: s) = split_on p ++ split_on s.
Proof.
  intros Hc. induction p as [|b p IH]; simpl; [by rewrite Hc|].
  destruct (sep b); [by rewrite IH|]. rewrite IH.
  pose proof (split_on_not_nil p). by destruct (split_on p).
Qed.

Lemma split_on_pieces_free s : Forall sep_free (split_on s).
Proof.
  induction s as [|b s IH]; simpl; [repeat constructor|].
  destruct (sep b) eqn:Hb; [by constructor; [constructor|]|].
  pose proof (split_on_not_nil s). destruct (split_on s) as [|w ws]; [done|].
  inversion IH; subst. constructor; [by constructor|done].
Qed.

Lemma split_once_app w c s :
  sep_free w -> sep c = true -> split_once (w ++ c :: s) = Some (w, s).
Proof.
  intros Hw Hc. induction Hw as [|b w Hb _ IH]; simpl; [by rewrite Hc|].
  by rewrite Hb, IH.
Qed.

Lemma split_once_Some s w r :
  split_once s = Some (w, r) -> exists c, sep c = true /\ sep_free w /\ s = w ++ c :: r.
Proof.
  revert w r. induction s as [|b s IH]; intros w r; simpl; [done|].
  destruct (sep b) eqn:Hb.
  - intros [= <- <-]. exists b. repeat split; [done|constructor].
  - destruct (split_once s) as [[w' r']|]; [|done]. intros [= <- <-].
    destruct (IH _ _ eq_refl) as (c & Hc & Hw & ->).
    exists c. repeat split; [done|by constructor].
Qed.
End split.

Lemma sep_free_app sep a b : sep_free sep (a ++ b) <-> sep_free sep a /\ sep_free sep b.
Proof. apply list.Forall_app. Qed.

Definition is_byte (c : byte) (b : byte) : bool := byte_eqb c b.

(** [split(['\r', '\n'])]. *)
Definition is_eol (b : byte) : bool := byte_eqb x0d b || byte_eqb x0a b.

Definition space : byte := x20.
Definition crlf : bytes := [x0d; x0a].

(** ** Whitespace ([str::trim], Unicode [White_Space]) *)

(** The bytes of the whitespace character a string starts with, if any. *)
Definition ws_prefix_rest (s : bytes) : option bytes :=
  match s with
  | b :: r1 =>
      if in_range b 0x09 0x0D || in_range b 0x20 0x20 then Some r1 else
      match r1 with
      | b1 :: r2 =>
          if in_range b 0xC2 0xC2 && (in_range b1 0x85 0x85 || in_range b1 0xA0 0xA0)
          then Some r2 else
          match r2 with
          | b2 :: r3 =>
              if (in_range b 0xE1 0xE1 && in_range b1 0x9A 0x9A && in_range b2 0x80 0x80)
                 || (in_range b 0xE2 0xE2 && in_range b1 0x80 0x80
                     && (in_range b2 0x80 0x8A || in_range b2 0xA8 0xA9 || in_range b2 0xAF 0xAF))
                 || (in_range b 0xE2 0xE2 && in_range b1 0x81 0x81 && in_range b2 0x9F 0x9F)
                 || (in_range b 0xE3 0xE3 && in_range b1 0x80 0x80 && in_range b2 0x80 0x80)
              then Some r3 else None
          | [] => None
          end
      | [] => None
      end
  | [] => None
  end.

(** The same for the end of a string, on the reversed bytes. *)
Definition ws_suffix_rest (s : bytes) : option bytes :=
  match s with
  | b :: r1 =>
      if in_range b 0x09 0x0D || in_range b 0x20 0x20 then Some r1 else
      match r1 with
      | b1 :: r2 =>
          if in_range b1 0xC2 0xC2 && (in_range b 0x85 0x85 || in_range b 0xA0 0xA0)
          then Some r2 else
          match r2 with
          | b2 :: r3 =>
              if bool_decide (ws_prefix_rest [b2; b1; b] = Some []) then Some r3 else None
          | [] => None
          end
      | [] => None
      end
  | [] => None
  end.

Fixpoint trim_with (step : bytes -> option bytes) (fuel : nat) (s : bytes) : bytes :=
  match fuel with
  | O => s
  | S fuel => match step s with None => s | Some r => trim_with step fuel r end
  end.

Definition trim_start (s : bytes) : bytes := trim_with ws_prefix_rest (length s) s.
Definition trim_end (s : bytes) : bytes := rev (trim_with ws_suffix_rest (length s) (rev s)).
Definition trim (s : bytes) : bytes := trim_end (trim_start s).

(** Visible ASCII is not trimmed. *)
Definition visible (b : byte) : bool := in_range b 0x21 0x7E.

Lemma ws_prefix_rest_visible b s : visible b = true -> ws_prefix_rest (b :: s) = None.
Proof. intros Hb. destruct b; (discriminate Hb || (destruct s as [|? [|? ?]]; reflexivity)). Qed.

Lemma ws_suffix_rest_visible b s : visible b = true -> ws_suffix_rest (b :: s) = None.
Proof.
  intros Hb. unfold ws_suffix_rest.
  assert (in_range b 0x09 0x0D || in_range b 0x20 0x20 = false) as -> by (by destruct b).
  destruct s as [|b1 [|b2 s]]; [done|..];
    assert (in_range b 0x85 0x85 || in_range b 0xA0 0xA0 = false) as -> by (by destruct b);
    rewrite andb_false_r; [done|].
  rewrite bool_decide_eq_false_2; [done|]. unfold ws_prefix_rest.
  assert (in_range b 0x80 0x80 = false /\ in_range b 0x80 0x8A = false /\
          in_range b 0xA8 0xA9 = false /\ in_range b 0xAF 0xAF = false /\
          in_range b 0x9F 0x9F = false) as (-> & -> & -> & -> & ->) by (by destruct b).
  rewrite !andb_false_r. cbn [orb]. repeat case_match; congruence.
Qed.

Lemma trim_with_stuck step fuel s : step s = None -> trim_with step fuel s = s.
Proof. intros H. destruct fuel; cbn; [done|]. by rewrite H. Qed.

Lemma trim_visible s : Forall (fun b => visible b = true) s -> trim s = s.
Proof.
  intros Hs. unfold trim, trim_start, trim_end.
  rewrite (trim_with_stuck ws_prefix_rest).
  2: { destruct Hs; [done|]. by apply ws_prefix_rest_visible. }
  rewrite trim_with_stuck; [apply rev_involutive|].
  apply Forall_rev in Hs. destruct (rev s) as [|b r]; [done|].
  inversion Hs; subst. by apply ws_suffix_rest_visible.
Qed.

(** ** Decimal numbers ([ToString] and [FromStr] of the integer types) *)

Definition digit (d : Z) : byte := byte_of_Z (48 + d).

Definition digit_val (b : byte) : option Z :=
  if is_ascii_digit b then Some (Z_of_byte b - 48) else None.

Fixpoint dec_digits (fuel : nat) (z : Z) (acc : bytes) : bytes :=
  match fuel with
  | O => acc
  | S fuel =>
      let acc' := digit (z mod 10) :: acc in
      if z <? 10 then acc' else dec_digits fuel (z / 10) acc'
  end.

Definition dec_fuel (z : Z) : nat := S (Z.to_nat (Z.log2 z)).

(** Decimal text of an unsigned integer. *)
Definition dec (z : Z) : bytes := dec_digits (dec_fuel z) z [].

(** Decimal text of a signed integer. *)
Definition dec_signed (z : Z) : bytes :=
  if z <? 0 then x2d :: dec (- z) else dec z.

Fixpoint digits_value (acc : Z) (s : bytes) : option Z :=
  match s with
  | [] => Some acc
  | b :: s => match digit_val b with
              | None => None
              | Some d => digits_value (10 * acc + d) s
              end
  end.

Definition parse_digits (s : bytes) : option Z :=
  match s with [] => None | _ => digits_value 0 s end.

(** [str::parse] for an unsigned type with maximum [max]: an optional [+]. *)
Definition parse_uint (max : Z) (s : bytes) : option Z :=
  let s := match s with b :: r => if byte_eqb b x2b then r else s | [] => s end in
  match parse_digits s with
  | Some v => if v <=? max then Some v else None
  | None => None
  end.

(** [str::parse::<i32>]: an optional sign. *)
Definition parse_i32 (s : bytes) : option Z :=
  match s with
  | b :: r =>
      if byte_eqb b x2d
      then match parse_digits r with
           | Some v => if v <=? 2 ^ 31 then Some (- v) else None
           | None => None
           end
      else parse_uint (2 ^ 31 - 1) s
  | [] => None
  end.

Lemma digit_val_digit d : 0 <= d < 10 -> digit_val (digit d) = Some d.
Proof.
  intros. unfold digit_val, is_ascii_digit, in_range, digit.
  rewrite Z_of_byte_small by lia.
  destruct (48 <=? 48 + d) eqn:E1, (48 + d <=? 57) eqn:E2; simpl; to_props; try lia.
  f_equal. lia.
Qed.

Lemma digits_value_dec_digits fuel z acc :
  0 <= z < 10 ^ Z.of_nat fuel ->
  digits_value 0 (dec_digits fuel z acc) = digits_value z acc.
Proof.
  revert z acc. induction fuel as [|fuel IH]; intros z acc Hz.
  { change (10 ^ Z.of_nat 0) with 1 in Hz. by replace z with 0 by lia. }
  rewrite Nat2Z.inj_succ, Z.pow_succ_r in Hz by lia. cbn [dec_digits].
  assert (0 <= z mod 10 < 10) by (apply Z.mod_pos_bound; lia).
  destruct (z <? 10) eqn:E; to_props.
  - cbn [digits_value]. rewrite digit_val_digit, Z.mod_small by lia. f_equal.
  - rewrite IH by (split; [apply Z.div_pos; lia | apply Z.div_lt_upper_bound; lia]).
    cbn [digits_value]. rewrite digit_val_digit by lia.
    f_equal. pose proof (Z.div_mod z 10). lia.
Qed.

Lemma dec_fuel_enough z : 0 <= z -> z < 10 ^ Z.of_nat (dec_fuel z).
Proof.
  intros Hz. unfold dec_fuel. destruct (decide (z = 0)) as [->|]; [done|].
  rewrite Nat2Z.inj_succ, Z2Nat.id by apply Z.log2_nonneg.
  pose proof (Z.log2_spec z ltac:(lia)) as [_ H].
  pose proof (Z.log2_nonneg z).
  eapply Z.lt_le_trans; [exact H|]. apply Z.pow_le_mono_l. lia.
Qed.

Lemma dec_digits_not_nil fuel z acc : dec_digits (S fuel) z acc <> [].
Proof.
  revert z acc. induction fuel as [|fuel IH]; intros z acc; cbn [dec_digits];
    destruct (z <? 10); try done; apply (IH (z / 10)).
Qed.

Lemma dec_not_nil z : dec z <> [].
Proof. apply dec_digits_not_nil. Qed.

Lemma dec_digits_all fuel z acc :
  0 <= z -> Forall (fun b => is_ascii_digit b = true) acc ->
  Forall (fun b => is_ascii_digit b = true) (dec_digits fuel z acc).
Proof.
  revert z acc. induction fuel as [|fuel IH]; intros z acc Hz Hacc; [done|].
  cbn [dec_digits].
  assert (Hd : is_ascii_digit (digit (z mod 10)) = true).
  { pose proof (Z.mod_pos_bound z 10 ltac:(lia)).
    pose proof (digit_val_digit (z mod 10) ltac:(lia)) as H1.
    unfold digit_val in H1. by destruct (is_ascii_digit _). }
  destruct (z <? 10); [by constructor|].
  apply IH; [apply Z.div_pos; lia|by constructor].
Qed.

Lemma dec_all_digits z : 0 <= z -> Forall (fun b => is_ascii_digit b = true) (dec z).
Proof. intros. by apply dec_digits_all. Qed.

Lemma digit_not_sign b : is_ascii_digit b = true -> b <> x2b /\ b <> x2d /\ b <> space.
Proof. intros H. repeat split; intros ->; done. Qed.

Lemma parse_digits_dec z : 0 <= z -> parse_digits (dec z) = Some z.
Proof.
  intros Hz. unfold parse_digits. pose proof (dec_not_nil z).
  destruct (dec z) eqn:E; [done|]. rewrite <- E. unfold dec.
  rewrite digits_value_dec_digits; [done|]. split; [done|by apply dec_fuel_enough].
Qed.

Lemma parse_uint_dec max z : 0 <= z <= max -> parse_uint max (dec z) = Some z.
Proof.
  intros Hz. unfold parse_uint.
  pose proof (dec_not_nil z) as Hne. pose proof (dec_all_digits z ltac:(lia)) as Hd.
  pose proof (parse_digits_dec z ltac:(lia)) as Hp.
  destruct (dec z) as [|b r]; [done|]. inversion Hd as [|? ? Hb]; subst.
  destruct (byte_eqb b x2b) eqn:E.
  { apply byte_eqb_eq in E as ->. done. }
  rewrite Hp. destruct (z <=? max) eqn:E'; [done|]. to_props; lia.
Qed.

Lemma parse_i32_dec_signed z : is_i32 z -> parse_i32 (dec_signed z) = Some z.
Proof.
  unfold is_i32. intros Hz. unfold dec_signed. destruct (z <? 0) eqn:E; to_props.
  - unfold parse_i32. rewrite byte_eqb_refl, parse_digits_dec by lia.
    destruct (- z <=? 2 ^ 31) eqn:E'; to_props; [f_equal; lia|lia].
  - pose proof (dec_not_nil z). pose proof (dec_all_digits z ltac:(lia)) as Hd.
    pose proof (parse_uint_dec (2 ^ 31 - 1) z ltac:(lia)) as Hp.
    unfold parse_i32. destruct (dec z) as [|b r]; [done|].
    inversion Hd as [|? ? Hb]; subst.
    destruct (byte_eqb b x2d) eqn:E'; [apply byte_eqb_eq in E' as ->; done|done].
Qed.

Lemma digits_value_nonneg s acc v : 0 <= acc -> digits_value acc s = Some v -> 0 <= v.
Proof.
  revert acc. induction s as [|b s IH]; intros acc Hacc; cbn; [by intros [= <-]|].
  unfold digit_val, is_ascii_digit, in_range. destruct (_ && _) eqn:E; [|done].
  to_props. apply IH. lia.
Qed.

Lemma parse_digits_nonneg s v : parse_digits s = Some v -> 0 <= v.
Proof. destruct s as [|b s]; [done|]. by apply digits_value_nonneg. Qed.

Lemma digit_ascii b : is_ascii_digit b = true -> (Z_of_byte b <? 0x80) = true.
Proof. unfold is_ascii_digit, in_range. intros. to_props. apply Z.ltb_lt. lia. Qed.

Lemma dec_ascii z : 0 <= z -> is_ascii (dec z) = true.
Proof.
  intros Hz. unfold is_ascii. apply forallb_forall. intros b Hb.
  apply digit_ascii. pose proof (dec_all_digits z Hz) as Hd.
  rewrite List.Forall_forall in Hd. by apply Hd.
Qed.

Example dec_sample : dec 18446744073709551615 = str "18446744073709551615".
Proof. vm_compute. reflexivity. Qed.

Example trim_sample : trim (str " 	42 ") = str "42".
Proof. vm_compute. reflexivity. Qed.
