(* ===== verification/Errors.v ===== *)
(** * Errors: protocol errors, signaling error codes and protocol constants

    [error.rs] and [protocol/constants.rs] of the [nethernet] crate. *)
From S2P Require Import Prelude Text.

(** ** [constants.rs] *)

Definition LAN_DISCOVERY_PORT : Z := 7551.
Definition MAX_DATAGRAM_SIZE : Z := 65535.
Definition ID_REQUEST_PACKET : Z := 0.
Definition ID_RESPONSE_PACKET : Z := 1.
Definition ID_MESSAGE_PACKET : Z := 2.
Definition MAX_MESSAGE_SIZE : Z := 10000.
Definition MAX_BYTES : Z := 65535.
Definition SCTP_MAX_MESSAGE_SIZE : Z := 65536.
Definition LOCAL_SCTP_MAX_MESSAGE_SIZE : Z := 262144.
Definition DEFAULT_MAX_PENDING : Z := 64.
Definition DEFAULT_MAX_PENDING_PER_NETWORK_ID : Z := 4.

(** ** [ProtocolError]

    Error texts are kept up to the [Display] text of a foreign error, which is
    left out. *)
Inductive IoErrorKind := UnexpectedEof.

Inductive ProtocolError :=
| Io (kind : IoErrorKind)
| MessageParse (message : bytes)
| MessageSizeExceeded (size : Z)
| Crypto (message : bytes)
| Other (message : bytes).

(** ** [SignalErrorCode] *)

Inductive SignalErrorCode :=
| NoError
| DestinationNotLoggedIn
| NegotiationTimeout
| WrongTransportVersion
| FailedToCreatePeerConnection
| Ice
| ConnectRequest
| ConnectResponse
| CandidateAdd
| InactivityTimeout
| FailedToCreateOffer
| FailedToCreateAnswer
| FailedToSetLocalDescription
| FailedToSetRemoteDescription
| NegotiationTimeoutWaitingForResponse
| NegotiationTimeoutWaitingForAccept
| IncomingConnectionIgnored
| SignalingParsingFailure
| SignalingUnknownError
| SignalingUnicastMessageDeliveryFailed
| SignalingBroadcastDeliveryFailed
| SignalingMessageDeliveryFailed
| SignalingTurnAuthFailed
| SignalingFallbackToBestEffortDelivery
| NoSignalingChannel
| NotLoggedIn
| SignalingFailedToSend.

#[global] Instance SignalErrorCode_eq_dec : EqDecision SignalErrorCode.
Proof. solve_decision. Defined.

(** [code as u32]. *)
Definition SignalErrorCode_as_u32 (code : SignalErrorCode) : Z :=
  match code with
  | NoError => 0
  | DestinationNotLoggedIn => 1
  | NegotiationTimeout => 2
  | WrongTransportVersion => 3
  | FailedToCreatePeerConnection => 4
  | Ice => 5
  | ConnectRequest => 6
  | ConnectResponse => 7
  | CandidateAdd => 8
  | InactivityTimeout => 9
  | FailedToCreateOffer => 10
  | FailedToCreateAnswer => 11
  | FailedToSetLocalDescription => 12
  | FailedToSetRemoteDescription => 13
  | NegotiationTimeoutWaitingForResponse => 14
  | NegotiationTimeoutWaitingForAccept => 15
  | IncomingConnectionIgnored => 16
  | SignalingParsingFailure => 17
  | SignalingUnknownError => 18
  | SignalingUnicastMessageDeliveryFailed => 19
  | SignalingBroadcastDeliveryFailed => 20
  | SignalingMessageDeliveryFailed => 21
  | SignalingTurnAuthFailed => 22
  | SignalingFallbackToBestEffortDelivery => 23
  | NoSignalingChannel => 24
  | NotLoggedIn => 25
  | SignalingFailedToSend => 26
  end.

(** [impl From<u32> for SignalErrorCode]. *)
Definition SignalErrorCode_from_u32 (code : Z) : SignalErrorCode :=
  match code with
  | 0 => NoError
  | 1 => DestinationNotLoggedIn
  | 2 => NegotiationTimeout
  | 3 => WrongTransportVersion
  | 4 => FailedToCreatePeerConnection
  | 5 => Ice
  | 6 => ConnectRequest
  | 7 => ConnectResponse
  | 8 => CandidateAdd
  | 9 => InactivityTimeout
  | 10 => FailedToCreateOffer
  | 11 => FailedToCreateAnswer
  | 12 => FailedToSetLocalDescription
  | 13 => FailedToSetRemoteDescription
  | 14 => NegotiationTimeoutWaitingForResponse
  | 15 => NegotiationTimeoutWaitingForAccept
  | 16 => IncomingConnectionIgnored
  | 17 => SignalingParsingFailure
  | 18 => SignalingUnknownError
  | 19 => SignalingUnicastMessageDeliveryFailed
  | 20 => SignalingBroadcastDeliveryFailed
  | 21 => SignalingMessageDeliveryFailed
  | 22 => SignalingTurnAuthFailed
  | 23 => SignalingFallbackToBestEffortDelivery
  | 24 => NoSignalingChannel
  | 25 => NotLoggedIn
  | 26 => SignalingFailedToSend
  | _ => SignalingUnknownError
  end.

(** Every code survives the wire, and an unrecognised number reads as
    [SignalingUnknownError]. *)
Lemma from_u32_as_u32 code :
  SignalErrorCode_from_u32 (SignalErrorCode_as_u32 code) = code.
Proof. by destruct code. Qed.

Lemma as_u32_range code : 0 <= SignalErrorCode_as_u32 code <= 26.
Proof. destruct code; simpl; lia. Qed.

Lemma from_u32_unknown n :
  26 < n -> SignalErrorCode_from_u32 n = SignalingUnknownError.
Proof.
  intros Hn. destruct n as [|p|p]; [lia| |lia].
  do 5 (destruct p as [p|p|]; try reflexivity; try lia).
Qed.
