(* ===== verification/Codec.v ===== *)
(** * Codec: length-prefixed primitives and varints ([protocol/codec.rs])

    Writers return the bytes they append; readers consume a prefix of the
    cursor.  The little-endian integers of the [byteorder] crate are
    [from_le_bytes]/[to_le_bytes] over an exactly filled buffer. *)
From S2P Require Import Prelude Text Errors.

(** ** Primitive readers and writers *)

Definition eof {A} : Res ProtocolError A := Err (Io UnexpectedEof).

(** [Read::read_exact]. *)
Definition read_exact (n : nat) : reader ProtocolError bytes := fun bs =>
  if (length bs <? n)%nat then eof else Ok (take n bs, drop n bs).

Definition read_le (n : nat) : reader ProtocolError Z :=
  bs ← read_exact n; mret (le_value bs).

Definition read_u8 : reader ProtocolError Z := read_le 1.
Definition read_u16 : reader ProtocolError Z := read_le 2.
Definition read_u32 : reader ProtocolError Z := read_le 4.
Definition read_u64 : reader ProtocolError Z := read_le 8.
Definition read_i32 : reader ProtocolError Z := v ← read_le 4; mret (i32_wrap v).

Definition write_u8 (v : Z) : bytes := le_bytes 1 v.
Definition write_u16 (v : Z) : bytes := le_bytes 2 v.
Definition write_u32 (v : Z) : bytes := le_bytes 4 v.
Definition write_u64 (v : Z) : bytes := le_bytes 8 v.

(** Successive writes to one writer. *)
Fixpoint wseq (ws : list (Res ProtocolError bytes)) : Res ProtocolError bytes :=
  match ws with
  | [] => Ok []
  | w :: ws => a ← w; b ← wseq ws; mret (a ++ b)
  end.

(** ** Length-prefixed bytes *)

Definition read_len_bytes (len : Z) : reader ProtocolError bytes := fun bs =>
  if len >? MAX_BYTES then Err (MessageSizeExceeded len)
  else
    let buf := take (Z.to_nat len) bs in
    if blen buf <? len then eof
    else Ok (buf, drop (Z.to_nat len) bs).

Definition read_bytes_u8 : reader ProtocolError bytes :=
  len ← read_u8; read_len_bytes len.

Definition write_bytes_u8 (data : bytes) : Res ProtocolError bytes :=
  match u8_try_from (blen data) with
  | None => Err (Other (str "data length " ++ dec (blen data)
                        ++ str " exceeds the 255-byte maximum for a u8-prefixed field"))
  | Some len => wseq [Ok (write_u8 len); Ok data]
  end.

Definition read_bytes_u32 : reader ProtocolError bytes :=
  len ← read_u32; read_len_bytes len.

Definition write_bytes_u32 (data : bytes) : Res ProtocolError bytes :=
  if blen data >? MAX_BYTES
  then Err (Other (str "data length " ++ dec (blen data)
                   ++ str " exceeds maximum allowed " ++ dec MAX_BYTES))
  else wseq [Ok (write_u32 (u32_wrap (blen data))); Ok data].

(** ** Varints *)

(** The body of [for shift in (0..35).step_by(7)]. *)
Fixpoint read_varuint32_loop (shifts : list Z) (value : Z) : reader ProtocolError Z :=
  match shifts with
  | [] => rlift (Err (Other (str "varuint32 did not terminate after 5 bytes")))
  | shift :: shifts =>
      byte ← read_u8;
      let value := Z.lor value (u32_wrap (Z.shiftl (Z.land byte 0x7f) shift)) in
      if Z.land byte 0x80 =? 0 then mret value
      else read_varuint32_loop shifts value
  end.

Definition read_varuint32 : reader ProtocolError Z :=
  read_varuint32_loop [0; 7; 14; 21; 28] 0.

(** The [while value >= 0x80] loop; a [u32] needs at most four turns. *)
Fixpoint write_varuint32_loop (fuel : nat) (value : Z) : bytes :=
  match fuel with
  | O => [byte_of_Z value]
  | S fuel =>
      if value >=? 0x80
      then byte_of_Z (Z.lor (value mod 256) 0x80)
           :: write_varuint32_loop fuel (Z.shiftr value 7)
      else [byte_of_Z value]
  end.

Definition write_varuint32 (value : Z) : Res ProtocolError bytes :=
  Ok (write_varuint32_loop 4 value).

Definition read_varint32 : reader ProtocolError Z :=
  raw ← read_varuint32;
  mret (Z.lxor (i32_wrap (Z.shiftr raw 1)) (- Z.land raw 1)).

Definition write_varint32 (value : Z) : Res ProtocolError bytes :=
  write_varuint32
    (u32_wrap (Z.lxor (i32_wrap (Z.shiftl value 1)) (Z.shiftr value 31))).

Definition read_bytes_varuint : reader ProtocolError bytes :=
  len ← read_varuint32; read_len_bytes len.

Definition write_bytes_varuint (data : bytes) : Res ProtocolError bytes :=
  wseq [write_varuint32 (u32_wrap (blen data)); Ok data].

(** ** The [NetherCodec] trait and the law its implementations keep *)

Class NetherCodec (A : Type) := {
  serialize : A -> Res ProtocolError bytes;
  deserialize : reader ProtocolError A;
  size_hint : A -> Z;
}.

(** What a client of a codec may rely on: a well-formed value that serializes
    reads back as itself, consuming exactly the bytes that were written. *)
Class LawfulCodec (A : Type) `{NetherCodec A} (wf : A -> Prop) := {
  deserialize_serialize a bs tail :
    wf a -> serialize a = Ok bs -> deserialize (bs ++ tail) = Ok (a, tail);
}.

(** ** Reader laws *)

Section reader_laws.
Context {A B : Type}.

Lemma reader_bind_Ok (m : reader ProtocolError A) (f : A -> reader ProtocolError B) bs a bs' :
  m bs = Ok (a, bs') -> (m ≫= f) bs = f a bs'.
Proof. intros H. unfold mbind, reader_bind. by rewrite H. Qed.

Lemma reader_bind_inv (m : reader ProtocolError A) (f : A -> reader ProtocolError B) bs r :
  (m ≫= f) bs = Ok r -> exists a bs', m bs = Ok (a, bs') /\ f a bs' = Ok r.
Proof.
  unfold mbind, reader_bind. destruct (m bs) as [[a bs']|e|]; [eauto|done..].
Qed.

Lemma reader_bind_no_panic (m : reader ProtocolError A) (f : A -> reader ProtocolError B) :
  (forall bs, no_panic (m bs)) -> (forall a bs, no_panic (f a bs)) ->
  forall bs, no_panic ((m ≫= f) bs).
Proof.
  intros Hm Hf bs. unfold mbind, reader_bind, no_panic.
  specialize (Hm bs). unfold no_panic in Hm.
  destruct (m bs) as [[a bs']|e|]; [apply Hf|done|done].
Qed.
End reader_laws.

Lemma reader_ret_no_panic {A} (a : A) bs :
  no_panic ((mret a : reader ProtocolError A) bs).
Proof. done. Qed.

Lemma rlift_no_panic {A} (m : Res ProtocolError A) bs : no_panic m -> no_panic (rlift m bs).
Proof. unfold no_panic, rlift. by destruct m. Qed.

Create HintDb total discriminated.
#[export] Hint Resolve reader_ret_no_panic : total.

(** Proves that a reader never panics by walking its binds. *)
Ltac no_panic_reader :=
  repeat first
    [ progress eauto with total
    | apply reader_bind_no_panic; [intros ?|intros ? ?]
    | apply rlift_no_panic
    | progress cbn beta
    | match goal with |- no_panic (?f _) => progress unfold f end
    | split_match ].

Lemma read_exact_app n bs tail :
  length bs = n -> read_exact n (bs ++ tail) = Ok (bs, tail).
Proof.
  intros <-. unfold read_exact. rewrite length_app.
  destruct (Nat.ltb_spec (length bs + length tail) (length bs)); [lia|].
  by rewrite take_app_length, drop_app_length.
Qed.

Lemma read_exact_no_panic n bs : no_panic (read_exact n bs).
Proof. unfold read_exact, no_panic. by destruct (_ <? _)%nat. Qed.
#[export] Hint Resolve read_exact_no_panic : total.

Lemma read_le_no_panic n bs : no_panic (read_le n bs).
Proof. unfold read_le. no_panic_reader. Qed.
#[export] Hint Resolve read_le_no_panic : total.

Lemma read_le_bytes n v tail :
  0 <= v < 256 ^ Z.of_nat n -> read_le n (le_bytes n v ++ tail) = Ok (v, tail).
Proof.
  intros Hv. unfold read_le.
  erewrite reader_bind_Ok by (apply read_exact_app, length_le_bytes).
  cbn. by rewrite le_value_bytes_small.
Qed.

Lemma read_u8_write v tail : is_u8 v -> read_u8 (write_u8 v ++ tail) = Ok (v, tail).
Proof. intros. by apply read_le_bytes. Qed.

Lemma read_u16_write v tail : is_u16 v -> read_u16 (write_u16 v ++ tail) = Ok (v, tail).
Proof. intros. by apply read_le_bytes. Qed.

Lemma read_u32_write v tail : is_u32 v -> read_u32 (write_u32 v ++ tail) = Ok (v, tail).
Proof. intros. by apply read_le_bytes. Qed.

Lemma read_u64_write v tail : is_u64 v -> read_u64 (write_u64 v ++ tail) = Ok (v, tail).
Proof. intros. by apply read_le_bytes. Qed.

Lemma read_u8_cons b tail : read_u8 (b :: tail) = Ok (Z_of_byte b, tail).
Proof.
  replace (b :: tail) with (write_u8 (Z_of_byte b) ++ tail).
  - apply read_u8_write, Z_of_byte_range.
  - unfold write_u8, le_bytes. by rewrite byte_of_Z_of_byte.
Qed.

Lemma read_len_bytes_app data tail :
  blen data <= MAX_BYTES -> read_len_bytes (blen data) (data ++ tail) = Ok (data, tail).
Proof.
  intros H. unfold read_len_bytes.
  assert (Hn : Z.to_nat (blen data) = length data) by (unfold blen; lia).
  destruct (blen data >? MAX_BYTES) eqn:E; [to_props; lia|].
  rewrite Hn, take_app_length, drop_app_length.
  by destruct (blen data <? blen data) eqn:E'; [to_props; lia|].
Qed.

Lemma read_len_bytes_no_panic len bs : no_panic (read_len_bytes len bs).
Proof. unfold read_len_bytes, no_panic, eof. by repeat split_match. Qed.
#[export] Hint Resolve read_len_bytes_no_panic : total.

(** No accepted field is longer than [MAX_BYTES], whatever its prefix says. *)
Lemma read_len_bytes_bound len bs data rest :
  read_len_bytes len bs = Ok (data, rest) ->
  blen data = Z.max 0 len /\ blen data <= MAX_BYTES /\ bs = data ++ rest.
Proof.
  unfold read_len_bytes. destruct (len >? MAX_BYTES) eqn:E; [done|].
  destruct (blen _ <? len) eqn:E'; [done|]. intros [= <- <-]. to_props.
  rewrite take_drop. assert (blen (take (Z.to_nat len) bs) <= Z.max 0 len).
  { unfold blen. rewrite length_take. lia. }
  pose proof (blen_nonneg (take (Z.to_nat len) bs)).
  unfold MAX_BYTES in *. repeat split; lia.
Qed.

Lemma wseq_cons w ws bs :
  wseq (w :: ws) = Ok bs ->
  exists a b, w = Ok a /\ wseq ws = Ok b /\ bs = a ++ b.
Proof.
  cbn. destruct w as [a|e|]; cbn; [|done..].
  destruct (wseq ws) as [b|e|]; cbn; [|done..]. intros [= <-]. eauto.
Qed.

Lemma wseq_nil bs : wseq [] = Ok bs -> bs = [].
Proof. by intros [= <-]. Qed.

(** Inverts a successful sequence of writes. *)
Ltac invert_wseq :=
  repeat match goal with
  | H : wseq (_ :: _) = Ok _ |- _ =>
      let a := fresh "w" in let b := fresh "ws" in
      apply wseq_cons in H as (a & b & ? & H & ->)
  | H : wseq [] = Ok _ |- _ => apply wseq_nil in H as ->
  | H : Ok _ = Ok _ |- _ => injection H as <-
  end.

(** ** Varint correctness *)

Lemma high_bit_set b :
  let c := byte_of_Z (Z.lor (Z_of_byte b) 0x80) in
  Z.land (Z_of_byte c) 0x7f = Z_of_byte b mod 128 /\ Z.land (Z_of_byte c) 0x80 = 128.
Proof. by destruct b. Qed.

Lemma low_byte b :
  Z_of_byte b < 128 -> Z.land (Z_of_byte b) 0x7f = Z_of_byte b /\ Z.land (Z_of_byte b) 0x80 = 0.
Proof. destruct b; vm_compute; auto; discriminate. Qed.

(** The shifts left after [k] turns of the reading loop. *)
Fixpoint shifts_from (n : nat) (k : Z) : list Z :=
  match n with O => [] | S n => 7 * k :: shifts_from n (k + 1) end.

Lemma read_varuint32_step shift shifts value b bs :
  read_varuint32_loop (shift :: shifts) value (b :: bs) =
  (let value := Z.lor value (u32_wrap (Z.shiftl (Z.land (Z_of_byte b) 0x7f) shift)) in
   if Z.land (Z_of_byte b) 0x80 =? 0 then Ok (value, bs)
   else read_varuint32_loop shifts value bs).
Proof.
  cbn [read_varuint32_loop]. erewrite reader_bind_Ok by apply read_u8_cons.
  cbn zeta. by destruct (_ =? 0).
Qed.

(** One group of seven bits lands just above the bits read so far. *)
Lemma varuint_group acc d k :
  0 <= k -> 0 <= acc < 2 ^ (7 * k) -> 0 <= d -> d * 2 ^ (7 * k) < 2 ^ 32 ->
  Z.lor acc (u32_wrap (Z.shiftl d (7 * k))) = acc + d * 2 ^ (7 * k).
Proof.
  intros Hk Hacc Hd Hlt. rewrite Z.shiftl_mul_pow2 by lia.
  rewrite u32_wrap_id by (unfold is_u32; nia).
  pose proof (lor_disjoint_add acc d (7 * k) ltac:(lia) Hacc) as H.
  rewrite Z.shiftl_mul_pow2 in H by lia. lia.
Qed.

Lemma read_write_varuint32_loop n k acc v tail :
  0 <= k -> 0 <= acc < 2 ^ (7 * k) -> 0 <= v < 2 ^ (7 * Z.of_nat (S n)) ->
  v * 2 ^ (7 * k) < 2 ^ 32 ->
  read_varuint32_loop (shifts_from (S n) k) acc (write_varuint32_loop n v ++ tail)
  = Ok (acc + v * 2 ^ (7 * k), tail).
Proof.
  revert k acc v. induction n as [|n IH]; intros k acc v Hk Hacc Hv Hlt.
  - change (7 * Z.of_nat 1) with 7 in Hv. change (2 ^ 7) with 128 in Hv.
    change (write_varuint32_loop 0 v ++ tail) with (byte_of_Z v :: tail).
    cbn [shifts_from]. rewrite read_varuint32_step. cbn zeta.
    pose proof (Z_of_byte_small v ltac:(lia)) as Hb.
    destruct (low_byte (byte_of_Z v) ltac:(lia)) as [-> ->]. rewrite Hb.
    rewrite varuint_group by lia. done.
  - cbn [write_varuint32_loop]. rewrite Z.geb_leb.
    destruct (128 <=? v) eqn:E; to_props; cbn [app shifts_from];
      rewrite read_varuint32_step; cbn zeta.
    + rewrite <- (Z_of_byte_of_Z v).
      destruct (high_bit_set (byte_of_Z v)) as [-> ->].
      replace (Z_of_byte (byte_of_Z v) mod 128) with (v mod 128).
      2: { rewrite Z_of_byte_of_Z. symmetry. apply Z.mod_mod_divide. by exists 2. }
      change (128 =? 0) with false. cbn iota.
      pose proof (Z.mod_pos_bound v 128 ltac:(lia)).
      pose proof (Z.div_mod v 128 ltac:(lia)) as Hdiv.
      assert (Hpow : 2 ^ (7 * (k + 1)) = 128 * 2 ^ (7 * k)).
      { replace (7 * (k + 1)) with (7 + 7 * k) by lia. by rewrite Z.pow_add_r by lia. }
      assert (0 < 2 ^ (7 * k)) by (apply Z.pow_pos_nonneg; lia).
      assert (0 <= v / 128) by (apply Z.div_pos; lia).
      rewrite varuint_group by nia.
      change (7 * (k + 1) :: shifts_from n (k + 1 + 1)) with (shifts_from (S n) (k + 1)).
      rewrite Z.shiftr_div_pow2 by lia. change (2 ^ 7) with 128.
      rewrite IH; [f_equal; f_equal; nia|lia|nia| |nia].
      split; [done|]. apply Z.div_lt_upper_bound; [lia|].
      replace (7 * Z.of_nat (S (S n))) with (7 + 7 * Z.of_nat (S n)) in Hv by lia.
      rewrite Z.pow_add_r in Hv by lia. change (2 ^ 7) with 128 in Hv. lia.
    + pose proof (Z_of_byte_small v ltac:(lia)) as Hb.
      destruct (low_byte (byte_of_Z v) ltac:(lia)) as [-> ->]. rewrite Hb.
      rewrite varuint_group by lia. done.
Qed.

Lemma read_varuint32_write v bs tail :
  is_u32 v -> write_varuint32 v = Ok bs -> read_varuint32 (bs ++ tail) = Ok (v, tail).
Proof.
  unfold is_u32, write_varuint32. intros Hv Hw.
  assert (bs = write_varuint32_loop 4 v) as -> by congruence.
  change (read_varuint32 (write_varuint32_loop 4 v ++ tail))
    with (read_varuint32_loop (shifts_from 5 0) 0 (write_varuint32_loop 4 v ++ tail)).
  rewrite (read_write_varuint32_loop 4).
  - f_equal. f_equal. change (2 ^ (7 * 0)) with 1. lia.
  - lia.
  - done.
  - change (7 * Z.of_nat 5) with 35. lia.
  - change (2 ^ (7 * 0)) with 1. lia.
Qed.

(** The zigzag map of [write_varint32] and its inverse in [read_varint32]. *)
Definition zigzag (v : Z) : Z :=
  u32_wrap (Z.lxor (i32_wrap (Z.shiftl v 1)) (Z.shiftr v 31)).
Definition unzigzag (raw : Z) : Z :=
  Z.lxor (i32_wrap (Z.shiftr raw 1)) (- Z.land raw 1).

Lemma zigzag_spec v : is_i32 v -> zigzag v = if v <? 0 then - 2 * v - 1 else 2 * v.
Proof.
  unfold is_i32, zigzag. intros Hv.
  rewrite Z.shiftl_mul_pow2, Z.shiftr_div_pow2 by lia. change (2 ^ 1) with 2.
  destruct (v <? 0) eqn:E; to_props.
  - replace (v / 2 ^ 31) with (-1) by (apply (Z.div_unique _ _ _ (v + 2 ^ 31)); lia).
    rewrite Z.lxor_m1_r. unfold Z.lnot, Z.pred, u32_wrap, i32_wrap.
    rewrite (Z.mod_eq (v * 2 + 2 ^ 31)) by lia. set (k := (v * 2 + 2 ^ 31) / 2 ^ 32).
    symmetry. apply (Z.mod_unique _ _ k); lia.
  - rewrite Z.div_small, Z.lxor_0_r, u32_wrap_i32_wrap by lia.
    unfold u32_wrap. rewrite Z.mod_small; lia.
Qed.

Lemma land_1 z : Z.land z 1 = z mod 2.
Proof. change 1 with (Z.ones 1). by rewrite Z.land_ones. Qed.

Lemma unzigzag_zigzag v : is_i32 v -> unzigzag (zigzag v) = v.
Proof.
  intros Hv. rewrite zigzag_spec by done. unfold is_i32 in Hv. unfold unzigzag.
  rewrite land_1, Z.shiftr_div_pow2 by lia. change (2 ^ 1) with 2.
  destruct (v <? 0) eqn:E; to_props.
  - replace ((- 2 * v - 1) / 2) with (- v - 1) by (apply (Z.div_unique _ _ _ 1); lia).
    replace ((- 2 * v - 1) mod 2) with 1 by (apply (Z.mod_unique _ _ (- v - 1)); lia).
    rewrite i32_wrap_id by (unfold is_i32; lia).
    rewrite Z.lxor_m1_r. unfold Z.lnot. lia.
  - replace (2 * v / 2) with v by (apply (Z.div_unique _ _ _ 0); lia).
    replace ((2 * v) mod 2) with 0 by (apply (Z.mod_unique _ _ v); lia).
    rewrite i32_wrap_id by (unfold is_i32; lia). apply Z.lxor_0_r.
Qed.

Lemma u32_wrap_range z : is_u32 (u32_wrap z).
Proof. apply Z.mod_pos_bound. lia. Qed.

Lemma read_varint32_write v bs tail :
  is_i32 v -> write_varint32 v = Ok bs -> read_varint32 (bs ++ tail) = Ok (v, tail).
Proof.
  intros Hv Hw. unfold read_varint32. fold (zigzag v) in Hw.
  erewrite reader_bind_Ok.
  2: { eapply read_varuint32_write; [|exact Hw]. apply u32_wrap_range. }
  change (Ok (unzigzag (zigzag v), tail) = Ok (v, tail) :> Res ProtocolError _).
  by rewrite unzigzag_zigzag.
Qed.

Lemma read_varuint32_no_panic bs : no_panic (read_varuint32 bs).
Proof.
  unfold read_varuint32. generalize [0; 7; 14; 21; 28]. intros shifts.
  generalize 0. revert bs. induction shifts as [|s shifts IH]; intros bs v.
  - done.
  - cbn [read_varuint32_loop]. apply reader_bind_no_panic; [apply read_le_no_panic|].
    intros a bs'. cbn zeta. destruct (_ =? 0); [done|apply IH].
Qed.
#[export] Hint Resolve read_varuint32_no_panic : total.

Lemma read_varint32_no_panic bs : no_panic (read_varint32 bs).
Proof. unfold read_varint32. no_panic_reader. Qed.
#[export] Hint Resolve read_varint32_no_panic : total.

(** A decoded varint is a [u32] whatever the five bytes were: the fifth group
    is truncated, not an overflow. *)
Lemma read_varuint32_range bs v rest :
  read_varuint32 bs = Ok (v, rest) -> is_u32 v.
Proof.
  unfold read_varuint32. assert (H0 : is_u32 0) by (unfold is_u32; lia). revert H0.
  generalize [0; 7; 14; 21; 28]. intros shifts. generalize 0. revert bs.
  induction shifts as [|s shifts IH]; intros bs acc Hacc; [done|].
  cbn [read_varuint32_loop]. intros (a & bs' & _ & H)%reader_bind_inv. revert H. cbn zeta.
  assert (Hv : is_u32 (Z.lor acc (u32_wrap (Z.shiftl (Z.land a 127) s)))).
  { pose proof (u32_wrap_range (Z.shiftl (Z.land a 127) s)) as Hw.
    unfold is_u32 in *. split; [apply Z.lor_nonneg; lia|].
    apply (lor_lt _ _ 32); lia. }
  destruct (_ =? 0); [by intros [= <- _]|by apply IH].
Qed.

Lemma read_le_split n bs v rest :
  read_le n bs = Ok (v, rest) ->
  bs = le_bytes n v ++ rest /\ 0 <= v < 256 ^ Z.of_nat n.
Proof.
  unfold read_le. intros (a & bs' & H1 & H2)%reader_bind_inv. cbn in H2.
  injection H2 as <- <-. unfold read_exact in H1.
  destruct (Nat.ltb_spec (length bs) n); [done|]. injection H1 as <- <-.
  assert (Hn : length (take n bs) = n) by (rewrite length_take; lia).
  rewrite <- Hn at 1. rewrite le_bytes_value. split; [by rewrite take_drop|].
  pose proof (le_value_range (take n bs)) as Hr. unfold blen in Hr. by rewrite Hn in Hr.
Qed.

Lemma read_le_err n bs e : read_le n bs = Err e -> e = Io UnexpectedEof.
Proof.
  unfold read_le, mbind, reader_bind, read_exact.
  destruct (_ <? _)%nat; [by intros [= <-]|done].
Qed.

(** Reading consumes at least one and at most one byte per turn. *)
Lemma read_varuint32_consumes bs v rest :
  read_varuint32 bs = Ok (v, rest) -> exists used, bs = used ++ rest /\ 1 <= blen used <= 5.
Proof.
  unfold read_varuint32. change 5 with (blen [0; 7; 14; 21; 28]).
  generalize [0; 7; 14; 21; 28]. intros shifts. generalize 0. revert bs.
  induction shifts as [|s shifts IH]; intros bs acc; [done|].
  cbn [read_varuint32_loop]. intros (a & bs' & H1 & H2)%reader_bind_inv.
  apply read_le_split in H1 as [-> _]. revert H2. cbn zeta. rewrite blen_cons.
  pose proof (blen_nonneg shifts). destruct (_ =? 0).
  - intros [= _ <-]. exists (le_bytes 1 a). rewrite blen_le_bytes. split; [done|lia].
  - intros Hr. destruct (IH _ _ Hr) as (used & -> & Hu).
    exists (le_bytes 1 a ++ used). rewrite blen_app, blen_le_bytes, <- app_assoc.
    split; [done|lia].
Qed.

(** ** Prefixed fields *)

Lemma read_bytes_u32_write data bs tail :
  write_bytes_u32 data = Ok bs -> read_bytes_u32 (bs ++ tail) = Ok (data, tail).
Proof.
  unfold write_bytes_u32. destruct (blen data >? MAX_BYTES) eqn:E; [done|].
  intros H. invert_wseq. to_props. pose proof (blen_nonneg data).
  unfold MAX_BYTES in *.
  assert (Hu : is_u32 (blen data)) by (unfold is_u32; lia).
  rewrite u32_wrap_id by done. rewrite app_nil_r, <- app_assoc.
  unfold read_bytes_u32. erewrite reader_bind_Ok by (by apply read_u32_write).
  apply read_len_bytes_app. unfold MAX_BYTES. lia.
Qed.

Lemma read_bytes_varuint_write data bs tail :
  blen data <= MAX_BYTES ->
  write_bytes_varuint data = Ok bs -> read_bytes_varuint (bs ++ tail) = Ok (data, tail).
Proof.
  intros Hlen H. unfold write_bytes_varuint in H. invert_wseq.
  pose proof (blen_nonneg data). unfold MAX_BYTES in *.
  assert (Hu : is_u32 (blen data)) by (unfold is_u32; lia).
  rewrite u32_wrap_id in * by done. rewrite app_nil_r, <- app_assoc.
  unfold read_bytes_varuint. erewrite reader_bind_Ok by (by eapply read_varuint32_write).
  apply read_len_bytes_app. unfold MAX_BYTES. lia.
Qed.

Lemma read_bytes_u8_no_panic bs : no_panic (read_bytes_u8 bs).
Proof. unfold read_bytes_u8. no_panic_reader. Qed.

Lemma read_bytes_u32_no_panic bs : no_panic (read_bytes_u32 bs).
Proof. unfold read_bytes_u32. no_panic_reader. Qed.

Lemma read_bytes_varuint_no_panic bs : no_panic (read_bytes_varuint bs).
Proof. unfold read_bytes_varuint. no_panic_reader. Qed.
#[export] Hint Resolve read_bytes_u8_no_panic read_bytes_u32_no_panic
  read_bytes_varuint_no_panic : total.

(** ** Ranges of decoded integers *)

Lemma read_i32_range bs v rest : read_i32 bs = Ok (v, rest) -> is_i32 v.
Proof.
  unfold read_i32. intros (a & bs' & _ & H)%reader_bind_inv. cbn in H.
  injection H as <- _. apply i32_wrap_range.
Qed.

Lemma read_varint32_range bs v rest : read_varint32 bs = Ok (v, rest) -> is_i32 v.
Proof.
  unfold read_varint32. intros (raw & bs' & _ & H)%reader_bind_inv. cbn in H.
  injection H as <- _. rewrite land_1.
  pose proof (i32_wrap_range (Z.shiftr raw 1)) as Hr. revert Hr.
  generalize (i32_wrap (Z.shiftr raw 1)). unfold is_i32. intros z Hz.
  pose proof (Z.mod_pos_bound raw 2 ltac:(lia)).
  assert (raw mod 2 = 0 \/ raw mod 2 = 1) as [-> | ->] by lia.
  - rewrite Z.lxor_0_r. exact Hz.
  - change (- (1)) with (-1). rewrite Z.lxor_m1_r. unfold Z.lnot. lia.
Qed.

Lemma read_bytes_varuint_bound bs data rest :
  read_bytes_varuint bs = Ok (data, rest) -> blen data <= MAX_BYTES.
Proof.
  unfold read_bytes_varuint. intros (len & bs' & _ & H)%reader_bind_inv.
  by apply read_len_bytes_bound in H as (_ & ? & _).
Qed.

Lemma read_bytes_u8_bound bs data rest :
  read_bytes_u8 bs = Ok (data, rest) -> blen data <= MAX_BYTES.
Proof.
  unfold read_bytes_u8. intros (len & bs' & _ & H)%reader_bind_inv.
  by apply read_len_bytes_bound in H as (_ & ? & _).
Qed.

Lemma read_bytes_u32_bound bs data rest :
  read_bytes_u32 bs = Ok (data, rest) -> blen data <= MAX_BYTES.
Proof.
  unfold read_bytes_u32. intros (len & bs' & _ & H)%reader_bind_inv.
  by apply read_len_bytes_bound in H as (_ & ? & _).
Qed.

Lemma rlift_inv {A} (m : Res ProtocolError A) bs a rest :
  rlift m bs = Ok (a, rest) -> m = Ok a /\ rest = bs.
Proof. unfold rlift. destruct m; [|done..]. by intros [= <- <-]. Qed.

(** ** Properties *)

(** Signed varints round trip: every [i32] is written in at most five bytes
    and read back as itself, leaving the bytes that follow untouched. *)
Theorem varint32_roundtrip (v : Z) (tail : bytes) :
  is_i32 v ->
  exists bs, write_varint32 v = Ok bs /\ 1 <= blen bs <= 5 /\
             read_varint32 (bs ++ tail) = Ok (v, tail).
Proof.
  intros Hv. eexists. split; [reflexivity|]. split.
  - fold (zigzag v). generalize (zigzag v). intros z. unfold write_varuint32_loop.
    repeat split_match; unfold blen; cbn [length]; lia.
  - by apply read_varint32_write.
Qed.

Lemma varint32_roundtrip_witness :
  exists bs, write_varint32 (-2147483648) = Ok bs /\ 1 <= blen bs <= 5 /\
             read_varint32 (bs ++ [x07]) = Ok (-2147483648, [x07]).
Proof. apply (varint32_roundtrip (-2147483648) [x07]). unfold is_i32. lia. Defined.

(** Unsigned varints round trip, and reading any bytes at all never panics
    and never yields more than a [u32]: the loop stops after five bytes. *)
Theorem varuint32_total_and_roundtrip (v : Z) (tail input : bytes) :
  is_u32 v ->
  (exists bs, write_varuint32 v = Ok bs /\ read_varuint32 (bs ++ tail) = Ok (v, tail)) /\
  match read_varuint32 input with
  | Ok (w, rest) => is_u32 w /\ exists used, input = used ++ rest /\ 1 <= blen used <= 5
  | Err _ => True
  | Panic => False
  end.
Proof.
  intros Hv. split.
  { eexists. split; [reflexivity|]. by apply read_varuint32_write. }
  pose proof (read_varuint32_no_panic input) as Hp.
  destruct (read_varuint32 input) as [[w rest]|e|] eqn:E; [|done|done].
  split; [by eapply read_varuint32_range|]. by eapply read_varuint32_consumes.
Qed.

Lemma varuint32_total_and_roundtrip_witness :
  exists bs, write_varuint32 4294967295 = Ok bs /\
             read_varuint32 (bs ++ []) = Ok (4294967295, []).
Proof.
  apply (varuint32_total_and_roundtrip 4294967295 [] []). unfold is_u32. lia.
Defined.

(** Every length-prefixed field that is accepted holds at most [MAX_BYTES]
    bytes, exactly as many as its prefix announced, whatever the prefix says;
    a longer announcement is refused before anything is read. *)
Theorem prefixed_field_bounded (input : bytes) :
  match read_bytes_u32 input with
  | Ok (field, rest) =>
      blen field <= MAX_BYTES /\
      input = write_u32 (blen field) ++ field ++ rest
  | Err (MessageSizeExceeded len) => MAX_BYTES < len
  | Err _ => True
  | Panic => False
  end.
Proof.
  pose proof (read_bytes_u32_no_panic input) as Hp.
  unfold read_bytes_u32, mbind, reader_bind in *.
  destruct (read_u32 input) as [[len rest]|e|] eqn:E; [| |done].
  - apply read_le_split in E as (Hin & Hl). 
    destruct (read_len_bytes len rest) as [[field rest']|e|] eqn:E'; [| |done].
    + pose proof (read_len_bytes_bound _ _ _ _ E') as (Hlen & Hb & ->).
      split; [done|]. rewrite Hin. f_equal. f_equal. lia.
    + unfold read_len_bytes in E'. destruct (len >? MAX_BYTES) eqn:E2.
      * injection E' as <-. to_props. lia.
      * destruct (_ <? len); [|done]. by injection E' as <-.
  - apply read_le_err in E as ->. done.
Qed.
