(* ===== verification/Framing.v ===== *)
(** * Framing: segmentation and reassembly of data-channel messages
    ([protocol/message.rs])

    [Message] is the reassembly buffer of the reliable channel.  Subtractions
    on [u8] are checked ([u8_sub] panics on underflow), and the debug assertion
    at the end of [split_into_segments] is kept, so that the theorems below
    also show that neither can fire. *)
From S2P Require Import Prelude Text Errors Codec.

(** [a - b] on [u8]: panics on underflow. *)
Definition u8_sub (a b : Z) : Res ProtocolError Z :=
  if a <? b then Panic else Ok (a - b).

(** [u8::checked_add]. *)
Definition u8_checked_add (a b : Z) : option Z :=
  if a + b <=? 255 then Some (a + b) else None.

Definition MAX_REASSEMBLED_SIZE : Z := 256 * MAX_MESSAGE_SIZE.

Record MessageSegment := {
  remaining_segments : Z;
  segment_data : bytes;
}.

Definition segment_new (remaining : Z) (data : bytes) : MessageSegment :=
  {| remaining_segments := remaining; segment_data := data |}.

Definition segment_encode (s : MessageSegment) : bytes :=
  write_u8 (remaining_segments s) ++ segment_data s.

Definition segment_decode (data : bytes) : Res ProtocolError MessageSegment :=
  match data with
  | b :: (_ :: _) as rest => Ok (segment_new (Z_of_byte b) rest)
  | _ => Err (MessageParse (str "Message too short, expected at least 2 bytes, got "
                            ++ dec (blen data)))
  end.

Record Message := {
  expected_segments : Z;
  data : bytes;
}.

Definition message_new : Message := {| expected_segments := 0; data := [] |}.

Definition add_segment (segment : MessageSegment) : SE Message ProtocolError (option bytes) :=
  fun m =>
  let begun :=
    if (expected_segments m =? 0) && (remaining_segments segment >? 0)
    then ok_or (MessageParse (str "segment count out of range"))
               (u8_checked_add (remaining_segments segment) 1)
    else Ok (expected_segments m) in
  match begun with
  | Err e => (Err e, m)
  | Panic => (Panic, m)
  | Ok expected =>
      let checked : Res ProtocolError Z :=
        if expected >? 0 then
          expected_remaining ← u8_sub expected 1;
          if negb (expected_remaining =? remaining_segments segment)
          then Err (MessageParse (str "Invalid segment sequence: expected "
                                  ++ dec expected_remaining ++ str ", got "
                                  ++ dec (remaining_segments segment)))
          else u8_sub expected 1
        else Ok expected in
      match checked with
      | Err e => (Err e, message_new)
      | Panic => (Panic, m)
      | Ok expected =>
          let size := blen (data m) + blen (segment_data segment) in
          if size >? MAX_REASSEMBLED_SIZE
          then (Err (MessageSizeExceeded size), message_new)
          else
            let data := data m ++ segment_data segment in
            if remaining_segments segment =? 0
            then (Ok (Some data), message_new)
            else (Ok None, {| expected_segments := expected; data := data |})
      end
  end.

(** [usize::div_ceil]. *)
Definition div_ceil (a b : Z) : Z := (a + b - 1) / b.

(** The [while remaining.len() > MAX_MESSAGE_SIZE] loop. *)
Fixpoint split_loop (fuel : nat) (remaining : bytes) (left_ : Z)
    (segments : list MessageSegment) : Res ProtocolError (list MessageSegment * bytes * Z) :=
  match fuel with
  | O => Panic
  | S fuel =>
      if blen remaining >? MAX_MESSAGE_SIZE then
        left_ ← u8_sub left_ 1;
        let chunk := take (Z.to_nat MAX_MESSAGE_SIZE) remaining in
        split_loop fuel (drop (Z.to_nat MAX_MESSAGE_SIZE) remaining) left_
                   (segments ++ [segment_new left_ chunk])
      else Ok (segments, remaining, left_)
  end.

Definition split_into_segments (data : bytes) : Res ProtocolError (list MessageSegment) :=
  let len := blen data in
  if len <=? MAX_MESSAGE_SIZE then Ok [segment_new 0 data]
  else
    let segment_count := div_ceil len MAX_MESSAGE_SIZE in
    if segment_count >? 255 then Err (MessageSizeExceeded len)
    else
      '(segments, remaining, left_) ← split_loop (Z.to_nat segment_count) data segment_count [];
      '(segments, left_) ←
        (if blen remaining =? 0 then Ok (segments, left_)
         else left_ ← u8_sub left_ 1;
              Ok (segments ++ [segment_new left_ remaining], left_));
      if left_ =? 0 then Ok segments else Panic.

Definition encode_unreliable (data : bytes) : Res ProtocolError bytes :=
  if blen data >? Z.max 0 (MAX_MESSAGE_SIZE - 1)
  then Err (MessageSizeExceeded (blen data))
  else Ok (segment_encode (segment_new 0 data)).

(** ** Invariant *)

Definition segment_ok (s : MessageSegment) : Prop := is_u8 (remaining_segments s).

(** An idle buffer is empty, and no buffer outgrows the cap. *)
Definition message_inv (m : Message) : Prop :=
  is_u8 (expected_segments m) /\
  (expected_segments m = 0 -> data m = []) /\
  blen (data m) <= MAX_REASSEMBLED_SIZE.

Lemma message_new_inv : message_inv message_new.
Proof. repeat split; vm_compute; done. Qed.

(** The five ways [add_segment] can end. *)
Inductive add_outcome (m : Message) (s : MessageSegment) :
    Res ProtocolError (option bytes) -> Message -> Prop :=
| add_count_out_of_range :
    expected_segments m = 0 -> remaining_segments s = 255 ->
    add_outcome m s (Err (MessageParse (str "segment count out of range"))) m
| add_out_of_sequence e :
    0 < expected_segments m -> remaining_segments s <> expected_segments m - 1 ->
    add_outcome m s (Err (MessageParse e)) message_new
| add_too_large :
    MAX_REASSEMBLED_SIZE < blen (data m) + blen (segment_data s) ->
    add_outcome m s
      (Err (MessageSizeExceeded (blen (data m) + blen (segment_data s)))) message_new
| add_last :
    (expected_segments m = 0 \/ expected_segments m = 1) -> remaining_segments s = 0 ->
    blen (data m ++ segment_data s) <= MAX_REASSEMBLED_SIZE ->
    add_outcome m s (Ok (Some (data m ++ segment_data s))) message_new
| add_more :
    0 < remaining_segments s ->
    (expected_segments m = 0 \/ expected_segments m = remaining_segments s + 1) ->
    blen (data m ++ segment_data s) <= MAX_REASSEMBLED_SIZE ->
    add_outcome m s (Ok None)
      {| expected_segments := remaining_segments s; data := data m ++ segment_data s |}.

Lemma add_segment_cases m s :
  message_inv m -> segment_ok s ->
  add_outcome m s (add_segment s m).1 (add_segment s m).2.
Proof.
  intros (He & _ & _) Hs. unfold segment_ok, is_u8 in *. unfold add_segment, u8_checked_add.
  destruct (_ && _) eqn:E1; to_props.
  - destruct (_ <=? 255) eqn:E2; cbn [ok_or]; to_props.
    2: { cbn. apply add_count_out_of_range; lia. }
    destruct (_ >? 0) eqn:E3; [|to_props; lia].
    unfold u8_sub. destruct (_ <? 1) eqn:E4; [to_props; lia|]. cbn.
    destruct (_ =? remaining_segments s) eqn:E5; to_props; [|lia]. cbn [negb].
    destruct (_ >? MAX_REASSEMBLED_SIZE) eqn:E6; to_props; [by apply add_too_large|].
    destruct (_ =? 0) eqn:E7; to_props; [lia|].
    replace (remaining_segments s + 1 - 1) with (remaining_segments s) by lia.
    apply add_more; [lia|lia|rewrite blen_app; lia].
  - assert (Hcase : expected_segments m <> 0 \/ remaining_segments s = 0).
    { apply andb_false_iff in E1 as [E1|E1]; to_props; lia. }
    destruct (expected_segments m >? 0) eqn:E3; to_props.
    + unfold u8_sub. destruct (_ <? 1) eqn:E4; [to_props; lia|]. cbn.
      destruct (_ =? remaining_segments s) eqn:E5; to_props; cbn [negb].
      2: { apply add_out_of_sequence; lia. }
      destruct (_ >? MAX_REASSEMBLED_SIZE) eqn:E6; to_props; [by apply add_too_large|].
      destruct (remaining_segments s =? 0) eqn:E7; to_props.
      * apply add_last; [lia|lia|rewrite blen_app; lia].
      * rewrite E5. apply add_more; [lia|lia|rewrite blen_app; lia].
    + destruct (_ >? MAX_REASSEMBLED_SIZE) eqn:E6; to_props; [by apply add_too_large|].
      destruct (remaining_segments s =? 0) eqn:E7; to_props; [|lia].
      apply add_last; [lia|lia|rewrite blen_app; lia].
Qed.

Lemma add_outcome_inv m s r m' :
  message_inv m -> segment_ok s -> add_outcome m s r m' -> message_inv m'.
Proof.
  intros Hm Hs []; try apply message_new_inv; try done.
  unfold message_inv, segment_ok in *. cbn. repeat split; try apply Hs; lia.
Qed.

(** ** Feeding a sequence of segments *)

Fixpoint feed (m : Message) (segments : list MessageSegment) :
    list (Res ProtocolError (option bytes)) * Message :=
  match segments with
  | [] => ([], m)
  | s :: segments =>
      let '(r, m') := add_segment s m in
      let '(rs, m'') := feed m' segments in
      (r :: rs, m'')
  end.

Lemma feed_inv m segments :
  message_inv m -> Forall segment_ok segments ->
  message_inv (feed m segments).2 /\ Forall no_panic (feed m segments).1.
Proof.
  intros Hm Hs. revert m Hm. induction Hs as [|s segments Hs _ IH]; intros m Hm.
  { cbn. split; [done|constructor]. }
  cbn [feed]. pose proof (add_segment_cases m s Hm Hs) as Hout.
  destruct (add_segment s m) as [r m']. cbn in Hout.
  pose proof (add_outcome_inv _ _ _ _ Hm Hs Hout) as Hm'.
  specialize (IH m' Hm'). destruct (feed m' segments) as [rs m'']. cbn in *.
  destruct IH as [IH1 IH2]. split; [done|]. constructor; [|done]. by destruct Hout.
Qed.

(** The counts of a complete message of [n] segments: [n-1] down to [0]. *)
Fixpoint countdown (n : nat) : list Z :=
  match n with O => [] | S n => Z.of_nat n :: countdown n end.

Definition counts (segments : list MessageSegment) : list Z := remaining_segments <$> segments.
Definition payload (segments : list MessageSegment) : bytes := mjoin (segment_data <$> segments).

Lemma counts_app a b : counts (a ++ b) = counts a ++ counts b.
Proof. apply fmap_app. Qed.

Lemma payload_app a b : payload (a ++ b) = payload a ++ payload b.
Proof. unfold payload. by rewrite fmap_app, join_app. Qed.

Lemma payload_singleton s : payload [s] = segment_data s.
Proof. unfold payload. cbn. apply app_nil_r. Qed.

Lemma length_countdown n : length (countdown n) = n.
Proof. induction n; cbn; congruence. Qed.

(** ** Abstract view of the buffer

    The buffer in the middle of a message holds the payload of a run of
    segments whose counts descend one by one and stop just before
    [expected_segments - 1]. *)

(** A run of [length run] segments, the last one announcing [k] more. *)
Definition is_run (k : Z) (run : list MessageSegment) : Prop :=
  counts run ++ countdown (Z.to_nat k) = countdown (length run + Z.to_nat k).

Definition buffers (m : Message) (run : list MessageSegment) : Prop :=
  data m = payload run /\ expected_segments m = 0 /\ run = [] \/
  data m = payload run /\ 0 < expected_segments m /\ run <> [] /\
  is_run (expected_segments m) run.

Lemma is_run_first s :
  0 <= remaining_segments s -> is_run (remaining_segments s) [s].
Proof.
  intros H. unfold is_run. cbn. f_equal. lia.
Qed.

Lemma is_run_snoc k run s :
  0 < k -> is_run k run -> remaining_segments s = k - 1 -> is_run (k - 1) (run ++ [s]).
Proof.
  unfold is_run. intros Hk Hrun Hs. rewrite counts_app, <- app_assoc. cbn.
  rewrite length_app. cbn.
  replace (length run + 1 + Z.to_nat (k - 1))%nat with (length run + Z.to_nat k)%nat by lia.
  rewrite <- Hrun. f_equal.
  replace (Z.to_nat k) with (S (Z.to_nat (k - 1))) by lia. cbn. f_equal. lia.
Qed.

Lemma buffers_new : buffers message_new [].
Proof. by left. Qed.

(** One step of the refinement: what was delivered is a complete run, and what
    is still buffered is a run that ends with the segment just added. *)
Lemma add_segment_run m run s :
  message_inv m -> segment_ok s -> buffers m run ->
  match add_segment s m with
  | (Ok (Some msg), m') =>
      m' = message_new /\ msg = payload (run ++ [s]) /\
      counts (run ++ [s]) = countdown (length (run ++ [s])) /\
      blen msg <= MAX_REASSEMBLED_SIZE
  | (Ok None, m') => buffers m' (run ++ [s])
  | (Err _, m') => m' = message_new
  | (Panic, _) => False
  end.
Proof.
  intros Hm Hs Hb. pose proof (add_segment_cases m s Hm Hs) as Hout.
  destruct (add_segment s m) as [r m']. cbn in Hout.
  unfold message_inv in Hm. unfold segment_ok, is_u8 in Hs.
  assert (Hdata : data m = payload run) by (destruct Hb as [Hb|Hb]; tauto).
  assert (Hrun : forall k, (expected_segments m = 0 \/ expected_segments m = k + 1) ->
                 0 <= k -> remaining_segments s = k -> is_run k (run ++ [s])).
  { intros k Hk Hk0 Hsk. destruct Hb as [(_ & _ & ->)|(_ & Hpos & _ & Hr)].
    - rewrite <- Hsk. apply is_run_first. lia.
    - replace k with (expected_segments m - 1) by lia. apply is_run_snoc; [lia|done|lia]. }
  destruct Hout; try done.
  - destruct m as [em dm]. cbn in *. subst em. by rewrite (proj1 (proj2 Hm)).
  - rewrite Hdata in *. rewrite payload_app, payload_singleton. repeat split; try done.
    pose proof (Hrun 0 ltac:(lia) ltac:(lia) ltac:(lia)) as Hr. unfold is_run in Hr.
    cbn [Z.to_nat countdown] in Hr. by rewrite app_nil_r, Nat.add_0_r in Hr.
  - right. cbn. rewrite Hdata, payload_app, payload_singleton. repeat split; try done.
    + by destruct run.
    + by apply Hrun; [|lia|].
Qed.

(** ** Delivery in order *)

Lemma countdown_app n k :
  countdown (n + k) = (Z.add (Z.of_nat k) <$> countdown n) ++ countdown k.
Proof.
  induction n as [|n IH]; [done|]. cbn. rewrite IH. f_equal. lia.
Qed.

(** A complete run fed to an idle buffer is delivered by its last segment. *)
Lemma feed_run n : forall m segments,
  (n <= 254)%nat -> counts segments = countdown (S n) ->
  (expected_segments m = 0 \/ expected_segments m = Z.of_nat (S n)) ->
  blen (data m) + blen (payload segments) <= MAX_REASSEMBLED_SIZE ->
  message_inv m ->
  feed m segments =
    (replicate n (Ok None) ++ [Ok (Some (data m ++ payload segments))], message_new).
Proof.
  induction n as [|n IH]; intros m segments Hn Hc Hm Hsize Hinv;
    destruct segments as [|s segments]; try done; cbn [countdown counts fmap list_fmap] in Hc;
    injection Hc as Hs Hc.
  - destruct segments; [|done].
    pose proof (payload_singleton s) as Hp. rewrite Hp in *.
    pose proof (add_segment_cases m s Hinv ltac:(unfold segment_ok, is_u8; lia)) as Hout.
    cbn [feed]. destruct (add_segment s m) as [r m']. cbn in Hout.
    destruct Hout; by try lia.
  - change (s :: segments) with ([s] ++ segments) in Hsize |- *.
    rewrite payload_app, payload_singleton in Hsize |- *. cbn [app].
    rewrite blen_app in Hsize. pose proof (blen_nonneg (payload segments)).
    pose proof (add_segment_cases m s Hinv ltac:(unfold segment_ok, is_u8; lia)) as Hout.
    pose proof (fun r m' => add_outcome_inv m s r m' Hinv
      ltac:(unfold segment_ok, is_u8; lia)) as Hinv'.
    cbn [feed]. destruct (add_segment s m) as [r m']. cbn in Hout.
    specialize (Hinv' _ _ Hout). destruct Hout; try lia.
    rewrite IH; [|lia|done|cbn; lia|cbn; rewrite blen_app; lia|done].
    cbn. by rewrite <- app_assoc.
Qed.

(** ** Splitting *)

Lemma blen_take (l : bytes) n : 0 <= n -> blen (take (Z.to_nat n) l) = Z.min n (blen l).
Proof. intros. unfold blen. rewrite length_take. lia. Qed.

Lemma blen_drop (l : bytes) n : 0 <= n -> blen (drop (Z.to_nat n) l) = Z.max 0 (blen l - n).
Proof. intros. unfold blen. rewrite length_drop. lia. Qed.

Lemma payload_cons s segments : payload (s :: segments) = segment_data s ++ payload segments.
Proof. done. Qed.

Lemma split_loop_spec n : forall fuel remaining segments,
  (n < fuel)%nat ->
  Z.of_nat n * MAX_MESSAGE_SIZE < blen remaining <= Z.of_nat (S n) * MAX_MESSAGE_SIZE ->
  exists chunks rest,
    split_loop fuel remaining (Z.of_nat (S n)) segments = Ok (segments ++ chunks, rest, 1) /\
    payload chunks ++ rest = remaining /\
    counts chunks ++ [0] = countdown (S n) /\
    Forall (fun s => blen (segment_data s) = MAX_MESSAGE_SIZE) chunks /\
    0 < blen rest <= MAX_MESSAGE_SIZE.
Proof.
  assert (HM : MAX_MESSAGE_SIZE = 10000) by done.
  induction n as [|n IH]; intros fuel remaining segments Hf Hlen;
    (destruct fuel as [|fuel]; [lia|]); cbn [split_loop];
    destruct (blen remaining >? MAX_MESSAGE_SIZE) eqn:E; to_props; try lia.
  - exists [], remaining. rewrite app_nil_r. cbn.
    split; [done|]. split; [done|]. split; [done|]. split; [constructor|lia].
  - unfold u8_sub at 1. destruct (_ <? 1) eqn:E1; [to_props; lia|].
    change (Ok ?x ≫= ?f) with (f x).
    replace (Z.of_nat (S (S n)) - 1) with (Z.of_nat (S n)) by lia. cbv beta zeta.
    set (chunk := segment_new _ _).
    assert (Hchunk : blen (segment_data chunk) = MAX_MESSAGE_SIZE).
    { unfold chunk. cbn [segment_data segment_new]. rewrite blen_take; lia. }
    destruct (IH fuel (drop (Z.to_nat MAX_MESSAGE_SIZE) remaining) (segments ++ [chunk]))
      as (chunks & rest & -> & Hpay & Hcounts & Hfull & Hrest).
    { lia. } { rewrite blen_drop; lia. }
    exists (chunk :: chunks), rest. rewrite <- app_assoc.
    split; [done|]. split.
    { rewrite payload_cons, <- app_assoc, Hpay. apply take_drop. }
    split; [|by split; [constructor|]].
    change (counts (chunk :: chunks)) with (Z.of_nat (S n) :: counts chunks).
    rewrite <- app_comm_cons, Hcounts. done.
Qed.

Definition MAX_SPLIT_SIZE : Z := 255 * MAX_MESSAGE_SIZE.

Lemma split_into_segments_spec d :
  if blen d <=? MAX_SPLIT_SIZE then
    exists segments n,
      split_into_segments d = Ok segments /\ (n <= 254)%nat /\
      counts segments = countdown (S n) /\ payload segments = d /\
      Forall (fun s => blen (segment_data s) <= MAX_MESSAGE_SIZE) segments /\
      (d <> [] -> Forall (fun s => segment_data s <> []) segments)
  else split_into_segments d = Err (MessageSizeExceeded (blen d)).
Proof.
  assert (HM : MAX_MESSAGE_SIZE = 10000) by done.
  assert (HS : MAX_SPLIT_SIZE = 2550000) by done.
  unfold split_into_segments. set (c := div_ceil _ _).
  assert (Hc : (c - 1) * MAX_MESSAGE_SIZE < blen d <= c * MAX_MESSAGE_SIZE).
  { unfold c, div_ceil. pose proof (Z.div_mod (blen d + MAX_MESSAGE_SIZE - 1) MAX_MESSAGE_SIZE).
    pose proof (Z.mod_pos_bound (blen d + MAX_MESSAGE_SIZE - 1) MAX_MESSAGE_SIZE). lia. }
  destruct (blen d <=? MAX_SPLIT_SIZE) eqn:E0, (blen d <=? MAX_MESSAGE_SIZE) eqn:E1; to_props;
    try lia.
  - exists [segment_new 0 d], 0%nat. rewrite payload_singleton.
    repeat split; try done; [lia|by repeat constructor|].
    intros. by repeat constructor.
  - destruct (c >? 255) eqn:E2; [to_props; lia|].
    destruct (split_loop_spec (Z.to_nat (c - 1)) (Z.to_nat c) d [])
      as (chunks & rest & Hloop & Hpay & Hcounts & Hfull & Hrest); [lia|lia|].
    replace (Z.of_nat (S (Z.to_nat (c - 1)))) with c in Hloop by lia.
    rewrite Hloop. cbn. destruct (blen rest =? 0) eqn:E3; [to_props; lia|]. cbn.
    exists (chunks ++ [segment_new 0 rest]), (Z.to_nat (c - 1)).
    rewrite counts_app, payload_app, payload_singleton.
    split; [done|]. split; [to_props; lia|]. split; [done|]. split; [done|].
    split; [|intros _]; apply Forall_app; split.
    + eapply List.Forall_impl; [|exact Hfull]. intros s Hs. cbv beta in Hs. lia.
    + constructor; [cbn; lia|constructor].
    + eapply List.Forall_impl; [|exact Hfull]. intros s Hs Hnil. cbv beta in Hs.
      rewrite Hnil, blen_nil in Hs. lia.
    + constructor; [|constructor]. intros Hnil. assert (rest = []) as Hr by exact Hnil. rewrite Hr in Hrest. by destruct Hrest.
  - destruct (c >? 255) eqn:E2; to_props; [done|lia].
Qed.

(** ** The wire form of a segment *)

Lemma segment_decode_encode s :
  segment_ok s -> segment_data s <> [] -> segment_decode (segment_encode s) = Ok s.
Proof.
  intros Hs Hne. unfold segment_encode, write_u8, segment_decode. destruct s as [c d]. cbn in *.
  unfold segment_ok, is_u8 in Hs. destruct d as [|b d]; [done|].
  rewrite Z_of_byte_small by (cbn in Hs; lia). done.
Qed.

Lemma segments_decode_encode segments :
  Forall segment_ok segments -> Forall (fun s => segment_data s <> []) segments ->
  (segment_decode <$> (segment_encode <$> segments)) = (Ok <$> segments).
Proof.
  intros H1 H2. induction H1 as [|s segments Hs _ IH]; [done|].
  inversion H2; subst. rewrite !fmap_cons, segment_decode_encode, IH by done. done.
Qed.

Lemma countdown_u8 n segments :
  (n <= 255)%nat -> counts segments = countdown (S n) -> Forall segment_ok segments.
Proof.
  revert n. induction segments as [|s segments IH]; intros n Hn Hc; [constructor|].
  cbn in Hc. injection Hc as Hs Hc. constructor.
  - unfold segment_ok, is_u8. lia.
  - destruct n; [by destruct segments|]. apply (IH n); [lia|done].
Qed.

(** ** Properties *)

(** C34: A message of 1 to 255 * 10000 bytes sent over the reliable channel is
    split, framed, unframed and reassembled into exactly the message that was
    sent: every segment but the last is absorbed silently, the last one
    delivers it, and the buffer is idle again. *)
Theorem reliable_roundtrip (d : bytes) :
  d <> [] -> blen d <= MAX_SPLIT_SIZE ->
  exists segments n,
    split_into_segments d = Ok segments /\
    (segment_decode <$> (segment_encode <$> segments)) = (Ok <$> segments) /\
    feed message_new segments = (replicate n (Ok None) ++ [Ok (Some d)], message_new).
Proof.
  intros Hne Hlen. pose proof (split_into_segments_spec d) as H.
  destruct (blen d <=? MAX_SPLIT_SIZE) eqn:E; [|to_props; lia].
  destruct H as (segments & n & Hsplit & Hn & Hcounts & Hpay & _ & Hfull).
  exists segments, n. split; [done|]. split.
  - apply segments_decode_encode; [by apply (countdown_u8 n); [lia|]|by apply Hfull].
  - rewrite (feed_run n), Hpay; [done|lia|done|by left| |apply message_new_inv].
    unfold MAX_SPLIT_SIZE, MAX_REASSEMBLED_SIZE in *. cbn [message_new data].
    rewrite Hpay, blen_nil. unfold MAX_MESSAGE_SIZE in *. lia.
Qed.

Lemma reliable_roundtrip_witness :
  let d := str "Hello, World!" in
  d <> [] /\ blen d <= MAX_SPLIT_SIZE /\
  exists segments n,
    split_into_segments d = Ok segments /\
    (segment_decode <$> (segment_encode <$> segments)) = (Ok <$> segments) /\
    feed message_new segments = (replicate n (Ok None) ++ [Ok (Some d)], message_new).
Proof.
  intros d. split; [by vm_compute|]. split; [by vm_compute|].
  apply (reliable_roundtrip d); by vm_compute.
Defined.

(** C40: Splitting is total: a message beyond 255 full segments is refused with
    its size, and any other one becomes segments of at most 10000 bytes that
    count down to zero and concatenate to the message. The [u8] countdown
    never underflows and the debug assertion never fires. *)
Theorem split_total (d : bytes) :
  (exists segments n,
     split_into_segments d = Ok segments /\ blen d <= MAX_SPLIT_SIZE /\
     (n <= 254)%nat /\ counts segments = countdown (S n) /\ payload segments = d /\
     Forall (fun s => blen (segment_data s) <= MAX_MESSAGE_SIZE) segments) \/
  (MAX_SPLIT_SIZE < blen d /\
   split_into_segments d = Err (MessageSizeExceeded (blen d))).
Proof.
  pose proof (split_into_segments_spec d) as H.
  destruct (blen d <=? MAX_SPLIT_SIZE) eqn:E; to_props; [left|by right].
  destruct H as (segments & n & ? & ? & ? & ? & ? & _). eauto 10.
Qed.

(** Whatever segments a peer sends, the reassembly buffer never panics,
    never holds more than [MAX_REASSEMBLED_SIZE] bytes, and is empty whenever
    no message is in progress. *)
Theorem reassembly_bounded (segments : list MessageSegment) :
  Forall segment_ok segments ->
  message_inv (feed message_new segments).2 /\
  Forall no_panic (feed message_new segments).1.
Proof. apply feed_inv, message_new_inv. Qed.

Lemma reassembly_bounded_witness :
  Forall segment_ok [segment_new 255 [x01]; segment_new 2 [x02]; segment_new 0 [x03]] /\
  message_inv (feed message_new
    [segment_new 255 [x01]; segment_new 2 [x02]; segment_new 0 [x03]]).2.
Proof.
  assert (H : Forall segment_ok [segment_new 255 [x01]; segment_new 2 [x02]; segment_new 0 [x03]])
    by (repeat constructor; vm_compute; congruence).
  split; [exact H|]. apply (reassembly_bounded _ H).
Defined.

Lemma feed_buffers m run segments :
  message_inv m -> buffers m run -> Forall segment_ok segments ->
  exists pre run', run ++ segments = pre ++ run' /\ buffers (feed m segments).2 run'.
Proof.
  intros Hm Hb Hs. revert m run Hm Hb.
  induction Hs as [|s segments Hs _ IH]; intros m run Hm Hb.
  { exists [], run. by rewrite app_nil_r. }
  pose proof (add_segment_run m run s Hm Hs Hb) as Hstep.
  pose proof (add_outcome_inv m s _ _ Hm Hs (add_segment_cases m s Hm Hs)) as Hm'.
  cbn [feed]. destruct (add_segment s m) as [r m']. cbn in Hm'.
  assert (Hnew : m' = message_new \/ buffers m' (run ++ [s])).
  { destruct r as [[msg|]|e|]; [left; tauto|by right|by left|done]. }
  destruct Hnew as [->|Hb'].
  - destruct (IH message_new [] message_new_inv buffers_new) as (pre & run' & Heq & Hr).
    exists (run ++ [s] ++ pre), run'. split; [|by destruct (feed _ segments)].
    cbn in Heq. rewrite Heq, <- !app_assoc. done.
  - destruct (IH m' (run ++ [s]) Hm' Hb') as (pre & run' & Heq & Hr).
    exists pre, run'. split; [by rewrite <- Heq, <- app_assoc|]. by destruct (feed _ segments).
Qed.

(** No message is ever stitched together from unrelated segments: whatever
    was received before, a delivered message is the concatenation of the most
    recent consecutive segments received, whose counts are n-1, ..., 1, 0. *)
Theorem delivered_is_consecutive (segments : list MessageSegment) (s : MessageSegment)
    (msg : bytes) (m' : Message) :
  Forall segment_ok (segments ++ [s]) ->
  add_segment s (feed message_new segments).2 = (Ok (Some msg), m') ->
  exists pre run,
    segments ++ [s] = pre ++ run /\ counts run = countdown (length run) /\
    msg = payload run /\ m' = message_new /\ blen msg <= MAX_REASSEMBLED_SIZE.
Proof.
  intros [Hs Hs1]%Forall_app Hadd. inversion Hs1 as [|? ? Hs' _]; subst.
  destruct (feed_buffers message_new [] segments message_new_inv buffers_new Hs)
    as (pre & run & Heq & Hb). cbn in Heq.
  pose proof (feed_inv message_new segments message_new_inv Hs) as [Hinv _].
  pose proof (add_segment_run _ _ _ Hinv Hs' Hb) as Hstep. rewrite Hadd in Hstep.
  destruct Hstep as (-> & -> & Hc & Hl).
  exists pre, (run ++ [s]). by rewrite Heq, app_assoc.
Qed.

Lemma delivered_is_consecutive_witness :
  exists pre run,
    [segment_new 7 [x01]; segment_new 1 [x02]] ++ [segment_new 0 [x03]] = pre ++ run /\
    counts run = countdown (length run) /\
    [x03] = payload run /\ message_new = message_new /\ blen [x03] <= MAX_REASSEMBLED_SIZE.
Proof.
  apply (delivered_is_consecutive
           [segment_new 7 [x01]; segment_new 1 [x02]] (segment_new 0 [x03]) [x03] message_new).
  - repeat constructor; vm_compute; congruence.
  - vm_compute. reflexivity.
Defined.

(** A rejected segment leaves the buffer idle, so one bad segment costs at
    most the message it interrupted: the next complete message gets through. *)
Theorem error_resets (segments : list MessageSegment) (s : MessageSegment)
    (e : ProtocolError) (m' : Message) :
  Forall segment_ok (segments ++ [s]) ->
  add_segment s (feed message_new segments).2 = (Err e, m') -> m' = message_new.
Proof.
  intros [Hs Hs1]%Forall_app Hadd. inversion Hs1 as [|? ? Hs' _]; subst.
  destruct (feed_buffers message_new [] segments message_new_inv buffers_new Hs)
    as (pre & run & _ & Hb).
  pose proof (feed_inv message_new segments message_new_inv Hs) as [Hinv _].
  pose proof (add_segment_run _ _ _ Hinv Hs' Hb) as Hstep. by rewrite Hadd in Hstep.
Qed.

Lemma error_resets_witness :
  (add_segment (segment_new 5 [x02]) (feed message_new [segment_new 3 [x01]]).2).2 = message_new.
Proof.
  apply (error_resets [segment_new 3 [x01]] (segment_new 5 [x02])
    (MessageParse (str "Invalid segment sequence: expected 2, got 5"))).
  - repeat constructor; vm_compute; congruence.
  - vm_compute. reflexivity.
Defined.

(** Two full segments and a short one. *)
Example split_three :
  counts <$> res_ok (split_into_segments (replicate (Z.to_nat 20100) x2a)) = Some [2; 1; 0].
Proof. vm_compute. reflexivity. Qed.

(** The empty message is split into a segment that the receiver refuses. *)
Lemma empty_message_not_decodable :
  split_into_segments [] = Ok [segment_new 0 []] /\
  is_ok (segment_decode (segment_encode (segment_new 0 []))) = false.
Proof. by vm_compute. Qed.
