(* ===== verification/SignalMsg.v ===== *)
(** * SignalMsg: signaling messages in their text form ([protocol/signal.rs]) *)
From S2P Require Import Prelude Text Errors.

Inductive SignalType := Offer | Answer | Candidate | Error.

#[global] Instance SignalType_eq_dec : EqDecision SignalType.
Proof. solve_decision. Defined.

Definition as_str (t : SignalType) : bytes :=
  match t with
  | Offer => str "CONNECTREQUEST"
  | Answer => str "CONNECTRESPONSE"
  | Candidate => str "CANDIDATEADD"
  | Error => str "CONNECTERROR"
  end.

Definition SignalType_from_str (s : bytes) : Res ProtocolError SignalType :=
  if bytes_eqb s (str "CONNECTREQUEST") then Ok Offer
  else if bytes_eqb s (str "CONNECTRESPONSE") then Ok Answer
  else if bytes_eqb s (str "CANDIDATEADD") then Ok Candidate
  else if bytes_eqb s (str "CONNECTERROR") then Ok Error
  else Err (Other (str "Unknown signal type: " ++ s)).

Record Signal := {
  signal_type : SignalType;
  connection_id : Z;
  signal_data : bytes;
  network_id : bytes;
}.

#[global] Instance Signal_eq_dec : EqDecision Signal.
Proof. solve_decision. Defined.

Definition signal_new (t : SignalType) (cid : Z) (d nid : bytes) : Signal :=
  {| signal_type := t; connection_id := cid; signal_data := d; network_id := nid |}.

Definition signal_offer (cid : Z) (sdp nid : bytes) : Signal := signal_new Offer cid sdp nid.
Definition signal_answer (cid : Z) (sdp nid : bytes) : Signal := signal_new Answer cid sdp nid.
Definition signal_candidate (cid : Z) (c nid : bytes) : Signal := signal_new Candidate cid c nid.
Definition signal_error (cid : Z) (code : SignalErrorCode) (nid : bytes) : Signal :=
  signal_new Error cid (dec (SignalErrorCode_as_u32 code)) nid.

Definition from_string (s nid : bytes) : Res ProtocolError Signal :=
  match splitn (is_byte space) 3 s with
  | [p0; p1; p2] =>
      t ← SignalType_from_str p0;
      cid ← ok_or (Other (str "Failed to parse connection ID: ")) (parse_uint u64_max p1);
      mret (signal_new t cid p2 nid)
  | parts => Err (Other (str "Invalid signal format: expected 3 parts, got "
                         ++ dec (blen parts)))
  end.

(** [Display], which [to_string] uses. *)
Definition signal_to_string (s : Signal) : bytes :=
  as_str (signal_type s) ++ [space] ++ dec (connection_id s) ++ [space] ++ signal_data s.

Lemma SignalType_from_as_str t : SignalType_from_str (as_str t) = Ok t.
Proof. by destruct t. Qed.

Lemma as_str_free t : sep_free (is_byte space) (as_str t).
Proof. destruct t; repeat constructor. Qed.

Lemma dec_space_free z : 0 <= z -> sep_free (is_byte space) (dec z).
Proof.
  intros Hz. eapply List.Forall_impl; [|by apply dec_all_digits].
  intros b Hb. apply byte_eqb_neq. intros <-. done.
Qed.

(** The four constructors of signals all carry [u64] connection ids. *)
Definition signal_ok (s : Signal) : Prop := is_u64 (connection_id s).

Lemma from_string_to_string s nid :
  signal_ok s ->
  from_string (signal_to_string s) nid =
  Ok (signal_new (signal_type s) (connection_id s) (signal_data s) nid).
Proof.
  intros Hs. unfold signal_ok, is_u64 in Hs. unfold from_string, signal_to_string.
  cbn [app splitn].
  rewrite split_once_app by first [apply as_str_free | apply byte_eqb_refl].
  rewrite split_once_app by first [apply dec_space_free; lia | apply byte_eqb_refl].
  rewrite SignalType_from_as_str, parse_uint_dec by (unfold u64_max; lia). done.
Qed.

(** A signal survives its text form: parsing what [Display] prints gives
    back the type, the connection id and the data (which may itself contain
    spaces), under the network id the receiver supplies. *)
Theorem signal_roundtrip (s : Signal) (nid : bytes) :
  signal_ok s ->
  from_string (signal_to_string s) nid =
  Ok (signal_new (signal_type s) (connection_id s) (signal_data s) nid).
Proof. apply from_string_to_string. Qed.

Lemma signal_roundtrip_witness :
  from_string (str "CANDIDATEADD 18446744073709551615 candidate:1 1 udp") (str "7") =
  Ok (signal_candidate 18446744073709551615 (str "candidate:1 1 udp") (str "7")).
Proof.
  apply (signal_roundtrip
    (signal_candidate 18446744073709551615 (str "candidate:1 1 udp") (str "9"))).
  unfold signal_ok, is_u64. cbn. lia.
Defined.

(** The parser accepts nothing but [TYPE id data]: an accepted text is one
    of the four wire names, a space, text that reads as the [u64] id, a space
    and the data, and the id always fits [u64]. *)
Theorem from_string_sound (text nid : bytes) (s : Signal) :
  from_string text nid = Ok s ->
  signal_ok s /\ network_id s = nid /\
  exists idtext, parse_uint u64_max idtext = Some (connection_id s) /\
    text = as_str (signal_type s) ++ [space] ++ idtext ++ [space] ++ signal_data s.
Proof.
  unfold from_string. cbn [splitn].
  destruct (split_once _ text) as [[p0 r]|] eqn:E0; [|done].
  destruct (split_once _ r) as [[p1 p2]|] eqn:E1; [|done].
  apply split_once_Some in E0 as (c0 & Hc0 & _ & ->).
  apply split_once_Some in E1 as (c1 & Hc1 & _ & ->).
  apply byte_eqb_eq in Hc0 as <-. apply byte_eqb_eq in Hc1 as <-.
  destruct (SignalType_from_str p0) as [t|e|] eqn:Et; cbn; [|done..].
  destruct (parse_uint u64_max p1) as [cid|] eqn:Ep; cbn; [|done].
  intros [= <-]. cbn.
  assert (p0 = as_str t) as ->.
  { revert Et. unfold SignalType_from_str, bytes_eqb.
    repeat case_bool_decide; subst; by intros [= <-]. }
  split; [|by split; [|exists p1]].
  unfold signal_ok, is_u64. cbn. revert Ep. unfold parse_uint.
  destruct (parse_digits _) as [v|] eqn:Ev; [|done].
  destruct (v <=? u64_max) eqn:El; [|done]. intros [= <-]. to_props.
  unfold u64_max in El. split; [|lia]. by eapply parse_digits_nonneg.
Qed.

Lemma from_string_sound_witness :
  signal_ok (signal_answer 42 (str "sdp") (str "2")).
Proof.
  apply (from_string_sound (str "CONNECTRESPONSE +042 sdp") (str "2")).
  vm_compute. reflexivity.
Defined.
