(* ===== verification/ServerDataModel.v ===== *)
(** * ServerDataModel: advertised server details
    ([protocol/packet/discovery/server_data.rs])

    Strings are their UTF-8 bytes; the JSON reader of [from_json] belongs to
    the [serde_json] crate and is a parameter. *)
From S2P Require Import Prelude Text Errors Codec.

Inductive ServerDataVersion := V4 | V5 | V6 | V7.

#[global] Instance ServerDataVersion_eq_dec : EqDecision ServerDataVersion.
Proof. solve_decision. Defined.

Definition CURRENT : ServerDataVersion := V7.

Definition version_from_byte (b : Z) : Res ProtocolError ServerDataVersion :=
  match b with
  | 4 => Ok V4
  | 5 => Ok V5
  | 6 => Ok V6
  | 7 => Ok V7
  | _ => Err (Other (str "unsupported version: got " ++ dec b))
  end.

Definition version_as_byte (v : ServerDataVersion) : Z :=
  match v with V4 => 4 | V5 => 5 | V6 => 6 | V7 => 7 end.

Record ServerData := {
  server_name : bytes;
  level_name : bytes;
  game_type : Z;
  player_count : Z;
  max_player_count : Z;
  editor_world : bool;
  hardcore : bool;
  flag_a : bool;
  flag_b : bool;
  session_id : bytes;
  transport_layer : Z;
  connection_type : Z;
  protocol_version : Z;
  game_version : bytes;
}.

#[global] Instance ServerData_eq_dec : EqDecision ServerData.
Proof. solve_decision. Defined.

Definition server_data_new (server_name level_name : bytes) : ServerData :=
  {| server_name := server_name; level_name := level_name; game_type := 0;
     player_count := 1; max_player_count := 8; editor_world := false;
     hardcore := false; flag_a := true; flag_b := true; session_id := [];
     transport_layer := 2; connection_type := 4; protocol_version := 0;
     game_version := [] |}.

(** ** JSON status body *)

Definition hex_lower (d : Z) : byte :=
  if d <? 10 then byte_of_Z (48 + d) else byte_of_Z (87 + d).

(** [format!("\\u{:04x}", c)] for a control character. *)
Definition escape_unicode (b : byte) : bytes :=
  str "\u00" ++ [hex_lower (Z_of_byte b / 16); hex_lower (Z_of_byte b mod 16)].

Definition escape_char (b : byte) : bytes :=
  if byte_eqb b x22 then [x5c; x22]
  else if byte_eqb b x5c then [x5c; x5c]
  else if byte_eqb b x0a then str "\n"
  else if byte_eqb b x0d then str "\r"
  else if byte_eqb b x09 then str "\t"
  else if Z_of_byte b <? 0x20 then escape_unicode b
  else [b].

Definition escape (value : bytes) : bytes :=
  [x22] ++ mjoin (escape_char <$> value) ++ [x22].

Definition quoted (key : string) : bytes := [x22] ++ str key ++ [x22].

Definition to_json (d : ServerData) : bytes :=
  str "{" ++ quoted "name" ++ str ":" ++ escape (server_name d)
  ++ str "," ++ quoted "protocol" ++ str ":" ++ dec (protocol_version d)
  ++ str "," ++ quoted "version" ++ str ":" ++ escape (game_version d)
  ++ str "," ++ quoted "level" ++ str ":" ++ escape (level_name d)
  ++ str "," ++ quoted "players" ++ str ":" ++ dec_signed (player_count d)
  ++ str "," ++ quoted "maxPlayers" ++ str ":" ++ dec_signed (max_player_count d)
  ++ str "," ++ quoted "gameType" ++ str ":" ++ dec (game_type d) ++ str "}".

(** The [Status] record that [from_json] asks [serde_json] for. *)
Record Status := {
  status_name : bytes;
  status_protocol : Z;
  status_version : bytes;
  status_level : bytes;
  status_players : Z;
  status_max_players : Z;
  status_game_type : Z;
}.

Section from_json.
Context (serde_status : bytes -> option Status).

Definition from_json (json : bytes) : Res ProtocolError ServerData :=
  match serde_status json with
  | None => Err (Other (str "invalid server data JSON: "))
  | Some s =>
      let d := server_data_new (status_name s) (status_level s) in
      Ok {| server_name := server_name d; level_name := level_name d;
            game_type := status_game_type s; player_count := status_players s;
            max_player_count := status_max_players s; editor_world := editor_world d;
            hardcore := hardcore d; flag_a := flag_a d; flag_b := flag_b d;
            session_id := session_id d; transport_layer := transport_layer d;
            connection_type := connection_type d; protocol_version := status_protocol s;
            game_version := status_version s |}
  end.
End from_json.

(** ** Pong strings *)

(** The free function [game_type]. *)
Definition game_type_of_mode (mode : bytes) : Z :=
  let m := to_ascii_lowercase (trim mode) in
  if bytes_eqb m (str "creative") then 1
  else if bytes_eqb m (str "adventure") then 2
  else if bytes_eqb m (str "spectator") then 6
  else 0.

Definition from_pong_data (data : bytes) : Res ProtocolError ServerData :=
  if negb (utf8_valid data) then Err (Other (str "invalid pong data UTF-8: ")) else
  match split_on (is_byte x3b) data with
  | _ :: p1 :: p2 :: p3 :: p4 :: p5 :: _ :: p7 :: p8 :: _ =>
      Ok {| server_name := p1;
            protocol_version := default 0 (parse_uint u32_max p2);
            game_version := p3;
            level_name := p7;
            game_type := game_type_of_mode p8;
            player_count := default 0 (parse_i32 p4);
            max_player_count := default 0 (parse_i32 p5);
            editor_world := false; hardcore := false; flag_a := true; flag_b := true;
            session_id := []; transport_layer := 2; connection_type := 4 |}
  | parts => Err (Other (str "unexpected pong data format: " ++ dec (blen parts)
                         ++ str " fields, expected at least 9"))
  end.

(** ** Binary records *)

Definition bool_byte (b : bool) : Z := if b then 1 else 0.

Definition server_data_serialize (d : ServerData) : Res ProtocolError bytes :=
  wseq [Ok (write_u8 (version_as_byte CURRENT));
        write_bytes_varuint (server_name d);
        write_varint32 (i32_wrap (protocol_version d));
        write_bytes_varuint (game_version d);
        write_bytes_varuint (level_name d);
        write_varint32 (player_count d);
        write_varint32 (max_player_count d);
        write_varint32 (game_type d);
        Ok (write_u8 (bool_byte (editor_world d)));
        Ok (write_u8 (bool_byte (hardcore d)));
        Ok (write_u8 (bool_byte (flag_a d)));
        Ok (write_u8 (bool_byte (flag_b d)));
        write_bytes_varuint (session_id d);
        write_varint32 (connection_type d)].

(** [String::from_utf8]. *)
Definition from_utf8 (what : string) (bs : bytes) : Res ProtocolError bytes :=
  if utf8_valid bs then Ok bs else Err (Other (str "invalid " ++ str what ++ str " UTF-8: ")).

Definition read_string (what : string) : reader ProtocolError bytes :=
  bs ← read_bytes_u8; rlift (from_utf8 what bs).

Definition read_var_string (what : string) : reader ProtocolError bytes :=
  bs ← read_bytes_varuint; rlift (from_utf8 what bs).

Definition read_flag : reader ProtocolError bool :=
  b ← read_u8; mret (negb (b =? 0)).

Definition to_u8 (value : Z) (what : string) : Res ProtocolError Z :=
  ok_or (Other (str what ++ str " " ++ dec_signed value ++ str " does not fit into u8"))
        (u8_try_from value).

(** The name fields: a [u8] length prefix in versions 4 and 6. *)
Definition read_name (version : ServerDataVersion) (what : string) : reader ProtocolError bytes :=
  match version with
  | V4 | V6 => read_string what
  | V5 | V7 => read_var_string what
  end.

Definition read_versions (version : ServerDataVersion) : reader ProtocolError (Z * bytes) :=
  match version with
  | V7 =>
      protocol ← read_varint32;
      game_version ← read_var_string "game version";
      mret (u32_wrap protocol, game_version)
  | _ => mret (0, [])
  end.

(** Player count, capacity and game type, in the order of each version. *)
Definition read_counts (version : ServerDataVersion) : reader ProtocolError (Z * Z * Z) :=
  match version with
  | V7 =>
      player_count ← read_varint32;
      max_player_count ← read_varint32;
      game_type ← read_varint32;
      mret (player_count, max_player_count, game_type)
  | V5 =>
      game_type ← read_varint32;
      player_count ← read_i32;
      max_player_count ← read_i32;
      mret (player_count, max_player_count, game_type)
  | _ =>
      b ← read_u8;
      player_count ← read_i32;
      max_player_count ← read_i32;
      mret (player_count, max_player_count, Z.shiftr b 1)
  end.

Definition read_flags (version : ServerDataVersion) : reader ProtocolError (bool * bool * bytes) :=
  match version with
  | V4 => mret (true, true, [])
  | V5 => a ← read_flag; b ← read_flag; mret (a, b, [])
  | V6 => a ← read_flag; b ← read_flag; s ← read_string "session id"; mret (a, b, s)
  | V7 => a ← read_flag; b ← read_flag; s ← read_var_string "session id"; mret (a, b, s)
  end.

Definition read_transport (version : ServerDataVersion) : reader ProtocolError (Z * Z) :=
  match version with
  | V7 => c ← read_varint32; mret (2, c)
  | V5 => t ← read_varint32; c ← read_varint32; mret (t, c)
  | _ => t ← read_u8; c ← read_u8; mret (Z.shiftr t 1, Z.shiftr c 1)
  end.

Definition server_data_deserialize : reader ProtocolError ServerData :=
  b ← read_u8;
  version ← rlift (version_from_byte b);
  server_name ← read_name version "server name";
  '(protocol_version, game_version) ← read_versions version;
  level_name ← read_name version "level name";
  '(player_count, max_player_count, game_type) ← read_counts version;
  game_type ← rlift (to_u8 game_type "game type");
  editor_world ← read_flag;
  hardcore ← read_flag;
  '(flag_a, flag_b, session_id) ← read_flags version;
  '(transport_layer, connection_type) ← read_transport version;
  transport_layer ← rlift (to_u8 transport_layer "transport layer");
  connection_type ← rlift (to_u8 connection_type "connection type");
  mret {| server_name := server_name; level_name := level_name; game_type := game_type;
          player_count := player_count; max_player_count := max_player_count;
          editor_world := editor_world; hardcore := hardcore; flag_a := flag_a;
          flag_b := flag_b; session_id := session_id; transport_layer := transport_layer;
          connection_type := connection_type; protocol_version := protocol_version;
          game_version := game_version |}.

Definition server_data_size_hint (d : ServerData) : Z :=
  1 + 5 + blen (server_name d) + 5 + 5 + blen (game_version d) + 5 + blen (level_name d)
  + 5 + 5 + 5 + 4 + 5 + blen (session_id d) + 5.

#[export] Instance ServerData_codec : NetherCodec ServerData := {|
  serialize := server_data_serialize;
  deserialize := server_data_deserialize;
  size_hint := server_data_size_hint;
|}.

Definition server_data_decode (data : bytes) : Res ProtocolError ServerData :=
  match server_data_deserialize data with
  | Ok (value, rest) =>
      if blen rest =? 0 then Ok value
      else Err (Other (str "unread " ++ dec (blen rest) ++ str " bytes"))
  | Err e => Err e
  | Panic => Panic
  end.

(** ** Well-formedness *)

(** A Rust [String] that fits a prefixed field. *)
Definition text_ok (s : bytes) : Prop := utf8_valid s = true /\ blen s <= MAX_BYTES.

(** The types of the Rust fields, and the texts a reader can hold. *)
Record server_data_ok (d : ServerData) : Prop := {
  ok_server_name : text_ok (server_name d);
  ok_level_name : text_ok (level_name d);
  ok_game_version : text_ok (game_version d);
  ok_session_id : text_ok (session_id d);
  ok_game_type : is_u8 (game_type d);
  ok_player_count : is_i32 (player_count d);
  ok_max_player_count : is_i32 (max_player_count d);
  ok_transport_layer : is_u8 (transport_layer d);
  ok_connection_type : is_u8 (connection_type d);
  ok_protocol_version : is_u32 (protocol_version d);
}.

(** Version 7 does not carry the transport layer, which reads back as 2. *)
Definition server_data_wf (d : ServerData) : Prop :=
  server_data_ok d /\ transport_layer d = 2.

Lemma read_var_string_write what s bs tail :
  text_ok s -> write_bytes_varuint s = Ok bs ->
  read_var_string what (bs ++ tail) = Ok (s, tail).
Proof.
  intros [Hu Hl] Hw. unfold read_var_string.
  erewrite reader_bind_Ok by (by eapply read_bytes_varuint_write).
  unfold rlift, from_utf8. by rewrite Hu.
Qed.

Lemma read_flag_write b tail : read_flag (write_u8 (bool_byte b) ++ tail) = Ok (b, tail).
Proof.
  unfold read_flag. erewrite reader_bind_Ok by (apply read_u8_write; destruct b; done).
  by destruct b.
Qed.

Lemma u8_i32 z : is_u8 z -> is_i32 z.
Proof. unfold is_u8, is_i32. lia. Qed.

Lemma to_u8_ok z what : is_u8 z -> to_u8 z what = Ok z.
Proof.
  unfold is_u8, to_u8, u8_try_from. intros.
  destruct (0 <=? z) eqn:E1, (z <=? 255) eqn:E2; to_props; cbn; try done; lia.
Qed.

(** Reads one written field. *)
Ltac read_text := eapply read_var_string_write; [|eassumption]; assumption.
Ltac read_int := eapply read_varint32_write; [|eassumption]; auto using u8_i32.
Ltac read_field :=
  first [ erewrite reader_bind_Ok by read_text
        | erewrite reader_bind_Ok by read_int
        | erewrite reader_bind_Ok by apply read_flag_write ].

Lemma server_data_deserialize_serialize d bs tail :
  server_data_wf d -> server_data_serialize d = Ok bs ->
  server_data_deserialize (bs ++ tail) = Ok (d, tail).
Proof.
  intros [[] Ht] Hw. unfold server_data_serialize in Hw. invert_wseq.
  pose proof (i32_wrap_range (protocol_version d)).
  unfold server_data_deserialize. rewrite <- !app_assoc.
  erewrite reader_bind_Ok by (by apply read_u8_write).
  erewrite reader_bind_Ok by reflexivity.
  unfold read_name at 1. read_field.
  unfold read_versions. erewrite reader_bind_Ok by (do 2 read_field; reflexivity); cbv beta iota.
  unfold read_name. read_field.
  unfold read_counts. erewrite reader_bind_Ok by (do 3 read_field; reflexivity); cbv beta iota.
  rewrite (to_u8_ok (game_type d)) by done. erewrite reader_bind_Ok by reflexivity.
  do 2 read_field.
  unfold read_flags. erewrite reader_bind_Ok by (do 3 read_field; reflexivity); cbv beta iota.
  unfold read_transport. erewrite reader_bind_Ok by (read_field; reflexivity); cbv beta iota.
  erewrite reader_bind_Ok by reflexivity.
  rewrite (to_u8_ok (connection_type d)) by done. erewrite reader_bind_Ok by reflexivity.
  cbn. rewrite u32_wrap_i32_wrap, u32_wrap_id by done. by destruct d; cbn in Ht; subst.
Qed.

#[export] Instance ServerData_lawful : LawfulCodec ServerData server_data_wf.
Proof. constructor. apply server_data_deserialize_serialize. Qed.

Lemma server_data_serialize_Ok d : exists bs, server_data_serialize d = Ok bs.
Proof. unfold server_data_serialize. cbn. eauto. Qed.

Lemma read_flag_no_panic bs : no_panic (read_flag bs).
Proof. unfold read_flag. no_panic_reader. Qed.

Lemma from_utf8_no_panic what bs : no_panic (from_utf8 what bs).
Proof. unfold from_utf8, no_panic. by destruct (utf8_valid bs). Qed.

Lemma to_u8_no_panic z what : no_panic (to_u8 z what).
Proof. unfold to_u8, no_panic. by destruct (u8_try_from z). Qed.

Lemma version_from_byte_no_panic b : no_panic (version_from_byte b).
Proof. unfold version_from_byte, no_panic. by repeat split_match. Qed.

#[export] Hint Resolve read_flag_no_panic from_utf8_no_panic to_u8_no_panic
  version_from_byte_no_panic : total.

Lemma read_string_no_panic what bs : no_panic (read_string what bs).
Proof. unfold read_string. no_panic_reader. Qed.

Lemma read_var_string_no_panic what bs : no_panic (read_var_string what bs).
Proof. unfold read_var_string. no_panic_reader. Qed.
#[export] Hint Resolve read_string_no_panic read_var_string_no_panic : total.

Lemma read_i32_no_panic bs : no_panic (read_i32 bs).
Proof. unfold read_i32. no_panic_reader. Qed.
#[export] Hint Resolve read_i32_no_panic : total.

Lemma read_groups_no_panic v bs :
  no_panic (read_versions v bs) /\ no_panic (read_counts v bs) /\
  no_panic (read_flags v bs) /\ no_panic (read_transport v bs).
Proof.
  unfold read_versions, read_counts, read_flags, read_transport.
  repeat split; destruct v; no_panic_reader.
Qed.

Lemma read_name_no_panic v what bs : no_panic (read_name v what bs).
Proof. unfold read_name. destruct v; eauto with total. Qed.

Lemma server_data_deserialize_no_panic bs : no_panic (server_data_deserialize bs).
Proof.
  unfold server_data_deserialize.
  apply reader_bind_no_panic; [apply read_le_no_panic|intros b ?].
  apply reader_bind_no_panic; [intros ?; apply rlift_no_panic; eauto with total|intros v ?].
  apply reader_bind_no_panic; [apply read_name_no_panic|intros name ?].
  apply reader_bind_no_panic; [apply read_groups_no_panic|intros [] ?].
  apply reader_bind_no_panic; [apply read_name_no_panic|intros level ?].
  apply reader_bind_no_panic; [apply read_groups_no_panic|intros [[] ?] ?].
  apply reader_bind_no_panic; [intros ?; apply rlift_no_panic; eauto with total|intros gt ?].
  apply reader_bind_no_panic; [apply read_flag_no_panic|intros ed ?].
  apply reader_bind_no_panic; [apply read_flag_no_panic|intros hc ?].
  apply reader_bind_no_panic; [apply read_groups_no_panic|intros [[] ?] ?].
  apply reader_bind_no_panic; [apply read_groups_no_panic|intros [] ?].
  apply reader_bind_no_panic; [intros ?; apply rlift_no_panic; eauto with total|intros tl ?].
  apply reader_bind_no_panic; [intros ?; apply rlift_no_panic; eauto with total|intros ct ?].
  apply reader_ret_no_panic.
Qed.

(** ** What an accepted record satisfies *)

Lemma from_utf8_valid what bs s : from_utf8 what bs = Ok s -> s = bs /\ utf8_valid s = true.
Proof. unfold from_utf8. destruct (utf8_valid bs) eqn:E; [by intros [= <-]|done]. Qed.

Lemma read_string_ok what bs s rest : read_string what bs = Ok (s, rest) -> text_ok s.
Proof.
  unfold read_string. intros (b & bs' & H1 & H2)%reader_bind_inv.
  apply rlift_inv in H2 as [[-> Hu]%from_utf8_valid _].
  split; [done|]. by eapply read_bytes_u8_bound.
Qed.

Lemma read_var_string_ok what bs s rest : read_var_string what bs = Ok (s, rest) -> text_ok s.
Proof.
  unfold read_var_string. intros (b & bs' & H1 & H2)%reader_bind_inv.
  apply rlift_inv in H2 as [[-> Hu]%from_utf8_valid _].
  split; [done|]. by eapply read_bytes_varuint_bound.
Qed.

Lemma text_ok_nil : text_ok [].
Proof. split; by vm_compute. Qed.

Lemma to_u8_range z what v : to_u8 z what = Ok v -> is_u8 v.
Proof.
  unfold to_u8, u8_try_from. destruct (_ && _) eqn:E; [|done]. intros [= <-].
  to_props. unfold is_u8. lia.
Qed.

(** Inverts a successful read: one equation per bind. *)
Ltac invert_reader :=
  repeat match goal with
  | H : (_ ≫= _) _ = Ok _ |- _ =>
      let a := fresh "a" in let r := fresh "rest" in
      let H1 := fresh "Hread" in
      apply reader_bind_inv in H as (a & r & H1 & H); cbv beta in H;
      try (is_var a; destruct a as [? ?])
  | H : rlift _ _ = Ok _ |- _ => apply rlift_inv in H as [H ->]
  | H : mret _ _ = Ok _ |- _ => cbv [mret reader_ret] in H; injection H as ? ?; subst
  end.

Lemma read_name_ok v what bs s rest : read_name v what bs = Ok (s, rest) -> text_ok s.
Proof. unfold read_name. destruct v; eauto using read_string_ok, read_var_string_ok. Qed.

Lemma read_versions_ok v bs p g rest :
  read_versions v bs = Ok ((p, g), rest) -> is_u32 p /\ text_ok g.
Proof.
  unfold read_versions. destruct v; intros H; invert_reader; try done;
    (split; [|by auto using text_ok_nil || (eapply read_var_string_ok; eassumption)]);
    try apply u32_wrap_range; by vm_compute.
Qed.

Lemma read_counts_ok v bs p m g rest :
  read_counts v bs = Ok ((p, m, g), rest) -> is_i32 p /\ is_i32 m.
Proof.
  unfold read_counts. destruct v; intros H; invert_reader;
    split; solve [by eapply read_varint32_range | by eapply read_i32_range].
Qed.

Lemma read_flags_ok v bs a b s rest : read_flags v bs = Ok ((a, b, s), rest) -> text_ok s.
Proof.
  unfold read_flags. destruct v; intros H; invert_reader;
    solve [apply text_ok_nil | by eapply read_string_ok | by eapply read_var_string_ok].
Qed.

Lemma server_data_deserialize_ok bs d rest :
  server_data_deserialize bs = Ok (d, rest) -> server_data_ok d.
Proof.
  unfold server_data_deserialize. intros H.
  repeat match goal with
  | H : (_ ≫= _) _ = Ok _ |- _ =>
      apply reader_bind_inv in H as (? & ? & ? & H); cbv beta in H
  | H : (let '(_, _) := ?p in _) _ = Ok _ |- _ => destruct p
  | H : rlift _ _ = Ok _ |- _ => apply rlift_inv in H as [H ->]
  | H : read_versions _ _ = Ok _ |- _ => apply read_versions_ok in H as [? ?]
  | H : read_counts _ _ = Ok _ |- _ => apply read_counts_ok in H as [? ?]
  | H : read_flags _ _ = Ok _ |- _ => apply read_flags_ok in H
  | H : read_name _ _ _ = Ok _ |- _ => apply read_name_ok in H
  | H : to_u8 _ _ = Ok _ |- _ => apply to_u8_range in H
  end.
  cbn in H. injection H as <- _. by constructor.
Qed.

(** ** JSON string literals, as RFC 8259 reads them *)

Definition hex_val (b : byte) : option Z :=
  if in_range b 48 57 then Some (Z_of_byte b - 48)
  else if in_range b 97 102 then Some (Z_of_byte b - 87)
  else if in_range b 65 70 then Some (Z_of_byte b - 55)
  else None.

Definition hex4 (a b c d : byte) : option Z :=
  match hex_val a, hex_val b, hex_val c, hex_val d with
  | Some a, Some b, Some c, Some d => Some (4096 * a + 256 * b + 16 * c + d)
  | _, _, _, _ => None
  end.

(** The UTF-8 encoding of a code point below U+10000; surrogates are refused. *)
Definition utf8_encode (c : Z) : option bytes :=
  if c <? 0x80 then Some [byte_of_Z c]
  else if c <? 0x800 then Some [byte_of_Z (0xC0 + c / 64); byte_of_Z (0x80 + c mod 64)]
  else if (0xD800 <=? c) && (c <=? 0xDFFF) then None
  else Some [byte_of_Z (0xE0 + c / 4096); byte_of_Z (0x80 + (c / 64) mod 64);
             byte_of_Z (0x80 + c mod 64)].

Definition simple_escape (b : byte) : option byte :=
  if byte_eqb b x22 then Some x22
  else if byte_eqb b x5c then Some x5c
  else if byte_eqb b x2f then Some x2f
  else if byte_eqb b x62 then Some x08
  else if byte_eqb b x66 then Some x0c
  else if byte_eqb b x6e then Some x0a
  else if byte_eqb b x72 then Some x0d
  else if byte_eqb b x74 then Some x09
  else None.

(** Reads a string body up to its closing quote. *)
Fixpoint json_string_body (s : bytes) : option (bytes * bytes) :=
  match s with
  | [] => None
  | b :: s =>
      if byte_eqb b x22 then Some ([], s)
      else if byte_eqb b x5c then
        match s with
        | [] => None
        | e :: s =>
            if byte_eqb e x75 then
              match s with
              | h1 :: h2 :: h3 :: h4 :: s =>
                  match hex4 h1 h2 h3 h4 with
                  | Some c => match utf8_encode c, json_string_body s with
                              | Some u, Some (v, rest) => Some (u ++ v, rest)
                              | _, _ => None
                              end
                  | None => None
                  end
              | _ => None
              end
            else match simple_escape e, json_string_body s with
                 | Some u, Some (v, rest) => Some (u :: v, rest)
                 | _, _ => None
                 end
        end
      else if Z_of_byte b <? 0x20 then None
      else match json_string_body s with
           | Some (v, rest) => Some (b :: v, rest)
           | None => None
           end
  end.

Definition json_string (s : bytes) : option (bytes * bytes) :=
  match s with
  | b :: s => if byte_eqb b x22 then json_string_body s else None
  | [] => None
  end.

Lemma json_string_body_char b v rest s :
  json_string_body s = Some (v, rest) ->
  json_string_body (escape_char b ++ s) = Some (b :: v, rest).
Proof. intros H. destruct b; cbn; by rewrite H. Qed.

Lemma json_string_escape v tail : json_string (escape v ++ tail) = Some (v, tail).
Proof.
  unfold escape. rewrite <- !app_assoc. cbn [app json_string]. rewrite byte_eqb_refl.
  induction v as [|b v IH]; [done|].
  rewrite fmap_cons. cbn [mjoin list_join]. rewrite <- app_assoc.
  by apply json_string_body_char.
Qed.

(** ** Properties *)

(** A server record whose texts are UTF-8 of at most 65535 bytes and whose
    transport layer is the one version 7 implies survives the discovery
    encoding, field by field. *)
Theorem server_data_roundtrip (d : ServerData) :
  server_data_wf d ->
  exists bs, server_data_serialize d = Ok bs /\ server_data_decode bs = Ok d.
Proof.
  intros Hd. destruct (server_data_serialize_Ok d) as [bs Hbs]. exists bs. split; [done|].
  unfold server_data_decode. rewrite <- (app_nil_r bs).
  by rewrite (server_data_deserialize_serialize d bs []).
Qed.

Definition sample_server : ServerData :=
  {| server_name := str "server"; level_name := str "world"; game_type := 2;
     player_count := 1; max_player_count := 8; editor_world := false; hardcore := true;
     flag_a := true; flag_b := true; session_id := str "nonce"; transport_layer := 2;
     connection_type := 4; protocol_version := 2181; game_version := str "1.26.50" |}.

Lemma sample_server_wf : server_data_wf sample_server.
Proof.
  split; [|done]. constructor; cbn;
    first [ split; by vm_compute | split; vm_compute; congruence ].
Qed.

Lemma server_data_roundtrip_witness :
  exists bs, server_data_serialize sample_server = Ok bs /\
             server_data_decode bs = Ok sample_server.
Proof. apply (server_data_roundtrip sample_server). exact sample_server_wf. Defined.

(** Decoding a server record never panics, whatever the bytes; an accepted
    record has valid UTF-8 texts of at most 65535 bytes and integers within
    the types of its fields. *)
Theorem server_data_decode_safe (input : bytes) :
  match server_data_decode input with
  | Ok d => server_data_ok d
  | Err _ => True
  | Panic => False
  end.
Proof.
  unfold server_data_decode. pose proof (server_data_deserialize_no_panic input) as Hp.
  destruct (server_data_deserialize input) as [[d rest]|e|] eqn:E; [|done|by apply Hp].
  destruct (blen rest =? 0); [|done]. by eapply server_data_deserialize_ok.
Qed.

(** The strings of the JSON status body are well formed: a JSON reader gets
    back exactly the server's text and stops at the closing quote, so no
    name can break out of its field. *)
Theorem escape_roundtrip (value tail : bytes) :
  json_string (escape value ++ tail) = Some (value, tail).
Proof. apply json_string_escape. Qed.

(** The version 7 test vector of the crate. *)
Example v7_known_encoding :
  server_data_serialize sample_server =
  Ok ([x07; x06] ++ str "server" ++ [x8a; x22; x07] ++ str "1.26.50" ++ [x05]
      ++ str "world" ++ [x02; x10; x04; x00; x01; x01; x01; x05] ++ str "nonce" ++ [x08]).
Proof. vm_compute. reflexivity. Qed.

Example v5_known_decoding :
  server_data_decode ([x05; x06] ++ str "server" ++ [x05] ++ str "world"
    ++ [x04; x01; x00; x00; x00; x08; x00; x00; x00; x00; x01; x01; x01; x04; x08]) =
  Ok {| server_name := str "server"; level_name := str "world"; game_type := 2;
        player_count := 1; max_player_count := 8; editor_world := false; hardcore := true;
        flag_a := true; flag_b := true; session_id := []; transport_layer := 2;
        connection_type := 4; protocol_version := 0; game_version := [] |}.
Proof. vm_compute. reflexivity. Qed.

Example pong_sample :
  from_pong_data (str "MCPE;Dedicated Server;800;1.21.0;3;10;1325;Bedrock level;Creative;1;") =
  Ok {| server_name := str "Dedicated Server"; level_name := str "Bedrock level";
        game_type := 1; player_count := 3; max_player_count := 10; editor_world := false;
        hardcore := false; flag_a := true; flag_b := true; session_id := [];
        transport_layer := 2; connection_type := 4; protocol_version := 800;
        game_version := str "1.21.0" |}.
Proof. vm_compute. reflexivity. Qed.
