(* ===== verification/Discovery.v ===== *)
(** * Discovery: encrypted LAN discovery datagrams
    ([protocol/packet/discovery/{packet,request,response,message,crypto}.rs])

    The primitives of the [sha2], [aes], [hmac] and [hex] crates are the
    operations of a class, with the documented facts the code relies on as its
    laws; block chaining, padding, framing and dispatch are modelled. *)
From S2P Require Import Prelude Text Errors Codec ServerDataModel.

(** ** Foreign primitives *)

Class CryptoOps := {
  sha256 : bytes -> bytes;
  aes256_encrypt_block : bytes -> bytes -> bytes;
  aes256_decrypt_block : bytes -> bytes -> bytes;
  hmac_sha256 : bytes -> bytes -> bytes;
  hex_encode : bytes -> bytes;
  hex_encode_to_slice : bytes -> Z -> option bytes;
  hex_decode : bytes -> option bytes;
}.

(** Documented behaviour: AES is a permutation of 16-byte blocks under each
    key, digests have 32 bytes, hex writes two digits per byte. *)
Class CryptoLaws (ops : CryptoOps) := {
  sha256_length data : length (sha256 data) = 32%nat;
  aes256_encrypt_length key block :
    length block = 16%nat -> length (aes256_encrypt_block key block) = 16%nat;
  aes256_decrypt_encrypt key block :
    length block = 16%nat ->
    aes256_decrypt_block key (aes256_encrypt_block key block) = block;
  aes256_decrypt_length key block :
    length block = 16%nat -> length (aes256_decrypt_block key block) = 16%nat;
  hmac_sha256_length key data : length (hmac_sha256 key data) = 32%nat;
  hex_encode_app a b : hex_encode (a ++ b) = hex_encode a ++ hex_encode b;
  hex_encode_length a : length (hex_encode a) = (2 * length a)%nat;
  hex_decode_encode a : hex_decode (hex_encode a) = Some a;
  hex_encode_to_slice_exact a :
    hex_encode_to_slice a (blen a * 2) = Some (hex_encode a);
}.

Section discovery.
Context {ops : CryptoOps}.

(** ** [crypto.rs] *)

Definition BLOCK_SIZE : nat := 16.

Definition ENCRYPTION_KEY : bytes := sha256 (le_bytes 8 0xdeadbeef).

(** [encrypt_blocks]/[decrypt_blocks] over the first [n] whole blocks. *)
Fixpoint map_blocks (f : bytes -> bytes) (n : nat) (buf : bytes) : bytes :=
  match n with
  | O => buf
  | S n => f (take BLOCK_SIZE buf) ++ map_blocks f n (drop BLOCK_SIZE buf)
  end.

Definition blocks (buf : bytes) : nat := (length buf / BLOCK_SIZE)%nat.

Definition encrypt (buf : bytes) : Res ProtocolError bytes :=
  let data_len := length buf in
  let padding_len := (BLOCK_SIZE - data_len mod BLOCK_SIZE)%nat in
  let buf := buf ++ replicate padding_len (byte_of_Z (Z.of_nat padding_len)) in
  Ok (map_blocks (aes256_encrypt_block ENCRYPTION_KEY) (blocks buf) buf).

(** The accumulator of the constant-time padding comparison. *)
Definition mismatched (padding_len : Z) (tail : bytes) : Z :=
  fold_left (fun acc b => Z.lor acc (Z.lxor (Z_of_byte b) padding_len)) tail 0.

Definition decrypt (buf : bytes) : Res ProtocolError bytes :=
  if (length buf =? 0)%nat || negb (length buf mod BLOCK_SIZE =? 0)%nat
  then Err (Other (str "Invalid encrypted data length"))
  else
    let buf := map_blocks (aes256_decrypt_block ENCRYPTION_KEY) (blocks buf) buf in
    let data_len := length buf in
    let invalid := Err (Other (str "Invalid padding")) in
    match list.last buf with
    | None => invalid
    | Some b =>
        let padding_len := Z_of_byte b in
        if (padding_len >? 0)
           && (padding_len <=? Z.of_nat (Nat.min BLOCK_SIZE data_len))
        then
          let padding_start := (data_len - Z.to_nat padding_len)%nat in
          if mismatched padding_len (drop padding_start buf) =? 0
          then Ok (take padding_start buf)
          else invalid
        else invalid
    end.

Definition compute_checksum (data : bytes) : bytes := hmac_sha256 ENCRYPTION_KEY data.

Definition verify_checksum (data expected : bytes) : bool :=
  bytes_eqb (hmac_sha256 ENCRYPTION_KEY data) expected.

(** ** Packet bodies *)

Record RequestPacket := request_packet {}.

#[export] Instance RequestPacket_codec : NetherCodec RequestPacket := {|
  serialize _ := Ok [];
  deserialize := mret request_packet;
  size_hint _ := 0;
|}.

Record ResponsePacket := { application_data : bytes }.

Definition response_new (data : bytes) : ResponsePacket := {| application_data := data |}.

(** [chunks(512)]. *)
Fixpoint chunks (n : nat) (fuel : nat) (l : bytes) : list bytes :=
  match fuel with
  | O => []
  | S fuel => match l with
              | [] => []
              | _ => take n l :: chunks n fuel (drop n l)
              end
  end.

Definition write_hex_chunk (chunk : bytes) : Res ProtocolError bytes :=
  ok_or (Other (str "hex encode error: ")) (hex_encode_to_slice chunk (blen chunk * 2)).

Definition response_serialize (p : ResponsePacket) : Res ProtocolError bytes :=
  let data := application_data p in
  wseq [Ok (write_u32 (u32_wrap (blen data * 2)));
        wseq (write_hex_chunk <$> chunks 512 (length data) data)].

Definition response_deserialize : reader ProtocolError ResponsePacket :=
  hex_data ← read_bytes_u32;
  data ← rlift (ok_or (Other (str "hex decode error: ")) (hex_decode hex_data));
  mret (response_new data).

#[export] Instance ResponsePacket_codec : NetherCodec ResponsePacket := {|
  serialize := response_serialize;
  deserialize := response_deserialize;
  size_hint p := 4 + blen (application_data p) * 2;
|}.

Record MessagePacket := { recipient_id : Z; message_data : bytes }.

Definition message_packet_new (recipient : Z) (data : bytes) : MessagePacket :=
  {| recipient_id := recipient; message_data := data |}.

Definition message_serialize (p : MessagePacket) : Res ProtocolError bytes :=
  wseq [Ok (write_u64 (recipient_id p)); write_bytes_u32 (message_data p)].

Definition message_deserialize : reader ProtocolError MessagePacket :=
  recipient ← read_u64;
  bs ← read_bytes_u32;
  data ← rlift (if utf8_valid bs then Ok bs else Err (Other (str "invalid UTF-8: ")));
  mret (message_packet_new recipient data).

#[export] Instance MessagePacket_codec : NetherCodec MessagePacket := {|
  serialize := message_serialize;
  deserialize := message_deserialize;
  size_hint p := 8 + 4 + blen (message_data p);
|}.

(** ** Header and datagram *)

Record Header := { packet_id : Z; sender_id : Z }.

Definition header_serialize (h : Header) : Res ProtocolError bytes :=
  wseq [Ok (write_u16 (packet_id h)); Ok (write_u64 (sender_id h)); Ok (replicate 8 x00)].

Definition header_deserialize : reader ProtocolError Header :=
  packet_id ← read_u16;
  sender_id ← read_u64;
  _ ← read_exact 8;
  mret {| packet_id := packet_id; sender_id := sender_id |}.

#[export] Instance Header_codec : NetherCodec Header := {|
  serialize := header_serialize;
  deserialize := header_deserialize;
  size_hint _ := 2 + 8 + 8;
|}.

Inductive Packets :=
| Request (p : RequestPacket)
| Response (p : ResponsePacket)
| Message (p : MessagePacket).

Definition packets_id (p : Packets) : Z :=
  match p with
  | Request _ => ID_REQUEST_PACKET
  | Response _ => ID_RESPONSE_PACKET
  | Message _ => ID_MESSAGE_PACKET
  end.

Definition packets_serialize (p : Packets) : Res ProtocolError bytes :=
  match p with
  | Request p => serialize p
  | Response p => serialize p
  | Message p => serialize p
  end.

Definition encode (packet : Packets) (sender : Z) : Res ProtocolError bytes :=
  head ← serialize {| packet_id := packets_id packet; sender_id := sender |};
  body ← packets_serialize packet;
  let payload := replicate 2 x00 ++ head ++ body in
  let data_len := blen payload - 2 in
  if data_len >? u16_max then Err (MessageSizeExceeded data_len)
  else
    let payload := write_u16 data_len ++ drop 2 payload in
    let checksum := compute_checksum payload in
    payload ← encrypt payload;
    mret (checksum ++ payload).

(** The body that follows a header with the given id. *)
Definition packets_deserialize (id : Z) : reader ProtocolError Packets :=
  if id =? ID_REQUEST_PACKET then p ← deserialize; mret (Request p)
  else if id =? ID_RESPONSE_PACKET then p ← deserialize; mret (Response p)
  else if id =? ID_MESSAGE_PACKET then p ← deserialize; mret (Message p)
  else rlift (Err (Other (str "unknown packet ID: " ++ dec id))).

Definition read_datagram : reader ProtocolError (Packets * Z) :=
  _ ← read_u16;
  header ← deserialize;
  packet ← packets_deserialize (packet_id header);
  mret (packet, sender_id header).

Definition decode (data : bytes) : Res ProtocolError (Packets * Z) :=
  if blen data <? 32 then Err (Other (str "packet too short"))
  else
    let checksum := take 32 data in
    payload ← decrypt (drop 32 data);
    if negb (verify_checksum payload checksum)
    then Err (Other (str "checksum mismatch"))
    else
      '(packet, rest) ← read_datagram payload;
      if blen rest =? 0 then Ok packet
      else Err (Other (str "trailing data in packet: " ++ dec (blen rest)
                       ++ str " remaining bytes out of " ++ dec (blen payload)
                       ++ str " total payload bytes")).

End discovery.

Section discovery_laws.
Context {ops : CryptoOps} {laws : CryptoLaws ops}.

(** ** Encryption *)

Lemma map_blocks_inverse f g n buf :
  (forall block, length block = BLOCK_SIZE -> length (f block) = BLOCK_SIZE) ->
  (forall block, length block = BLOCK_SIZE -> g (f block) = block) ->
  length buf = (BLOCK_SIZE * n)%nat ->
  map_blocks g n (map_blocks f n buf) = buf.
Proof.
  intros Hf Hg. revert buf. induction n as [|n IH]; intros buf Hlen; [done|].
  assert (Ht : length (take BLOCK_SIZE buf) = BLOCK_SIZE) by (rewrite length_take; lia).
  cbn [map_blocks]. rewrite take_app_length', drop_app_length' by (symmetry; by apply Hf).
  rewrite Hg, IH by (rewrite ?length_drop; lia). apply take_drop.
Qed.

Lemma length_map_blocks f n buf :
  (forall block, length block = BLOCK_SIZE -> length (f block) = BLOCK_SIZE) ->
  (BLOCK_SIZE * n <= length buf)%nat ->
  length (map_blocks f n buf) = length buf.
Proof.
  intros Hf. revert buf. induction n as [|n IH]; intros buf Hlen; [done|].
  assert (Ht : length (take BLOCK_SIZE buf) = BLOCK_SIZE) by (rewrite length_take; lia).
  cbn [map_blocks]. rewrite length_app, Hf, IH by (rewrite ?length_drop; lia).
  rewrite length_drop. lia.
Qed.

Lemma mismatched_replicate p n :
  mismatched (Z_of_byte p) (replicate n p) = 0.
Proof.
  unfold mismatched. induction n as [|n IH]; [done|].
  cbn [replicate fold_left]. by rewrite Z.lxor_nilpotent, Z.lor_0_l.
Qed.

(** The padded buffer is a whole number of blocks. *)
Lemma padded_blocks (buf : bytes) :
  let p := (BLOCK_SIZE - length buf mod BLOCK_SIZE)%nat in
  (1 <= p <= BLOCK_SIZE)%nat /\
  exists n, (length buf + p)%nat = (BLOCK_SIZE * S n)%nat.
Proof.
  cbn zeta. unfold BLOCK_SIZE.
  pose proof (Nat.mod_upper_bound (length buf) 16 ltac:(lia)).
  pose proof (Nat.div_mod_eq (length buf) 16).
  split; [lia|]. exists (length buf / 16)%nat. lia.
Qed.

Lemma decrypt_encrypt buf c : encrypt buf = Ok c -> decrypt c = Ok buf.
Proof.
  unfold encrypt. destruct (padded_blocks buf) as [Hp [n Hn]].
  set (p := (BLOCK_SIZE - length buf mod BLOCK_SIZE)%nat) in *.
  set (padded := buf ++ _).
  assert (Hlen : length padded = (BLOCK_SIZE * S n)%nat).
  { unfold padded. by rewrite length_app, length_replicate. }
  assert (Hblocks : blocks padded = S n).
  { unfold blocks. rewrite Hlen, Nat.mul_comm. by apply Nat.div_mul. }
  intros [= <-]. rewrite Hblocks.
  set (enc := aes256_encrypt_block ENCRYPTION_KEY).
  set (c := map_blocks enc (S n) padded).
  assert (Hc : length c = (BLOCK_SIZE * S n)%nat).
  { unfold c. rewrite length_map_blocks; [done| |lia]. intros. by apply aes256_encrypt_length. }
  assert (Hback : map_blocks (aes256_decrypt_block ENCRYPTION_KEY) (S n) c = padded).
  { apply map_blocks_inverse; [| |done]; intros.
    - by apply aes256_encrypt_length.
    - by apply aes256_decrypt_encrypt. }
  unfold decrypt. rewrite Hc, Nat.mul_comm, Nat.Div0.mod_mul.
  cbn [Nat.eqb negb orb Nat.mul BLOCK_SIZE Nat.add].
  replace (blocks c) with (S n).
  2: { unfold blocks. rewrite Hc, Nat.mul_comm. by rewrite Nat.div_mul. }
  rewrite Hback, Hlen. set (pb := byte_of_Z (Z.of_nat p)).
  assert (Hpb : Z_of_byte pb = Z.of_nat p).
  { unfold pb. apply Z_of_byte_small. unfold BLOCK_SIZE in *. lia. }
  assert (Hlast : list.last padded = Some pb).
  { unfold padded. fold pb. destruct p as [|p']; [lia|].
    change (replicate (S p') pb) with (pb :: replicate p' pb).
    rewrite replicate_cons_app, app_assoc. apply last_snoc. }
  rewrite Hlast. cbv beta zeta. rewrite Hpb.
  destruct (Z.of_nat p >? 0) eqn:E1; [|to_props; lia].
  destruct (Z.of_nat p <=? _) eqn:E2; [|to_props; unfold BLOCK_SIZE in *; lia].
  cbn [andb]. rewrite Nat2Z.id.
  replace (BLOCK_SIZE * S n - p)%nat with (length buf) by lia.
  unfold padded. rewrite drop_app_length, take_app_length. fold pb.
  rewrite <- Hpb, mismatched_replicate. done.
Qed.

(** ** Codecs of the packet bodies *)

#[export] Instance RequestPacket_lawful : LawfulCodec RequestPacket (fun _ => True).
Proof. constructor. by intros [] bs tail _ [= <-]. Qed.

Lemma hex_encode_nil : hex_encode [] = [].
Proof.
  pose proof (hex_encode_length []) as H. by destruct (hex_encode []).
Qed.

Lemma write_hex_chunk_Ok chunk : write_hex_chunk chunk = Ok (hex_encode chunk).
Proof. unfold write_hex_chunk. by rewrite hex_encode_to_slice_exact. Qed.

Lemma wseq_hex_chunks fuel data :
  (length data <= fuel)%nat ->
  wseq (write_hex_chunk <$> chunks 512 fuel data) = Ok (hex_encode data).
Proof.
  revert data. induction fuel as [|fuel IH]; intros data Hlen.
  { destruct data; cbn in Hlen; [|lia]. cbn. by rewrite hex_encode_nil. }
  destruct data as [|b data]; [cbn; by rewrite hex_encode_nil|].
  cbn [chunks]. rewrite fmap_cons. cbn [wseq].
  rewrite write_hex_chunk_Ok, res_bind_Ok, IH by (rewrite length_drop; cbn [length] in *; lia).
  rewrite res_bind_Ok. cbv [mret res_ret]. by rewrite <- hex_encode_app, take_drop.
Qed.

Definition response_wf (p : ResponsePacket) : Prop :=
  blen (application_data p) * 2 <= MAX_BYTES.

Lemma blen_hex_encode a : blen (hex_encode a) = blen a * 2.
Proof. unfold blen. rewrite hex_encode_length. lia. Qed.

Lemma response_serialize_Ok p :
  response_serialize p =
  Ok (write_u32 (u32_wrap (blen (application_data p) * 2)) ++ hex_encode (application_data p)).
Proof.
  unfold response_serialize. cbn [wseq]. rewrite wseq_hex_chunks by done.
  cbn. by rewrite app_nil_r.
Qed.

#[export] Instance ResponsePacket_lawful : LawfulCodec ResponsePacket response_wf.
Proof.
  constructor. intros p bs tail Hwf H. cbn [serialize ResponsePacket_codec] in H. rewrite response_serialize_Ok in H.
  assert (bs = write_u32 (u32_wrap (blen (application_data p) * 2))
               ++ hex_encode (application_data p)) as -> by congruence.
  unfold response_wf, MAX_BYTES in Hwf. pose proof (blen_nonneg (application_data p)).
  rewrite u32_wrap_id, <- app_assoc by (unfold is_u32; lia).
  rewrite <- blen_hex_encode. cbn [deserialize ResponsePacket_codec]. unfold response_deserialize.
  erewrite reader_bind_Ok.
  2: { unfold read_bytes_u32. erewrite reader_bind_Ok.
       2: { apply read_u32_write. rewrite blen_hex_encode. unfold is_u32. lia. }
       apply read_len_bytes_app. rewrite blen_hex_encode. unfold MAX_BYTES. lia. }
  cbv beta. rewrite hex_decode_encode. cbn. by destruct p.
Qed.

Definition message_packet_ok (p : MessagePacket) : Prop :=
  is_u64 (recipient_id p) /\ utf8_valid (message_data p) = true.

#[export] Instance MessagePacket_lawful : LawfulCodec MessagePacket message_packet_ok.
Proof.
  constructor. intros p bs tail [Hr Hu] H. cbn [serialize MessagePacket_codec] in H. unfold message_serialize in H.
  invert_wseq. rewrite app_nil_r, <- app_assoc. cbn [deserialize MessagePacket_codec].
  unfold message_deserialize.
  erewrite reader_bind_Ok by (by apply read_u64_write).
  erewrite reader_bind_Ok by (by apply read_bytes_u32_write).
  rewrite Hu. cbn. by destruct p.
Qed.

Definition header_ok (h : Header) : Prop := is_u16 (packet_id h) /\ is_u64 (sender_id h).

#[export] Instance Header_lawful : LawfulCodec Header header_ok.
Proof.
  constructor. intros h bs tail [Hp Hs] H. cbn [serialize Header_codec] in H. unfold header_serialize in H.
  invert_wseq. rewrite app_nil_r, <- !app_assoc. cbn [deserialize Header_codec].
  unfold header_deserialize.
  erewrite reader_bind_Ok by (by apply read_u16_write).
  erewrite reader_bind_Ok by (by apply read_u64_write).
  erewrite reader_bind_Ok by (by apply read_exact_app).
  by destruct h.
Qed.
End discovery_laws.

(** ** Datagrams *)

Section datagram.
Context {ops : CryptoOps} {laws : CryptoLaws ops}.

Definition packet_ok (p : Packets) : Prop :=
  match p with Message p => message_packet_ok p | _ => True end.

Lemma packets_id_u16 p : is_u16 (packets_id p).
Proof. by destruct p. Qed.

Lemma header_serialize_Ok h :
  header_serialize h = Ok (write_u16 (packet_id h) ++ write_u64 (sender_id h) ++ replicate 8 x00).
Proof. done. Qed.

Lemma blen_header h bs : header_serialize h = Ok bs -> blen bs = 18.
Proof. rewrite header_serialize_Ok. by intros [= <-]. Qed.

(** The whole datagram that a successful [encode] builds. *)
Lemma encode_inv packet sender buf :
  encode packet sender = Ok buf ->
  exists head body payload enc,
    serialize {| packet_id := packets_id packet; sender_id := sender |} = Ok head /\
    packets_serialize packet = Ok body /\
    payload = write_u16 (18 + blen body) ++ head ++ body /\
    18 + blen body <= u16_max /\
    encrypt payload = Ok enc /\ buf = compute_checksum payload ++ enc.
Proof.
  unfold encode. intros H.
  apply res_bind_inv in H as (head & Hh & H). apply res_bind_inv in H as (body & Hb & H).
  cbv zeta in H.
  assert (Hl : blen (replicate 2 x00 ++ head ++ body) - 2 = 18 + blen body).
  { rewrite !blen_app, (blen_header _ _ Hh). change (blen (replicate 2 x00)) with 2. lia. }
  rewrite Hl in H. destruct (_ >? u16_max) eqn:E; [done|]. to_props.
  change (drop 2 (replicate 2 x00 ++ head ++ body)) with (head ++ body) in H.
  apply res_bind_inv in H as (enc & He & <-%Ok_inj).
  by exists head, body, (write_u16 (18 + blen body) ++ head ++ body), enc.
Qed.

(** A response that fits a datagram fits its length-prefixed field. *)
Lemma response_fits p body :
  serialize p = Ok body -> 18 + blen body <= u16_max -> response_wf p.
Proof.
  cbn [serialize ResponsePacket_codec]. rewrite response_serialize_Ok. intros <-%Ok_inj.
  rewrite blen_app, blen_hex_encode. unfold write_u32. rewrite blen_le_bytes.
  unfold response_wf, u16_max, MAX_BYTES. lia.
Qed.

Lemma packets_roundtrip packet body tail :
  packet_ok packet -> packets_serialize packet = Ok body -> 18 + blen body <= u16_max ->
  packets_deserialize (packets_id packet) (body ++ tail) = Ok (packet, tail).
Proof.
  intros Hok Hser Hlen. unfold packets_deserialize.
  destruct packet as [p|p|p]; cbn [packets_id packets_serialize] in *; cbn -[deserialize].
  - by erewrite reader_bind_Ok by (by eapply deserialize_serialize).
  - by erewrite reader_bind_Ok
      by (eapply deserialize_serialize; [by eapply response_fits|exact Hser]).
  - by erewrite reader_bind_Ok by (by eapply deserialize_serialize).
Qed.

Lemma read_datagram_written packet sender head body :
  packet_ok packet -> is_u64 sender ->
  serialize {| packet_id := packets_id packet; sender_id := sender |} = Ok head ->
  packets_serialize packet = Ok body -> 18 + blen body <= u16_max ->
  read_datagram (write_u16 (18 + blen body) ++ head ++ body) = Ok ((packet, sender), []).
Proof.
  intros Hok Hs Hh Hb Hlen. unfold read_datagram.
  erewrite reader_bind_Ok.
  2: { apply read_u16_write. pose proof (blen_nonneg body). unfold is_u16, u16_max in *. lia. }
  erewrite reader_bind_Ok.
  2: { eapply deserialize_serialize; [|exact Hh]. split; [apply packets_id_u16|done]. }
  cbn [packet_id sender_id]. rewrite <- (app_nil_r body).
  by erewrite reader_bind_Ok by (by apply packets_roundtrip).
Qed.

Lemma decode_encode packet sender buf :
  packet_ok packet -> is_u64 sender ->
  encode packet sender = Ok buf -> decode buf = Ok (packet, sender).
Proof.
  intros Hok Hs (head & body & payload & enc & Hh & Hb & -> & Hlen & He & ->)%encode_inv.
  unfold decode. rewrite blen_app.
  assert (Hc : length (compute_checksum (write_u16 (18 + blen body) ++ head ++ body)) = 32%nat)
    by apply hmac_sha256_length.
  unfold blen at 1. rewrite Hc. pose proof (blen_nonneg enc).
  destruct (_ <? 32) eqn:E; [to_props; lia|].
  rewrite take_app_length', drop_app_length' by done.
  rewrite (decrypt_encrypt _ _ He), res_bind_Ok.
  unfold verify_checksum, compute_checksum, bytes_eqb.
  rewrite bool_decide_eq_true_2 by done. cbn [negb].
  by rewrite (read_datagram_written packet sender).
Qed.

(** ** Totality *)

Lemma res_bind_no_panic {A B} (m : Res ProtocolError A) (f : A -> Res ProtocolError B) :
  no_panic m -> (forall a, no_panic (f a)) -> no_panic (m ≫= f).
Proof. unfold no_panic. by destruct m; cbn. Qed.

Lemma decrypt_no_panic buf : no_panic (decrypt buf).
Proof. unfold decrypt, no_panic. by repeat split_match. Qed.

Lemma packets_deserialize_no_panic id bs : no_panic (packets_deserialize id bs).
Proof.
  unfold packets_deserialize.
  repeat match goal with |- context [if ?c then _ else _] => destruct c end;
    [..|done]; apply reader_bind_no_panic; try (intros; apply reader_ret_no_panic); intros bs'.
  - cbn [deserialize ResponsePacket_codec]. unfold response_deserialize.
    apply reader_bind_no_panic; [apply read_bytes_u32_no_panic|intros ? ?].
    apply reader_bind_no_panic; [|intros; apply reader_ret_no_panic].
    intros ?. apply rlift_no_panic. by destruct (hex_decode _).
  - cbn [deserialize MessagePacket_codec]. unfold message_deserialize.
    apply reader_bind_no_panic; [apply read_le_no_panic|intros ? ?].
    apply reader_bind_no_panic; [apply read_bytes_u32_no_panic|intros ? ?].
    apply reader_bind_no_panic; [|intros; apply reader_ret_no_panic].
    intros ?. apply rlift_no_panic. by destruct (utf8_valid _).
Qed.

Lemma header_deserialize_no_panic bs : no_panic (header_deserialize bs).
Proof. unfold header_deserialize. no_panic_reader. Qed.

Lemma read_datagram_no_panic bs : no_panic (read_datagram bs).
Proof.
  unfold read_datagram.
  apply reader_bind_no_panic; [apply read_le_no_panic|intros ? ?].
  apply reader_bind_no_panic; [apply header_deserialize_no_panic|intros ? ?].
  apply reader_bind_no_panic; [apply packets_deserialize_no_panic|intros ? ?].
  apply reader_ret_no_panic.
Qed.

Lemma decode_no_panic data : no_panic (decode data).
Proof.
  unfold decode. destruct (_ <? 32); [done|].
  apply res_bind_no_panic; [apply decrypt_no_panic|intros payload].
  destruct (negb _); [done|].
  apply res_bind_no_panic; [apply read_datagram_no_panic|intros [packet rest]].
  by destruct (_ =? 0).
Qed.

Lemma packets_deserialize_ok id bs p rest :
  packets_deserialize id bs = Ok (p, rest) -> packet_ok p.
Proof.
  unfold packets_deserialize.
  repeat match goal with |- context [if ?c then _ else _] => destruct c end; [..|done];
    intros (q & r & Hq & [= <- _])%reader_bind_inv; try done.
  cbn [deserialize MessagePacket_codec] in Hq. unfold message_deserialize in Hq.
  apply reader_bind_inv in Hq as (rid & r1 & Hr & Hq).
  apply reader_bind_inv in Hq as (d & r2 & Hd & Hq).
  apply reader_bind_inv in Hq as (d' & r3 & Hu & [= <- _]).
  apply rlift_inv in Hu as [Hu _]. destruct (utf8_valid d) eqn:E; [|done].
  injection Hu as <-. split; [|done]. by apply read_le_split in Hr as [_ ?].
Qed.

Lemma decode_inv data p s :
  decode data = Ok (p, s) ->
  32 <= blen data /\
  exists payload,
    decrypt (drop 32 data) = Ok payload /\
    take 32 data = compute_checksum payload /\
    read_datagram payload = Ok ((p, s), []).
Proof.
  unfold decode. destruct (blen data <? 32) eqn:E; [done|]. to_props. intros H.
  apply res_bind_inv in H as (payload & Hd & H). split; [done|]. exists payload.
  destruct (verify_checksum _ _) eqn:Ev; cbn [negb] in H; [|done].
  unfold verify_checksum, bytes_eqb in Ev. to_props.
  apply res_bind_inv in H as ([q rest] & Hr & H).
  destruct (blen rest =? 0) eqn:El; [|done]. injection H as ->. to_props.
  apply blen_zero_nil in El as ->. done.
Qed.

Lemma decode_ok data p s : decode data = Ok (p, s) -> packet_ok p /\ is_u64 s.
Proof.
  intros (_ & payload & _ & _ & Hr)%decode_inv. unfold read_datagram in Hr.
  apply reader_bind_inv in Hr as (len & r1 & _ & Hr).
  apply reader_bind_inv in Hr as (h & r2 & Hh & Hr).
  apply reader_bind_inv in Hr as (q & r3 & Hq & Hr). cbv [mret reader_ret] in Hr.
  injection Hr as -> <- _. split; [by eapply packets_deserialize_ok|].
  cbn [deserialize Header_codec] in Hh. unfold header_deserialize in Hh.
  apply reader_bind_inv in Hh as (pid & r4 & _ & Hh).
  apply reader_bind_inv in Hh as (sid & r5 & Hs & Hh).
  apply reader_bind_inv in Hh as (pad & r6 & _ & [= <- _]). cbn.
  by apply read_le_split in Hs as [_ ?].
Qed.

(** ** Encoding never panics *)

Lemma wseq_no_panic (ws : list (Res ProtocolError bytes)) :
  Forall no_panic ws -> no_panic (wseq ws).
Proof.
  induction 1 as [|w ws Hw Hws IH]; [done|]. cbn [wseq].
  apply res_bind_no_panic; [done|]. intros. apply res_bind_no_panic; done.
Qed.

Lemma packets_serialize_no_panic p : no_panic (packets_serialize p).
Proof.
  destruct p as [p|p|p]; cbn [packets_serialize serialize]; [done|..].
  - cbn [ResponsePacket_codec]. apply wseq_no_panic. repeat constructor; [done|].
    apply wseq_no_panic, Forall_fmap. apply list.Forall_true. intros chunk. cbn.
    unfold write_hex_chunk. by destruct (hex_encode_to_slice _ _).
  - cbn [MessagePacket_codec]. apply wseq_no_panic. repeat constructor; [done|].
    unfold write_bytes_u32. by case_match.
Qed.

Lemma encode_no_panic packet sender : no_panic (encode packet sender).
Proof.
  unfold encode. apply res_bind_no_panic; [done|]. intros head.
  apply res_bind_no_panic; [apply packets_serialize_no_panic|]. intros body.
  cbv zeta. case_match; done.
Qed.

Lemma encode_request_Ok sender : exists buf, encode (Request request_packet) sender = Ok buf.
Proof. eexists. reflexivity. Qed.
End datagram.

(** ** A concrete instance

    Blocks are XORed with the key, digests are the folded sum of the input;
    hex is the lower-case encoding.  It shows that the laws can hold and lets
    the examples run; it is not meant to be secure. *)

Definition xor_byte (a b : byte) : byte := byte_of_Z (Z.lxor (Z_of_byte a) (Z_of_byte b)).

Definition toy_digest (data : bytes) : bytes :=
  replicate 32 (byte_of_Z (fold_left (fun acc b => acc * 31 + Z_of_byte b) data 7)).

Definition toy_block (key block : bytes) : bytes :=
  xor_byte (default x00 (head key)) <$> block.

Definition toy_hex (data : bytes) : bytes :=
  mjoin ((fun b => [hex_lower (Z_of_byte b / 16); hex_lower (Z_of_byte b mod 16)]) <$> data).

Fixpoint toy_unhex (data : bytes) : option bytes :=
  match data with
  | [] => Some []
  | a :: b :: data =>
      match hex_val a, hex_val b, toy_unhex data with
      | Some a, Some b, Some r => Some (byte_of_Z (16 * a + b) :: r)
      | _, _, _ => None
      end
  | _ => None
  end.

#[local] Instance toy_crypto : CryptoOps := {|
  sha256 := toy_digest;
  aes256_encrypt_block := toy_block;
  aes256_decrypt_block := toy_block;
  hmac_sha256 key data := toy_digest (key ++ data);
  hex_encode := toy_hex;
  hex_encode_to_slice data len := if len =? blen data * 2 then Some (toy_hex data) else None;
  hex_decode := toy_unhex;
|}.

Lemma xor_byte_involutive k b : xor_byte k (xor_byte k b) = b.
Proof.
  unfold xor_byte. apply Z_of_byte_inj.
  pose proof (Z_of_byte_range b). pose proof (Z_of_byte_range k).
  assert (H1 : Z.lxor (Z_of_byte k) (Z_of_byte b) < 256).
  { destruct (decide (Z.lxor (Z_of_byte k) (Z_of_byte b) = 0)) as [->|]; [lia|].
    assert (0 <= Z.lxor (Z_of_byte k) (Z_of_byte b)) by (apply Z.lxor_nonneg; lia).
    apply (Z.log2_lt_pow2 _ 8); [lia|]. eapply Z.le_lt_trans; [apply Z.log2_lxor; lia|].
    apply Z.max_lub_lt.
    - destruct (decide (Z_of_byte k = 0)) as [->|]; [done|]. apply Z.log2_lt_pow2; lia.
    - destruct (decide (Z_of_byte b = 0)) as [->|]; [done|]. apply Z.log2_lt_pow2; lia. }
  assert (H2 : 0 <= Z.lxor (Z_of_byte k) (Z_of_byte b)) by (apply Z.lxor_nonneg; lia).
  rewrite (Z_of_byte_small (Z.lxor (Z_of_byte k) (Z_of_byte b))) by lia.
  rewrite <- Z.lxor_assoc, Z.lxor_nilpotent, Z.lxor_0_l. apply Z_of_byte_small. lia.
Qed.

Lemma toy_block_involutive key block : toy_block key (toy_block key block) = block.
Proof.
  unfold toy_block. rewrite <- list_fmap_compose. induction block as [|b block IH]; [done|].
  rewrite fmap_cons, IH. cbn. by rewrite xor_byte_involutive.
Qed.

Lemma toy_unhex_byte b data :
  toy_unhex ([hex_lower (Z_of_byte b / 16); hex_lower (Z_of_byte b mod 16)] ++ data) =
  match toy_unhex data with Some r => Some (b :: r) | None => None end.
Proof. destruct b; reflexivity. Qed.

#[local] Instance toy_crypto_laws : CryptoLaws toy_crypto.
Proof.
  constructor; cbn.
  - done.
  - intros key block H. unfold toy_block. by rewrite length_fmap.
  - intros key block _. apply toy_block_involutive.
  - intros key block H. unfold toy_block. by rewrite length_fmap.
  - done.
  - intros a b. unfold toy_hex. by rewrite fmap_app, join_app.
  - intros a. induction a as [|b a IH]; [done|].
    change (length (toy_hex (b :: a))) with (S (S (length (toy_hex a)))).
    rewrite IH. cbn [length]. lia.
  - intros a. induction a as [|b a IH]; [done|].
    change (toy_hex (b :: a))
      with ([hex_lower (Z_of_byte b / 16); hex_lower (Z_of_byte b mod 16)] ++ toy_hex a).
    by rewrite toy_unhex_byte, IH.
  - intros a. by rewrite Z.eqb_refl.
Qed.

(** ** Properties *)

(** A discovery datagram decodes to the packet and sender it was encoded
    from: the padding, block encryption, checksum, header and body all undo
    each other, for every packet that encodes at all. *)
Theorem discovery_roundtrip (ops : CryptoOps) (laws : CryptoLaws ops)
    (packet : Packets) (sender : Z) (buf : bytes) :
  packet_ok packet -> is_u64 sender ->
  encode packet sender = Ok buf -> decode buf = Ok (packet, sender).
Proof. apply decode_encode. Qed.

Definition sample_message : Packets := Message (message_packet_new 1 (str "CONNECTERROR 5 16")).

Lemma discovery_roundtrip_witness :
  packet_ok sample_message /\
  (buf ← encode sample_message 18446744073709551615; decode buf) =
  Ok (sample_message, 18446744073709551615).
Proof.
  assert (Hok : packet_ok sample_message) by (split; vm_compute; split; congruence || done).
  split; [exact Hok|].
  destruct (encode sample_message 18446744073709551615) as [buf|e|] eqn:E;
    [|exfalso; revert E; vm_compute; discriminate..].
  rewrite res_bind_Ok.
  apply (discovery_roundtrip toy_crypto toy_crypto_laws sample_message _ buf Hok); [|exact E].
  split; vm_compute; congruence || done.
Defined.

(** Decoding accepts nothing but authenticated plaintext: the first 32
    bytes are the HMAC of the decrypted payload, the payload is consumed to
    its last byte, and the packet is well formed.  Decoding never panics. *)
Theorem decode_authentic (ops : CryptoOps) (data : bytes) :
  match decode data with
  | Ok (packet, sender) =>
      packet_ok packet /\ is_u64 sender /\
      exists payload,
        decrypt (drop 32 data) = Ok payload /\
        take 32 data = compute_checksum payload /\
        read_datagram payload = Ok ((packet, sender), [])
  | Err _ => True
  | Panic => False
  end.
Proof.
  pose proof (decode_no_panic data) as Hp.
  destruct (decode data) as [[packet sender]|e|] eqn:E; [|done|by apply Hp].
  destruct (decode_ok _ _ _ E). destruct (decode_inv _ _ _ E). auto.
Qed.

Lemma message_serialize_Ok p :
  blen (message_data p) <= MAX_BYTES ->
  exists body, message_serialize p = Ok body /\ blen body = 12 + blen (message_data p).
Proof.
  intros H. unfold message_serialize, write_bytes_u32.
  destruct (_ >? MAX_BYTES) eqn:E; [to_props; lia|]. cbn [wseq]. rewrite !res_bind_Ok.
  eexists. split; [reflexivity|]. unfold write_u64, write_u32.
  rewrite !app_nil_r, !blen_app, !blen_le_bytes. lia.
Qed.

(** Both sides of the size limit of a text message. *)
Lemma encode_message_outcome (ops : CryptoOps) (recipient sender : Z)
    (text : bytes) :
  match encode (Message (message_packet_new recipient text)) sender with
  | Ok buf => blen text <= 65505
  | Err _ => 65505 < blen text
  | Panic => False
  end.
Proof.
  unfold encode. cbn [serialize Header_codec]. rewrite header_serialize_Ok, res_bind_Ok.
  cbn [packets_serialize serialize MessagePacket_codec packet_id sender_id].
  destruct (Z.le_gt_cases (blen text) MAX_BYTES) as [Hle|Hgt].
  - destruct (message_serialize_Ok (message_packet_new recipient text) Hle) as (body & -> & Hb).
    rewrite res_bind_Ok. cbn [message_data message_packet_new] in Hb. cbv zeta.
    match goal with |- context [if ?c then _ else _] => destruct c eqn:E end; to_props;
      rewrite !blen_app, Hb in E; unfold write_u16, write_u64 in E;
      rewrite !blen_le_bytes in E;
      change (blen (replicate 2 x00)) with 2 in E;
      change (blen (replicate 8 x00)) with 8 in E; unfold u16_max in E; cbn; lia.
  - unfold message_serialize, write_bytes_u32. cbn [message_data message_packet_new].
    destruct (_ >? MAX_BYTES) eqn:E; [|to_props; lia]. cbn. unfold MAX_BYTES in *. lia.
Qed.

Lemma encode_message_Ok (ops : CryptoOps) recipient sender text :
  blen text <= 65505 ->
  exists buf, encode (Message (message_packet_new recipient text)) sender = Ok buf.
Proof.
  intros H. pose proof (encode_message_outcome ops recipient sender text) as Ho.
  destruct (encode _ _); [eauto|lia|done].
Qed.

(** A text message is refused exactly when the datagram's sixteen-bit
    length cannot describe it (more than 65505 bytes of text); below that it
    always encodes, and encoding never panics. *)
Theorem encode_message_limit (ops : CryptoOps) (recipient sender : Z)
    (text : bytes) :
  match encode (Message (message_packet_new recipient text)) sender with
  | Ok buf => blen text <= 65505
  | Err _ => 65505 < blen text
  | Panic => False
  end.
Proof. apply encode_message_outcome. Qed.
