(* ===== verification/Endpoint.v ===== *)
(** * Endpoint: IP addresses and their scopes
    ([util/endpoint.rs])

    The address types, their parser and their [Display] are the standard
    library's.  CIDR networks come from the [ipnet] crate: its parser and its
    containment test are operations of a class. *)
From S2P Require Import Prelude Text Errors.

(** ** Addresses ([std::net]) *)

Inductive IpAddr :=
| V4 (a b c d : Z)
| V6 (s0 s1 s2 s3 s4 s5 s6 s7 : Z).

#[global] Instance IpAddr_eq_dec : EqDecision IpAddr.
Proof. solve_decision. Defined.

Definition ip_to_list (ip : IpAddr) : list Z :=
  match ip with
  | V4 a b c d => [a; b; c; d]
  | V6 s0 s1 s2 s3 s4 s5 s6 s7 => [s0; s1; s2; s3; s4; s5; s6; s7]
  end.

Definition ip_of_list (l : list Z) : option IpAddr :=
  match l with
  | [a; b; c; d] => Some (V4 a b c d)
  | [s0; s1; s2; s3; s4; s5; s6; s7] => Some (V6 s0 s1 s2 s3 s4 s5 s6 s7)
  | _ => None
  end.

#[global] Program Instance IpAddr_countable : Countable IpAddr :=
  inj_countable ip_to_list ip_of_list _.
Next Obligation. by intros []. Qed.

Record SocketAddr := { ip : IpAddr; port : Z }.

#[global] Instance SocketAddr_eq_dec : EqDecision SocketAddr.
Proof. solve_decision. Defined.

Definition socket_addr_new (i : IpAddr) (p : Z) : SocketAddr := {| ip := i; port := p |}.

Definition ip_ok (i : IpAddr) : Prop :=
  match i with
  | V4 a b c d => is_u8 a /\ is_u8 b /\ is_u8 c /\ is_u8 d
  | V6 s0 s1 s2 s3 s4 s5 s6 s7 =>
      is_u16 s0 /\ is_u16 s1 /\ is_u16 s2 /\ is_u16 s3 /\
      is_u16 s4 /\ is_u16 s5 /\ is_u16 s6 /\ is_u16 s7
  end.

Definition LOCALHOST : IpAddr := V4 127 0 0 1.

(** [Ipv6Addr::to_ipv4_mapped]. *)
Definition to_ipv4_mapped (i : IpAddr) : option IpAddr :=
  match i with
  | V6 0 0 0 0 0 0xffff g h => Some (V4 (g / 256) (g mod 256) (h / 256) (h mod 256))
  | _ => None
  end.

(** ** Parsing ([IpAddr::from_str])

    The recursive-descent parser of the standard library: each function takes
    the input and returns what is left of it. *)

Definition digit_of_radix (radix : Z) (b : byte) : option Z :=
  let v := if in_range b 48 57 then Z_of_byte b - 48
           else if in_range b 97 102 then Z_of_byte b - 87
           else if in_range b 65 70 then Z_of_byte b - 55
           else 99 in
  if v <? radix then Some v else None.

(** [read_number]: up to [max_digits] digits, the value within [max]. *)
Fixpoint read_digits (radix max : Z) (max_digits : nat) (seen : nat) (acc : Z) (s : bytes) {struct s}
    : option (Z * nat * bytes) :=
  match s with
  | b :: r =>
      match digit_of_radix radix b with
      | Some d =>
          let acc := acc * radix + d in
          match max_digits with
          | O => None
          | S max_digits =>
              if acc >? max then None
              else read_digits radix max max_digits (S seen) acc r
          end
      | None => Some (acc, seen, s)
      end
  | [] => Some (acc, seen, s)
  end.

Definition read_number (radix max : Z) (max_digits : nat) (allow_zero_prefix : bool)
    (s : bytes) : option (Z * bytes) :=
  match read_digits radix max max_digits 0 0 s with
  | Some (v, n, r) =>
      if (n =? 0)%nat then None
      else if negb allow_zero_prefix && (1 <? n)%nat && starts_with [x30] s then None
      else Some (v, r)
  | None => None
  end.

Definition read_given_char (c : byte) (s : bytes) : option bytes :=
  match s with b :: r => if byte_eqb b c then Some r else None | [] => None end.

(** [read_separator]: a separator before every element but the first. *)
Definition read_separator {A} (c : byte) (index : nat) (inner : bytes -> option (A * bytes))
    (s : bytes) : option (A * bytes) :=
  if (index =? 0)%nat then inner s
  else match read_given_char c s with Some r => inner r | None => None end.

Definition read_octet (index : nat) : bytes -> option (Z * bytes) :=
  read_separator x2e index (read_number 10 255 3 false).

Definition read_ipv4 (s : bytes) : option ((Z * Z * Z * Z) * bytes) :=
  match read_octet 0 s with
  | Some (a, s) => match read_octet 1 s with
    | Some (b, s) => match read_octet 2 s with
      | Some (c, s) => match read_octet 3 s with
        | Some (d, s) => Some ((a, b, c, d), s)
        | None => None end
      | None => None end
    | None => None end
  | None => None
  end.

(** [read_groups]: the groups read, whether the last two were an IPv4 tail, and
    the rest.  [left] slots remain and [i] were filled. *)
Fixpoint read_groups (left_ : nat) (i : nat) (s : bytes) : list Z * bool * bytes :=
  match left_ with
  | O => ([], false, s)
  | S left_ =>
      let group :=
        match read_separator x3a i (read_number 16 0xffff 4 true) s with
        | Some (g, r) =>
            let '(gs, v4, rest) := read_groups left_ (S i) r in (g :: gs, v4, rest)
        | None => ([], false, s)
        end in
      if (0 <? left_)%nat then
        match read_separator x3a i read_ipv4 s with
        | Some ((a, b, c, d), r) => ([a * 256 + b; c * 256 + d], true, r)
        | None => group
        end
      else group
  end.

Definition read_ipv6 (s : bytes) : option (IpAddr * bytes) :=
  let '(head, head_ipv4, r) := read_groups 8 0 s in
  if (length head =? 8)%nat then
    match ip_of_list head with Some a => Some (a, r) | None => None end
  else if head_ipv4 then None
  else
    match read_given_char x3a r with
    | Some r =>
        match read_given_char x3a r with
        | Some r =>
            let '(tail, _, r) := read_groups (8 - (length head + 1)) 0 r in
            match ip_of_list (head ++ replicate (8 - length head - length tail) 0 ++ tail) with
            | Some a => Some (a, r)
            | None => None
            end
        | None => None
        end
    | None => None
    end.

(** [str::parse::<IpAddr>]: the whole text must be consumed. *)
Definition parse_ip (s : bytes) : option IpAddr :=
  match read_ipv4 s with
  | Some ((a, b, c, d), r) =>
      match r with [] => Some (V4 a b c d) | _ => None end
  | None =>
      match read_ipv6 s with
      | Some (a, []) => Some a
      | _ => None
      end
  end.

(** ** Printing ([Display]) *)

Definition hex_digit (d : Z) : byte :=
  if d <? 10 then byte_of_Z (48 + d) else byte_of_Z (87 + d).

(** A group in hexadecimal without leading zeros. *)
Definition show_group (g : Z) : bytes :=
  if g <? 16 then [hex_digit g]
  else if g <? 256 then [hex_digit (g / 16); hex_digit (g mod 16)]
  else if g <? 4096 then [hex_digit (g / 256); hex_digit (g / 16 mod 16); hex_digit (g mod 16)]
  else [hex_digit (g / 4096); hex_digit (g / 256 mod 16); hex_digit (g / 16 mod 16);
        hex_digit (g mod 16)].

Fixpoint intercalate (sep : bytes) (ws : list bytes) : bytes :=
  match ws with
  | [] => []
  | [w] => w
  | w :: ws => w ++ sep ++ intercalate sep ws
  end.

Definition show_ipv4 (a b c d : Z) : bytes := intercalate [x2e] (dec <$> [a; b; c; d]).

(** The first longest run of zero groups: (start, length). *)
Fixpoint longest_zeros (l : list Z) (i cur_start cur_len best_start best_len : nat) : nat * nat :=
  match l with
  | [] => (best_start, best_len)
  | 0 :: l =>
      let cur_start := if (cur_len =? 0)%nat then i else cur_start in
      let cur_len := S cur_len in
      if (best_len <? cur_len)%nat
      then longest_zeros l (S i) cur_start cur_len cur_start cur_len
      else longest_zeros l (S i) cur_start cur_len best_start best_len
  | _ :: l => longest_zeros l (S i) 0 0 best_start best_len
  end.

Definition show_ip (i : IpAddr) : bytes :=
  match i with
  | V4 a b c d => show_ipv4 a b c d
  | V6 _ _ _ _ _ _ _ _ =>
      match to_ipv4_mapped i with
      | Some (V4 a b c d) => str "::ffff:" ++ show_ipv4 a b c d
      | _ =>
          let l := ip_to_list i in
          let '(start, len) := longest_zeros l 0 0 0 0 0 in
          if (1 <? len)%nat
          then intercalate [x3a] (show_group <$> take start l) ++ [x3a; x3a]
               ++ intercalate [x3a] (show_group <$> drop (start + len) l)
          else intercalate [x3a] (show_group <$> l)
      end
  end.

(** ** [endpoint.rs] *)

Inductive Scope := Public | Private | Loopback | Unusable.

#[global] Instance Scope_eq_dec : EqDecision Scope.
Proof. solve_decision. Defined.

Definition normalize (address : IpAddr) : IpAddr :=
  match address with
  | V6 _ _ _ _ _ _ _ _ =>
      match to_ipv4_mapped address with Some v4 => v4 | None => address end
  | _ => address
  end.

Definition parse (value : bytes) : option IpAddr :=
  if (length value =? 0)%nat
     || (blen value >? 45)
     || negb (forallb (fun b => is_ascii_hexdigit b || byte_eqb b x3a || byte_eqb b x2e) value)
  then None
  else match parse_ip value with
       | Some address => Some (normalize address)
       | None => None
       end.

Definition between (x lo hi : Z) : bool := (lo <=? x) && (x <=? hi).

Definition scope_v4 (a b c d : Z) : Scope :=
  if (a =? 10)
     || ((a =? 172) && between b 16 31)
     || ((a =? 192) && (b =? 168))
     || ((a =? 100) && between b 64 127)
  then Private
  else if a =? 127 then Loopback
  else if (a =? 0)
     || (a >=? 224)
     || ((a =? 169) && (b =? 254))
     || ((a =? 203) && (b =? 0) && (c =? 113))
     || ((a =? 198) && ((b =? 18) || (b =? 19) || ((b =? 51) && (c =? 100))))
     || ((a =? 192)
         && (((b =? 88) && (c =? 99))
             || ((b =? 0) && ((c =? 2) || ((c =? 0) && negb (d =? 9) && negb (d =? 10))))))
  then Unusable
  else Public.

Definition is_loopback_v6 (i : IpAddr) : bool := bool_decide (i = V6 0 0 0 0 0 0 0 1).

Definition scope_v6 (i : IpAddr) (a b : Z) : Scope :=
  if Z.land a 0xfe00 =? 0xfc00 then Private
  else if is_loopback_v6 i then Loopback
  else if negb (Z.land a 0xe000 =? 0x2000)
     || (a =? 0x2002)
     || ((a =? 0x2001) && ((b <? 0x200) || (b =? 0xdb8)))
     || ((a =? 0x3fff) && (b <? 0x1000))
  then Unusable
  else Public.

Definition scope (address : IpAddr) : Scope :=
  match normalize address with
  | V4 a b c d => scope_v4 a b c d
  | V6 a b _ _ _ _ _ _ as i => scope_v6 i a b
  end.

Definition advertisable (address : IpAddr) (local_development : bool) : bool :=
  match scope address with
  | Public | Private => true
  | Loopback => local_development
  | Unusable => false
  end.

Definition routable (address : IpAddr) : bool :=
  match scope address with Public | Private => true | _ => false end.

Example parse_mapped : parse (str "::ffff:192.168.1.1") = Some (V4 192 168 1 1).
Proof. vm_compute. reflexivity. Qed.
Example parse_compressed :
  parse (str "2606:4700::1111") = Some (V6 0x2606 0x4700 0 0 0 0 0 0x1111).
Proof. vm_compute. reflexivity. Qed.
Example parse_rejects :
  parse (str "example.com") = None /\ parse (str "fe80::1%eth0") = None /\
  parse (str "[::1]") = None /\ parse (str " 127.0.0.1") = None /\
  parse (str "01.2.3.4") = None /\ parse (str "1:2:3:4:5:6:7:8:9") = None.
Proof. by vm_compute. Qed.
Example show_samples :
  show_ip (V6 0x2606 0x4700 0 0 0 0 0 1) = str "2606:4700::1" /\
  show_ip (V6 0 0 0 0 0 0 0 1) = str "::1" /\ show_ip (V4 10 0 0 5) = str "10.0.0.5" /\
  show_ip (V6 1 0 0 2 0 0 0 3) = str "1:0:0:2::3".
Proof. by vm_compute. Qed.

(** ** Addresses as 128-bit numbers

    IPv4 addresses are embedded at [::ffff:0:0/96], where IPv6 maps them. *)

Definition ipv4_bits (a b c d : Z) : Z := a * 2 ^ 24 + b * 2 ^ 16 + c * 2 ^ 8 + d.

Definition ip_bits (i : IpAddr) : Z :=
  match i with
  | V4 a b c d => 0xffff * 2 ^ 32 + ipv4_bits a b c d
  | V6 s0 s1 s2 s3 s4 s5 s6 s7 =>
      s0 * 2 ^ 112 + s1 * 2 ^ 96 + s2 * 2 ^ 80 + s3 * 2 ^ 64
      + s4 * 2 ^ 48 + s5 * 2 ^ 32 + s6 * 2 ^ 16 + s7
  end.

(** The addresses the program treats as IPv4. *)
Definition is_v4 (i : IpAddr) : bool :=
  match i with
  | V4 _ _ _ _ => true
  | V6 _ _ _ _ _ _ _ _ => match to_ipv4_mapped i with Some _ => true | None => false end
  end.

(** The first [len] of 128 bits agree. *)
Definition same_prefix (len x y : Z) : bool := x / 2 ^ (128 - len) =? y / 2 ^ (128 - len).

(** Decides whether an address is a mapped one by its segments. *)
Lemma to_ipv4_mapped_spec s0 s1 s2 s3 s4 s5 g h :
  to_ipv4_mapped (V6 s0 s1 s2 s3 s4 s5 g h) =
  if (s0 =? 0) && (s1 =? 0) && (s2 =? 0) && (s3 =? 0) && (s4 =? 0) && (s5 =? 0xffff)
  then Some (V4 (g / 256) (g mod 256) (h / 256) (h mod 256)) else None.
Proof.
  unfold to_ipv4_mapped.
  destruct s0, s1, s2, s3, s4; try reflexivity.
  destruct s5 as [|p|p]; try reflexivity.
  do 16 (destruct p as [p|p|]; try reflexivity).
Qed.

Lemma normalize_cases i :
  (exists a b c d, normalize i = V4 a b c d /\ is_v4 i = true)
  \/ (normalize i = i /\ is_v4 i = false).
Proof.
  destruct i as [a b c d|s0 s1 s2 s3 s4 s5 g h]; [left; eexists _, _, _, _; split; reflexivity|].
  cbn [normalize is_v4]. rewrite to_ipv4_mapped_spec.
  split_match; [left; eexists _, _, _, _; split; reflexivity|by right].
Qed.

Lemma normalize_idemp i : normalize (normalize i) = normalize i.
Proof.
  destruct (normalize_cases i) as [(a & b & c & d & -> & _)|[E _]]; [done|by rewrite !E].
Qed.

Lemma ip_bits_normalize i : ip_ok i -> ip_bits (normalize i) = ip_bits i.
Proof.
  destruct i as [a b c d|s0 s1 s2 s3 s4 s5 g h]; [done|].
  cbn [normalize ip_ok]. unfold is_u16. intros H. rewrite to_ipv4_mapped_spec.
  split_match; [|done]. to_props. subst. cbn [ip_bits]. unfold ipv4_bits.
  pose proof (Z.div_mod g 256). pose proof (Z.div_mod h 256). lia.
Qed.

Lemma ip_ok_normalize i : ip_ok i -> ip_ok (normalize i).
Proof.
  destruct i as [a b c d|s0 s1 s2 s3 s4 s5 g h]; [done|].
  cbn [normalize ip_ok]. unfold is_u16. intros H. rewrite to_ipv4_mapped_spec.
  split_match; [|done]. unfold ip_ok, is_u8.
  destruct H as (_ & _ & _ & _ & _ & _ & Hg & Hh).
  pose proof (Z.div_lt_upper_bound g 256 256). pose proof (Z.div_pos g 256).
  pose proof (Z.div_lt_upper_bound h 256 256). pose proof (Z.div_pos h 256).
  pose proof (Z.mod_pos_bound g 256). pose proof (Z.mod_pos_bound h 256). lia.
Qed.

(** ** The special-purpose address registries

    The classification as a table of prefixes: the first entry that covers the
    address gives its scope. *)

Definition ipv4_registry : list (Z * Z * Scope) :=
  [ (ipv4_bits 192 0 0 9, 32, Public); (ipv4_bits 192 0 0 10, 32, Public);
    (ipv4_bits 10 0 0 0, 8, Private); (ipv4_bits 172 16 0 0, 12, Private);
    (ipv4_bits 192 168 0 0, 16, Private); (ipv4_bits 100 64 0 0, 10, Private);
    (ipv4_bits 127 0 0 0, 8, Loopback);
    (ipv4_bits 0 0 0 0, 8, Unusable); (ipv4_bits 224 0 0 0, 3, Unusable);
    (ipv4_bits 169 254 0 0, 16, Unusable); (ipv4_bits 203 0 113 0, 24, Unusable);
    (ipv4_bits 198 18 0 0, 15, Unusable); (ipv4_bits 198 51 100 0, 24, Unusable);
    (ipv4_bits 192 88 99 0, 24, Unusable); (ipv4_bits 192 0 2 0, 24, Unusable);
    (ipv4_bits 192 0 0 0, 24, Unusable); (0, 0, Public) ].

Definition ipv6_registry : list (IpAddr * Z * Scope) :=
  [ (V6 0xfc00 0 0 0 0 0 0 0, 7, Private); (V6 0 0 0 0 0 0 0 1, 128, Loopback);
    (V6 0x2002 0 0 0 0 0 0 0, 16, Unusable); (V6 0x2001 0 0 0 0 0 0 0, 23, Unusable);
    (V6 0x2001 0xdb8 0 0 0 0 0 0, 32, Unusable); (V6 0x3fff 0 0 0 0 0 0 0, 20, Unusable);
    (V6 0x2000 0 0 0 0 0 0 0, 3, Public); (V6 0 0 0 0 0 0 0 0, 0, Unusable) ].

(** The IPv4 table in the mapped block, then the IPv6 table. *)
Definition registry : list (Z * Z * Scope) :=
  ((fun '(n, len, s) => (0xffff * 2 ^ 32 + n, 96 + len, s)) <$> ipv4_registry)
  ++ ((fun '(i, len, s) => (ip_bits i, len, s)) <$> ipv6_registry).

Fixpoint first_match (table : list (Z * Z * Scope)) (x : Z) : Scope :=
  match table with
  | [] => Unusable
  | (net, len, s) :: table => if same_prefix len net x then s else first_match table x
  end.

Lemma ipv4_bits_range a b c d : ip_ok (V4 a b c d) -> 0 <= ipv4_bits a b c d < 2 ^ 32.
Proof. unfold ip_ok, is_u8, ipv4_bits. lia. Qed.

(** Prefixes inside the mapped block compare the IPv4 bits only. *)
Lemma same_prefix_mapped len n x :
  0 <= len <= 32 ->
  same_prefix (96 + len) (0xffff * 2 ^ 32 + n) (0xffff * 2 ^ 32 + x) =
  (n / 2 ^ (32 - len) =? x / 2 ^ (32 - len)).
Proof.
  intros Hlen. unfold same_prefix. replace (128 - (96 + len)) with (32 - len) by lia.
  assert (0 < 2 ^ (32 - len)) by (apply Z.pow_pos_nonneg; lia).
  replace (0xffff * 2 ^ 32) with (0xffff * 2 ^ len * 2 ^ (32 - len)).
  2: { rewrite <- Z.mul_assoc, <- Z.pow_add_r by lia. do 2 f_equal. lia. }
  rewrite !Z.div_add_l by lia. lia.
Qed.

(** A longer common prefix implies a shorter one. *)
Lemma same_prefix_shorter len len' x y :
  0 <= len <= len' -> len' <= 128 -> same_prefix len' x y = true -> same_prefix len x y = true.
Proof.
  unfold same_prefix. rewrite !Z.eqb_eq. intros H1 H2 H.
  replace (128 - len) with ((128 - len') + (len' - len)) by lia.
  rewrite Z.pow_add_r by lia.
  rewrite <- !Z.div_div by (try apply Z.pow_nonzero; try apply Z.pow_pos_nonneg; lia).
  by rewrite H.
Qed.

Lemma ip_bits_mapped_block i : ip_ok i -> (ip_bits i / 2 ^ 32 =? 0xffff) = is_v4 i.
Proof.
  destruct i as [a b c d|s0 s1 s2 s3 s4 s5 g h]; cbn [ip_bits is_v4].
  - intros H%ipv4_bits_range. rewrite Z.div_add_l by lia. rewrite (Z.div_small _ _ H). done.
  - rewrite to_ipv4_mapped_spec. unfold ip_ok, is_u16. intros H.
    replace (_ / 2 ^ 32) with (s0 * 2 ^ 80 + s1 * 2 ^ 64 + s2 * 2 ^ 48 + s3 * 2 ^ 32 + s4 * 2 ^ 16 + s5)
      by (apply (Z.div_unique_pos _ _ _ (g * 2 ^ 16 + h)); lia).
    split_match; lia.
Qed.

(** The table restricted to one family. *)
Lemma first_match_skip_v4 table x :
  x / 2 ^ 32 <> 0xffff -> Forall (fun '(n, len, _) => 0 <= n < 2 ^ 32 /\ 0 <= len <= 32) ipv4_registry ->
  first_match (((fun '(n, len, s) => (0xffff * 2 ^ 32 + n, 96 + len, s)) <$> ipv4_registry) ++ table) x
  = first_match table x.
Proof.
  intros Hx. induction 1 as [|[[n len] s] l [Hn Hlen] _ IH]; [done|].
  cbn [fmap list_fmap app first_match]. rewrite IH.
  destruct (same_prefix _ _ _) eqn:E; [|done]. exfalso. apply Hx.
  apply (same_prefix_shorter 96) in E; [|lia..]. unfold same_prefix in E.
  change (128 - 96) with 32 in E. to_props. rewrite <- E.
  rewrite Z.div_add_l, Z.div_small; lia.
Qed.


#[local] Ltac Zify.zify_post_hook ::= Z.div_mod_to_equations.

(** Membership in a prefix of whole octets, or of octets and some bits. *)
Lemma ipv4_prefix_octets n0 n1 n2 n3 a b c d :
  ip_ok (V4 n0 n1 n2 n3) -> ip_ok (V4 a b c d) ->
  let n := ipv4_bits n0 n1 n2 n3 in let x := ipv4_bits a b c d in
  (n / 2 ^ (32 - 8) =? x / 2 ^ (32 - 8)) = (a =? n0) /\
  (n / 2 ^ (32 - 16) =? x / 2 ^ (32 - 16)) = (a =? n0) && (b =? n1) /\
  (n / 2 ^ (32 - 24) =? x / 2 ^ (32 - 24)) = (a =? n0) && (b =? n1) && (c =? n2) /\
  (n / 2 ^ (32 - 32) =? x / 2 ^ (32 - 32)) = (a =? n0) && (b =? n1) && (c =? n2) && (d =? n3).
Proof.
  unfold ip_ok, is_u8, ipv4_bits. intros Hn Hx.
  change (2 ^ (32 - 8)) with 16777216. change (2 ^ (32 - 16)) with 65536.
  change (2 ^ (32 - 24)) with 256. change (2 ^ (32 - 32)) with 1.
  rewrite !Z.div_1_r. repeat split; lia.
Qed.

Lemma ipv4_prefix_bits n0 n1 a b c d :
  ip_ok (V4 n0 n1 0 0) -> ip_ok (V4 a b c d) ->
  let n := ipv4_bits n0 n1 0 0 in let x := ipv4_bits a b c d in
  (n / 2 ^ (32 - 3) =? x / 2 ^ (32 - 3)) = (a / 32 =? n0 / 32) /\
  (n / 2 ^ (32 - 10) =? x / 2 ^ (32 - 10)) = (a =? n0) && (b / 64 =? n1 / 64) /\
  (n / 2 ^ (32 - 12) =? x / 2 ^ (32 - 12)) = (a =? n0) && (b / 16 =? n1 / 16) /\
  (n / 2 ^ (32 - 15) =? x / 2 ^ (32 - 15)) = (a =? n0) && (b / 2 =? n1 / 2).
Proof.
  unfold ip_ok, is_u8, ipv4_bits. intros Hn Hx.
  change (2 ^ (32 - 3)) with 536870912. change (2 ^ (32 - 10)) with 4194304.
  change (2 ^ (32 - 12)) with 1048576. change (2 ^ (32 - 15)) with 131072.
  repeat split; lia.
Qed.

(** Rewrites the prefix tests of the goal to tests on octets. *)
Ltac ipv4_prefixes Hok :=
  let use L := (
    let H1 := fresh in let H2 := fresh in let H3 := fresh in let H4 := fresh in
    destruct L as (H1 & H2 & H3 & H4);
    first [rewrite H1|rewrite H2|rewrite H3|rewrite H4]; clear H1 H2 H3 H4) in
  repeat match goal with
  | |- context [ipv4_bits ?n0 ?n1 ?n2 ?n3 / 2 ^ (32 - ?l) =? ipv4_bits ?a ?b ?c ?d / _] =>
      first
        [ use (ipv4_prefix_octets n0 n1 n2 n3 a b c d ltac:(unfold ip_ok, is_u8; lia) Hok)
        | use (ipv4_prefix_bits n0 n1 a b c d ltac:(unfold ip_ok, is_u8; lia) Hok) ]
  end.

(** Splits on whether [a] is one of the listed octets, evaluating the tests on it. *)
Ltac by_octet a values :=
  lazymatch values with
  | ?v :: ?vs =>
      let H := fresh in
      destruct (Z.eqb_spec a v) as [H|H];
      [ subst a; cbn | by_octet a vs ]
  | _ => idtac
  end.

Lemma scope_v4_registry a b c d :
  ip_ok (V4 a b c d) -> scope_v4 a b c d = first_match registry (ip_bits (V4 a b c d)).
Proof.
  intros Hok. cbn [ip_bits]. unfold registry, ipv4_registry, scope_v4, between.
  cbn [fmap list_fmap app first_match]. rewrite !same_prefix_mapped by lia.
  ipv4_prefixes Hok.
  replace (ipv4_bits a b c d / 2 ^ (32 - 0)) with 0
    by (symmetry; apply Z.div_small, ipv4_bits_range, Hok).
  unfold ip_ok, is_u8 in Hok.
  replace (a / 32 =? 224 / 32) with (a >=? 224) by lia.
  replace (b / 16 =? 16 / 16) with ((16 <=? b) && (b <=? 31)) by lia.
  replace (b / 64 =? 64 / 64) with ((64 <=? b) && (b <=? 127)) by lia.
  replace (b / 2 =? 18 / 2) with ((b =? 18) || (b =? 19)) by lia.
  change (0 / _ =? 0) with true.
  by_octet a [192; 198; 100; 172; 169; 203; 10; 127; 0];
  cbn [andb orb]; repeat split_match; first [reflexivity|exfalso; lia].
Qed.

(** Masking the top bits of a segment is comparing them. *)
Lemma land_top_bits a mask k :
  0 <= k <= 16 -> is_u16 a -> mask = Z.shiftl (Z.ones (16 - k)) k ->
  Z.land a mask = a / 2 ^ k * 2 ^ k.
Proof.
  intros Hk Ha ->. rewrite <- Z.shiftr_div_pow2, <- Z.shiftl_mul_pow2 by lia.
  apply Z.bits_inj'. intros n Hn. rewrite Z.land_spec.
  destruct (Z.lt_ge_cases n k).
  - rewrite !Z.shiftl_spec_low by lia. apply andb_false_r.
  - rewrite !Z.shiftl_spec, Z.shiftr_spec by lia. replace (n - k + k) with n by lia.
    destruct (Z.lt_ge_cases n 16).
    + rewrite Z.ones_spec_low by lia. apply andb_true_r.
    + rewrite Z.ones_spec_high by lia. rewrite andb_false_r.
      rewrite <- (Z.mod_small a (2 ^ 16)) by (unfold is_u16 in Ha; lia).
      by rewrite Z.mod_pow2_bits_high by lia.
Qed.

(** The prefixes of the IPv6 table end in the first two segments. *)
Lemma ipv6_prefix_bits n0 n1 s0 s1 s2 s3 s4 s5 s6 s7 len :
  is_u16 n0 -> is_u16 n1 -> ip_ok (V6 s0 s1 s2 s3 s4 s5 s6 s7) -> 0 <= len <= 32 ->
  same_prefix len (ip_bits (V6 n0 n1 0 0 0 0 0 0)) (ip_bits (V6 s0 s1 s2 s3 s4 s5 s6 s7)) =
  ((n0 * 65536 + n1) / 2 ^ (32 - len) =? (s0 * 65536 + s1) / 2 ^ (32 - len)).
Proof.
  unfold ip_ok, is_u16, same_prefix. intros Hn0 Hn1 H Hlen.
  replace (128 - len) with (96 + (32 - len)) by lia. rewrite Z.pow_add_r by lia.
  rewrite <- !Z.div_div by (try apply Z.pow_nonzero; try apply Z.pow_pos_nonneg; lia).
  assert (forall p q r, 0 <= r < 2 ^ 96 -> p * 2 ^ 112 + q * 2 ^ 96 + r = (p * 65536 + q) * 2 ^ 96 + r)
    as Hreg by lia.
  cbn [ip_bits].
  replace (n0 * _ + _ + _ + _ + _ + _ + _ + _) with ((n0 * 65536 + n1) * 2 ^ 96 + 0) by lia.
  replace (s0 * _ + _ + _ + _ + _ + _ + _ + _) with
    ((s0 * 65536 + s1) * 2 ^ 96
     + (s2 * 2 ^ 80 + s3 * 2 ^ 64 + s4 * 2 ^ 48 + s5 * 2 ^ 32 + s6 * 2 ^ 16 + s7)) by lia.
  rewrite !Z.div_add_l by lia.
  rewrite (Z.div_small (s2 * _ + _ + _ + _ + _ + _)) by lia. change (0 / 2 ^ 96) with 0.
  by rewrite !Z.add_0_r.
Qed.

Lemma scope_v6_registry i s0 s1 s2 s3 s4 s5 s6 s7 :
  i = V6 s0 s1 s2 s3 s4 s5 s6 s7 -> ip_ok i -> is_v4 i = false ->
  scope_v6 i s0 s1 = first_match registry (ip_bits i).
Proof.
  intros Hi Hok Hv4. unfold registry. rewrite first_match_skip_v4.
  2: { apply Z.eqb_neq. by rewrite ip_bits_mapped_block. }
  2: { repeat constructor; unfold ipv4_bits; lia. }
  unfold ipv6_registry. cbn [fmap list_fmap first_match]. subst i.
  rewrite !ipv6_prefix_bits by (first [assumption|unfold is_u16; lia]).
  replace (same_prefix 128 _ _) with (is_loopback_v6 (V6 s0 s1 s2 s3 s4 s5 s6 s7)).
  2: { unfold is_loopback_v6, same_prefix. change (2 ^ (128 - 128)) with 1. rewrite !Z.div_1_r.
       clear Hv4. unfold ip_ok, is_u16 in Hok. apply eq_true_iff_eq.
       rewrite bool_decide_eq_true, Z.eqb_eq. cbn [ip_bits]. split; [intros [= -> -> -> -> -> -> -> ->]; lia|].
       intros. f_equal; lia. }
  unfold ip_ok, is_u16 in Hok. destruct Hok as (H0 & H1 & _).
  unfold scope_v6. clear Hv4.
  rewrite (land_top_bits s0 0xfe00 9), (land_top_bits s0 0xe000 13) by (unfold is_u16; lia || reflexivity).
  change (2 ^ (32 - 7)) with 33554432. change (2 ^ (32 - 16)) with 65536.
  change (2 ^ (32 - 23)) with 512. change (2 ^ (32 - 32)) with 1. change (2 ^ (32 - 20)) with 4096.
  change (2 ^ (32 - 3)) with 536870912. change (2 ^ (32 - 0)) with 4294967296.
  rewrite !Z.div_1_r.
  set (y := s0 * 65536 + s1).
  assert (((0xfc00 * 65536 + 0) / 33554432 =? y / 33554432) = (s0 / 2 ^ 9 * 2 ^ 9 =? 0xfc00)) as -> by lia.
  assert (((0x2002 * 65536 + 0) / 65536 =? y / 65536) = (s0 =? 0x2002)) as -> by lia.
  assert (((0x2001 * 65536 + 0) / 512 =? y / 512) = (s0 =? 0x2001) && (s1 <? 0x200)) as -> by lia.
  assert ((0x2001 * 65536 + 0xdb8 =? y) = (s0 =? 0x2001) && (s1 =? 0xdb8)) as -> by lia.
  assert (((0x3fff * 65536 + 0) / 4096 =? y / 4096) = (s0 =? 0x3fff) && (s1 <? 0x1000)) as -> by lia.
  assert (((0x2000 * 65536 + 0) / 536870912 =? y / 536870912) = (s0 / 2 ^ 13 * 2 ^ 13 =? 0x2000)) as -> by lia.
  generalize ((0 * 65536 + 0) / 4294967296 =? y / 4294967296). intros.
  generalize (s0 / 2 ^ 9 * 2 ^ 9) (s0 / 2 ^ 13 * 2 ^ 13). intros m9 m13.
  repeat split_match; first [reflexivity|exfalso; clear y; lia].
Qed.

(** The classification of [scope] is the registry table: for every
    well-formed address, the cascade of octet and segment tests returns the
    scope of the first prefix of the special-purpose registries that covers the
    address, IPv4-mapped IPv6 addresses being looked up as the IPv4 address
    they map. *)
Theorem scope_is_registry i : ip_ok i -> scope i = first_match registry (ip_bits i).
Proof.
  intros Hok. unfold scope. rewrite <- (ip_bits_normalize i Hok).
  pose proof (ip_ok_normalize i Hok) as Hok'.
  destruct (normalize_cases i) as [(a & b & c & d & E & _)|[E Hv4]]; rewrite E in *.
  - by apply scope_v4_registry.
  - destruct i; [done|]. by eapply scope_v6_registry.
Qed.

Lemma scope_is_registry_witness :
  scope (V6 0 0 0 0 0 0xffff 0xc000 0x0009)
  = first_match registry (ip_bits (V4 192 0 0 9)) /\ scope (V4 192 0 0 9) = Public.
Proof.
  split; [|reflexivity].
  rewrite (scope_is_registry (V6 0 0 0 0 0 0xffff 0xc000 0x0009)); [reflexivity|].
  unfold ip_ok, is_u16. lia.
Defined.

(** ** What the parser produces is well formed *)

Lemma digit_of_radix_nonneg radix b d : digit_of_radix radix b = Some d -> 0 <= d.
Proof.
  unfold digit_of_radix, in_range. pose proof (Z_of_byte_range b).
  intros Hd. repeat split_match_in Hd; simplify_eq; lia.
Qed.

Lemma read_digits_range radix max n seen acc s v k r :
  0 <= radix -> 0 <= acc <= max -> read_digits radix max n seen acc s = Some (v, k, r) ->
  0 <= v <= max.
Proof.
  intros Hr. revert n seen acc. induction s as [|b s IH]; cbn [read_digits]; intros n seen acc Hacc.
  { by intros; simplify_eq. }
  destruct (digit_of_radix radix b) as [d|] eqn:Ed; [|by intros; simplify_eq].
  apply digit_of_radix_nonneg in Ed.
  destruct n; [done|]. destruct (_ >? max) eqn:Em; [done|]. to_props. apply IH. nia.
Qed.

Lemma read_number_range radix max n z s v r :
  0 <= radix -> 0 <= max -> read_number radix max n z s = Some (v, r) -> 0 <= v <= max.
Proof.
  intros Hr Hm. unfold read_number.
  destruct (read_digits _ _ _ _ _ _) as [[[v' k] r']|] eqn:E; [|done].
  apply read_digits_range in E; [|lia..]. intros. repeat case_match; by simplify_eq.
Qed.

(** A separator does not change what is read after it. *)
Lemma read_separator_inv {A} c i (inner : bytes -> option (A * bytes)) s x r :
  read_separator c i inner s = Some (x, r) -> exists s', inner s' = Some (x, r).
Proof. unfold read_separator. intros. repeat case_match; naive_solver. Qed.

Lemma read_octet_range i s v r : read_octet i s = Some (v, r) -> is_u8 v.
Proof.
  intros [s' E%read_number_range]%read_separator_inv; unfold is_u8; lia.
Qed.

Lemma read_ipv4_ok s a b c d r : read_ipv4 s = Some ((a, b, c, d), r) -> ip_ok (V4 a b c d).
Proof.
  unfold read_ipv4. intros. repeat case_match; simplify_eq.
  repeat match goal with H : read_octet _ _ = _ |- _ => apply read_octet_range in H end. done.
Qed.

Lemma read_groups_range n i s gs v4 r :
  read_groups n i s = (gs, v4, r) -> Forall is_u16 gs /\ (length gs <= n)%nat.
Proof.
  revert i s gs v4 r. induction n as [|n IH]; cbn [read_groups]; intros i s gs v4 r.
  { intros; simplify_eq. split; [constructor|done]. }
  assert (forall o, match read_separator x3a i (read_number 16 0xffff 4 true) s with
     | Some (g, r) => let '(gs, v4, rest) := read_groups n (S i) r in (g :: gs, v4, rest)
     | None => ([], false, s) end = o -> Forall is_u16 o.1.1 /\ (length o.1.1 <= S n)%nat) as Hg.
  { intros ? <-. destruct (read_separator _ _ _ _) as [[g r']|] eqn:E; [|split; cbn; [constructor|lia]].
    apply read_separator_inv in E as [s' E%read_number_range]; [|lia..].
    destruct (read_groups n (S i) r') as [[gs' v4'] r''] eqn:E'. apply IH in E' as [? ?].
    cbn. split; [constructor; [unfold is_u16; lia|done]|lia]. }
  destruct (0 <? n)%nat eqn:En; [|intros E; by apply Hg in E].
  destruct (read_separator x3a i read_ipv4 s) as [[[[[a b] c] d] r']|] eqn:E;
    [|intros E'; by apply Hg in E'].
  apply read_separator_inv in E as [s' E%read_ipv4_ok]. intros; simplify_eq.
  unfold ip_ok, is_u8 in E. apply Nat.ltb_lt in En.
  split; [repeat constructor; unfold is_u16; lia|cbn; lia].
Qed.

Lemma ip_of_list_ok l i : Forall is_u16 l -> length l = 8%nat -> ip_of_list l = Some i -> ip_ok i.
Proof.
  intros Hl Hlen. do 9 (destruct l as [|? l]; try done).
  intros [= <-]. decompose_Forall_hyps. done.
Qed.

Lemma read_ipv6_ok s i r : read_ipv6 s = Some (i, r) -> ip_ok i.
Proof.
  unfold read_ipv6. destruct (read_groups 8 0 s) as [[head v4] r'] eqn:E.
  apply read_groups_range in E as [Hh Hhl].
  destruct (length head =? 8)%nat eqn:El.
  { apply Nat.eqb_eq in El. destruct (ip_of_list head) eqn:Ei; [|done]. intros; simplify_eq.
    by eapply ip_of_list_ok. }
  apply Nat.eqb_neq in El. destruct v4; [done|].
  destruct (read_given_char x3a r') as [r1|]; [|done].
  destruct (read_given_char x3a r1) as [r2|]; [|done].
  destruct (read_groups _ _ r2) as [[tail v4] r3] eqn:E.
  apply read_groups_range in E as [Ht Htl].
  destruct (ip_of_list _) eqn:Ei; [|done]. intros; simplify_eq.
  eapply ip_of_list_ok; [| |exact Ei].
  - rewrite !Forall_app. split; [done|]. split; [|done].
    apply Forall_replicate. unfold is_u16. lia.
  - rewrite !length_app, length_replicate. lia.
Qed.

Lemma parse_ip_ok s i : parse_ip s = Some i -> ip_ok i.
Proof.
  unfold parse_ip. destruct (read_ipv4 s) as [[[[[a b] c] d] r]|] eqn:E4.
  { apply read_ipv4_ok in E4. destruct r; [|done]. by intros [= <-]. }
  destruct (read_ipv6 s) as [[j r]|] eqn:E6; [|done].
  apply read_ipv6_ok in E6. destruct r; [|done]. by intros [= <-].
Qed.
