(* ===== verification/IpRange.v ===== *)
(** * IpRange: sets of address ranges ([util/ip_range.rs])

    [IpNet] and its operations belong to the [ipnet] crate: the data is its
    address and prefix length, the operations are those of a class, and the
    laws are what the crate documents of them. *)
From S2P Require Import Prelude Text Errors Endpoint.

(** [IpNet]: an address of one family and a prefix length. *)
Record IpNet := { addr : IpAddr; prefix_len : Z }.

Definition family_bits (i : IpAddr) : Z :=
  match i with V4 _ _ _ _ => 32 | V6 _ _ _ _ _ _ _ _ => 128 end.

Definition family_value (i : IpAddr) : Z :=
  match i with V4 a b c d => ipv4_bits a b c d | V6 _ _ _ _ _ _ _ _ => ip_bits i end.

Definition net_ok (n : IpNet) : Prop :=
  ip_ok (addr n) /\ 0 <= prefix_len n <= family_bits (addr n).

Class IpNetOps := {
  net_parse : bytes -> option IpNet;
  net_contains : IpNet -> IpAddr -> bool;
  ipv4_net_new : IpAddr -> Z -> option IpNet;
  net_from : IpAddr -> IpNet;
}.

(** What the crate documents: parsed networks are well formed; a network
    contains the addresses of its family that share its prefix; a prefix longer
    than the family is refused; an address converts to its host network. *)
Class IpNetLaws `{IpNetOps} := {
  net_parse_ok s n : net_parse s = Some n -> net_ok n;
  net_contains_spec n i : net_ok n -> ip_ok i ->
    net_contains n i =
      bool_decide (family_bits (addr n) = family_bits i)
      && (family_value (addr n) / 2 ^ (family_bits i - prefix_len n)
          =? family_value i / 2 ^ (family_bits i - prefix_len n));
  ipv4_net_new_spec i p : family_bits i = 32 -> 0 <= p ->
    ipv4_net_new i p = if p <=? 32 then Some {| addr := i; prefix_len := p |} else None;
  net_from_spec i : net_from i = {| addr := i; prefix_len := family_bits i |};
}.

Section IpRange.
Context `{IpNetOps}.

Record IpRangeSet := { ranges : list IpNet }.

Definition range_set_empty : IpRangeSet := {| ranges := [] |}.

Definition MAPPED_PREFIX : Z := 96.

(** [u8::checked_sub]. *)
Definition checked_sub (x y : Z) : option Z := if y <=? x then Some (x - y) else None.

Definition into_ipv4_when_mapped (r : IpNet) : option IpNet :=
  match addr r with
  | V4 _ _ _ _ => Some r
  | V6 _ _ _ _ _ _ _ _ as v6 =>
      match to_ipv4_mapped v6 with
      | None => Some r
      | Some v4 => checked_sub (prefix_len r) MAPPED_PREFIX ≫= ipv4_net_new v4
      end
  end.

Definition range (entry : bytes) : option IpNet :=
  match net_parse entry with
  | Some r => into_ipv4_when_mapped r
  | None => (fun a => net_from (normalize a)) <$> parse_ip entry
  end.

Definition range_set_parse (entries : list bytes) : IpRangeSet :=
  {| ranges := omap (fun entry => range (trim entry)) entries |}.

Definition is_empty (s : IpRangeSet) : bool :=
  match ranges s with [] => true | _ => false end.

Definition contains (s : IpRangeSet) (address : IpAddr) : bool :=
  existsb (fun r => net_contains r (normalize address)) (ranges s).

(** What an entry denotes: a network literal or a bare address. *)
Definition denotes (entry : bytes) : option IpNet :=
  match net_parse (trim entry) with
  | Some n => Some n
  | None => (fun a => {| addr := a; prefix_len := family_bits a |}) <$> parse_ip (trim entry)
  end.

(** A network's prefix length over the 128-bit address space. *)
Definition prefix128 (n : IpNet) : Z := 128 - family_bits (addr n) + prefix_len n.

(** Membership over 128-bit addresses: both are IPv4 (native or mapped) or
    neither is, an IPv4 network keeps within the mapped block, and the prefix
    agrees. *)
Definition covers (n : IpNet) (i : IpAddr) : bool :=
  eqb (is_v4 (addr n)) (is_v4 i)
  && (negb (is_v4 (addr n)) || (96 <=? prefix128 n))
  && same_prefix (prefix128 n) (ip_bits (addr n)) (ip_bits i).

Context `{!IpNetLaws}.

Lemma net_contains_covers_v4 a b c d p i :
  net_ok {| addr := V4 a b c d; prefix_len := p |} -> ip_ok i ->
  net_contains {| addr := V4 a b c d; prefix_len := p |} (normalize i)
  = covers {| addr := V4 a b c d; prefix_len := p |} i.
Proof.
  intros Hn Hi. rewrite net_contains_spec by auto using ip_ok_normalize.
  pose proof Hn as [_ Hp]. unfold covers, prefix128.
  cbn [addr prefix_len family_bits family_value is_v4 ip_bits] in Hp |- *.
  replace (128 - 32 + p) with (96 + p) by lia. replace (96 <=? 96 + p) with true by lia. rewrite <- (ip_bits_normalize i Hi).
  destruct (normalize_cases i) as [(a' & b' & c' & d' & -> & ->)|[-> Hv]].
  - cbn [ip_bits family_bits family_value]. by rewrite same_prefix_mapped by lia.
  - rewrite Hv. by destruct i.
Qed.

Lemma covers_normalize n i :
  net_ok n -> is_v4 (addr n) = true -> 96 <= prefix128 n ->
  covers n i = covers {| addr := normalize (addr n); prefix_len := prefix128 n - 96 |} i.
Proof.
  intros [Hok _] Hv Hp.
  destruct (normalize_cases (addr n)) as [(a & b & c & d & E & _)|[_ ?]]; [|congruence].
  assert (prefix128 {| addr := normalize (addr n); prefix_len := prefix128 n - 96 |} = prefix128 n)
    as Hq by (unfold prefix128 at 1; cbn [addr prefix_len]; rewrite E; cbn [family_bits]; lia).
  unfold covers. rewrite Hq. cbn [addr]. rewrite (ip_bits_normalize _ Hok), Hv.
  by rewrite E.
Qed.

(** The range kept for an entry matches what the entry covers. *)
Lemma into_ipv4_when_mapped_covers n i :
  net_ok n -> ip_ok i ->
  match into_ipv4_when_mapped n with
  | Some r => net_contains r (normalize i)
  | None => false
  end = covers n i.
Proof.
  intros Hn Hi. pose proof Hn as [Hok Hp]. unfold into_ipv4_when_mapped.
  destruct n as [[a b c d|s0 s1 s2 s3 s4 s5 g h] p]; cbn [addr prefix_len family_bits] in *.
  { by apply net_contains_covers_v4. }
  set (v6 := V6 s0 s1 s2 s3 s4 s5 g h) in *.
  assert (prefix128 {| addr := v6; prefix_len := p |} = p) as Hp128 by (unfold prefix128; cbn; lia).
  destruct (to_ipv4_mapped v6) as [v4|] eqn:E.
  - assert (normalize v6 = v4) as En by (unfold v6, normalize in *; by rewrite E).
    assert (is_v4 v6 = true) as Hv by (unfold v6, is_v4 in *; by rewrite E).
    pose proof (ip_ok_normalize v6 Hok) as Hok4. rewrite En in Hok4.
    destruct (normalize_cases v6) as [(a & b & c & d & E4 & _)|[_ ?]]; [|congruence].
    rewrite En in E4. unfold checked_sub, MAPPED_PREFIX. destruct (96 <=? p) eqn:E96; to_props.
    + cbn [mbind option_bind]. rewrite ipv4_net_new_spec; [|by rewrite E4|lia].
      replace (p - 96 <=? 32) with true by lia. rewrite covers_normalize; [|done|done|lia].
      cbn [addr]. rewrite Hp128, En, E4. apply net_contains_covers_v4; [|done].
      rewrite E4 in Hok4. split; [done|]. cbn. lia.
    + cbn. unfold covers. rewrite Hp128. cbn [addr]. rewrite Hv.
      replace (96 <=? p) with false by lia. by rewrite andb_false_r.
  - assert (is_v4 v6 = false) as Hv by (unfold v6, is_v4 in *; by rewrite E).
    rewrite net_contains_spec by auto using ip_ok_normalize. unfold covers. rewrite Hp128.
    cbn [addr prefix_len]. rewrite Hv.
    destruct (normalize_cases i) as [(a & b & c & d & -> & ->)|[-> Hvi]]; [done|].
    rewrite Hvi. destruct i; [done|reflexivity].
Qed.

Lemma range_covers entry i :
  ip_ok i ->
  match range (trim entry) with
  | Some r => net_contains r (normalize i)
  | None => false
  end = match denotes entry with Some n => covers n i | None => false end.
Proof.
  intros Hi. unfold range, denotes. destruct (net_parse (trim entry)) as [n|] eqn:E.
  { apply into_ipv4_when_mapped_covers; [by eapply net_parse_ok|done]. }
  destruct (parse_ip (trim entry)) as [a|] eqn:Ea; [|done]. cbn [fmap option_fmap option_map].
  apply parse_ip_ok in Ea. rewrite net_from_spec.
  assert (net_ok {| addr := a; prefix_len := family_bits a |}) as Hn
    by (split; [done|destruct a; cbn; lia]).
  rewrite <- into_ipv4_when_mapped_covers by done.
  unfold into_ipv4_when_mapped. cbn [addr prefix_len].
  destruct a as [|s0 s1 s2 s3 s4 s5 g h]; [done|]. cbn [normalize family_bits].
  destruct (to_ipv4_mapped _) as [v4|] eqn:Em; [|done].
  rewrite to_ipv4_mapped_spec in Em. case_match; [|done]. simplify_eq.
  unfold checked_sub, MAPPED_PREFIX. cbn. by rewrite ipv4_net_new_spec by done.
Qed.

(** A range set contains an address exactly when some entry of the list it
    was parsed from denotes a network or a bare address that covers it, over
    the 128-bit address space in which IPv4 addresses are their mapped form:
    entries and addresses match whichever way each is written, a mapped network
    wider than the mapped block matches nothing, malformed entries match
    nothing, and IPv6 networks never match IPv4 addresses. *)
Theorem range_set_contains entries i :
  ip_ok i ->
  contains (range_set_parse entries) i =
  existsb (fun entry => match denotes entry with Some n => covers n i | None => false end) entries.
Proof.
  intros Hi. unfold contains, range_set_parse. cbn [ranges].
  induction entries as [|e es IH]; [done|]. cbn [omap list_omap existsb].
  rewrite <- range_covers by done. destruct (range (trim e)); cbn [existsb]; by rewrite <- IH.
Qed.

End IpRange.

(** ** An instance of the interface, for evaluation *)

Definition simple_parse (s : bytes) : option IpNet :=
  match split_once (is_byte x2f) s with
  | Some (a, p) =>
      match parse_ip a, parse_uint 128 p with
      | Some i, Some p =>
          if (0 <=? p) && (p <=? family_bits i) then Some {| addr := i; prefix_len := p |} else None
      | _, _ => None
      end
  | None => None
  end.

#[local] Instance simple_net : IpNetOps := {|
  net_parse := simple_parse;
  net_contains n i :=
    bool_decide (family_bits (addr n) = family_bits i)
    && (family_value (addr n) / 2 ^ (family_bits i - prefix_len n)
        =? family_value i / 2 ^ (family_bits i - prefix_len n));
  ipv4_net_new i p := if p <=? 32 then Some {| addr := i; prefix_len := p |} else None;
  net_from i := {| addr := i; prefix_len := family_bits i |};
|}.

#[local] Instance simple_net_laws : IpNetLaws.
Proof.
  split; try done. intros s n. cbn. unfold simple_parse. intros. repeat case_match; simplify_eq.
  to_props. split; cbn; [by eapply parse_ip_ok|lia].
Qed.

Lemma range_set_contains_witness :
  contains (range_set_parse [str " ::ffff:10.0.0.0/104"; str "nonsense"]) (V4 10 1 2 3) = true /\
  contains (range_set_parse [str "::ffff:0:0/64"]) (V4 10 1 2 3) = false.
Proof.
  split.
  - rewrite (range_set_contains [str " ::ffff:10.0.0.0/104"; str "nonsense"] (V4 10 1 2 3));
      [vm_compute; reflexivity|unfold ip_ok, is_u8; lia].
  - vm_compute. reflexivity.
Defined.
