(* ===== verification/Candidate.v ===== *)
(** * Candidate: [a=candidate] lines of session descriptions
    ([util/candidate.rs])

    Parsing, inference from the signaling address and rewriting to the
    advertised addresses.  Rust string slices are byte lists; [HashSet] is
    [gset].  The [u32] foundation counter is an integer: it starts at
    80,000,000 and grows by one per emitted line. *)
From S2P Require Import Prelude Text Errors Endpoint.

Definition ATTRIBUTE_PREFIX : bytes := str "a=candidate:".

Inductive CandidateLineError := TooFewTokens | MissingTypeKeyword | UnknownKind | InvalidPort.

Inductive CandidateKind := Host | Srflx | Prflx | Relay.

#[global] Instance CandidateKind_eq_dec : EqDecision CandidateKind.
Proof. solve_decision. Defined.

Definition from_token (token : bytes) : option CandidateKind :=
  if bytes_eqb token (str "host") then Some Host
  else if bytes_eqb token (str "srflx") then Some Srflx
  else if bytes_eqb token (str "prflx") then Some Prflx
  else if bytes_eqb token (str "relay") then Some Relay
  else None.

Definition is_reflexive_or_relayed (k : CandidateKind) : bool := negb (bool_decide (k = Host)).

Record CandidateLine := {
  transport : bytes;
  address : bytes;
  cport : Z;
  kind : CandidateKind;
}.

Definition MAX_INFERRED : nat := 8.
Definition INFERRED_PRIORITY : Z := 1677721855.
Definition INFERRED_FOUNDATION : Z := 90000000.
Definition TRANSLATED_PRIORITY : Z :=
  Z.lor (Z.lor (Z.shiftl 100 24) (Z.shiftl 65535 8)) 255.
Definition TRANSLATED_FOUNDATION : Z := 80000000.

Definition is_udp (c : CandidateLine) : bool := eq_ignore_ascii_case (transport c) (str "udp").

(** Tokens joined by single spaces, as the format strings lay them out. *)
Definition spaced (tokens : list bytes) : bytes := intercalate [space] tokens.

Definition inferred (index : nat) (source : IpAddr) (port : Z) : bytes :=
  spaced [str "candidate:" ++ dec (INFERRED_FOUNDATION + Z.of_nat index); str "1"; str "UDP";
          dec INFERRED_PRIORITY; show_ip source; dec port; str "typ"; str "srflx";
          str "raddr"; str "0.0.0.0"; str "rport"; str "0"].

Definition translated (c : CandidateLine) (foundation : Z) (addr : bytes) : bytes :=
  spaced [ATTRIBUTE_PREFIX ++ dec foundation; str "1"; transport c; dec TRANSLATED_PRIORITY;
          addr; dec (cport c); str "typ"; str "srflx"; str "raddr"; address c; str "rport";
          dec (cport c)].

Definition try_from (line : bytes) : Res CandidateLineError CandidateLine :=
  let tokens := split_on (is_byte space) line in
  if (length tokens <? 8)%nat then Err TooFewTokens
  else if negb (bytes_eqb (nth 6 tokens []) (str "typ")) then Err MissingTypeKeyword
  else
    k ← ok_or UnknownKind (from_token (nth 7 tokens []));
    p ← ok_or InvalidPort (parse_uint u16_max (nth 5 tokens []));
    Ok {| transport := nth 2 tokens []; address := nth 4 tokens []; cport := p; kind := k |}.

Definition sdp_lines (sdp : bytes) : list bytes := split_on is_eol sdp.

Definition candidates (sdp : bytes) : list CandidateLine :=
  omap (fun line => if starts_with ATTRIBUTE_PREFIX line then res_ok (try_from line) else None)
       (sdp_lines sdp).

Definition normalized (addr : bytes) : bytes :=
  match parse addr with Some literal => show_ip literal | None => addr end.

Definition has_routable_host_candidate (sdp : bytes) : bool :=
  existsb (fun c => bool_decide (kind c = Host)
                    && match parse (address c) with Some a => routable a | None => false end)
          (candidates sdp).

(** The loop over the offer's candidates: [None] is its early return. *)
Fixpoint inferred_ports (cs : list CandidateLine) (ports : list Z) : option (list Z) :=
  match cs with
  | [] => Some ports
  | c :: cs =>
      if is_reflexive_or_relayed (kind c) then None
      else if is_udp c && (length ports <? MAX_INFERRED)%nat && negb (bool_decide (cport c ∈ ports))
      then inferred_ports cs (ports ++ [cport c])
      else inferred_ports cs ports
  end.

Definition inferred_peer_candidates (sdp : bytes) (signaled_from : option SocketAddr)
    : list bytes :=
  match signaled_from with
  | None => []
  | Some addr =>
      let from := normalize (ip addr) in
      if negb (routable from) then []
      else match inferred_ports (candidates sdp) [] with
           | None => []
           | Some ports => imap (fun index port => inferred index from port) ports
           end
  end.

(** *** Rewriting to the advertised addresses *)

(** [Ord] of byte strings, and [sort] (equal strings are the same string, so
    any sort agrees with the standard library's). *)
Fixpoint bytes_leb (a b : bytes) : bool :=
  match a, b with
  | [], _ => true
  | _, [] => false
  | x :: a, y :: b =>
      if Z_of_byte x <? Z_of_byte y then true
      else if Z_of_byte y <? Z_of_byte x then false
      else bytes_leb a b
  end.

Fixpoint insert_sorted (x : bytes) (l : list bytes) : list bytes :=
  match l with
  | [] => [x]
  | y :: l' => if bytes_leb x y then x :: l else y :: insert_sorted x l'
  end.

Definition sort (l : list bytes) : list bytes := foldr insert_sorted [] l.

(** [sort_by_key] with a [bool] key: stable, [false] first. *)
Definition sort_by_bool_key {A} (key : A -> bool) (l : list A) : list A :=
  List.filter (fun x => negb (key x)) l ++ List.filter key l.

Definition same_family (target : IpAddr) (host : option IpAddr) : bool :=
  match target, host with
  | V4 _ _ _ _, Some (V4 _ _ _ _) => true
  | V6 _ _ _ _ _ _ _ _, Some (V6 _ _ _ _ _ _ _ _) => true
  | _, _ => false
  end.

(** The loop over the hosts for one foreign address: what was emitted, the
    keys seen and the next foundation. *)
Fixpoint translate_hosts (target : IpAddr) (addr : bytes) (hosts : list CandidateLine)
    (st : list bytes * gset (bytes * Z) * Z) : list bytes * gset (bytes * Z) * Z :=
  match hosts with
  | [] => st
  | host :: hosts =>
      let '(out, emitted, foundation) := st in
      if negb (same_family target (parse (address host)))
         || bool_decide ((addr, cport host) ∈ emitted)
      then translate_hosts target addr hosts st
      else translate_hosts target addr hosts
             (out ++ [translated host foundation addr],
              {[ (addr, cport host) ]} ∪ emitted, foundation + 1)
  end.

Definition translated_candidates (hosts : list CandidateLine) (foreign : list bytes)
    : list bytes :=
  (fold_left (fun st addr =>
     match parse addr with
     | None => st
     | Some target => translate_hosts target addr hosts st
     end) foreign ([], ∅, TRANSLATED_FOUNDATION)).1.1.

Definition push_line (out line : bytes) : bytes := out ++ line ++ crlf.

(** The output loop: translated lines go after the candidate block. *)
Fixpoint emit_lines (held : gset bytes) (lines : list bytes) (seen_candidates : bool)
    (trans : list bytes) (out : bytes) : bytes :=
  match lines with
  | [] => fold_left push_line trans out
  | line :: lines =>
      if starts_with ATTRIBUTE_PREFIX line then
        let kept :=
          match try_from line with
          | Ok c => is_reflexive_or_relayed (kind c) || bool_decide (normalized (address c) ∈ held)
          | _ => false
          end in
        if bool_decide (held <> ∅) && negb kept
        then emit_lines held lines true trans out
        else emit_lines held lines true trans (push_line out line)
      else if seen_candidates
      then emit_lines held lines seen_candidates [] (push_line (fold_left push_line trans out) line)
      else emit_lines held lines seen_candidates trans (push_line out line)
  end.

Definition with_advertised_candidates (sdp : bytes) (allowed : list bytes) : bytes :=
  if (length allowed =? 0)%nat then sdp
  else
    let lines := List.filter (fun line => negb (length line =? 0)%nat) (sdp_lines sdp) in
    let cs := candidates sdp in
    let gathered : gset bytes := list_to_set ((fun c => normalized (address c)) <$> cs) in
    let hosts := List.filter (fun c => bool_decide (kind c = Host) && is_udp c) cs in
    let allowed := normalized <$> allowed in
    let held : gset bytes := list_to_set (List.filter (fun a => bool_decide (a ∈ gathered)) allowed) in
    let foreign := sort (List.filter (fun a => negb (bool_decide (a ∈ gathered))) allowed) in
    let hosts := sort_by_bool_key (fun h => negb (bool_decide (normalized (address h) ∈ held))) hosts in
    let trans := translated_candidates hosts foreign in
    if bool_decide (held = ∅) && (length trans =? 0)%nat then sdp
    else emit_lines held lines false trans [].

(** ** Tokens and lines *)

(** A token: no space and no line end inside. *)
Definition blank (b : byte) : bool := is_byte space b || is_eol b.
Definition token (s : bytes) : Prop := sep_free blank s.

Lemma sep_free_weaken (p q : byte -> bool) s :
  (forall b, q b = true -> p b = true) -> sep_free p s -> sep_free q s.
Proof.
  intros Hpq Hs. eapply List.Forall_impl; [|exact Hs]. intros b Hb. cbn in *.
  destruct (q b) eqn:E; [|done]. apply Hpq in E. congruence.
Qed.

Lemma token_no_space s : token s -> sep_free (is_byte space) s.
Proof. apply sep_free_weaken. intros b H. unfold blank. by rewrite H. Qed.

Lemma token_no_eol s : token s -> sep_free is_eol s.
Proof. apply sep_free_weaken. intros b H. unfold blank. by rewrite H, orb_true_r. Qed.

Lemma token_combine s : sep_free (is_byte space) s -> sep_free is_eol s -> token s.
Proof.
  unfold token, sep_free. rewrite !Forall_forall. intros H1 H2 b Hb.
  unfold blank. by rewrite H1, H2.
Qed.

Lemma token_dec z : 0 <= z -> token (dec z).
Proof.
  intros Hz. eapply List.Forall_impl; [|exact (dec_all_digits z Hz)].
  intros b Hb. unfold is_ascii_digit, in_range in Hb. by destruct b.
Qed.

Lemma token_intercalate sep ws : token sep -> Forall token ws -> token (intercalate sep ws).
Proof.
  intros Hsep. induction 1 as [|w ws Hw Hws IH]; [constructor|].
  cbn [intercalate]. destruct ws; [done|]. by repeat (apply Forall_app; split).
Qed.

Lemma token_hex_digit d : 0 <= d < 16 -> blank (hex_digit d) = false.
Proof.
  intros Hd. assert (d ∈ seqZ 0 16) as Hin by (apply elem_of_seqZ; lia).
  clear Hd. revert d Hin.
  apply (list.Forall_forall (fun d => blank (hex_digit d) = false)). cbn. repeat constructor.
Qed.

Lemma token_show_group g : is_u16 g -> token (show_group g).
Proof.
  unfold is_u16, show_group. intros Hg.
  assert (forall a b, 0 <= a -> 0 < b -> 0 <= a / b /\ (a < 16 * b -> a / b < 16)) as Hd.
  { intros a b Ha Hb. split; [by apply Z.div_pos|]. intros. apply Z.div_lt_upper_bound; lia. }
  pose proof (Hd g 16). pose proof (Hd g 256). pose proof (Hd g 4096).
  pose proof (Z.mod_pos_bound g 16). pose proof (Z.mod_pos_bound (g / 16) 16).
  pose proof (Z.mod_pos_bound (g / 256) 16).
  repeat split_match; to_props; repeat constructor; apply token_hex_digit; lia.
Qed.

Lemma token_show_ipv4 a b c d : ip_ok (V4 a b c d) -> token (show_ipv4 a b c d).
Proof.
  unfold ip_ok, is_u8. intros H. apply token_intercalate; [by repeat constructor|].
  repeat constructor; apply token_dec; lia.
Qed.

Lemma token_groups l start len :
  Forall is_u16 l ->
  token (if (1 <? len)%nat
         then intercalate [x3a] (show_group <$> take start l) ++ [x3a; x3a]
              ++ intercalate [x3a] (show_group <$> drop (start + len) l)
         else intercalate [x3a] (show_group <$> l)).
Proof.
  intros Hl.
  assert (forall l, Forall is_u16 l -> token (intercalate [x3a] (show_group <$> l))) as Hj.
  { intros k Hk. apply token_intercalate; [by repeat constructor|]. apply Forall_fmap.
    eapply List.Forall_impl; [|exact Hk]. apply token_show_group. }
  case_match; [|by apply Hj]. repeat (apply Forall_app; split).
  - by apply Hj, Forall_take.
  - by repeat constructor.
  - by apply Hj, Forall_drop.
Qed.

Lemma token_show_ip i : ip_ok i -> token (show_ip i).
Proof.
  intros Hok. destruct i as [a b c d|s0 s1 s2 s3 s4 s5 g h]; [by apply token_show_ipv4|].
  cbn [show_ip]. pose proof (ip_ok_normalize _ Hok) as Hn. cbn [normalize] in Hn.
  assert (Forall is_u16 (ip_to_list (V6 s0 s1 s2 s3 s4 s5 g h))) as Hl.
  { unfold ip_ok in Hok. cbn. repeat constructor; apply Hok. }
  destruct (longest_zeros _ _ _ _ _ _) as [start len].
  destruct (to_ipv4_mapped _) as [[a b c d|]|].
  - apply Forall_app. split; [by repeat constructor|by apply token_show_ipv4].
  - by apply token_groups.
  - by apply token_groups.
Qed.

(** Splitting undoes joining. *)
Lemma split_on_spaced ws :
  ws <> [] -> Forall (sep_free (is_byte space)) ws -> split_on (is_byte space) (spaced ws) = ws.
Proof.
  intros Hne Hws. induction Hws as [|w ws Hw Hws IH]; [done|]. unfold spaced in *.
  cbn [intercalate]. destruct ws as [|w' ws]; [by apply split_on_free|].
  cbn [app]. rewrite split_on_app by done. by rewrite IH.
Qed.

(** A line of the two formats parses to its fields. *)
Lemma try_from_spaced w0 w1 t w3 a p rest :
  Forall token (w0 :: w1 :: t :: w3 :: a :: rest) -> is_u16 p ->
  try_from (spaced (w0 :: w1 :: t :: w3 :: a :: dec p :: str "typ" :: str "srflx" :: rest))
  = Ok {| transport := t; address := a; cport := p; kind := Srflx |}.
Proof.
  unfold is_u16. intros Hw Hp.
  assert (forall s, token s -> sep_free (is_byte space) s) as Hs by apply token_no_space.
  unfold try_from. rewrite split_on_spaced; [|done|].
  - cbn [length nth]. rewrite parse_uint_dec by (unfold u16_max; lia). reflexivity.
  - decompose_Forall_hyps. assert (token (dec p)) by (apply token_dec; lia).
    do 8 (constructor; [first [by apply Hs|by repeat constructor]|]).
    eapply List.Forall_impl; [apply Hs|done].
Qed.

Lemma split_on_Forall (P : byte -> Prop) sep s : Forall P s -> Forall (Forall P) (split_on sep s).
Proof.
  induction 1 as [|b s Hb Hs IH]; cbn; [by repeat constructor|].
  destruct (sep b); [by constructor; [constructor|]|].
  destruct (split_on sep s); [by repeat constructor|]. decompose_Forall_hyps.
  by repeat constructor.
Qed.

Lemma try_from_fields c line :
  sep_free is_eol line -> try_from line = Ok c ->
  token (transport c) /\ token (address c) /\ is_u16 (cport c).
Proof.
  intros Hl. unfold try_from. set (ws := split_on _ line).
  assert (Forall token ws) as Hws.
  { pose proof (split_on_pieces_free (is_byte space) line) as H1.
    pose proof (split_on_Forall _ (is_byte space) _ Hl) as H2. fold ws in H1, H2.
    rewrite Forall_forall in *. intros w Hw. apply token_combine; [by apply H1|by apply H2]. }
  assert (forall n, token (nth n ws [])) as Hn.
  { intros n. destruct (Nat.lt_ge_cases n (length ws)).
    - rewrite Forall_forall in Hws. by apply Hws, nth_In.
    - rewrite nth_overflow by done. constructor. }
  do 2 (case_match; [done|]). intros [k [_ H2]]%res_bind_inv.
  apply res_bind_inv in H2 as (p & Hp & [= <-]). cbn. split; [done|]. split; [done|].
  destruct (parse_uint _ _) eqn:E; simplify_eq/=. unfold parse_uint in E.
  destruct (parse_digits _) eqn:E' in E; [|done]. apply parse_digits_nonneg in E'.
  case_match; [|done]. to_props. simplify_eq. unfold is_u16, u16_max in *. lia.
Qed.

Lemma candidates_In c sdp :
  c ∈ candidates sdp ->
  exists line, In line (sdp_lines sdp) /\ starts_with ATTRIBUTE_PREFIX line = true
    /\ try_from line = Ok c.
Proof.
  unfold candidates. rewrite list_elem_of_omap. intros (line & Hl & H). exists line.
  split; [by apply list_elem_of_In|]. case_match; [|done]. split; [done|].
  by destruct (try_from line); simplify_eq/=.
Qed.

Lemma candidates_fields c sdp :
  c ∈ candidates sdp -> token (transport c) /\ token (address c) /\ is_u16 (cport c).
Proof.
  intros (line & Hl & _ & Ht)%candidates_In. eapply try_from_fields; [|done].
  pose proof (split_on_pieces_free is_eol sdp) as Hf. rewrite Forall_forall in Hf. by apply Hf.
Qed.

(** ** Inference *)

(** The reference: the distinct ports of the UDP candidates in order, the first
    eight of them. *)
Fixpoint nub (seen : list Z) (l : list Z) : list Z :=
  match l with
  | [] => []
  | x :: l => if bool_decide (x ∈ seen) then nub seen l else x :: nub (seen ++ [x]) l
  end.

Definition udp_ports (cs : list CandidateLine) : list Z := cport <$> List.filter is_udp cs.

Definition all_hosts (cs : list CandidateLine) : bool :=
  forallb (fun c => bool_decide (kind c = Host)) cs.

Lemma nub_spec seen l :
  NoDup seen -> NoDup (seen ++ nub seen l) /\ (forall x, x ∈ nub seen l -> x ∈ l).
Proof.
  revert seen. induction l as [|x l IH]; intros seen Hs; cbn.
  { rewrite app_nil_r. split; [done|]. by intros x Hx%elem_of_nil. }
  case_bool_decide as Hx.
  - destruct (IH seen Hs). split; [done|]. intros. apply elem_of_cons. auto.
  - destruct (IH (seen ++ [x])) as [H1 H2].
    { apply list.NoDup_app. split; [done|]. split; [|apply NoDup_singleton].
      intros y Hy Hyx%list_elem_of_singleton. by subst. }
    rewrite <- app_assoc in H1. split; [done|].
    intros y [->|Hy]%elem_of_cons; apply elem_of_cons; auto.
Qed.

Lemma inferred_ports_spec cs ports :
  (length ports <= MAX_INFERRED)%nat ->
  inferred_ports cs ports =
  if all_hosts cs then Some (take MAX_INFERRED (ports ++ nub ports (udp_ports cs))) else None.
Proof.
  revert ports. induction cs as [|c cs IH]; intros ports Hp; cbn [inferred_ports all_hosts forallb].
  { cbn. by rewrite app_nil_r, take_ge. }
  fold (all_hosts cs). unfold is_reflexive_or_relayed.
  destruct (bool_decide (kind c = Host)); [|done]. cbn [negb andb].
  unfold udp_ports. cbn [List.filter]. destruct (is_udp c) eqn:Eu; cbn [andb].
  2: { by rewrite IH. }
  cbn [fmap list_fmap nub]. case_bool_decide as Hin.
  { rewrite andb_false_r. by rewrite IH. }
  rewrite andb_true_r. destruct (_ <? _)%nat eqn:El.
  - apply Nat.ltb_lt in El. rewrite IH by (rewrite length_app; cbn; lia).
    by rewrite <- app_assoc.
  - apply Nat.ltb_ge in El. rewrite IH by done.
    destruct (all_hosts cs); [|done]. by rewrite !take_app_le, !take_ge by lia.
Qed.

Lemma try_from_inferred index source p :
  ip_ok source -> is_u16 p ->
  try_from (inferred index source p)
  = Ok {| transport := str "UDP"; address := show_ip source; cport := p; kind := Srflx |}.
Proof.
  intros Hs Hp. apply try_from_spaced; [|done].
  repeat (constructor; [first [by apply token_show_ip|by repeat constructor
    |apply token_dec; unfold INFERRED_PRIORITY; lia|apply Forall_app; split; [by repeat constructor|
      apply token_dec; unfold INFERRED_FOUNDATION; lia]]|]). constructor.
Qed.

Lemma udp_ports_range sdp p : p ∈ udp_ports (candidates sdp) -> is_u16 p.
Proof.
  unfold udp_ports. rewrite list_elem_of_fmap. intros (c & -> & Hc).
  apply list_elem_of_In, filter_In in Hc as [Hc%list_elem_of_In _].
  by apply candidates_fields in Hc as (_ & _ & ?).
Qed.

(** The candidates inferred for a peer are exactly these: none when the
    signaling address is not routable or when the offer has a reflexive or
    relayed candidate; otherwise one per distinct UDP port of the offer in the
    order of first appearance, at most eight.  Each line parses back to a
    server-reflexive UDP candidate on the normalized signaling address and a
    port the offer named. *)
Theorem inferred_candidates_exact sdp from :
  ip_ok (ip from) ->
  let source := normalize (ip from) in
  let ports := take 8 (nub [] (udp_ports (candidates sdp))) in
  inferred_peer_candidates sdp (Some from) =
    (if routable source && all_hosts (candidates sdp)
     then imap (fun index port => inferred index source port) ports else []) /\
  NoDup ports /\ (length ports <= 8)%nat /\
  Forall (fun line => exists p, p ∈ udp_ports (candidates sdp) /\
    try_from line = Ok {| transport := str "UDP"; address := show_ip source; cport := p;
                          kind := Srflx |})
    (inferred_peer_candidates sdp (Some from)).
Proof.
  intros Hok source ports.
  destruct (nub_spec [] (udp_ports (candidates sdp)) (NoDup_nil_2)) as [Hnd Hin].
  assert (inferred_peer_candidates sdp (Some from) =
    (if routable source && all_hosts (candidates sdp)
     then imap (fun index port => inferred index source port) ports else [])) as Heq.
  { unfold inferred_peer_candidates. fold source. rewrite inferred_ports_spec by (cbn; lia).
    by destruct (routable source), (all_hosts (candidates sdp)). }
  split; [done|]. split.
  { eapply sublist_NoDup; [exact Hnd|apply sublist_take]. }
   split; [apply firstn_le_length|].
  rewrite Heq. case_match; [|constructor].
  apply list.Forall_forall. intros line (i & p & Hline & Hp)%elem_of_lookup_imap.
  assert (p ∈ udp_ports (candidates sdp)) as Hpu.
  { apply Hin. apply list_elem_of_lookup_2, elem_of_take in Hp as (j & Hj & _).
    by eapply list_elem_of_lookup_2. }
  exists p. split; [done|]. rewrite Hline.
  apply try_from_inferred; [by apply ip_ok_normalize|by eapply udp_ports_range].
Qed.

Definition sample_offer : bytes :=
  str "v=0" ++ crlf
  ++ str "a=candidate:1 1 udp 2130706431 192.168.1.10 54321 typ host generation 0" ++ crlf
  ++ str "a=candidate:2 1 udp 2130706431 10.0.0.5 54322 typ host generation 0" ++ crlf
  ++ str "a=ice-ufrag:abcd" ++ crlf.

Lemma inferred_candidates_exact_witness :
  let from := {| ip := V4 93 184 216 34; port := 19132 |} in
  inferred_peer_candidates sample_offer (Some from)
  = [str "candidate:90000000 1 UDP 1677721855 93.184.216.34 54321 typ srflx raddr 0.0.0.0 rport 0";
     str "candidate:90000001 1 UDP 1677721855 93.184.216.34 54322 typ srflx raddr 0.0.0.0 rport 0"].
Proof.
  intros from. destruct (inferred_candidates_exact sample_offer from) as [H _].
  { unfold ip_ok, is_u8. cbn. lia. }
  rewrite H. vm_compute. reflexivity.
Defined.

(** ** Rewriting *)

Definition lines_of (sdp : bytes) : list bytes :=
  List.filter (fun line => negb (length line =? 0)%nat) (sdp_lines sdp).

Definition is_candidate (line : bytes) : bool := starts_with ATTRIBUTE_PREFIX line.

(** A line as it stands in a description: not empty, no line end inside. *)
Definition line_ok (line : bytes) : Prop := sep_free is_eol line /\ line <> [].

Lemma lines_of_ok sdp : Forall line_ok (lines_of sdp).
Proof.
  apply Forall_forall. intros line [Hin Hne]%filter_In. split.
  - pose proof (split_on_pieces_free is_eol sdp) as Hf. rewrite Forall_forall in Hf. by apply Hf.
  - by destruct line.
Qed.

Lemma candidates_lines_of sdp :
  candidates sdp =
  omap (fun line => if is_candidate line then res_ok (try_from line) else None) (lines_of sdp).
Proof.
  unfold candidates, lines_of. induction (sdp_lines sdp) as [|l ls IH]; [done|].
  cbn [List.filter omap list_omap]. destruct l; cbn [length Nat.eqb negb]; [exact IH|].
  cbn [omap list_omap]. unfold is_candidate at 1. by rewrite IH.
Qed.

Definition unlines (ls : list bytes) : bytes := concat ((fun l => l ++ crlf) <$> ls).

Lemma push_lines ls out : fold_left push_line ls out = out ++ unlines ls.
Proof.
  revert out. induction ls as [|l ls IH]; intros out; cbn; [by rewrite app_nil_r|].
  rewrite IH. unfold push_line, unlines. by rewrite <- !app_assoc.
Qed.

Lemma unlines_app ls ks : unlines (ls ++ ks) = unlines ls ++ unlines ks.
Proof. unfold unlines. by rewrite fmap_app, concat_app. Qed.

Lemma lines_of_unlines ls : Forall line_ok ls -> lines_of (unlines ls) = ls.
Proof.
  induction 1 as [|l ls [Hf Hne] Hls IH]; [done|]. unfold unlines, lines_of, sdp_lines in *.
  cbn [fmap list_fmap concat]. rewrite <- app_assoc.
  assert (forall s, crlf ++ s = x0d :: x0a :: s) as -> by done.
  rewrite split_on_app by done.
  assert (forall s, split_on is_eol (x0a :: s) = [] :: split_on is_eol s) as -> by done.
  destruct l; [done|]. cbn [List.filter length Nat.eqb negb]. by rewrite IH.
Qed.

(** The lines the output loop writes. *)
Fixpoint emitted (held : gset bytes) (lines : list bytes) (seen : bool) (trans : list bytes)
    : list bytes :=
  match lines with
  | [] => trans
  | line :: lines =>
      if is_candidate line then
        let kept :=
          match try_from line with
          | Ok c => is_reflexive_or_relayed (kind c) || bool_decide (normalized (address c) ∈ held)
          | _ => false
          end in
        if bool_decide (held <> ∅) && negb kept then emitted held lines true trans
        else line :: emitted held lines true trans
      else if seen then trans ++ line :: emitted held lines seen []
      else line :: emitted held lines seen trans
  end.

Lemma emit_lines_emitted held lines seen trans out :
  emit_lines held lines seen trans out = out ++ unlines (emitted held lines seen trans).
Proof.
  revert seen trans out. induction lines as [|l ls IH]; intros seen trans out;
    cbn [emit_lines emitted]; [apply push_lines|].
  fold (is_candidate l). unfold push_line.
  assert (forall ks, unlines (l :: ks) = l ++ crlf ++ unlines ks) as Hcons
    by (intros; unfold unlines; cbn; by rewrite <- !app_assoc).
  repeat split_match; rewrite IH, ?push_lines, ?unlines_app, ?Hcons, <- ?app_assoc; done.
Qed.

(** A translated line, with what it was made from. *)
Definition is_translation (hosts : list CandidateLine) (foreign : list bytes) (line : bytes)
    : Prop :=
  exists h a target f, h ∈ hosts /\ a ∈ foreign /\ parse a = Some target /\
    same_family target (parse (address h)) = true /\ 0 <= f /\ line = translated h f a.

Lemma parse_token a target : parse a = Some target -> token a.
Proof.
  unfold parse. intros. repeat case_match; simplify_eq. to_props.
  match goal with H : forallb _ _ = true |- _ => rewrite forallb_forall in H; rename H into Hall end.
  apply Forall_forall. intros b Hb%Hall. by destruct b.
Qed.

Lemma try_from_translated h a target f :
  token (transport h) -> token (address h) -> is_u16 (cport h) -> parse a = Some target -> 0 <= f ->
  try_from (translated h f a)
  = Ok {| transport := transport h; address := a; cport := cport h; kind := Srflx |}.
Proof.
  intros Ht Ha Hp Hpa%parse_token Hf. apply try_from_spaced; [|done].
  assert (token (dec (cport h))) by (apply token_dec; unfold is_u16 in Hp; lia).
  repeat (constructor; [first [done|by repeat constructor|by apply token_dec
    |apply Forall_app; split; [by repeat constructor|by apply token_dec]]|]).
  constructor.
Qed.

Lemma translated_line_ok h a target f :
  token (transport h) -> token (address h) -> is_u16 (cport h) -> parse a = Some target -> 0 <= f ->
  line_ok (translated h f a) /\ is_candidate (translated h f a) = true.
Proof.
  intros Ht Ha Hp Hpa%parse_token Hf.
  assert (token (dec (cport h))) by (apply token_dec; unfold is_u16 in Hp; lia).
  split; [split|].
  - unfold translated, spaced.
    assert (forall ws, Forall token ws -> sep_free is_eol (intercalate [space] ws)) as Hj.
    { induction 1 as [|w ws Hw Hws IH]; [constructor|]. cbn [intercalate].
      apply token_no_eol in Hw. destruct ws; [done|].
      apply Forall_app. split; [done|]. constructor; [done|exact IH]. }
    apply Hj. repeat (constructor; [first [done|by repeat constructor|by apply token_dec
      |apply Forall_app; split; [by repeat constructor|by apply token_dec]]|]). constructor.
  - unfold translated, spaced. cbn [intercalate]. unfold ATTRIBUTE_PREFIX. cbn. discriminate.
  - apply starts_with_true. unfold translated, spaced. cbn [intercalate].
    eexists. by rewrite <- app_assoc.
Qed.

Section translation.
Context (hosts : list CandidateLine) (foreign : list bytes).

(** What the nested loops maintain: every line is a translation, and every
    key seen has its line. *)
Definition trans_inv (st : list bytes * gset (bytes * Z) * Z) : Prop :=
  let '(out, em, f) := st in
  0 <= f /\ Forall (is_translation hosts foreign) out /\
  (forall a p, (a, p) ∈ em -> exists h f target,
     h ∈ hosts /\ parse a = Some target /\ 0 <= f /\ cport h = p /\ translated h f a ∈ out).

Lemma translate_hosts_inv target a hs st :
  (forall h, h ∈ hs -> h ∈ hosts) -> a ∈ foreign -> parse a = Some target -> trans_inv st ->
  let st' := translate_hosts target a hs st in
  trans_inv st' /\ st.1.2 ⊆ st'.1.2 /\
  (forall h, h ∈ hs -> same_family target (parse (address h)) = true -> (a, cport h) ∈ st'.1.2).
Proof.
  intros Hhs Ha Hpa. revert st. induction hs as [|h hs IH]; intros st Hst.
  { cbn. split; [done|]. split; [done|]. by intros h Hh%elem_of_nil. }
  destruct st as [[out em] f]. cbn [translate_hosts].
  assert (forall h', h' ∈ hs -> h' ∈ hosts) as Hhs' by (intros; apply Hhs; by right).
  destruct (same_family target (parse (address h))) eqn:Ef; cbn [negb orb].
  - case_bool_decide as Hem.
    + destruct (IH Hhs' (out, em, f) Hst) as (H1 & H2 & H3). split; [done|]. split; [done|].
      intros h' [->|Hh]%elem_of_cons Hf; [by apply H2|by apply H3].
    + destruct (IH Hhs' (out ++ [translated h f a], {[(a, cport h)]} ∪ em, f + 1))
        as (H1 & H2 & H3).
      { destruct Hst as (Hf & Hout & Hkeys). split; [lia|]. split.
        - apply Forall_app. split; [done|]. repeat constructor.
          exists h, a, target, f. repeat split; try done. apply Hhs. by left.
        - intros a' p [[= -> ->]%elem_of_singleton|Hk]%elem_of_union.
          + exists h, f, target. repeat split; try done; [apply Hhs; by left|].
            apply elem_of_app. right. by left.
          + destruct (Hkeys _ _ Hk) as (h' & f' & t' & ? & ? & ? & ? & ?).
            exists h', f', t'. repeat split; try done. apply elem_of_app. by left. }
      split; [done|]. split; [cbn in H2 |- *; set_solver|].
      intros h' [->|Hh]%elem_of_cons Hf; [apply H2; cbn; set_solver|by apply H3].
  - destruct (IH Hhs' (out, em, f) Hst) as (H1 & H2 & H3). split; [done|]. split; [done|].
    intros h' [->|Hh]%elem_of_cons Hf; [congruence|by apply H3].
Qed.

Lemma translate_fold_inv addrs st :
  (forall a, a ∈ addrs -> a ∈ foreign) -> trans_inv st ->
  let st' := fold_left (fun st addr => match parse addr with
    | None => st | Some target => translate_hosts target addr hosts st end) addrs st in
  trans_inv st' /\ st.1.2 ⊆ st'.1.2 /\
  (forall a target h, a ∈ addrs -> parse a = Some target -> h ∈ hosts ->
     same_family target (parse (address h)) = true -> (a, cport h) ∈ st'.1.2).
Proof.
  revert st. induction addrs as [|a addrs IH]; intros st Hsub Hst; cbn [fold_left].
  { split; [done|]. split; [done|]. by intros ??? ?%elem_of_nil. }
  assert (forall a', a' ∈ addrs -> a' ∈ foreign) as Hsub' by (intros; apply Hsub; by right).
  destruct (parse a) as [target|] eqn:Ea.
  - destruct (translate_hosts_inv target a hosts st) as (H1 & H2 & H3); try done.
    { apply Hsub. by left. }
    destruct (IH _ Hsub' H1) as (H4 & H5 & H6). split; [done|]. split; [set_solver|].
    intros a' t' h [->|Ha']%elem_of_cons Hp Hh Hf; [|by eapply H6].
    apply H5, H3; [done|congruence].
  - destruct (IH _ Hsub' Hst) as (H4 & H5 & H6). split; [done|]. split; [done|].
    intros a' t' h [->|Ha']%elem_of_cons Hp Hh Hf; [congruence|by eapply H6].
Qed.

Lemma translated_candidates_sound :
  Forall (is_translation hosts foreign) (translated_candidates hosts foreign).
Proof.
  unfold translated_candidates.
  destruct (translate_fold_inv foreign ([], ∅, TRANSLATED_FOUNDATION)) as (H & _); [done| |].
  { split; [done|]. split; [constructor|]. set_solver. }
  destruct (fold_left _ _ _) as [[out em] f]. apply H.
Qed.

Lemma translated_candidates_complete a target h :
  a ∈ foreign -> parse a = Some target -> h ∈ hosts ->
  same_family target (parse (address h)) = true ->
  exists h' f, h' ∈ hosts /\ 0 <= f /\ cport h' = cport h /\
    translated h' f a ∈ translated_candidates hosts foreign.
Proof.
  unfold translated_candidates. intros Ha Hp Hh Hf.
  destruct (translate_fold_inv foreign ([], ∅, TRANSLATED_FOUNDATION)) as (H & _ & Hc); [done| |].
  { split; [done|]. split; [constructor|]. set_solver. }
  specialize (Hc a target h Ha Hp Hh Hf).
  destruct (fold_left _ _ _) as [[out em] f]. destruct H as (_ & _ & Hk).
  destruct (Hk _ _ Hc) as (h' & f' & t' & ? & ? & ? & ? & ?). by exists h', f'.
Qed.
End translation.

Lemma elem_of_sort x l : x ∈ sort l <-> x ∈ l.
Proof.
  assert (forall y l, x ∈ insert_sorted y l <-> x = y \/ x ∈ l) as Hins.
  { intros y k. induction k as [|z k IH]; cbn [insert_sorted]; [set_solver|].
    case_match; [set_solver|]. rewrite !elem_of_cons, IH. tauto. }
  induction l as [|y l IH]; [done|]. unfold sort in *. cbn [foldr].
  by rewrite Hins, IH, elem_of_cons.
Qed.

Lemma elem_of_list_filter {A} (p : A -> bool) x l :
  x ∈ List.filter p l <-> x ∈ l /\ p x = true.
Proof. by rewrite !list_elem_of_In, filter_In. Qed.

Lemma elem_of_sort_by_bool_key {A} (key : A -> bool) x l : x ∈ sort_by_bool_key key l <-> x ∈ l.
Proof.
  unfold sort_by_bool_key. rewrite elem_of_app, !elem_of_list_filter.
  destruct (key x); naive_solver.
Qed.

(** ** What is written *)

(** The lines the loop keeps. *)
Definition keeps (held : gset bytes) (line : bytes) : bool :=
  negb (is_candidate line) || bool_decide (held = ∅) ||
  match try_from line with
  | Ok c => is_reflexive_or_relayed (kind c) || bool_decide (normalized (address c) ∈ held)
  | _ => false
  end.

Lemma elem_of_emitted held lines seen trans line :
  line ∈ emitted held lines seen trans <-> line ∈ trans \/ (line ∈ lines /\ keeps held line = true).
Proof.
  revert seen trans. induction lines as [|l ls IH]; intros seen trans; cbn [emitted].
  { rewrite elem_of_nil. tauto. }
  rewrite elem_of_cons.
  assert (forall rest b, b = keeps held l ->
    (line ∈ (if b then l :: rest else rest) <-> line ∈ rest \/ (line = l /\ keeps held line = true)))
    as Hstep.
  { intros rest b ->. destruct (keeps held l) eqn:Ek; rewrite ?elem_of_cons; naive_solver congruence. }
  destruct (is_candidate l) eqn:El.
  - transitivity (line ∈ (if keeps held l then l :: emitted held ls true trans
                          else emitted held ls true trans)).
    { unfold keeps. rewrite El. cbn [negb orb].
      rewrite bool_decide_not.
      destruct (bool_decide (held = ∅)); [done|]. cbn [negb andb orb].
      match goal with |- context [negb ?k] => by destruct k end. }
    rewrite Hstep, IH by done. tauto.
  - assert (keeps held l = true) as Ek by (unfold keeps; by rewrite El).
    destruct seen; rewrite ?elem_of_app, elem_of_cons, IH, ?elem_of_nil; naive_solver congruence.
Qed.

Lemma emitted_other_lines held lines seen trans :
  Forall (fun l => is_candidate l = true) trans ->
  List.filter (fun l => negb (is_candidate l)) (emitted held lines seen trans)
  = List.filter (fun l => negb (is_candidate l)) lines.
Proof.
  assert (forall t, Forall (fun l => is_candidate l = true) t ->
    List.filter (fun l => negb (is_candidate l)) t = []) as Hnil.
  { induction 1 as [|l t Hl Ht IH]; cbn; [done|]. by rewrite Hl. }
  revert seen trans. induction lines as [|l ls IH]; intros seen trans Ht; cbn [emitted]; [by apply Hnil|].
  cbn [List.filter]. destruct (is_candidate l) eqn:El; cbn [negb].
  - case_match; cbn [List.filter]; rewrite ?El; by apply IH.
  - destruct seen; [rewrite filter_app, (Hnil _ Ht)|]; cbn [List.filter app]; rewrite El; cbn [negb].
    + by rewrite IH by constructor.
    + by rewrite IH.
Qed.

(** The local variables of [with_advertised_candidates]. *)
Section advertised.
Context (sdp : bytes) (allowed : list bytes).

Let gathered : list bytes := (fun c => normalized (address c)) <$> candidates sdp.
Let out : bytes := with_advertised_candidates sdp allowed.

(** An advertised address that was gathered, or one that was not. *)
Definition advertised (a : bytes) : Prop := a ∈ normalized <$> allowed.

Lemma advertised_out :
  (exists c, c ∈ candidates sdp /\ advertised (normalized (address c))) ->
  exists (held : gset bytes) hosts foreign,
    held <> ∅ /\
    (forall a, a ∈ held <-> advertised a /\ a ∈ gathered) /\
    (forall a, a ∈ foreign <-> advertised a /\ a ∉ gathered) /\
    (forall h, h ∈ hosts <-> h ∈ candidates sdp /\ kind h = Host /\ is_udp h = true) /\
    out = unlines (emitted held (lines_of sdp) false (translated_candidates hosts foreign)).
Proof.
  intros (c & Hc & Ha).
  unfold out, with_advertised_candidates. destruct (length allowed =? 0)%nat eqn:El.
  { apply Nat.eqb_eq in El. unfold advertised in Ha. destruct allowed; [|done].
    by apply elem_of_nil in Ha. }
  set (held := list_to_set (List.filter _ (normalized <$> allowed)) : gset bytes).
  set (foreign := sort _). set (hosts := sort_by_bool_key _ _).
  assert (forall a, a ∈ held <-> advertised a /\ a ∈ gathered) as Hheld.
  { intros a. unfold held. rewrite elem_of_list_to_set, elem_of_list_filter, bool_decide_eq_true.
    by rewrite elem_of_list_to_set. }
  exists held, hosts, foreign.
  assert (held <> ∅) as Hh.
  { intros E. apply (not_elem_of_empty (C := gset bytes) (normalized (address c))). rewrite <- E.
    apply Hheld. split; [done|]. apply list_elem_of_fmap. eauto. }
  split; [done|]. split; [done|]. split.
  { intros a. unfold foreign. rewrite elem_of_sort, elem_of_list_filter, negb_true_iff,
      bool_decide_eq_false, elem_of_list_to_set. done. }
  split.
  { intros h. unfold hosts. rewrite elem_of_sort_by_bool_key, elem_of_list_filter,
      andb_true_iff, bool_decide_eq_true. done. }
  rewrite bool_decide_eq_false_2 by done. cbn [andb]. by rewrite emit_lines_emitted.
Qed.
End advertised.

Lemma elem_of_candidates c sdp :
  c ∈ candidates sdp <-> exists line, line ∈ lines_of sdp /\ is_candidate line = true /\ try_from line = Ok c.
Proof.
  rewrite candidates_lines_of, list_elem_of_omap. split.
  - intros (line & Hl & H). exists line. split; [done|]. case_match; [|done]. split; [done|].
    by destruct (try_from line); simplify_eq/=.
  - intros (line & Hl & H1 & H2). exists line. split; [done|]. by rewrite H1, H2.
Qed.

(** The lines of a rewritten description, and that the added ones are candidates. *)
Lemma advertised_lines sdp held hosts foreign :
  (forall h, h ∈ hosts -> h ∈ candidates sdp) ->
  let trans := translated_candidates hosts foreign in
  (forall l, l ∈ trans -> is_translation hosts foreign l) /\
  Forall (fun l => is_candidate l = true) trans /\
  lines_of (unlines (emitted held (lines_of sdp) false trans)) = emitted held (lines_of sdp) false trans.
Proof.
  intros Hsub trans.
  pose proof (translated_candidates_sound hosts foreign) as Htr. fold trans in Htr.
  rewrite list.Forall_forall in Htr.
  assert (forall h, h ∈ hosts -> token (transport h) /\ token (address h) /\ is_u16 (cport h)) as Hf.
  { intros h Hh%Hsub. by eapply candidates_fields. }
  split; [done|]. split.
  - apply list.Forall_forall.
    intros l (h & a & t & f & (? & ? & ?)%Hf & _ & Hp & _ & Hf0 & ->)%Htr.
    by eapply translated_line_ok.
  - apply lines_of_unlines. apply list.Forall_forall. intros l Hl.
    apply elem_of_emitted in Hl as [(h & a & t & f & (? & ? & ?)%Hf & _ & Hp & _ & Hf0 & ->)%Htr|[Hl _]].
    + by eapply translated_line_ok.
    + pose proof (lines_of_ok sdp) as H. rewrite list.Forall_forall in H. by apply H.
Qed.

(** Rewriting a description to the advertised addresses, when at least one
    gathered candidate is on an advertised address: a host candidate is
    announced only on an advertised address; every candidate that is reflexive,
    relayed or on an advertised address stays; every advertised address that was
    not gathered is announced as a server-reflexive candidate on the port of
    each UDP host of its family; and the lines that are not candidates are kept
    unchanged and in order. *)
Theorem advertised_candidates_exact sdp allowed :
  (exists c, c ∈ candidates sdp /\ advertised allowed (normalized (address c))) ->
  let out := with_advertised_candidates sdp allowed in
  (forall c, c ∈ candidates out -> kind c = Host -> advertised allowed (normalized (address c))) /\
  (forall c, c ∈ candidates sdp ->
     is_reflexive_or_relayed (kind c) = true \/ advertised allowed (normalized (address c)) ->
     c ∈ candidates out) /\
  (forall a target h, advertised allowed a -> parse a = Some target ->
     a ∉ (fun c => normalized (address c)) <$> candidates sdp ->
     h ∈ candidates sdp -> kind h = Host -> is_udp h = true ->
     same_family target (parse (address h)) = true ->
     exists c, c ∈ candidates out /\ kind c = Srflx /\ address c = a /\ cport c = cport h) /\
  List.filter (fun l => negb (is_candidate l)) (lines_of out)
  = List.filter (fun l => negb (is_candidate l)) (lines_of sdp).
Proof.
  intros (held & hosts & foreign & Hne & Hheld & Hforeign & Hhosts & Hout)%advertised_out out.
  fold out in Hout. set (trans := translated_candidates hosts foreign) in *.
  destruct (advertised_lines sdp held hosts foreign) as (Htr & Htc & Hlines);
    [by intros h []%Hhosts|]. fold trans in Htr, Htc, Hlines.
  rewrite <- Hout in Hlines.
  assert (forall h, h ∈ hosts -> token (transport h) /\ token (address h) /\ is_u16 (cport h)) as Hf.
  { intros h (Hh & _)%Hhosts. by eapply candidates_fields. }
  split_and!.
  - intros c (line & Hl & Hc & Ht)%elem_of_candidates Hk. rewrite Hlines in Hl.
    apply elem_of_emitted in Hl as [(h & a & t & f & (? & ? & ?)%Hf & _ & Hp & _ & Hf0 & ->)%Htr|[Hl Hkeep]].
    + erewrite try_from_translated in Ht by done. by simplify_eq.
    + unfold keeps in Hkeep. rewrite Hc, Ht, bool_decide_eq_false_2 in Hkeep by done.
      unfold is_reflexive_or_relayed in Hkeep. rewrite Hk in Hkeep.
      rewrite (bool_decide_eq_true_2 (Host = Host)) in Hkeep by done.
      cbn [negb orb] in Hkeep. apply bool_decide_eq_true in Hkeep.
      by apply Hheld.
  - intros c (line & Hl & Hc & Ht)%elem_of_candidates Hk. apply elem_of_candidates.
    exists line. split; [|done]. rewrite Hlines. apply elem_of_emitted. right. split; [done|].
    unfold keeps. rewrite Ht. destruct Hk as [->|Hk]; [by rewrite !orb_true_r|].
    rewrite (bool_decide_eq_true_2 (_ ∈ held)); [by rewrite !orb_true_r|].
    apply Hheld. split; [done|]. apply list_elem_of_fmap. exists c. split; [done|].
    apply elem_of_candidates. eauto.
  - intros a target h Ha Hp Hg Hh Hkind Hudp Hfam.
    destruct (translated_candidates_complete hosts foreign a target h) as (h' & f & Hh' & Hf0 & Hport & Hin);
      [by apply Hforeign|done|by apply Hhosts|done|].
    destruct (Hf h' Hh') as (? & ? & ?).
    exists {| transport := transport h'; address := a; cport := cport h'; kind := Srflx |}.
    split; [|done]. apply elem_of_candidates. exists (translated h' f a). split_and!.
    + rewrite Hlines. apply elem_of_emitted. by left.
    + by eapply translated_line_ok.
    + by eapply try_from_translated.
  - rewrite Hlines. by apply emitted_other_lines.
Qed.

Lemma advertised_candidates_exact_witness :
  List.filter (fun l => negb (is_candidate l))
    (lines_of (with_advertised_candidates sample_offer [str "192.168.1.10"; str "203.0.113.1"]))
  = List.filter (fun l => negb (is_candidate l)) (lines_of sample_offer).
Proof.
  refine (proj2 (proj2 (proj2 (advertised_candidates_exact sample_offer
    [str "192.168.1.10"; str "203.0.113.1"] _)))).
  exists {| transport := str "udp"; address := str "192.168.1.10"; cport := 54321; kind := Host |}.
  assert (candidates sample_offer =
    [{| transport := str "udp"; address := str "192.168.1.10"; cport := 54321; kind := Host |};
     {| transport := str "udp"; address := str "10.0.0.5"; cport := 54322; kind := Host |}])
    as -> by (vm_compute; reflexivity).
  split; [by left|]. unfold advertised.
  assert (normalized (str "192.168.1.10") = str "192.168.1.10") as E by (vm_compute; reflexivity).
  cbn [address fmap list_fmap]. rewrite E. by left.
Defined.

Example translated_after_candidates :
  with_advertised_candidates sample_offer [str "192.168.1.10"; str "203.0.113.1"]
  = str "v=0" ++ crlf
    ++ str "a=candidate:1 1 udp 2130706431 192.168.1.10 54321 typ host generation 0" ++ crlf
    ++ str "a=candidate:80000000 1 udp 1694498815 203.0.113.1 54321 typ srflx raddr 192.168.1.10 rport 54321" ++ crlf
    ++ str "a=candidate:80000001 1 udp 1694498815 203.0.113.1 54322 typ srflx raddr 10.0.0.5 rport 54322" ++ crlf
    ++ str "a=ice-ufrag:abcd" ++ crlf.
Proof. vm_compute. reflexivity. Qed.
