(* ===== verification/Sans.v ===== *)
(** * Sans: the contract of the sans-io state machines ([sans.rs])

    Every machine is fed with [handle] and drained with [poll].  The trait is a
    class; reachability is the step relation of its two operations, and
    invariants of a machine are proved against that relation. *)
From S2P Require Import Prelude.

(** The trait [Sans]: associated types are the parameters. *)
Class Sans (S I O E : Type) := {
  handle : I -> SE S E unit;
  poll : S -> option O * S;
}.

Section sans.
Context {S I O E : Type} `{Sans S I O E}.

(** One call from outside. *)
Inductive step : S -> S -> Prop :=
| step_handle i s : step s (handle i s).2
| step_poll s : step s (poll s).2.

Definition reachable : S -> S -> Prop := rtc step.

(** A run with the outputs polled from it, in order. *)
Inductive trace : S -> list O -> S -> Prop :=
| trace_start s : trace s [] s
| trace_handle i s0 outs s : trace s0 outs s -> trace s0 outs (handle i s).2
| trace_poll s0 outs s : trace s0 outs s -> trace s0 (outs ++ option_list (poll s).1) (poll s).2.

(** Feeding a sequence of inputs, whatever each returns. *)
Fixpoint feed_all (inputs : list I) (s : S) : S :=
  match inputs with
  | [] => s
  | i :: inputs => feed_all inputs (handle i s).2
  end.

Lemma reachable_invariant (P : S -> Prop) (s0 s : S) :
  (forall i s, P s -> P (handle i s).2) -> (forall s, P s -> P (poll s).2) ->
  P s0 -> reachable s0 s -> P s.
Proof. intros Hh Hp H0. induction 1 as [|x y z Hxy _ IH]; [done|]. apply IH. destruct Hxy; auto. Qed.

Lemma feed_all_reachable inputs s : reachable s (feed_all inputs s).
Proof.
  revert s. induction inputs as [|i inputs IH]; intros s; [constructor|].
  econstructor; [apply step_handle|apply IH].
Qed.
End sans.

(** ** Draining a machine *)

(** [while let Some(output) = machine.poll()] in a driver that keeps the machine in
    its own state [T]: the body may feed the machine again.  The loop is written
    as rounds over the outputs there are, and again over those that the round has
    added; the [i]-th output handled is passed its number. *)
Section drain.
Context {M I O E T : Type} `{Sans M I O E}.
Context (machine : T -> M) (put : M -> T -> T) (queue : M -> list O) (body : nat -> O -> T -> Res unit T).

Fixpoint drain_turns (n i : nat) (t : T) : Res unit T :=
  match n with
  | 0%nat => Ok t
  | Datatypes.S n =>
      match poll (machine t) with
      | (None, m) => Ok (put m t)
      | (Some o, m) => t ← body i o (put m t); drain_turns n (Datatypes.S i) t
      end
  end.

Fixpoint drain_machine (rounds i : nat) (t : T) : Res unit T :=
  match length (queue (machine t)), rounds with
  | 0%nat, _ => Ok t
  | _, 0%nat => Panic
  | n, Datatypes.S rounds => t ← drain_turns n i t; drain_machine rounds (i + n) t
  end.

(** The loop ends only when there is nothing left to poll. *)
Lemma drain_machine_empty rounds : forall i t t',
  drain_machine rounds i t = Ok t' -> queue (machine t') = [].
Proof.
  induction rounds as [|rounds IH]; intros i t t'; cbn [drain_machine];
    destruct (queue (machine t)) as [|o q] eqn:Eq; cbn [length]; try done; try by intros <-%Ok_inj.
  intros (t1 & _ & H2)%res_bind_inv. by eapply IH.
Qed.

(** *** What the loop preserves *)

Section invariant.
Context (P : T -> Prop).
Context (P_none : forall t m, poll (machine t) = (None, m) -> P t -> P (put m t)).
Context (P_body : forall i t o m t', poll (machine t) = (Some o, m) -> body i o (put m t) = Ok t' -> P t -> P t').

Lemma drain_turns_invariant n : forall i t t', drain_turns n i t = Ok t' -> P t -> P t'.
Proof.
  induction n as [|n IH]; intros i t t'; cbn [drain_turns]; [by intros <-%Ok_inj|].
  destruct (poll (machine t)) as [[o|] m] eqn:Ep; [|intros <-%Ok_inj; by apply P_none].
  intros (t1 & H1 & H2)%res_bind_inv Ht. eapply IH; [exact H2|]. by eapply P_body.
Qed.

Lemma drain_machine_invariant rounds : forall i t t', drain_machine rounds i t = Ok t' -> P t -> P t'.
Proof.
  induction rounds as [|rounds IH]; intros i t t'; cbn [drain_machine];
    (destruct (length _) as [|n]; [by intros <-%Ok_inj|]); [done|].
  intros (t1 & H1 & H2)%res_bind_inv Ht. eapply IH; [exact H2|]. by eapply drain_turns_invariant.
Qed.
End invariant.

(** *** When it ends *)

(** The machine hands out its queue in order; what a body makes the machine
    produce is of a kind whose handling succeeds and produces nothing. *)
Section ends.
Context (quiet : O -> Prop).
Context (machine_put : forall m t, machine (put m t) = m).
Context (poll_cons : forall m o rest, queue m = o :: rest ->
  exists m', poll m = (Some o, m') /\ queue m' = rest).
Context (body_adds : forall i o t t', body i o t = Ok t' ->
  exists outs, queue (machine t') = queue (machine t) ++ outs /\ Forall quiet outs).
Context (body_quiet : forall i o t, quiet o -> exists t', body i o t = Ok t' /\
  queue (machine t') = queue (machine t)).

Lemma drain_turns_leaves n : forall i t t' front back,
  drain_turns n i t = Ok t' -> queue (machine t) = front ++ back -> length front = n ->
  Forall quiet back -> Forall quiet (queue (machine t')).
Proof.
  induction n as [|n IH]; intros i t t' [|o front] back; cbn [drain_turns]; try done.
  { intros <-%Ok_inj Ho _ Hb. by rewrite Ho. }
  intros Hr Ho Hl Hb. destruct (poll_cons _ _ _ Ho) as (m & Hp & Hm). rewrite Hp in Hr.
  apply res_bind_inv in Hr as (t1 & (outs & Houts & Hf)%body_adds & H2).
  rewrite machine_put, Hm, <- app_assoc in Houts.
  eapply (IH _ _ _ front (back ++ outs)); [exact H2|exact Houts|by injection Hl|].
  by apply list.Forall_app.
Qed.

Lemma drain_turns_quiet outs : forall i t,
  queue (machine t) = outs -> Forall quiet outs ->
  exists t', drain_turns (length outs) i t = Ok t' /\ queue (machine t') = [].
Proof.
  induction outs as [|o outs IH]; intros i t Ho Hf; [by exists t|].
  cbn [length drain_turns]. destruct (poll_cons _ _ _ Ho) as (m & -> & Hm).
  apply list.Forall_cons in Hf as [Hq Hf].
  destruct (body_quiet i o (put m t) Hq) as (t1 & -> & H1). rewrite machine_put, Hm in H1.
  rewrite res_bind_Ok. by apply IH.
Qed.

(** If the handling of the outputs that were there succeeds, two rounds are
    enough, and nothing is left to poll. *)
Lemma drain_machine_ends i t t1 :
  drain_turns (length (queue (machine t))) i t = Ok t1 ->
  exists t2, drain_machine 2 i t = Ok t2 /\ queue (machine t2) = [].
Proof.
  intros Hr. pose proof Hr as Hd. eapply (drain_turns_leaves _ _ _ _ _ []) in Hd;
    [|by rewrite app_nil_r|done|done].
  cbn [drain_machine]. destruct (length (queue (machine t))) as [|n] eqn:En.
  { exists t. split; [done|]. by destruct (queue (machine t)). }
  rewrite Hr, res_bind_Ok. cbn [drain_machine].
  destruct (drain_turns_quiet _ (i + Datatypes.S n) t1 eq_refl Hd) as (t2 & H2 & H0).
  destruct (length (queue (machine t1))) as [|k] eqn:E1.
  { exists t1. split; [done|]. by destruct (queue (machine t1)). }
  rewrite H2, res_bind_Ok, H0. by exists t2.
Qed.
End ends.
End drain.

(** ** Taking the outputs of a machine *)

(** A machine whose outputs wait in a queue that [poll] takes the first of. *)
Class Queued (M I O E : Type) `{Sans M I O E} := {
  queue : M -> list O;
  poll_queue m :
    match queue m with
    | [] => poll m = (None, m)
    | o :: rest => exists m', poll m = (Some o, m') /\ queue m' = rest
    end;
}.

(** [while let Some(output) = machine.poll()] with a body that does not feed the
    machine: the fuel is one more than the outputs there are. *)
Section take.
Context {M I O E W : Type} `{Queued M I O E}.
Context (body : nat -> O -> W -> W).

Fixpoint take_loop (fuel i : nat) (m : M) (w : W) : Res unit (M * W) :=
  match fuel with
  | 0%nat => Panic
  | Datatypes.S fuel =>
      match poll m with
      | (None, m) => Ok (m, w)
      | (Some o, m) => take_loop fuel (Datatypes.S i) m (body i o w)
      end
  end.

Definition take_outputs (m : M) (w : W) : Res unit (M * W) :=
  take_loop (Datatypes.S (length (queue m))) 0 m w.

(** What the body makes of a list of outputs. *)
Fixpoint fold_outputs (i : nat) (l : list O) (w : W) : W :=
  match l with
  | [] => w
  | o :: l => fold_outputs (Datatypes.S i) l (body i o w)
  end.

Lemma fold_outputs_app l1 : forall i l2 w,
  fold_outputs i (l1 ++ l2) w = fold_outputs (i + length l1) l2 (fold_outputs i l1 w).
Proof.
  induction l1 as [|o l1 IH]; intros i l2 w; cbn; [by rewrite Nat.add_0_r|].
  rewrite IH. f_equal. lia.
Qed.

Lemma take_loop_all l : forall i m w m0 outs,
  queue m = l -> trace m0 outs m ->
  exists m', take_loop (Datatypes.S (length l)) i m w = Ok (m', fold_outputs i l w) /\
    queue m' = [] /\ trace m0 (outs ++ l) m'.
Proof.
  induction l as [|o l IH]; intros i m w m0 outs Hq Ht; cbn [length take_loop fold_outputs].
  - pose proof (poll_queue m) as Hp. rewrite Hq in Hp. rewrite Hp, app_nil_r. by exists m.
  - pose proof (poll_queue m) as Hp. rewrite Hq in Hp. destruct Hp as (m1 & Hp & Hq1). rewrite Hp.
    apply trace_poll in Ht. rewrite Hp in Ht. cbn [fst snd option_list] in Ht.
    destruct (IH (Datatypes.S i) m1 (body i o w) m0 _ Hq1 Ht) as (m2 & H2 & Hq2 & Ht2).
    exists m2. split; [done|]. split; [done|]. by rewrite <- app_assoc in Ht2.
Qed.

(** The loop ends, takes every output and leaves none. *)
Lemma take_outputs_all m w m0 outs :
  trace m0 outs m -> exists m', take_outputs m w = Ok (m', fold_outputs 0 (queue m) w) /\
    queue m' = [] /\ trace m0 (outs ++ queue m) m'.
Proof. by apply take_loop_all. Qed.
End take.
