(* ===== verification/LanSignaler.v ===== *)
(** * LanSignaler: discovery and signaling over UDP broadcast
    ([signaling/lan/{mod,config,input,output,error}.rs])

    [HashMap] is [gmap]; the queue is a list with its head first.  [Instant]s
    and [Duration]s are unbounded nanoseconds, so the addition of a retry
    interval to the present does not overflow. *)
From S2P Require Import Prelude Text Errors Codec SignalMsg ServerDataModel Discovery Endpoint Sans.

(** ** [config.rs] *)

Record LanSignalerConfig := {
  discovery_port : Z;
  broadcast_address : option SocketAddr;
  broadcast_interval : Duration;
  address_timeout : Duration;
  signal_retry_interval : Duration;
  offer_retry_interval : Duration;
  signal_retries : Z;
  max_discovered : Z;
}.

Definition LanSignalerConfig_default : LanSignalerConfig := {|
  discovery_port := LAN_DISCOVERY_PORT;
  broadcast_address := None;
  broadcast_interval := secs 2;
  address_timeout := secs 15;
  signal_retry_interval := millis 500;
  offer_retry_interval := secs 2;
  signal_retries := 3;
  max_discovered := 256;
|}.

(** ** [error.rs], [input.rs], [output.rs] *)

Inductive LanSignalerError :=
| Protocol (e : ProtocolError)
| InvalidNetworkId (id : bytes)
| UnknownNetwork (id : Z).

Inductive LanSignalerInput :=
| IDatagram (buf : bytes) (from : SocketAddr) (now : Instant)
| ISignal (signal : Signal) (now : Instant)
| SetServerData (data : ServerData)
| Update (now : Instant).

Inductive LanSignalerOutput :=
| Datagram (buf : bytes) (to : SocketAddr)
| OSignal (signal : Signal)
| ServerDiscovered (id : Z) (data : ServerData)
| Wait (d : Duration).

(** ** [mod.rs] *)

Definition PING : bytes := str "Ping".

Record AddressEntry := { entry_addr : SocketAddr; last_seen : Instant }.

Record PendingSignal := {
  signal : Signal;
  target : Z;
  attempts : Z;
  next_send : Instant;
}.

Record LanSignaler := {
  own_id : Z;
  config : LanSignalerConfig;
  addresses : gmap Z AddressEntry;
  discovered : gmap Z ServerData;
  pending : list PendingSignal;
  server_data : option ServerData;
  last_broadcast : option Instant;
  last_cleanup : option Instant;
  output : list LanSignalerOutput;
}.

Definition lan_new (id : Z) (c : LanSignalerConfig) : LanSignaler := {|
  own_id := id; config := c; addresses := ∅; discovered := ∅; pending := [];
  server_data := None; last_broadcast := None; last_cleanup := None; output := [];
|}.

(** Field assignments. *)
Definition set_addresses (x : gmap Z AddressEntry) (s : LanSignaler) : LanSignaler := {|
  own_id := own_id s; config := config s; addresses := x; discovered := discovered s;
  pending := pending s; server_data := server_data s; last_broadcast := last_broadcast s;
  last_cleanup := last_cleanup s; output := output s |}.
Definition set_discovered (x : gmap Z ServerData) (s : LanSignaler) : LanSignaler := {|
  own_id := own_id s; config := config s; addresses := addresses s; discovered := x;
  pending := pending s; server_data := server_data s; last_broadcast := last_broadcast s;
  last_cleanup := last_cleanup s; output := output s |}.
Definition set_pending (x : list PendingSignal) (s : LanSignaler) : LanSignaler := {|
  own_id := own_id s; config := config s; addresses := addresses s; discovered := discovered s;
  pending := x; server_data := server_data s; last_broadcast := last_broadcast s;
  last_cleanup := last_cleanup s; output := output s |}.
Definition set_server_data (x : option ServerData) (s : LanSignaler) : LanSignaler := {|
  own_id := own_id s; config := config s; addresses := addresses s; discovered := discovered s;
  pending := pending s; server_data := x; last_broadcast := last_broadcast s;
  last_cleanup := last_cleanup s; output := output s |}.
Definition set_last_broadcast (x : option Instant) (s : LanSignaler) : LanSignaler := {|
  own_id := own_id s; config := config s; addresses := addresses s; discovered := discovered s;
  pending := pending s; server_data := server_data s; last_broadcast := x;
  last_cleanup := last_cleanup s; output := output s |}.
Definition set_last_cleanup (x : option Instant) (s : LanSignaler) : LanSignaler := {|
  own_id := own_id s; config := config s; addresses := addresses s; discovered := discovered s;
  pending := pending s; server_data := server_data s; last_broadcast := last_broadcast s;
  last_cleanup := x; output := output s |}.
Definition set_output (x : list LanSignalerOutput) (s : LanSignaler) : LanSignaler := {|
  own_id := own_id s; config := config s; addresses := addresses s; discovered := discovered s;
  pending := pending s; server_data := server_data s; last_broadcast := last_broadcast s;
  last_cleanup := last_cleanup s; output := x |}.

Definition push_back (o : LanSignalerOutput) (s : LanSignaler) : LanSignaler :=
  set_output (output s ++ [o]) s.

Definition address (s : LanSignaler) (id : Z) : option SocketAddr :=
  entry_addr <$> addresses s !! id.

Definition pending_signals (s : LanSignaler) : Z := blen (pending s).

Definition retry_interval (c : LanSignalerConfig) (sig : Signal) : Duration :=
  match signal_type sig with
  | Offer => offer_retry_interval c
  | _ => signal_retry_interval c
  end.

Section lan.
Context {ops : CryptoOps}.

Abbreviation Handler := (SE LanSignaler LanSignalerError unit).

Definition answer_request (addr : SocketAddr) : Handler := fun s =>
  match server_data s with
  | None => (Ok tt, s)
  | Some data =>
      match (application_data ← server_data_serialize data;
             encode (Response (response_new application_data)) (own_id s)) with
      | Ok buf => (Ok tt, push_back (Datagram buf addr) s)
      | Err e => (Err (Protocol e), s)
      | Panic => (Panic, s)
      end
  end.

(** The guard that keeps an id on the address it was heard from. *)
Definition pinned_elsewhere (s : LanSignaler) (sender : Z) (addr : SocketAddr) (now : Instant)
    : bool :=
  match addresses s !! sender with
  | Some entry =>
      negb (bool_decide (entry_addr entry = addr))
      && (saturating_duration_since now (last_seen entry) <? address_timeout (config s))
  | None => false
  end.

Definition handle_datagram (buf : bytes) (addr : SocketAddr) (now : Instant) : Handler := fun s =>
  match decode buf with
  | Panic => (Panic, s)
  | Err _ => (Ok tt, s)
  | Ok (packet, sender) =>
      if sender =? own_id s then (Ok tt, s)
      else if pinned_elsewhere s sender addr now then (Ok tt, s)
      else
        let s := set_addresses
          (<[sender := {| entry_addr := addr; last_seen := now |}]> (addresses s)) s in
        match packet with
        | Request _ => answer_request addr s
        | Response response =>
            let full := max_discovered (config s) <=? Z.of_nat (size (discovered s)) in
            if full && negb (bool_decide (is_Some (discovered s !! sender)))
            then (Ok tt, s)
            else match server_data_decode (application_data response) with
                 | Ok data =>
                     let s := set_discovered (<[sender := data]> (discovered s)) s in
                     (Ok tt, push_back (ServerDiscovered sender data) s)
                 | Err _ => (Ok tt, s)
                 | Panic => (Panic, s)
                 end
        | Message message =>
            if (blen (message_data message) =? 0)
               || bytes_eqb (message_data message) PING
               || negb (recipient_id message =? own_id s)
            then (Ok tt, s)
            else match from_string (message_data message) (dec sender) with
                 | Ok sig =>
                     let s := set_pending
                       (List.filter (fun p => negb (target p =? sender)
                          || negb (connection_id (signal p) =? connection_id sig)) (pending s)) s in
                     (Ok tt, push_back (OSignal sig) s)
                 | Err _ => (Ok tt, s)
                 | Panic => (Panic, s)
                 end
        end
  end.

Definition send_signal (sig : Signal) (target : Z) : Handler := fun s =>
  match address s target with
  | None => (Err (UnknownNetwork target), s)
  | Some addr =>
      match encode (Message (message_packet_new target (signal_to_string sig))) (own_id s) with
      | Ok buf => (Ok tt, push_back (Datagram buf addr) s)
      | Err e => (Err (Protocol e), s)
      | Panic => (Panic, s)
      end
  end.

Definition handle_signal (sig : Signal) (now : Instant) : Handler := fun s =>
  match parse_uint u64_max (network_id sig) with
  | None => (Err (InvalidNetworkId (network_id sig)), s)
  | Some target =>
      match send_signal sig target s with
      | (Ok _, s) =>
          if signal_retries (config s) >? 0
          then
            let next_send := now + retry_interval (config s) sig in
            (Ok tt, set_pending (pending s ++ [{| signal := sig; target := target; attempts := 1;
                                                  next_send := next_send |}]) s)
          else (Ok tt, s)
      | r => r
      end
  end.

(** The closure given to [retain_mut]: what stays of an entry, and whether it
    is resent. *)
Definition retry_entry (c : LanSignalerConfig) (now : Instant) (p : PendingSignal)
    : option PendingSignal * bool :=
  if next_send p >? now then (Some p, false)
  else if attempts p >? signal_retries c then (None, false)
  else (Some {| signal := signal p; target := target p; attempts := attempts p + 1;
                next_send := now + retry_interval c (signal p) |}, true).

(** [retain_mut] with the list of entries due. *)
Fixpoint retain_due (c : LanSignalerConfig) (now : Instant) (ps : list PendingSignal)
    : list PendingSignal * list (Signal * Z) :=
  match ps with
  | [] => ([], [])
  | p :: ps =>
      let '(kept, due) := retain_due c now ps in
      match retry_entry c now p with
      | (Some p', true) => (p' :: kept, (signal p, target p) :: due)
      | (Some p', false) => (p' :: kept, due)
      | (None, _) => (kept, due)
      end
  end.

(** The loop that resends; an error drops the entry. *)
Fixpoint resend (due : list (Signal * Z)) : Handler := fun s =>
  match due with
  | [] => (Ok tt, s)
  | (sig, tgt) :: due =>
      match send_signal sig tgt s with
      | (Ok _, s) => resend due s
      | (Err _, s) =>
          resend due (set_pending
            (List.filter (fun p => negb (target p =? tgt) || negb (bool_decide (signal p = sig)))
               (pending s)) s)
      | (Panic, s) => (Panic, s)
      end
  end.

Definition retransmit (now : Instant) : Handler := fun s =>
  let '(kept, due) := retain_due (config s) now (pending s) in
  resend due (set_pending kept s).

Definition broadcast (now : Instant) : Handler := fun s =>
  match broadcast_address (config s) with
  | None => (Ok tt, s)
  | Some addr =>
      let due := match last_broadcast s with
                 | Some last => broadcast_interval (config s) <=? saturating_duration_since now last
                 | None => true
                 end in
      if negb due then (Ok tt, s)
      else match encode (Request request_packet) (own_id s) with
           | Ok buf =>
               let s := push_back (Datagram buf addr) s in
               let loopback := socket_addr_new LOCALHOST (port addr) in
               let s := if negb (bool_decide (loopback = addr))
                        then push_back (Datagram buf loopback) s else s in
               (Ok tt, set_last_broadcast (Some now) s)
           | Err e => (Err (Protocol e), s)
           | Panic => (Panic, s)
           end
  end.

Definition expire (now : Instant) (s : LanSignaler) : LanSignaler :=
  let timeout := address_timeout (config s) in
  let s := set_addresses
    (filter (fun '(_, e) => saturating_duration_since now (last_seen e) < timeout) (addresses s)) s in
  let s := set_discovered
    (filter (fun '(id, _) => is_Some (addresses s !! id)) (discovered s)) s in
  set_last_cleanup (Some now) s.

Definition next_timer (s : LanSignaler) (now : Instant) : Duration :=
  let wait := address_timeout (config s) in
  let wait :=
    match broadcast_address (config s) with
    | Some _ =>
        let next := match last_broadcast s with
                    | Some last => saturating_duration_since (last + broadcast_interval (config s)) now
                    | None => 0
                    end in
        Z.min wait next
    | None => wait
    end in
  fold_left (fun wait p => Z.min wait (saturating_duration_since (next_send p) now)) (pending s) wait.

Definition handle_update (now : Instant) : Handler := fun s =>
  match retransmit now s with
  | (Ok _, s) =>
      match broadcast now s with
      | (Ok _, s) =>
          let s := expire now s in
          (Ok tt, push_back (Wait (next_timer s now)) s)
      | r => r
      end
  | r => r
  end.

Definition lan_handle (msg : LanSignalerInput) : Handler :=
  match msg with
  | IDatagram buf addr now => handle_datagram buf addr now
  | ISignal sig now => handle_signal sig now
  | SetServerData data => fun s => (Ok tt, set_server_data (Some data) s)
  | Update now => handle_update now
  end.

Definition lan_poll (s : LanSignaler) : option LanSignalerOutput * LanSignaler :=
  match output s with
  | [] => (None, s)
  | o :: rest => (Some o, set_output rest s)
  end.

#[export] Instance LanSignaler_sans : Sans LanSignaler LanSignalerInput LanSignalerOutput LanSignalerError := {|
  handle := lan_handle;
  poll := lan_poll;
|}.

#[export] Program Instance LanSignaler_queued
    : Queued LanSignaler LanSignalerInput LanSignalerOutput LanSignalerError := {| queue := output |}.
Next Obligation.
  intros s. cbn [poll LanSignaler_sans]. unfold lan_poll. destruct (output s); [done|]. by eexists.
Qed.

End lan.

(** ** Frames: what each part of an update touches *)

Section lan_props.
Context {ops : CryptoOps}.

(** Only the pending signals and the output differ. *)
Definition same_core (s s' : LanSignaler) : Prop :=
  own_id s' = own_id s /\ config s' = config s /\ addresses s' = addresses s /\
  discovered s' = discovered s /\ server_data s' = server_data s /\
  last_broadcast s' = last_broadcast s /\ last_cleanup s' = last_cleanup s.

#[local] Instance same_core_preorder : PreOrder same_core.
Proof.
  split.
  - by intros s.
  - intros a b c (?&?&?&?&?&?&?) (?&?&?&?&?&?&?). unfold same_core. split_and!; congruence.
Qed.

Lemma send_signal_cases sig tgt s :
  (exists buf addr, address s tgt = Some addr /\
     encode (Message (message_packet_new tgt (signal_to_string sig))) (own_id s) = Ok buf /\
     send_signal sig tgt s = (Ok tt, push_back (Datagram buf addr) s)) \/
  (exists e, send_signal sig tgt s = (Err e, s)).
Proof.
  unfold send_signal. destruct (address s tgt) as [addr|]; [|right; eauto].
  pose proof (encode_no_panic (Message (message_packet_new tgt (signal_to_string sig))) (own_id s)) as Hp.
  destruct (encode _ _) as [buf|e|]; [left; eauto 6|right; eauto|done].
Qed.

Definition is_sent (o : LanSignalerOutput) : Prop := exists buf addr, o = Datagram buf addr.

(** Signaling makes the outputs grow at the end, by datagrams. *)
Lemma signal_sends_datagrams sig now s :
  exists outs, output (lan_handle (ISignal sig now) s).2 = output s ++ outs /\ Forall is_sent outs.
Proof.
  assert (forall s', output s' = output s -> exists outs, output s' = output s ++ outs /\ Forall is_sent outs) as Hno.
  { intros s' E. exists []. by rewrite app_nil_r. }
  cbn [lan_handle]. unfold handle_signal.
  destruct (parse_uint _ _) as [target|]; [|by apply Hno].
  destruct (send_signal_cases sig target s) as [(buf & addr & _ & _ & ->)|[e ->]]; [|by apply Hno].
  destruct (_ >? 0); exists [Datagram buf addr]; (split; [done|]); repeat constructor; by eexists _, _.
Qed.

(** Resending only appends datagrams, one per entry at most, and drops entries. *)
Lemma resend_spec due s :
  exists s' outs, resend due s = (Ok tt, s') /\ same_core s s' /\
    output s' = output s ++ outs /\ (length outs <= length due)%nat /\
    Forall (fun o => exists buf addr, o = Datagram buf addr) outs /\
    sublist (pending s') (pending s).
Proof.
  revert s. induction due as [|[sig tgt] due IH]; intros s; cbn [resend].
  { exists s, []. rewrite app_nil_r. split_and!; done. }
  destruct (send_signal_cases sig tgt s) as [(buf & addr & _ & _ & ->)|[e ->]].
  - destruct (IH (push_back (Datagram buf addr) s)) as (s' & outs & -> & Hc & Ho & Hl & Hf & Hs).
    exists s', (Datagram buf addr :: outs). cbn in Ho. rewrite <- app_assoc in Ho.
    split_and!; try done; cbn; [lia|]. constructor; [by eexists _, _|done].
  - destruct (IH (set_pending (List.filter (fun p => negb (target p =? tgt)
      || negb (bool_decide (signal p = sig))) (pending s)) s)) as (s' & outs & -> & Hc & Ho & Hl & Hf & Hs).
    exists s', outs. split_and!; try done; cbn; [lia|]. etrans; [exact Hs|]. cbn.
    apply sublist_filter_bool.
Qed.

(** A pending signal: sent at least once, never more than the retries allow,
    to the network its signal names. *)
Definition pending_ok (c : LanSignalerConfig) (p : PendingSignal) : Prop :=
  1 <= attempts p <= signal_retries c + 1 /\
  parse_uint u64_max (network_id (signal p)) = Some (target p).

(** Sends still allowed. *)
Definition budget (c : LanSignalerConfig) (ps : list PendingSignal) : Z :=
  foldr (fun p acc => signal_retries c + 1 - attempts p + acc) 0 ps.

Lemma budget_nonneg c ps : Forall (pending_ok c) ps -> 0 <= budget c ps.
Proof. induction 1 as [|p ps [? _] _ IH]; cbn [budget foldr]; [lia|]. fold (budget c ps). lia. Qed.

Lemma budget_sublist c ps qs :
  sublist ps qs -> Forall (pending_ok c) qs -> budget c ps <= budget c qs.
Proof.
  induction 1 as [|p ps qs _ IH|p ps qs _ IH]; [done|..];
    inversion 1 as [|? ? [? _] Hqs]; subst; cbn [budget foldr]; fold (budget c ps) (budget c qs);
    specialize (IH Hqs); lia.
Qed.

Lemma retain_due_spec c now ps kept due :
  retain_due c now ps = (kept, due) -> Forall (pending_ok c) ps ->
  Forall (pending_ok c) kept /\
  budget c kept + Z.of_nat (length due) <= budget c ps /\
  (0 < signal_retry_interval c -> 0 < offer_retry_interval c ->
   Forall (fun p => now < next_send p) kept).
Proof.
  intros E Hps. revert kept due E.
  induction Hps as [|p ps Hp Hps IH]; cbn [retain_due]; intros kept due E.
  { simplify_eq. split_and!; [constructor|cbn; lia|constructor]. }
  destruct (retain_due c now ps) as [kept' due'] eqn:Er.
  destruct (IH _ _ eq_refl) as (Hk & Hb & Hn). clear IH Er. pose proof Hp as [Ha Ht].
  revert E. unfold retry_entry. destruct (next_send p >? now) eqn:En; to_props.
  { intros [= <- <-]. split_and!; [by constructor| |].
    - cbn [budget foldr]. fold (budget c ps) (budget c kept'). lia.
    - intros H1 H2. constructor; auto. }
  destruct (attempts p >? signal_retries c) eqn:Er; to_props; intros [= <- <-].
  { split_and!; [done| |done]. cbn [budget foldr]. fold (budget c ps). lia. }
  split_and!.
  - constructor; [split; cbn; [lia|done]|done].
  - cbn [budget foldr length attempts]. fold (budget c ps) (budget c kept'). lia.
  - intros H1 H2. constructor; [|auto]. cbn. unfold retry_interval. case_match; lia.
Qed.

Lemma retransmit_spec now s :
  Forall (pending_ok (config s)) (pending s) ->
  exists s' outs, retransmit now s = (Ok tt, s') /\ same_core s s' /\
    output s' = output s ++ outs /\
    Forall (fun o => exists buf addr, o = Datagram buf addr) outs /\
    Forall (pending_ok (config s)) (pending s') /\
    budget (config s) (pending s') + Z.of_nat (length outs) <= budget (config s) (pending s) /\
    (0 < signal_retry_interval (config s) -> 0 < offer_retry_interval (config s) ->
     Forall (fun p => now < next_send p) (pending s')).
Proof.
  intros Hps. unfold retransmit. destruct (retain_due _ _ _) as [kept due] eqn:E.
  destruct (retain_due_spec _ _ _ _ _ E Hps) as (Hk & Hb & Hn).
  destruct (resend_spec due (set_pending kept s)) as (s' & outs & -> & Hc & Ho & Hl & Hf & Hs).
  cbn in Hs. exists s', outs. split_and!; try done.
  - by eapply Forall_sublist_bool.
  - pose proof (budget_sublist _ _ _ Hs Hk). lia.
  - intros H1 H2. eapply Forall_sublist_bool; [exact Hs|auto].
Qed.

(** Broadcasting only appends datagrams and records its time. *)
Lemma broadcast_spec now s :
  exists s' outs, broadcast now s = (Ok tt, s') /\ output s' = output s ++ outs /\
    own_id s' = own_id s /\ config s' = config s /\ addresses s' = addresses s /\
    discovered s' = discovered s /\ pending s' = pending s /\ server_data s' = server_data s /\
    (broadcast_address (config s) = None -> s' = s /\ outs = []) /\
    (is_Some (broadcast_address (config s)) -> exists last, last_broadcast s' = Some last /\
       (last = now \/ saturating_duration_since now last < broadcast_interval (config s))).
Proof.
  unfold broadcast. destruct (broadcast_address (config s)) as [addr|] eqn:Eb.
  2: { exists s, []. rewrite app_nil_r. split_and!; done. }
  destruct (negb _) eqn:Ed.
  { exists s, []. rewrite app_nil_r. split_and!; try done. intros _.
    destruct (last_broadcast s) as [last|]; [|done]. exists last. split; [done|]. to_props. by right. }
  destruct (encode_request_Ok (own_id s)) as [buf ->].
  destruct (bool_decide (_ = addr)); cbn [negb].
  2: { eexists _, [Datagram buf addr; Datagram buf (socket_addr_new LOCALHOST (port addr))].
    split; [reflexivity|]. cbn. rewrite <- app_assoc. split_and!; try done. eauto. }
  eexists _, [Datagram buf addr]. split; [reflexivity|]. split_and!; try done. cbn. eauto.
Qed.

(** Whatever it comes to, it queues nothing but datagrams. *)
Lemma broadcast_sends now s :
  exists outs, output (broadcast now s).2 = output s ++ outs /\ Forall is_sent outs.
Proof.
  assert (exists outs, output s = output s ++ outs /\ Forall is_sent outs) as Hno
    by (exists []; by rewrite app_nil_r).
  unfold broadcast. destruct (broadcast_address (config s)) as [addr|]; [|done].
  destruct (negb _); [done|]. destruct (encode _ _) as [buf|e|]; [|done..].
  destruct (negb _); cbn; rewrite <- ?app_assoc; eexists; (split; [reflexivity|]);
    repeat constructor; by eexists _, _.
Qed.

(** ** The invariant *)

Record lan_inv (s : LanSignaler) : Prop := {
  inv_dom id : is_Some (discovered s !! id) -> is_Some (addresses s !! id);
  inv_size : Z.of_nat (size (discovered s)) <= max_discovered (config s);
  inv_own : addresses s !! own_id s = None;
  inv_pending : Forall (pending_ok (config s)) (pending s);
}.

Lemma lan_inv_output x s : lan_inv s -> lan_inv (set_output x s).
Proof. by intros [? ? ? ?]. Qed.

Lemma lan_inv_core s s' :
  same_core s s' -> Forall (pending_ok (config s)) (pending s') -> lan_inv s -> lan_inv s'.
Proof.
  intros (Eo & Ec & Ea & Ed & _) Hp [H1 H2 H3 H4]. split; rewrite ?Eo, ?Ec, ?Ea, ?Ed; auto.
Qed.

Lemma answer_request_inv addr s : lan_inv s -> lan_inv (answer_request addr s).2.
Proof.
  intros H. unfold answer_request. destruct (server_data s); [|done].
  destruct (_ ≫= _); [|done..]. by apply lan_inv_output.
Qed.

Lemma handle_datagram_inv buf addr now s : lan_inv s -> lan_inv (handle_datagram buf addr now s).2.
Proof.
  intros H. unfold handle_datagram. destruct (decode buf) as [[packet sender]|e|]; [|done..].
  destruct (sender =? own_id s) eqn:Eown; [done|]. to_props.
  destruct (pinned_elsewhere _ _ _ _); [done|]. set (s1 := set_addresses _ s).
  assert (lan_inv s1) as H1.
  { destruct H as [H1 H2 H3 H4]. unfold s1. split; cbn; [|done|by rewrite lookup_insert_ne|done].
    intros id Hid. destruct (decide (id = sender)) as [->|]; [rewrite lookup_insert_eq; eauto|].
    rewrite lookup_insert_ne by done. auto. }
  destruct packet as [req|resp|msg]; [by apply answer_request_inv|..].
  - case_match eqn:Efull; [done|]. destruct (server_data_decode _) as [data|e|]; [|done..].
    apply lan_inv_output. destruct H1 as [H1' H2 H3 H4]. split; cbn in *; try done.
    + intros id Hid. destruct (decide (id = sender)) as [->|]; [rewrite lookup_insert_eq; eauto|].
      apply H1'. by rewrite lookup_insert_ne in Hid.
    + apply andb_false_iff in Efull. destruct (discovered s !! sender) as [old|] eqn:Eold.
      * by rewrite map_size_insert_Some by done.
      * rewrite map_size_insert_None by done. destruct Efull as [Ef|Ef]; to_props; [lia|].
        by destruct Ef.
  - case_match; [done|]. destruct (from_string _ _) as [sig|e|]; [|done..].
    apply lan_inv_output. apply (lan_inv_core s1); [done| |done]. cbn.
    eapply Forall_sublist_bool; [apply sublist_filter_bool|apply H1].
Qed.

Lemma handle_signal_inv sig now s : lan_inv s -> lan_inv (handle_signal sig now s).2.
Proof.
  intros H. unfold handle_signal. destruct (parse_uint _ _) as [tgt|] eqn:Et; [|done].
  destruct (send_signal_cases sig tgt s) as [(buf & addr & _ & _ & ->)|[e ->]]; [|done].
  case_match eqn:Er; [|by apply lan_inv_output]. to_props.
  apply (lan_inv_core s); [done| |done]. cbn. apply Forall_app. split; [apply H|].
  constructor; [|constructor]. cbn in Er. split; cbn; [lia|done].
Qed.

Lemma expire_inv now s : lan_inv s -> lan_inv (expire now s).
Proof.
  intros [H1 H2 H3 H4]. unfold expire. split; cbn; try done.
  - intros id [d Hd]. by apply map_lookup_filter_Some in Hd as [_ ?].
  - pose proof (map_size_filter
      (fun '(id, _) => is_Some (filter (fun '(_, e) => saturating_duration_since now (last_seen e)
         < address_timeout (config s)) (addresses s) !! id)) (discovered s)). lia.
  - apply map_lookup_filter_None. by left.
Qed.

Lemma lan_inv_broadcast s s' :
  own_id s' = own_id s -> config s' = config s -> addresses s' = addresses s ->
  discovered s' = discovered s -> pending s' = pending s -> lan_inv s -> lan_inv s'.
Proof.
  intros Eo Ec Ea Ed Ep [H1 H2 H3 H4]. split; rewrite ?Eo, ?Ec, ?Ea, ?Ed, ?Ep; auto.
Qed.

Lemma handle_update_inv now s : lan_inv s -> lan_inv (handle_update now s).2.
Proof.
  intros H. unfold handle_update.
  destruct (retransmit_spec now s) as (s1 & outs & -> & Hc & _ & _ & Hp & _); [apply H|].
  destruct (broadcast_spec now s1) as (s2 & outs2 & -> & _ & Eo & Ec & Ea & Ed & Ep & _).
  cbn [snd]. apply lan_inv_output, expire_inv, (lan_inv_broadcast s1); try done.
  by apply (lan_inv_core s).
Qed.

Lemma lan_handle_inv msg s : lan_inv s -> lan_inv (lan_handle msg s).2.
Proof.
  destruct msg; cbn [lan_handle]; intros H.
  - by apply handle_datagram_inv.
  - by apply handle_signal_inv.
  - by destruct H.
  - by apply handle_update_inv.
Qed.

Lemma lan_poll_inv s : lan_inv s -> lan_inv (lan_poll s).2.
Proof. intros H. unfold lan_poll. destruct (output s); [done|]. by apply lan_inv_output. Qed.

Lemma lan_new_inv id c : 0 <= max_discovered c -> lan_inv (lan_new id c).
Proof.
  intros Hm. split; cbn; [|by rewrite map_size_empty|done|constructor].
  intros id' []. by rewrite lookup_empty in *.
Qed.
End lan_props.

(** ** Properties *)

Section lan_theorems.
Context {ops : CryptoOps}.

Lemma handle_config msg s :
  config (lan_handle msg s).2 = config s /\ own_id (lan_handle msg s).2 = own_id s.
Proof.
  destruct msg as [buf addr now|sig now|data|now]; cbn [lan_handle]; [| |done|].
  - unfold handle_datagram, answer_request. repeat (split_match || case_match); done.
  - unfold handle_signal. destruct (parse_uint _ _) as [tgt|]; [|done].
    destruct (send_signal_cases sig tgt s) as [(buf & addr & _ & _ & ->)|[e ->]]; [|done].
    by case_match.
  - unfold handle_update, retransmit. destruct (retain_due _ _ _) as [kept due].
    destruct (resend_spec due (set_pending kept s)) as (s1 & outs & -> & (Eo & Ec & _) & _).
    destruct (broadcast_spec now s1) as (s2 & outs2 & -> & _ & Eo' & Ec' & _).
    cbn. cbn in Ec, Eo. split; congruence.
Qed.

(** ** Addresses *)

Lemma handle_update_addresses now s :
  addresses (handle_update now s).2 =
  filter (fun '(_, e) => saturating_duration_since now (last_seen e) < address_timeout (config s))
    (addresses s).
Proof.
  unfold handle_update, retransmit. destruct (retain_due _ _ _) as [kept due].
  destruct (resend_spec due (set_pending kept s)) as (s1 & outs & -> & (_ & Ec & Ea & _) & _).
  destruct (broadcast_spec now s1) as (s2 & outs2 & -> & _ & _ & Ec' & Ea' & _).
  cbn. cbn in Ec, Ea. by rewrite Ea', Ea, Ec', Ec.
Qed.

Lemma handle_signal_addresses sig now s : addresses (handle_signal sig now s).2 = addresses s.
Proof.
  unfold handle_signal. destruct (parse_uint _ _) as [tgt|]; [|done].
  destruct (send_signal_cases sig tgt s) as [(buf & addr & _ & _ & ->)|[e ->]]; [|done].
  by case_match.
Qed.

(** A datagram either leaves the addresses alone or refreshes its sender's
    entry, which was not pinned elsewhere. *)
Lemma handle_datagram_addresses buf addr now s :
  addresses (handle_datagram buf addr now s).2 = addresses s \/
  exists sender, pinned_elsewhere s sender addr now = false /\
    addresses (handle_datagram buf addr now s).2
    = <[sender := {| entry_addr := addr; last_seen := now |}]> (addresses s).
Proof.
  unfold handle_datagram. destruct (decode buf) as [[packet sender]|e|]; [|by left..].
  destruct (sender =? own_id s); [by left|].
  destruct (pinned_elsewhere s sender addr now) eqn:Ep; [by left|]. right. exists sender.
  split; [done|]. unfold answer_request. repeat (split_match || case_match); done.
Qed.

(** ** Where signals come from *)

(** The datagram is a message of another signaler to [own] that carries [sig],
    whose network id is the sender's. *)
Definition carries_signal (own : Z) (buf : bytes) (sig : Signal) : Prop :=
  exists m sender, decode buf = Ok (Message m, sender) /\ sender <> own /\ recipient_id m = own /\
    from_string (message_data m) (dec sender) = Ok sig.

(** A signal is reported only when a datagram carries it. *)
Lemma handle_reports msg s sig :
  OSignal sig ∈ output (lan_handle msg s).2 ->
  OSignal sig ∈ output s \/
  exists buf addr now, msg = IDatagram buf addr now /\ carries_signal (own_id s) buf sig.
Proof.
  assert (forall outs, Forall is_sent outs -> OSignal sig ∉ outs) as Hsent.
  { intros outs Hf Hin. rewrite list.Forall_forall in Hf. by destruct (Hf _ Hin) as (? & ? & ?). }
  destruct msg as [buf addr now|g now|data|now].
  - cbn [lan_handle]. unfold handle_datagram.
    destruct (decode buf) as [[packet sender]|e|] eqn:Ed; [|by left..].
    destruct (sender =? own_id s) eqn:Eo; [by left|].
    destruct (pinned_elsewhere s sender addr now); [by left|].
    destruct packet as [r|r|m].
    + unfold answer_request. repeat (split_match || case_match); cbn; rewrite ?elem_of_app, ?list_elem_of_singleton;
        intuition congruence.
    + repeat (split_match || case_match); cbn; rewrite ?elem_of_app, ?list_elem_of_singleton; intuition congruence.
    + destruct (_ || _) eqn:Eb; [by left|].
      destruct (from_string _ _) as [g|e|] eqn:Eg; [|by left..]. cbn.
      rewrite elem_of_app, list_elem_of_singleton. intros [?|[= ->]]; [by left|]. right.
      exists buf, addr, now. split; [done|]. exists m, sender. cbn in Eb. apply orb_false_iff in Eb as [_ Eb].
      to_props. split_and!; [done|lia|lia|done].
  - destruct (signal_sends_datagrams g now s) as (outs & -> & Hf). rewrite elem_of_app.
    intros [?|Hin]; [by left|]. by apply Hsent in Hin.
  - by left.
  - cbn [lan_handle]. unfold handle_update, retransmit. destruct (retain_due _ _ _) as [kept due].
    destruct (resend_spec due (set_pending kept s)) as (s1 & outs & -> & _ & Ho & _ & Hf & _).
    pose proof (broadcast_sends now s1) as Hb. destruct (broadcast now s1) as [r s2].
    cbn [snd] in Hb. destruct Hb as (outs2 & Ho2 & Hf2). cbn [set_pending output] in Ho.
    assert (OSignal sig ∈ output s2 -> OSignal sig ∈ output s) as Hs2.
    { rewrite Ho2, Ho, !elem_of_app. intros [[?|Hin]|Hin]; [done|by apply Hsent in Hin..]. }
    destruct r; cbn; [|by left; auto..]. rewrite elem_of_app, list_elem_of_singleton.
    intros [?|?]; [by left; auto|done].
Qed.

(** An address is known from a datagram of its sender. *)
Lemma handle_learns msg s id a :
  address (lan_handle msg s).2 id = Some a ->
  address s id = Some a \/
  exists buf now packet, msg = IDatagram buf a now /\ decode buf = Ok (packet, id).
Proof.
  unfold address. destruct msg as [buf addr now|g now|data|now]; cbn [lan_handle].
  - assert (addresses (handle_datagram buf addr now s).2 = addresses s \/
      exists packet sender, decode buf = Ok (packet, sender) /\
        addresses (handle_datagram buf addr now s).2
        = <[sender := {| entry_addr := addr; last_seen := now |}]> (addresses s)) as [->|(packet & sender & Hd & ->)].
    { unfold handle_datagram. destruct (decode buf) as [[packet sender]|e|]; [|by left..].
      destruct (sender =? own_id s); [by left|]. destruct (pinned_elsewhere s sender addr now); [by left|].
      right. exists packet, sender. split; [done|]. unfold answer_request. repeat (split_match || case_match); done. }
    + by left.
    + destruct (decide (sender = id)) as [->|Hne].
      * rewrite lookup_insert_eq. cbn. intros [= <-]. right. by exists buf, now, packet.
      * rewrite lookup_insert_ne by done. by left.
  - rewrite handle_signal_addresses. by left.
  - by left.
  - rewrite handle_update_addresses. intros Ha. left.
    destruct (filter _ _ !! id) as [e|] eqn:E; [|done]. apply map_lookup_filter_Some in E as [-> _]. done.
Qed.

Definition input_time (msg : LanSignalerInput) : option Instant :=
  match msg with
  | IDatagram _ _ now | ISignal _ now | Update now => Some now
  | SetServerData _ => None
  end.

Lemma address_step msg s id e start :
  addresses s !! id = Some e -> start <= last_seen e ->
  (forall now, input_time msg = Some now -> start <= now < start + address_timeout (config s)) ->
  exists e', addresses (lan_handle msg s).2 !! id = Some e' /\ entry_addr e' = entry_addr e /\
    start <= last_seen e'.
Proof.
  intros He Hd Ht.
  assert (forall now, input_time msg = Some now ->
    saturating_duration_since now (last_seen e) < address_timeout (config s)) as Hrecent.
  { intros now Hn%Ht. unfold saturating_duration_since. lia. }
  destruct msg as [buf addr now|sig now|data|now]; cbn [lan_handle].
  - destruct (handle_datagram_addresses buf addr now s) as [->|(sender & Hpin & ->)]; [by exists e|].
    destruct (decide (id = sender)) as [<-|]; [|rewrite lookup_insert_ne by done; by exists e].
    rewrite lookup_insert_eq. eexists. split; [done|]. cbn.
    unfold pinned_elsewhere in Hpin. rewrite He in Hpin.
    specialize (Hrecent now eq_refl). specialize (Ht now eq_refl).
    replace (_ <? _) with true in Hpin by lia. rewrite andb_true_r in Hpin. to_props.
    by split; [|lia].
  - rewrite handle_signal_addresses. by exists e.
  - by exists e.
  - rewrite handle_update_addresses. exists e. split; [|done].
    apply map_lookup_filter_Some. split; [done|]. by apply Hrecent.
Qed.

(** C7: A network id stays pinned to the address it was heard from: while the
    clock is within [address_timeout] of the last datagram accepted from it, no
    sequence of inputs, forged datagrams included, moves the id to another
    address or forgets it. *)
Theorem address_pinned inputs s id e :
  addresses s !! id = Some e ->
  (forall msg now, msg ∈ inputs -> input_time msg = Some now ->
     last_seen e <= now < last_seen e + address_timeout (config s)) ->
  address (feed_all inputs s) id = Some (entry_addr e).
Proof.
  intros He Ht. unfold address.
  enough (exists e', addresses (feed_all inputs s) !! id = Some e' /\ entry_addr e' = entry_addr e)
    as (e' & -> & <-) by done.
  assert (exists start, start = last_seen e) as [start Hst] by eauto.
  assert (start <= last_seen e) as Hle by lia. rewrite <- Hst in Ht. clear Hst.
  revert s e He Hle Ht. induction inputs as [|msg inputs IH]; intros s e He Hle Ht; [by exists e|].
  destruct (address_step msg s id e start He Hle) as (e' & He' & <- & Hle').
  { intros now Hn. apply (Ht msg); [by left|done]. }
  apply IH; [done|done|]. intros m now Hm Hn. cbn [handle LanSignaler_sans].
  rewrite (proj1 (handle_config msg s)). apply (Ht m); [by right|done].
Qed.

(** ** Retransmission *)

Definition is_datagram (o : LanSignalerOutput) : bool :=
  match o with Datagram _ _ => true | _ => false end.

Definition datagrams (s : LanSignaler) : Z := blen (List.filter is_datagram (output s)).

Lemma filter_length_le {A} (f : A -> bool) (l : list A) : (length (List.filter f l) <= length l)%nat.
Proof. induction l as [|x l IH]; cbn; [lia|]. destruct (f x); cbn; lia. Qed.

(** Every datagram of an update is paid from the budget. *)
Lemma update_budget now s :
  lan_inv s -> broadcast_address (config s) = None ->
  let s' := (handle_update now s).2 in
  datagrams s' + budget (config s) (pending s') <= datagrams s + budget (config s) (pending s).
Proof.
  intros H Hb. unfold handle_update.
  destruct (retransmit_spec now s) as (s1 & outs & -> & (_ & Ec & _) & Ho & Hf & Hp & Hbud & _);
    [apply H|].
  destruct (broadcast_spec now s1) as (s2 & outs2 & -> & _ & _ & _ & _ & _ & _ & _ & Hn & _).
  destruct Hn as [-> _]; [by rewrite Ec|].
  cbn. unfold datagrams. cbn. rewrite Ho, !filter_app, !blen_app. cbn.
  pose proof (filter_length_le is_datagram outs). unfold blen in *. cbn [length] in *.
  fold (budget (config s) (pending s1)). lia.
Qed.

Lemma updates_budget times s :
  lan_inv s -> broadcast_address (config s) = None ->
  datagrams (feed_all (Update <$> times) s) <= datagrams s + budget (config s) (pending s).
Proof.
  revert s. induction times as [|now times IH]; intros s H Hb.
  { pose proof (budget_nonneg _ _ (inv_pending _ H)). cbn. lia. }
  cbn [fmap list_fmap feed_all handle LanSignaler_sans].
  destruct (handle_config (Update now) s) as [Ec _].
  pose proof (update_budget now s H Hb) as Hu. cbn zeta in Hu.
  etrans; [apply IH; [by apply lan_handle_inv|by rewrite Ec]|].
  rewrite Ec. cbn [lan_handle]. lia.
Qed.

(** Retransmission is bounded: a signal sent by an idle signaler that does
    not broadcast puts at most [signal_retries + 1] datagrams on the wire, the
    first send included, however often and at whatever times it is updated. *)
Theorem retransmission_bounded sig now times s :
  lan_inv s -> pending s = [] -> broadcast_address (config s) = None ->
  0 <= signal_retries (config s) ->
  datagrams (feed_all (ISignal sig now :: (Update <$> times)) s)
  <= datagrams s + signal_retries (config s) + 1.
Proof.
  intros H Hp Hb Hr. cbn [feed_all handle LanSignaler_sans].
  destruct (handle_config (ISignal sig now) s) as [Ec _].
  etrans; [apply updates_budget; [by apply lan_handle_inv|by rewrite Ec]|].
  rewrite Ec. clear Ec. cbn [lan_handle]. unfold handle_signal.
  destruct (parse_uint _ _) as [tgt|]; cbn [snd]; [|rewrite Hp; cbn; lia].
  destruct (send_signal_cases sig tgt s) as [(buf & addr & _ & _ & ->)|[e ->]];
    [|cbn [snd]; rewrite Hp; cbn; lia].
  case_match; cbn; rewrite Hp; unfold datagrams; cbn; rewrite filter_app, blen_app;
    unfold blen; cbn; lia.
Qed.

(** ** Timers *)

Lemma next_timer_fold ps w now :
  let r := fold_left (fun wait p => Z.min wait (saturating_duration_since (next_send p) now)) ps w in
  r <= w /\ Forall (fun p => r <= saturating_duration_since (next_send p) now) ps /\
  (0 < w -> Forall (fun p => now < next_send p) ps -> 0 < r).
Proof.
  revert w. induction ps as [|p ps IH]; intros w; cbn; [split_and!; [lia|constructor|done]|].
  destruct (IH (Z.min w (saturating_duration_since (next_send p) now))) as (H1 & H2 & H3).
  split_and!; [lia|constructor; [lia|done]|]. intros Hw Hps. inversion Hps; subst. apply H3; [|done].
  unfold saturating_duration_since. lia.
Qed.

(** An update never fails, and the wait it asks for is right: it is
    positive (so the caller's loop makes progress), and no timer is due before
    it ends, neither a pending signal, nor the next broadcast, nor the expiry of
    the addresses. *)
Theorem update_waits_for_next_timer now s :
  lan_inv s ->
  0 < signal_retry_interval (config s) -> 0 < offer_retry_interval (config s) ->
  0 < broadcast_interval (config s) -> 0 < address_timeout (config s) ->
  exists s' w, lan_handle (Update now) s = (Ok tt, s') /\ list.last (output s') = Some (Wait w) /\
    0 < w <= address_timeout (config s) /\
    Forall (fun p => now + w <= next_send p) (pending s') /\
    (is_Some (broadcast_address (config s)) -> exists last, last_broadcast s' = Some last /\
       now + w <= last + broadcast_interval (config s)).
Proof.
  intros H H1 H2 H3 H4. cbn [lan_handle]. unfold handle_update.
  destruct (retransmit_spec now s) as (s1 & outs & -> & (_ & Ec & _) & _ & _ & _ & _ & Hnext);
    [apply H|].
  destruct (broadcast_spec now s1) as (s2 & outs2 & -> & _ & _ & Ec2 & _ & _ & Ep2 & _ & _ & Hlast).
  rewrite Ec in Ec2, Hlast. set (s3 := expire now s2).
  exists (push_back (Wait (next_timer s3 now)) s3), (next_timer s3 now). split; [done|].
  split; [cbn; apply last_snoc|].
  assert (config s3 = config s) as Ec3 by exact Ec2.
  assert (pending s3 = pending s1) as Ep3 by exact Ep2.
  assert (last_broadcast s3 = last_broadcast s2) as El3 by done.
  specialize (Hnext H1 H2). rewrite <- Ep3 in Hnext.
  unfold next_timer. rewrite Ec3, El3.
  set (w0 := match broadcast_address (config s) with Some _ => _ | None => _ end).
  assert (0 < w0 <= address_timeout (config s) /\
    (is_Some (broadcast_address (config s)) -> exists last, last_broadcast s2 = Some last /\
       now + w0 <= last + broadcast_interval (config s))) as [Hw0 Hb].
  { unfold w0. clear w0. destruct (broadcast_address (config s)) as [a|]; [|split; [lia|by intros []]].
    destruct Hlast as (last & -> & Hl); [eauto|].
    assert (now < last + broadcast_interval (config s)) as Hlt.
    { destruct Hl as [->|Hl]; [lia|]. unfold saturating_duration_since in Hl. lia. }
    unfold saturating_duration_since. split; [lia|]. intros _. exists last. split; [done|]. lia. }
  destruct (next_timer_fold (pending s3) w0 now) as (Hle & Hall & Hpos).
  set (r := fold_left _ (pending s3) w0) in *. clearbody r.
  split; [split; [by apply Hpos; [lia|]|lia]|]. split.
  - rewrite list.Forall_forall in Hall, Hnext |- *. intros p Hp. cbn in Hp.
    specialize (Hall p Hp). specialize (Hnext p Hp). unfold saturating_duration_since in Hall. lia.
  - intros Hsome. destruct (Hb Hsome) as (last & Hl & Hlw). exists last. split; [done|].
    etrans; [|exact Hlw]. cbn. lia.
Qed.

(** ** Reachable states *)

Lemma from_string_no_panic s nid : no_panic (from_string s nid).
Proof.
  unfold from_string. repeat (case_match; try done). unfold SignalType_from_str.
  repeat (case_match; try done); cbn; by destruct (parse_uint _ _).
Qed.

Lemma server_data_decode_no_panic input : no_panic (server_data_decode input).
Proof.
  unfold server_data_decode. pose proof (server_data_deserialize_no_panic input) as Hp.
  destruct (server_data_deserialize input) as [[d rest]|e|]; [|done..]. by case_match.
Qed.

Lemma lan_handle_no_panic msg s : lan_inv s -> no_panic (lan_handle msg s).1.
Proof.
  intros H. destruct msg as [buf addr now|sig now|data|now]; cbn [lan_handle]; [| |done|].
  - unfold handle_datagram. pose proof (decode_no_panic buf) as Hd.
    destruct (decode buf) as [[packet sender]|e|]; [|done..].
    case_match; [done|]. destruct (pinned_elsewhere _ _ _ _); [done|].
    destruct packet as [req|resp|m].
    + unfold answer_request. cbn [server_data set_addresses own_id].
      destruct (server_data s) as [data|]; [|done].
      destruct (server_data_serialize_Ok data) as [bs ->]. rewrite res_bind_Ok.
      pose proof (encode_no_panic (Response (response_new bs)) (own_id s)).
      by destruct (encode _ _).
    + case_match; [done|]. pose proof (server_data_decode_no_panic (application_data resp)).
      by destruct (server_data_decode _).
    + case_match; [done|]. pose proof (from_string_no_panic (message_data m) (dec sender)).
      by destruct (from_string _ _).
  - unfold handle_signal. destruct (parse_uint _ _) as [tgt|]; [|done].
    destruct (send_signal_cases sig tgt s) as [(buf & addr & _ & _ & ->)|[e ->]]; [|done].
    by case_match.
  - unfold handle_update.
    destruct (retransmit_spec now s) as (s1 & outs & -> & _); [apply H|].
    by destruct (broadcast_spec now s1) as (s2 & outs2 & -> & _).
Qed.

(** Whatever is fed to a signaler and whenever it is drained: the servers it
    lists are servers it has an address for, at most [max_discovered] of them;
    its own id never enters the table; every pending signal was sent between
    one and [signal_retries + 1] times and goes to the network it names; and no
    input, however malformed, makes it panic. *)
Theorem lan_reachable_invariant id c s :
  0 <= max_discovered c -> reachable (lan_new id c) s ->
  (forall x, is_Some (discovered s !! x) -> is_Some (address s x)) /\
  Z.of_nat (size (discovered s)) <= max_discovered c /\
  address s id = None /\
  Forall (pending_ok c) (pending s) /\
  (forall msg, no_panic (handle msg s).1).
Proof.
  intros Hm Hr.
  assert (lan_inv s /\ config s = c /\ own_id s = id) as (H & <- & <-).
  { revert Hr. apply (reachable_invariant (fun s => lan_inv s /\ config s = c /\ own_id s = id)).
    - intros msg s' (H & Ec & Eo). destruct (handle_config msg s') as [Ec' Eo'].
      split; [by apply lan_handle_inv|]. split; [by rewrite <- Ec|by rewrite <- Eo].
    - intros s' (H & Ec & Eo). split; [by apply lan_poll_inv|].
      cbn. unfold lan_poll. by destruct (output s').
    - split; [by apply lan_new_inv|done]. }
  split_and!.
  - intros x Hx. unfold address. apply fmap_is_Some. by apply (inv_dom _ H).
  - apply (inv_size _ H).
  - unfold address. by rewrite (inv_own _ H).
  - apply (inv_pending _ H).
  - intros msg. by apply lan_handle_no_panic.
Qed.

(** ** Delivery *)

Context {laws : CryptoLaws ops}.

Lemma signal_to_string_not_ping sig :
  (blen (signal_to_string sig) =? 0) || bytes_eqb (signal_to_string sig) PING = false.
Proof.
  unfold signal_to_string, bytes_eqb. apply orb_false_iff. split.
  - apply Z.eqb_neq. rewrite !blen_app. pose proof (blen_nonneg (dec (connection_id sig))).
    pose proof (blen_nonneg (signal_data sig)). pose proof (blen_nonneg (as_str (signal_type sig))).
    change (blen [space]) with 1. lia.
  - apply bool_decide_eq_false. by destruct (signal_type sig).
Qed.

(** A signal is delivered: when the sender knows the target's address and
    the text fits a datagram, handling the signal succeeds and queues one
    datagram to that address; a signaler with the target's id that does not
    have the sender pinned to another address reports the same signal type,
    connection id and data, under the sender's id in decimal, remembers where
    it came from, and stops repeating its own signals on that connection. *)
Theorem signal_delivered sig now c addr srv from now' :
  signal_ok sig -> is_u64 (own_id c) -> is_u64 (own_id srv) -> own_id c <> own_id srv ->
  parse_uint u64_max (network_id sig) = Some (own_id srv) ->
  address c (own_id srv) = Some addr ->
  utf8_valid (signal_to_string sig) = true -> blen (signal_to_string sig) <= 65505 ->
  pinned_elsewhere srv (own_id c) from now' = false ->
  exists buf c' srv',
    lan_handle (ISignal sig now) c = (Ok tt, c') /\ output c' = output c ++ [Datagram buf addr] /\
    lan_handle (IDatagram buf from now') srv = (Ok tt, srv') /\
    output srv' = output srv ++
      [OSignal (signal_new (signal_type sig) (connection_id sig) (signal_data sig) (dec (own_id c)))] /\
    address srv' (own_id c) = Some from /\
    (forall p, p ∈ pending srv' -> target p = own_id c -> connection_id (signal p) <> connection_id sig).
Proof.
  intros Hsig Hc Hs Hne Hnid Haddr Hutf Hlen Hpin.
  destruct (encode_message_Ok ops (own_id srv) (own_id c) (signal_to_string sig) Hlen) as [buf Hbuf].
  assert (decode buf = Ok (Message (message_packet_new (own_id srv) (signal_to_string sig)), own_id c))
    as Hdec by (apply decode_encode; [by split|done|done]).
  assert (exists c', handle_signal sig now c = (Ok tt, c') /\ output c' = output c ++ [Datagram buf addr])
    as (c' & Hh & Ho).
  { unfold handle_signal, send_signal. rewrite Hnid, Haddr, Hbuf. case_match; eexists; split; done. }
  exists buf, c'. eexists. cbn [lan_handle]. split; [exact Hh|]. split; [exact Ho|].
  unfold handle_datagram. rewrite Hdec. replace (own_id c =? own_id srv) with false by lia.
  rewrite Hpin. cbn [message_data recipient_id message_packet_new].
  rewrite signal_to_string_not_ping. cbn [own_id set_addresses]. rewrite Z.eqb_refl. cbn [negb orb].
  rewrite (from_string_to_string sig _ Hsig).
  split; [reflexivity|]. split; [done|]. split.
  - unfold address. cbn. by rewrite lookup_insert_eq.
  - cbn. intros p Hp Ht Hid. apply list_elem_of_In, filter_In in Hp as [_ Hp].
    rewrite Ht, Hid, !Z.eqb_refl in Hp. done.
Qed.
End lan_theorems.

(** ** Concrete runs *)

Definition sample_peer : SocketAddr := {| ip := Endpoint.V4 192 168 1 2; port := 7551 |}.
Definition sample_rogue : SocketAddr := {| ip := Endpoint.V4 192 168 1 66; port := 4000 |}.

Definition sample_client : LanSignaler :=
  set_addresses {[ 2 := {| entry_addr := sample_peer; last_seen := 0 |} ]}
    (lan_new 1 LanSignalerConfig_default).

Lemma sample_client_inv : lan_inv sample_client.
Proof.
  split; cbn; [|by rewrite map_size_empty|done|constructor].
  intros id []. by rewrite lookup_empty in *.
Qed.

(** A request that claims to come from network 2. *)
Definition forged_request : bytes :=
  match encode (ops := toy_crypto) (Request request_packet) 2 with Ok b => b | _ => [] end.

Lemma address_pinned_witness :
  address (feed_all (H := LanSignaler_sans (ops := toy_crypto))
             [IDatagram forged_request sample_rogue (secs 1); Update (secs 14)] sample_client) 2
  = Some sample_peer.
Proof.
  apply (address_pinned (ops := toy_crypto) [IDatagram forged_request sample_rogue (secs 1); Update (secs 14)]
           sample_client 2 {| entry_addr := sample_peer; last_seen := 0 |}).
  - reflexivity.
  - intros msg now [->|[->|Hm%elem_of_nil]%elem_of_cons]%elem_of_cons; [..|done];
      intros [= <-]; unfold secs; cbn; unfold secs; lia.
Defined.

Definition sample_signal : Signal := signal_offer 42 (str "sdp") (str "2").

Lemma retransmission_bounded_witness :
  datagrams (feed_all (H := LanSignaler_sans (ops := toy_crypto))
    (ISignal sample_signal 0 :: (Update <$> [secs 2; secs 4; secs 6; secs 8; secs 10])) sample_client) <= 4.
Proof.
  apply (retransmission_bounded (ops := toy_crypto) sample_signal 0
           [secs 2; secs 4; secs 6; secs 8; secs 10] sample_client).
  - exact sample_client_inv.
  - reflexivity.
  - reflexivity.
  - cbn. lia.
Defined.

(** The bound is reached. *)
Example retransmission_reaches_bound :
  datagrams (feed_all (H := LanSignaler_sans (ops := toy_crypto))
    (ISignal sample_signal 0 :: (Update <$> [secs 2; secs 4; secs 6; secs 8; secs 10])) sample_client) = 4.
Proof. vm_compute. reflexivity. Qed.

Lemma update_waits_for_next_timer_witness :
  exists s' w, lan_handle (ops := toy_crypto) (Update (secs 1)) sample_client = (Ok tt, s') /\
    list.last (output s') = Some (Wait w) /\ 0 < w <= secs 15.
Proof.
  destruct (update_waits_for_next_timer (ops := toy_crypto) (secs 1) sample_client)
    as (s' & w & H1 & H2 & H3 & _); [exact sample_client_inv|cbn; unfold secs, millis; lia..|].
  exists s', w. split; [exact H1|]. split; [exact H2|]. exact H3.
Defined.

Lemma lan_reachable_invariant_witness :
  address (feed_all (H := LanSignaler_sans (ops := toy_crypto))
             [IDatagram forged_request sample_peer 0] (lan_new 1 LanSignalerConfig_default)) 1 = None.
Proof.
  apply (lan_reachable_invariant (ops := toy_crypto) 1 LanSignalerConfig_default).
  - cbn. lia.
  - apply feed_all_reachable.
Defined.

Lemma signal_delivered_witness :
  exists buf c' srv',
    lan_handle (ops := toy_crypto) (ISignal sample_signal 0) sample_client = (Ok tt, c') /\
    lan_handle (ops := toy_crypto) (IDatagram buf sample_rogue 5) (lan_new 2 LanSignalerConfig_default)
      = (Ok tt, srv') /\
    output srv' = [OSignal (signal_offer 42 (str "sdp") (str "1"))] /\
    output c' = [Datagram buf sample_peer].
Proof.
  destruct (signal_delivered (ops := toy_crypto) (laws := toy_crypto_laws) sample_signal 0
    sample_client sample_peer (lan_new 2 LanSignalerConfig_default) sample_rogue 5)
    as (buf & c' & srv' & H1 & H2 & H3 & H4 & _).
  - unfold signal_ok, is_u64. cbn. lia.
  - unfold is_u64. cbn. lia.
  - unfold is_u64. cbn. lia.
  - cbn. lia.
  - reflexivity.
  - reflexivity.
  - reflexivity.
  - vm_compute. discriminate.
  - reflexivity.
  - exists buf, c', srv'. split; [exact H1|]. split; [exact H3|]. split; [exact H4|exact H2].
Defined.
