(* ===== verification/Identity.v ===== *)
(** * Identity: assertions in session descriptions
    ([identity/{error,envelope,jws,jwt,jwk,trust,player}.rs])

    Foreign code is behind classes: base64, the JSON library, the P-384 and RSA
    signature libraries.  Error texts are kept up to the [Display] text of a
    foreign error, which is left out. *)
From S2P Require Import Prelude Text Errors Endpoint.

(** ** [error.rs] and the constants of [mod.rs] *)

Inductive IdentityError :=
| Missing
| Malformed (m : bytes)
| Untrusted (m : bytes)
| ClientPublicKey (m : bytes)
| FingerprintMismatch
| NoFingerprints
| KeyMismatch
| Key (m : bytes)
| Signing (m : bytes).

Definition MINECRAFT_ISSUER : bytes :=
  str "https://authorization.franchise.minecraft-services.net/".
Definition MINECRAFT_AUDIENCE : bytes := str "api://auth-minecraft-services/multiplayer".

Abbreviation IRes := (Res IdentityError).

(** ** JSON values ([serde_json::Value]); numbers that are not [u64] keep their text *)

Inductive Value :=
| VNull
| VBool (b : bool)
| VU64 (n : Z)
| VNumber (text : bytes)
| VString (s : bytes)
| VArray (l : list Value)
| VObject (fields : list (bytes * Value)).

Definition Value_as_str (v : Value) : option bytes :=
  match v with VString s => Some s | _ => None end.
Definition Value_as_u64 (v : Value) : option Z :=
  match v with VU64 n => Some n | _ => None end.

(** ** The data of [envelope.rs], [jws.rs] and [jwk.rs] *)

Record Idp := { idp_domain : bytes; protocol : bytes }.
Record Assertion := { token : bytes; fingerprints : bytes }.
Record Identity := { idp : Idp; assertion : Assertion }.
Record Raw := { raw_idp : Idp; raw_assertion : bytes }.
Record JwsHeader := { alg : bytes; kid : option bytes }.
Record EcJwk := { ec_kty : bytes; crv : bytes; ec_x : bytes; ec_y : bytes }.
Record Jwk := { kty : bytes; jwk_kid : option bytes; rsa_n : option bytes; rsa_e : option bytes }.
Record JwkSet := { keys : list Jwk }.

#[global] Instance EcJwk_eq_dec : EqDecision EcJwk.
Proof. solve_decision. Defined.

(** ** Foreign code *)

Class Base64 := {
  standard_encode : bytes -> bytes;
  standard_decode : bytes -> option bytes;
  url_encode : bytes -> bytes;       (* URL_SAFE_NO_PAD *)
  url_decode : bytes -> option bytes;
}.

(** The engines decode what they encode, and write only their alphabets. *)
Definition base64_char (b : byte) : bool :=
  is_ascii_digit b || in_range b 65 90 || in_range b 97 122
  || byte_eqb b x2b || byte_eqb b x2f || byte_eqb b x3d || byte_eqb b x2d || byte_eqb b x5f.

Class Base64Laws (b64 : Base64) := {
  standard_decode_encode x : standard_decode (standard_encode x) = Some x;
  standard_alphabet x : Forall (fun b => base64_char b = true) (standard_encode x);
  url_decode_encode x : url_decode (url_encode x) = Some x;
  url_alphabet x : Forall (fun b => base64_char b = true) (url_encode x);
}.

(** [serde_json]: the typed readers derive from the structs. *)
Class Serde := {
  value_to_string : Value -> bytes;
  value_from_slice : bytes -> option Value;
  raw_from_str : bytes -> option Raw;
  raw_to_string : Raw -> option bytes;
  assertion_from_str : bytes -> option Assertion;
  assertion_to_string : Assertion -> option bytes;
  header_from_slice : bytes -> option JwsHeader;
  claims_from_slice : bytes -> option (gmap bytes Value);
  ec_jwk_deserialize : Value -> option EcJwk;
  ec_jwk_serialize : EcJwk -> Value;
}.

(** P-384 keys and signatures ([p384], [ecdsa]). *)
Class P384 := {
  SigningKey : Type;
  VerifyingKey : Type;
  verifying_key : SigningKey -> VerifyingKey;
  try_sign : SigningKey -> bytes -> option bytes;
  signature_from_slice : bytes -> option bytes;
  verify : VerifyingKey -> bytes -> bytes -> bool;
  from_sec1_bytes : bytes -> option VerifyingKey;
  sec1_x : VerifyingKey -> option bytes;
  sec1_y : VerifyingKey -> option bytes;
  from_public_key_der : bytes -> option VerifyingKey;
  to_public_key_der : VerifyingKey -> option bytes;
}.

(** RSA PKCS#1 v1.5 with SHA-256 ([rsa]). *)
Class Rsa := {
  RsaPublicKey : Type;
  rsa_public_key_new : bytes -> bytes -> option RsaPublicKey;
  rsa_signature_try_from : bytes -> option bytes;
  rsa_verify : RsaPublicKey -> bytes -> bytes -> bool;
}.

(** ** [SystemTime]

    Nanoseconds from the epoch.  Adding a duration panics when the seconds leave
    the [i64] range of the platform's clock type. *)
Definition SystemTime := Z.
Definition UNIX_EPOCH : SystemTime := 0.
Definition i64_max : Z := 2 ^ 63 - 1.

Definition system_time_add {E} (t : SystemTime) (d : Duration) : Res E SystemTime :=
  if (t + d) / 1000000000 <=? i64_max then Ok (t + d) else Panic.

Section identity.
Context `{Base64} `{Serde} `{P384} `{Rsa}.

(** ** [envelope.rs] *)

Definition from_json (json : bytes) : IRes Identity :=
  raw ← ok_or (Malformed (str "invalid identity: ")) (raw_from_str json);
  a ← ok_or (Malformed (str "invalid assertion: ")) (assertion_from_str (raw_assertion raw));
  Ok {| idp := raw_idp raw; assertion := a |}.

Definition from_base64 (value : bytes) : IRes Identity :=
  json ← ok_or (Malformed (str "invalid base64: ")) (standard_decode (trim value));
  json ← (if utf8_valid json then Ok json else Err (Malformed (str "invalid UTF-8: ")));
  from_json json.

Definition IDENTITY_PREFIX : bytes := str "a=identity:".
Definition FINGERPRINT_PREFIX : bytes := str "a=fingerprint:".

(** [find_map]. *)
Fixpoint find_map {A B} (f : A -> option B) (l : list A) : option B :=
  match l with
  | [] => None
  | x :: l => match f x with Some y => Some y | None => find_map f l end
  end.

Definition from_sdp (sdp : bytes) : IRes Identity :=
  value ← ok_or Missing (find_map (strip_prefix IDENTITY_PREFIX) (split_on is_eol sdp));
  from_base64 value.

Definition to_json (i : Identity) : IRes bytes :=
  a ← ok_or (Malformed []) (assertion_to_string (assertion i));
  ok_or (Malformed []) (raw_to_string {| raw_idp := idp i; raw_assertion := a |}).

Definition to_base64 (i : Identity) : IRes bytes :=
  json ← to_json i;
  Ok (standard_encode json).

(** The loop of [sdp_fingerprints] over the fingerprint lines. *)
Fixpoint read_fingerprints (lines : list bytes) : IRes (list (bytes * bytes)) :=
  match lines with
  | [] => Ok []
  | line :: lines =>
      match split_once (is_byte space) (trim line) with
      | None => Err (Malformed (str "invalid fingerprint line: " ++ line))
      | Some (algorithm, digest) =>
          rest ← read_fingerprints lines;
          Ok ((algorithm, digest) :: rest)
      end
  end.

Definition sdp_fingerprints (sdp : bytes) : IRes (list (bytes * bytes)) :=
  read_fingerprints (omap (strip_prefix FINGERPRINT_PREFIX) (split_on is_eol sdp)).

Definition fingerprint_payload (fps : list (bytes * bytes)) : bytes :=
  value_to_string (VObject [(str "fingerprint",
    VArray ((fun '(algorithm, digest) =>
      VObject [(str "algorithm", VString algorithm); (str "digest", VString digest)]) <$> fps))]).

Definition canonical_fingerprint_json (sdp : bytes) : IRes bytes :=
  fps ← sdp_fingerprints sdp;
  Ok (fingerprint_payload fps).

(** [{"fingerprint":[]}] *)
Definition EMPTY_FINGERPRINTS : bytes :=
  [x7b; x22] ++ str "fingerprint" ++ [x22; x3a; x5b; x5d; x7d].

(** ** [jws.rs] *)

(** [{"alg":"ES384"}] *)
Definition ES384_HEADER : bytes :=
  [x7b; x22] ++ str "alg" ++ [x22; x3a; x22] ++ str "ES384" ++ [x22; x7d].

Definition dot : byte := x2e.

Record Jws := { header : JwsHeader; signing_input : bytes; payload : bytes; signature : bytes }.

Definition jws_decode (value : bytes) : IRes bytes :=
  ok_or (Malformed (str "invalid base64url: ")) (url_decode value).

Definition jws_parse (compact : bytes) : IRes Jws :=
  match split_on (is_byte dot) compact with
  | [header; payload; signature] =>
      h ← jws_decode header;
      h ← ok_or (Malformed (str "invalid header: ")) (header_from_slice h);
      p ← jws_decode payload;
      s ← jws_decode signature;
      Ok {| header := h; signing_input := header ++ [dot] ++ payload; payload := p; signature := s |}
  | _ => Err (Malformed (str "expected three parts in the compact serialization"))
  end.

Definition jws_parse_detached (compact payload : bytes) : IRes Jws :=
  match split_on (is_byte dot) compact with
  | [header; []; signature] =>
      let encoded := url_encode payload in
      h ← jws_decode header;
      h ← ok_or (Malformed (str "invalid header: ")) (header_from_slice h);
      s ← jws_decode signature;
      Ok {| header := h; signing_input := header ++ [dot] ++ encoded; payload := payload;
            signature := s |}
  | _ => Err (Malformed (str "expected a detached compact serialization"))
  end.

Definition sign_parts (key : SigningKey) (payload : bytes) : IRes (bytes * bytes * bytes) :=
  let header := url_encode ES384_HEADER in
  let payload := url_encode payload in
  s ← ok_or (Signing []) (try_sign key (header ++ [dot] ++ payload));
  Ok (header, payload, url_encode s).

Definition sign (key : SigningKey) (payload : bytes) : IRes bytes :=
  '(header, payload, signature) ← sign_parts key payload;
  Ok (header ++ [dot] ++ payload ++ [dot] ++ signature).

Definition sign_detached (key : SigningKey) (payload : bytes) : IRes bytes :=
  '(header, _, signature) ← sign_parts key payload;
  Ok (header ++ [dot; dot] ++ signature).

Definition verify_es384 (jws : Jws) (key : VerifyingKey) : IRes unit :=
  if negb (bytes_eqb (alg (header jws)) (str "ES384"))
  then Err (Malformed (str "expected ES384, got " ++ alg (header jws)))
  else
    s ← ok_or (Malformed (str "invalid signature: ")) (signature_from_slice (signature jws));
    if verify key (signing_input jws) s then Ok tt else Err FingerprintMismatch.

(** ** [jwk.rs] *)

Definition jwk_candidates (set : JwkSet) (k : option bytes) : list Jwk :=
  match k with
  | Some k => List.filter (fun key => bool_decide (jwk_kid key = Some k)) (keys set)
  | None => keys set
  end.

Definition jwk_contains (set : JwkSet) (k : bytes) : bool :=
  existsb (fun key => bool_decide (jwk_kid key = Some k)) (keys set).

(** The shared set and its flag, as the state the methods act on. *)
Record MinecraftKeys := { key_set : JwkSet; missed : bool }.

Definition minecraft_keys_new (set : JwkSet) : MinecraftKeys := {| key_set := set; missed := false |}.
Definition snapshot (k : MinecraftKeys) : JwkSet := key_set k.
Definition replace_keys (set : JwkSet) (k : MinecraftKeys) : MinecraftKeys :=
  {| key_set := set; missed := missed k |}.
Definition take_missed (k : MinecraftKeys) : bool * MinecraftKeys :=
  (missed k, {| key_set := key_set k; missed := false |}).
Definition mark_missed (k : MinecraftKeys) : MinecraftKeys :=
  {| key_set := key_set k; missed := true |}.

Definition jwk_decode (value : bytes) : IRes bytes :=
  ok_or (Untrusted (str "invalid base64url in key: ")) (url_decode value).

Definition verify_rs256 (key : Jwk) (input sig : bytes) : IRes unit :=
  if negb (bytes_eqb (kty key) (str "RSA"))
  then Err (Untrusted (str "unsupported key type " ++ kty key))
  else match rsa_n key, rsa_e key with
       | Some n, Some e =>
           modulus ← jwk_decode n;
           exponent ← jwk_decode e;
           k ← ok_or (Untrusted (str "invalid RSA key: ")) (rsa_public_key_new modulus exponent);
           s ← ok_or (Untrusted (str "signature mismatch")) (rsa_signature_try_from sig);
           if rsa_verify k input s then Ok tt else Err (Untrusted (str "signature mismatch"))
       | _, _ => Err (Untrusted (str "incomplete RSA key"))
       end.

Definition P384_COORDINATE_LEN : Z := 48.

Definition coordinate (name value : bytes) : IRes bytes :=
  bs ← ok_or (ClientPublicKey (name ++ str " is not unpadded base64url: ")) (url_decode value);
  if blen bs =? P384_COORDINATE_LEN then Ok bs
  else Err (ClientPublicKey (name ++ str " is " ++ dec (blen bs) ++ str " bytes, expected "
                             ++ dec P384_COORDINATE_LEN)).

(** [TryFrom<&EcJwk> for VerifyingKey]. *)
Definition verifying_key_try_from (jwk : EcJwk) : IRes VerifyingKey :=
  if negb (bytes_eqb (ec_kty jwk) (str "EC"))
  then Err (ClientPublicKey (str "unsupported key type " ++ ec_kty jwk))
  else if negb (bytes_eqb (crv jwk) (str "P-384"))
  then Err (ClientPublicKey (str "unsupported curve " ++ crv jwk))
  else
    x ← coordinate (str "x") (ec_x jwk);
    y ← coordinate (str "y") (ec_y jwk);
    ok_or (ClientPublicKey (str "not a key on P-384: ")) (from_sec1_bytes ([x04] ++ x ++ y)).

(** [From<&VerifyingKey> for EcJwk]. *)
Definition ec_jwk_from (key : VerifyingKey) : EcJwk :=
  let coordinate (o : option bytes) := url_encode (default [] o) in
  {| ec_kty := str "EC"; crv := str "P-384"; ec_x := coordinate (sec1_x key);
     ec_y := coordinate (sec1_y key) |}.

(** ** [jwt.rs] *)

Record Claims := { values : gmap bytes Value }.

Definition LEEWAY : Duration := secs 60.

Definition claim_string (c : Claims) (claim : bytes) : option bytes :=
  values c !! claim ≫= Value_as_str.

Definition subject (c : Claims) : option bytes := claim_string c (str "sub").
Definition issuer (c : Claims) : option bytes := claim_string c (str "iss").
Definition xuid (c : Claims) : option bytes := claim_string c (str "xid").
Definition display_name (c : Claims) : option bytes := claim_string c (str "xname").

Definition audience (c : Claims) : list bytes :=
  match values c !! str "aud" with
  | Some (VString a) => [a]
  | Some (VArray l) => omap Value_as_str l
  | _ => []
  end.

(** [None] is the absent or non-integer claim; the addition may panic. *)
Definition expiry (c : Claims) : IRes (option SystemTime) :=
  match values c !! str "exp" ≫= Value_as_u64 with
  | None => Ok None
  | Some seconds => t ← system_time_add UNIX_EPOCH (secs seconds); Ok (Some t)
  end.

Definition spki_key (cpk : bytes) : IRes VerifyingKey :=
  der ← ok_or (ClientPublicKey (str "invalid base64: ")) (standard_decode cpk);
  ok_or (ClientPublicKey (str "not a key on P-384: ")) (from_public_key_der der).

Definition client_public_key (c : Claims) : IRes VerifyingKey :=
  match values c !! str "cpk" with
  | None => Err (ClientPublicKey (str "the token carries no cpk"))
  | Some (VString cpk) => spki_key cpk
  | Some (VObject fields) =>
      jwk ← ok_or (ClientPublicKey (str "invalid JWK: ")) (ec_jwk_deserialize (VObject fields));
      verifying_key_try_from jwk
  | Some _ => Err (ClientPublicKey (str "the cpk is neither a string nor a JWK object"))
  end.

Definition check_expiry (c : Claims) (now : SystemTime) : IRes unit :=
  o ← expiry c;
  expiry ← ok_or (Untrusted (str "the token carries no expiry")) o;
  limit ← system_time_add expiry LEEWAY;
  if now <=? limit then Ok tt else Err (Untrusted (str "the token has expired")).

Definition jws_claims (jws : Jws) : IRes Claims :=
  m ← ok_or (Malformed (str "invalid claims: ")) (claims_from_slice (payload jws));
  Ok {| values := m |}.

(** ** [trust.rs] *)

(** In the source the keys are shared: whoever holds a clone of them may replace
    them.  Here a trust is a value, and a machine that has one is told of new keys
    by being given a new trust; [Jwks.v] models the sharing. *)
Inductive TokenTrust := Minecraft (keys : MinecraftKeys) | AnyToken.

(** [TokenTrust::claims]: the state is the key set, whose flag it may raise. *)
Definition trust_claims (i : Identity) (now : SystemTime) : SE TokenTrust IdentityError Claims :=
  fun trust =>
  match (jws ← jws_parse (token (assertion i));
         claims ← jws_claims jws;
         _ ← check_expiry claims now;
         Ok (jws, claims)) with
  | Err e => (Err e, trust)
  | Panic => (Panic, trust)
  | Ok (jws, claims) =>
      match trust with
      | AnyToken => (Ok claims, trust)
      | Minecraft keys =>
          if negb (bytes_eqb (alg (header jws)) (str "RS256"))
          then (Err (Untrusted (str "expected RS256, got " ++ alg (header jws))), trust)
          else
            let candidates := jwk_candidates (snapshot keys) (kid (header jws)) in
            if (length candidates =? 0)%nat
            then (Err (Untrusted (str "the token names a key that is not published")),
                  Minecraft (mark_missed keys))
            else if negb (existsb (fun key =>
                   is_ok (verify_rs256 key (signing_input jws) (signature jws))) candidates)
            then (Err (Untrusted (str "the token is not signed by the issuer")), trust)
            else if bool_decide (subject claims = None)
            then (Err (Untrusted (str "the token carries no subject")), trust)
            else if negb (bool_decide (issuer claims = Some MINECRAFT_ISSUER))
            then (Err (Untrusted (str "the token was issued by someone else")), trust)
            else if negb (bool_decide (MINECRAFT_AUDIENCE ∈ audience claims))
            then (Err (Untrusted (str "the token is addressed to another audience")), trust)
            else (Ok claims, trust)
      end
  end.

Definition validate_sdp (sdp : bytes) (now : SystemTime) : SE TokenTrust IdentityError Claims :=
  fun trust =>
  match from_sdp sdp with
  | Err e => (Err e, trust)
  | Panic => (Panic, trust)
  | Ok identity =>
      match trust_claims identity now trust with
      | (Ok claims, trust) =>
          (fps ← canonical_fingerprint_json sdp;
           _ ← (if bytes_eqb fps EMPTY_FINGERPRINTS then Err NoFingerprints else Ok tt);
           jws ← jws_parse_detached (fingerprints (assertion identity)) fps;
           key ← client_public_key claims;
           _ ← verify_es384 jws key;
           Ok claims, trust)
      | r => r
      end
  end.

Definition verify_answer (sdp : bytes) (now : SystemTime)
    : SE (option TokenTrust) IdentityError (option Claims) := fun trust =>
  match trust with
  | None => (Ok None, None)
  | Some t => let '(r, t) := validate_sdp sdp now t in (Some <$> r, Some t)
  end.

(** ** [player.rs] *)

Record PlayerInfo := {
  player_xuid : option bytes;
  player_display_name : option bytes;
  player_network_id : bytes;
  remote_address : option SocketAddr;
  player_claims : Claims;
}.

Definition player_info_new (claims : Claims) (network_id : bytes) (addr : option SocketAddr)
    : PlayerInfo :=
  {| player_xuid := xuid claims; player_display_name := display_name claims;
     player_network_id := network_id; remote_address := addr; player_claims := claims |}.

Definition verify_login_key (p : PlayerInfo) (identity_public_key : VerifyingKey) : IRes unit :=
  expected ← client_public_key (player_claims p);
  expected ← ok_or (Key []) (to_public_key_der expected);
  presented ← ok_or (Key []) (to_public_key_der identity_public_key);
  if bytes_eqb expected presented then Ok tt else Err KeyMismatch.

End identity.

(** ** What the foreign code is relied on for *)

(** [Map] keeps its keys sorted and distinct: the objects the program builds. *)
Fixpoint bytes_ltb (a b : bytes) : bool :=
  match a, b with
  | [], [] => false
  | [], _ => true
  | _, [] => false
  | x :: a, y :: b =>
      if Z_of_byte x <? Z_of_byte y then true
      else if Z_of_byte y <? Z_of_byte x then false
      else bytes_ltb a b
  end.

Fixpoint keys_sorted (l : list (bytes * Value)) : bool :=
  match l with
  | (a, _) :: ((b, _) :: _) as r => bytes_ltb a b && keys_sorted r
  | _ => true
  end.

Fixpoint canonical (v : Value) : bool :=
  match v with
  | VArray l => forallb canonical l
  | VObject fields => keys_sorted fields && forallb (fun '(_, w) => canonical w) fields
  | _ => true
  end.

Class SerdeLaws (serde : Serde) := {
  value_roundtrip v : canonical v = true -> value_from_slice (value_to_string v) = Some v;
  value_empty : value_to_string (VObject [(str "fingerprint", VArray [])]) = EMPTY_FINGERPRINTS;
  claims_roundtrip l : canonical (VObject l) = true ->
    claims_from_slice (value_to_string (VObject l)) = Some (list_to_map l);
  header_es384 : header_from_slice ES384_HEADER = Some {| alg := str "ES384"; kid := None |};
  raw_roundtrip r : exists s, raw_to_string r = Some s /\ raw_from_str s = Some r /\ utf8_valid s = true;
  assertion_roundtrip a : exists s, assertion_to_string a = Some s /\ assertion_from_str s = Some a;
  ec_jwk_roundtrip j : ec_jwk_deserialize (ec_jwk_serialize j) = Some j;
  ec_jwk_object j : exists l, ec_jwk_serialize j = VObject l /\ canonical (VObject l) = true;
}.

Class P384Laws (p : P384) := {
  sign_verify k m s : try_sign k m = Some s ->
    signature_from_slice s = Some s /\ verify (verifying_key k) m s = true;
  sec1_roundtrip key : exists x y, sec1_x key = Some x /\ sec1_y key = Some y /\
    blen x = P384_COORDINATE_LEN /\ blen y = P384_COORDINATE_LEN /\
    from_sec1_bytes ([x04] ++ x ++ y) = Some key;
}.

(** Splits a chain of fallible steps in a hypothesis that it succeeded. *)
Ltac invert_binds H :=
  repeat match type of H with
  | (_ ≫= _) = Ok _ =>
      let x := fresh "x" in let Hx := fresh "Hx" in
      apply res_bind_inv in H as (x & Hx & H)
  end.

Lemma ok_or_inv {E A} (e : E) (o : option A) a : ok_or e o = Ok a -> o = Some a.
Proof. destruct o; cbn; congruence. Qed.

Section identity_laws.
Context `{b64 : Base64} `{serde : Serde} `{p384 : P384} `{rsa : Rsa}.

(** ** Tokens and signatures as relations

    What a compact serialization says, part by part, independently of the
    functions that read it. *)

(** [compact] is [header.payload.signature], each part base64url. *)
Definition compact_says (compact : bytes) (jws : Jws) : Prop :=
  exists h p s raw, split_on (is_byte dot) compact = [h; p; s] /\
    url_decode h = Some raw /\ header_from_slice raw = Some (header jws) /\
    url_decode p = Some (payload jws) /\ url_decode s = Some (signature jws) /\
    signing_input jws = h ++ [dot] ++ p.

(** [compact] is [header..signature]; the payload between the dots is left out
    and is [detached]. *)
Definition detached_says (compact detached : bytes) (jws : Jws) : Prop :=
  exists h s raw, split_on (is_byte dot) compact = [h; []; s] /\
    url_decode h = Some raw /\ header_from_slice raw = Some (header jws) /\
    payload jws = detached /\ url_decode s = Some (signature jws) /\
    signing_input jws = h ++ [dot] ++ url_encode detached.

(** The ES384 signature the serialization carries is [key]'s over its input. *)
Definition es384_signed (key : VerifyingKey) (jws : Jws) : Prop :=
  alg (header jws) = str "ES384" /\
  exists s, signature_from_slice (signature jws) = Some s /\ verify key (signing_input jws) s = true.

(** The published [key] is an RSA key and the signature [sig] is its own over
    [input]. *)
Definition rs256_signed (key : Jwk) (input sig : bytes) : Prop :=
  kty key = str "RSA" /\
  exists n e modulus exponent k s, rsa_n key = Some n /\ rsa_e key = Some e /\
    url_decode n = Some modulus /\ url_decode e = Some exponent /\
    rsa_public_key_new modulus exponent = Some k /\
    rsa_signature_try_from sig = Some s /\ rsa_verify k input s = true.

(** The key set has a key that is the one the token names, when it names one,
    and that verifies the token's signature. *)
Definition signed_by_set (set : JwkSet) (jws : Jws) : Prop :=
  exists key, key ∈ keys set /\
    (kid (header jws) = None \/ jwk_kid key = kid (header jws)) /\
    rs256_signed key (signing_input jws) (signature jws).

Lemma jws_parse_says compact jws : jws_parse compact = Ok jws -> compact_says compact jws.
Proof.
  unfold jws_parse, jws_decode. destruct (split_on _ _) as [|h [|p [|s [|]]]] eqn:Es; try done.
  intros E. invert_binds E. simplify_eq.
  repeat match goal with H : ok_or _ _ = Ok _ |- _ => apply ok_or_inv in H end.
  exists h, p, s. eauto 10.
Qed.

Lemma verify_rs256_signed key input sig :
  verify_rs256 key input sig = Ok tt -> rs256_signed key input sig.
Proof.
  unfold verify_rs256, jwk_decode, bytes_eqb. case_bool_decide; cbn [negb]; [|done].
  destruct (rsa_n key) as [n|] eqn:En; [|done]. destruct (rsa_e key) as [e|] eqn:Ee; [|done].
  intros E. invert_binds E. case_match; [|done].
  repeat match goal with H : ok_or _ _ = Ok _ |- _ => apply ok_or_inv in H end.
  split; [done|]. eauto 15.
Qed.

(** What a trust setting demands of a parsed token. *)
Definition trusts (t : TokenTrust) (jws : Jws) (claims : Claims) : Prop :=
  match t with
  | AnyToken => True
  | Minecraft ks =>
      alg (header jws) = str "RS256" /\ signed_by_set (key_set ks) jws /\
      is_Some (subject claims) /\ issuer claims = Some MINECRAFT_ISSUER /\
      MINECRAFT_AUDIENCE ∈ audience claims
  end.

Definition unexpired (claims : Claims) (now : SystemTime) : Prop :=
  exists exp, values claims !! str "exp" = Some (VU64 exp) /\ now <= secs (exp + 60).

Lemma check_expiry_sound claims now : check_expiry claims now = Ok tt -> unexpired claims now.
Proof.
  unfold check_expiry, expiry. intros E. invert_binds E.
  destruct (values claims !! str "exp") as [v|] eqn:Ev; [|by simplify_eq/=].
  destruct v; cbn in Hx; try by simplify_eq/=. exists n. split; [done|].
  invert_binds Hx. simplify_eq/=. unfold system_time_add, UNIX_EPOCH, LEEWAY, secs in *.
  repeat case_match; simplify_eq. to_props. unfold secs. lia.
Qed.

Lemma existsb_In {A} (f : A -> bool) l : existsb f l = true -> exists x, In x l /\ f x = true.
Proof. apply existsb_exists. Qed.

Lemma jwk_candidates_spec set k key :
  In key (jwk_candidates set k) -> key ∈ keys set /\ (k = None \/ jwk_kid key = k).
Proof.
  unfold jwk_candidates. destruct k as [k|]; [|intros; split; [by apply list_elem_of_In|by left]].
  intros [Hin Hk]%filter_In. to_props. split; [by apply list_elem_of_In|by right].
Qed.

Lemma trust_claims_sound i now t t' claims :
  trust_claims i now t = (Ok claims, t') ->
  t' = t /\ exists jws, compact_says (token (assertion i)) jws /\
    claims_from_slice (payload jws) = Some (values claims) /\
    unexpired claims now /\ trusts t jws claims.
Proof.
  unfold trust_claims. destruct (_ ≫= _) as [[jws c]|err|] eqn:E; [|done..].
  invert_binds E. simplify_eq. unfold jws_claims in Hx0. invert_binds Hx0.
  apply jws_parse_says in Hx. apply ok_or_inv in Hx2. simplify_eq. destruct x1. apply check_expiry_sound in Hx1.
  destruct t as [ks|].
  - repeat (case_match; [done|]). intros; simplify_eq. split; [done|].
    exists jws. split_and!; try done. to_props.
    match goal with H : existsb _ _ = true |- _ => apply existsb_In in H as (key & Hin & Hv) end.
    apply jwk_candidates_spec in Hin as [Hin Hk]. unfold bytes_eqb in *. to_props.
    unfold trusts. split_and!; try done.
    + exists key. split_and!; try done. apply verify_rs256_signed.
      by destruct (verify_rs256 _ _ _) as [[]|?|].
    + destruct (subject _); [eauto|done].
  - intros; simplify_eq. split; [done|]. by exists jws.
Qed.

Lemma verify_es384_Ok jws key : verify_es384 jws key = Ok tt -> es384_signed key jws.
Proof.
  unfold verify_es384, bytes_eqb. case_bool_decide; cbn [negb]; [|done]. intros E. split; [done|].
  invert_binds E. apply ok_or_inv in Hx. case_match; [|done]. eauto.
Qed.

Lemma parse_detached_says compact p jws :
  jws_parse_detached compact p = Ok jws -> detached_says compact p jws.
Proof.
  unfold jws_parse_detached, jws_decode. destruct (split_on _ _) as [|h [|[|] [|s [|]]]] eqn:Es; try done.
  intros E. cbv zeta in E. invert_binds E. simplify_eq.
  repeat match goal with H : ok_or _ _ = Ok _ |- _ => apply ok_or_inv in H end.
  exists h, s. eauto 10.
Qed.

Context {slaws : SerdeLaws serde} {blaws : Base64Laws b64}.

(** What a description must carry for its claims to be authentic. *)
Definition authentic (t : TokenTrust) (sdp : bytes) (now : SystemTime) (claims : Claims) : Prop :=
  exists identity jws fps key fingerprint_jws,
    from_sdp sdp = Ok identity /\ compact_says (token (assertion identity)) jws /\
    claims_from_slice (payload jws) = Some (values claims) /\
    unexpired claims now /\ trusts t jws claims /\
    sdp_fingerprints sdp = Ok fps /\ fps <> [] /\
    client_public_key claims = Ok key /\
    detached_says (fingerprints (assertion identity)) (fingerprint_payload fps) fingerprint_jws /\
    es384_signed key fingerprint_jws.

Lemma validate_sdp_authentic sdp now t t' claims :
  validate_sdp sdp now t = (Ok claims, t') -> t' = t /\ authentic t sdp now claims.
Proof.
  unfold validate_sdp. destruct (from_sdp sdp) as [identity|err|] eqn:Ei; [|done..].
  destruct (trust_claims identity now t) as [[c|err|] t1] eqn:Et; [|done..].
  apply trust_claims_sound in Et as (-> & jws & Hj & Hc & Hu & Ht).
  intros E. injection E as E <-. split; [done|].
  unfold canonical_fingerprint_json in E. invert_binds E. invert_binds Hx. simplify_eq.
  destruct x3 as []. apply verify_es384_Ok in Hx3. apply parse_detached_says in Hx1.
  exists identity, jws, x4, x2, x1. split_and!; try done.
  intros ->. unfold bytes_eqb, fingerprint_payload in Hx0. cbn in Hx0.
  rewrite value_empty, bool_decide_eq_true_2 in Hx0; done.
Qed.

(** C3: An accepted description is authentic.  If [validate_sdp] returns claims,
    then they are the payload of the three-part token in the description's
    identity line; the token is unexpired up to the leeway of sixty seconds; the
    description lists at least one fingerprint; and the assertion's detached
    token names ES384 in its header and carries, in its third part, a signature
    that the key in the [cpk] claim verifies over that header and exactly the
    fingerprints the description lists.  Under [Minecraft] trust the identity
    token names RS256 and its third part is the signature, over its first two
    parts, of a published RSA key (the one it names, if it names one), and it
    carries a subject, the issuer and the audience.  A successful validation
    changes nothing in the key set. *)
Theorem validate_sdp_sound sdp now t t' claims :
  validate_sdp sdp now t = (Ok claims, t') ->
  t' = t /\
  exists identity jws fps key fingerprint_jws,
    from_sdp sdp = Ok identity /\ compact_says (token (assertion identity)) jws /\
    claims_from_slice (payload jws) = Some (values claims) /\
    unexpired claims now /\ trusts t jws claims /\
    sdp_fingerprints sdp = Ok fps /\ fps <> [] /\
    client_public_key claims = Ok key /\
    detached_says (fingerprints (assertion identity)) (fingerprint_payload fps) fingerprint_jws /\
    es384_signed key fingerprint_jws.
Proof. apply validate_sdp_authentic. Qed.

Lemma canonical_payload (fps : list (bytes * bytes)) :
  forallb canonical ((fun '(algorithm, digest) =>
      VObject [(str "algorithm", VString algorithm); (str "digest", VString digest)]) <$> fps) = true.
Proof. induction fps as [|[a d] fps IH]; [done|]. cbn [fmap list_fmap forallb]. by rewrite IH. Qed.

Lemma fingerprint_payload_inj fps fps' :
  fingerprint_payload fps = fingerprint_payload fps' -> fps = fps'.
Proof.
  intros E. unfold fingerprint_payload in E.
  assert (forall l, canonical (VObject [(str "fingerprint", VArray ((fun '(algorithm, digest) =>
    VObject [(str "algorithm", VString algorithm); (str "digest", VString digest)]) <$> l))]) = true)
    as Hc by (intros l; cbn -[str]; by rewrite canonical_payload).
  pose proof (value_roundtrip _ (Hc fps)) as H1. pose proof (value_roundtrip _ (Hc fps')) as H2.
  rewrite E, H2 in H1. injection H1 as H1. clear -H1. revert fps' H1.
  induction fps as [|[a d] fps IH]; intros [|[a' d'] fps'] H1; try done.
  injection H1 as -> -> H1. f_equal. by apply IH.
Qed.

Lemma url_encode_inj x y : url_encode x = url_encode y -> x = y.
Proof. intros E. pose proof (url_decode_encode x) as H1. rewrite E, url_decode_encode in H1. congruence. Qed.

(** A fingerprint signature binds the list of fingerprints: two lists whose
    signing inputs under the same header coincide are the same list, in the same
    order, so a signature cannot be moved to a description with another
    certificate. *)
Theorem fingerprint_signature_binds h fps fps' :
  h ++ [dot] ++ url_encode (fingerprint_payload fps)
  = h ++ [dot] ++ url_encode (fingerprint_payload fps') -> fps = fps'.
Proof.
  intros E%app_inv_head%app_inv_head%url_encode_inj. by apply fingerprint_payload_inj.
Qed.

(** ** Expiry and panics *)

Lemma expiry_cases claims :
  match values claims !! str "exp" with
  | Some (VU64 x) =>
      expiry claims = if x <=? i64_max then Ok (Some (secs x)) else Panic
  | _ => expiry claims = Ok None
  end.
Proof.
  unfold expiry. destruct (values claims !! str "exp") as [[]|]; try done.
  cbn. unfold system_time_add, UNIX_EPOCH, secs. rewrite Z.add_0_l, Z.div_mul by lia.
  by case_match.
Qed.

Lemma check_expiry_panics claims now :
  check_expiry claims now = Panic <->
  exists x, values claims !! str "exp" = Some (VU64 x) /\ i64_max < x + 60.
Proof.
  unfold check_expiry. pose proof (expiry_cases claims) as He.
  destruct (values claims !! str "exp") as [[]|];
    try (rewrite He; cbn; split; [done|intros (? & ? & _); simplify_eq]).
  rewrite He. destruct (n <=? i64_max) eqn:En; to_props; cbn.
  - unfold system_time_add, LEEWAY, secs.
    replace (n * 1000000000 + 60 * 1000000000) with ((n + 60) * 1000000000) by lia.
    rewrite Z.div_mul by lia. destruct (n + 60 <=? i64_max) eqn:E; to_props; cbn.
    + split; [by case_match|]. intros (x & [= <-] & ?). lia.
    + split; [|done]. intros _. exists n. split; [done|lia].
  - split; [|done]. intros _. exists n. split; [done|lia].
Qed.

Lemma ok_or_no_panic {E A} (err : E) (o : option A) : ok_or err o <> Panic.
Proof. by destruct o. Qed.

Lemma bind_panic {E A B} (m : Res E A) (f : A -> Res E B) :
  (m ≫= f) = Panic <-> m = Panic \/ exists a, m = Ok a /\ f a = Panic.
Proof. destruct m; cbn; naive_solver. Qed.

Lemma jws_parse_no_panic compact : jws_parse compact <> Panic.
Proof.
  unfold jws_parse, jws_decode. repeat case_match; try done.
  rewrite !bind_panic. intros Hp. repeat (destruct Hp as [Hp|(? & _ & Hp)]; [by eapply ok_or_no_panic|];
    rewrite ?bind_panic in Hp). done.
Qed.

(** Reading a token panics on exactly one condition, whatever the trust
    setting: the token parses, its claims parse, and its [exp] claim, plus the
    sixty seconds of leeway, is beyond the clock's range of 2^63 - 1 seconds.
    The panic comes before any signature is checked. *)
Theorem token_panics_iff i now t :
  (trust_claims i now t).1 = Panic <->
  exists jws m x, jws_parse (token (assertion i)) = Ok jws /\
    claims_from_slice (payload jws) = Some m /\ m !! str "exp" = Some (VU64 x) /\
    i64_max < x + 60.
Proof.
  unfold trust_claims. split.
  - destruct (_ ≫= _) as [[jws c]|err|] eqn:E; [|done|].
    { destruct t; [|done]. repeat case_match; done. }
    intros _. apply bind_panic in E as [E|(jws & Hj & E)]; [by apply jws_parse_no_panic in E|].
    apply bind_panic in E as [E|(c & Hc & E)].
    { unfold jws_claims in E. apply bind_panic in E as [E|(? & _ & E)]; [by apply ok_or_no_panic in E|done]. }
    unfold jws_claims in Hc. invert_binds Hc. apply ok_or_inv in Hx. simplify_eq.
    apply bind_panic in E as [E|(? & _ & E)]; [|done].
    apply check_expiry_panics in E as (y & Hy & Hlt). by exists jws, x, y.
  - intros (jws & m & x & Hj & Hc & Hx & Hlt). unfold jws_claims.
    assert (check_expiry {| values := m |} now = Panic) as Hp
      by (apply check_expiry_panics; eauto).
    rewrite Hj. cbn. rewrite Hc. cbn. by rewrite Hp.
Qed.
End identity_laws.
