(* ===== verification/ServerIdentity.v ===== *)
(** * ServerIdentity: the server's key, its token and signed answers
    ([identity/server.rs])

    The random key of [generate] is an argument; PEM conversion belongs to the
    key library. *)
From S2P Require Import Prelude Text Errors Endpoint Identity.

Definition DEFAULT_DOMAIN : bytes := str "self".
Definition DEFAULT_TOKEN_LIFETIME : Duration := secs (24 * 60 * 60).

(** [SecretKey::from_pem], [to_sec1_pem]. *)
Class Pem `{P384} := {
  secret_from_pem : bytes -> option SigningKey;
  secret_to_pem : SigningKey -> option bytes;
}.

(** [Map::insert] on sorted fields. *)
Fixpoint object_insert (k : bytes) (v : Value) (fields : list (bytes * Value))
    : list (bytes * Value) :=
  match fields with
  | [] => [(k, v)]
  | (k', v') :: rest =>
      if bytes_eqb k k' then (k, v) :: rest
      else if bytes_ltb k k' then (k, v) :: fields
      else (k', v') :: object_insert k v rest
  end.

(** [str::split_inclusive('\n')]. *)
Definition newline : byte := x0a.

Fixpoint split_inclusive (s : bytes) : list bytes :=
  match s with
  | [] => []
  | b :: s =>
      if byte_eqb b newline then [b] :: split_inclusive s
      else match split_inclusive s with
           | [] => [[b]]
           | w :: ws => (b :: w) :: ws
           end
  end.

(** [str::contains] of a fixed text. *)
Fixpoint contains_text (needle s : bytes) : bool :=
  starts_with needle s || match s with [] => false | _ :: s => contains_text needle s end.

(** [duration_since(UNIX_EPOCH).unwrap_or_default().as_secs()]. *)
Definition seconds (time : SystemTime) : Z := Z.max 0 (time - UNIX_EPOCH) / 1000000000.

Section server_identity.
Context `{b64 : Base64} `{serde : Serde} `{p384 : P384} `{rsa : Rsa}.

Record ServerIdentity := {
  signing : SigningKey;
  verifying : VerifyingKey;
  domain : bytes;
  lifetime : option Duration;
  server_token : bytes;
}.

Definition mint_token (signing : SigningKey) (verifying : VerifyingKey) (domain : bytes)
    (now : SystemTime) (lifetime : option Duration) : IRes bytes :=
  let claims := object_insert (str "cpk") (ec_jwk_serialize (ec_jwk_from verifying))
                  (object_insert (str "iat") (VU64 (seconds now)) []) in
  let claims := if negb (blen domain =? 0)
                then object_insert (str "iss") (VString domain) claims else claims in
  claims ← match lifetime with
           | Some l => t ← system_time_add now l;
                       Ok (object_insert (str "exp") (VU64 (seconds t)) claims)
           | None => Ok claims
           end;
  sign signing (value_to_string (VObject claims)).

Definition from_key (signing : SigningKey) (domain : bytes) (now : SystemTime)
    (lifetime : option Duration) : IRes ServerIdentity :=
  let verifying := verifying_key signing in
  let domain := if blen domain =? 0 then DEFAULT_DOMAIN else domain in
  token ← mint_token signing verifying domain now lifetime;
  Ok {| signing := signing; verifying := verifying; domain := domain; lifetime := lifetime;
        server_token := token |}.

Definition generate_with_expiry (random : SigningKey) (domain : bytes) (now : SystemTime)
    (lifetime : option Duration) : IRes ServerIdentity := from_key random domain now lifetime.

Definition generate (random : SigningKey) (domain : bytes) (now : SystemTime)
    : IRes ServerIdentity := generate_with_expiry random domain now (Some DEFAULT_TOKEN_LIFETIME).

Definition from_pem_with_expiry `{!Pem} (pem domain : bytes) (now : SystemTime)
    (lifetime : option Duration) : IRes ServerIdentity :=
  secret ← ok_or (Key (str "the PEM holds no key on P-384: ")) (secret_from_pem pem);
  from_key secret domain now lifetime.

Definition from_pem `{!Pem} (pem domain : bytes) (now : SystemTime) : IRes ServerIdentity :=
  from_pem_with_expiry pem domain now (Some DEFAULT_TOKEN_LIFETIME).

Definition to_pem `{!Pem} (si : ServerIdentity) : IRes bytes :=
  ok_or (Key []) (secret_to_pem (signing si)).

Definition token_at (si : ServerIdentity) (now : SystemTime) : IRes bytes :=
  mint_token (signing si) (verifying si) (domain si) now (lifetime si).

Definition identity_for_fingerprints (si : ServerIdentity) (fps : list (bytes * bytes))
    (now : SystemTime) : IRes bytes :=
  let payload := fingerprint_payload fps in
  token ← token_at si now;
  fingerprints ← sign_detached (signing si) payload;
  to_base64 {| idp := {| idp_domain := domain si; protocol := str "default" |};
               assertion := {| token := token; fingerprints := fingerprints |} |}.

Definition identity_value (si : ServerIdentity) (answer : bytes) (now : SystemTime) : IRes bytes :=
  fps ← sdp_fingerprints answer;
  identity_for_fingerprints si fps now.

Definition is_media (line : bytes) : bool := starts_with (str "m=") line.

(** The loop over the lines of the answer. *)
Fixpoint insert_identity (attribute eol : bytes) (lines : list bytes) (inserted : bool)
    (out : bytes) : bytes :=
  match lines with
  | [] => if negb inserted then out ++ attribute ++ eol else out
  | line :: lines =>
      if negb inserted && is_media line
      then insert_identity attribute eol lines true (out ++ attribute ++ eol ++ line)
      else insert_identity attribute eol lines inserted (out ++ line)
  end.

Definition augment (si : ServerIdentity) (answer : bytes) (now : SystemTime) : IRes bytes :=
  value ← identity_value si answer now;
  let attribute := IDENTITY_PREFIX ++ value in
  let eol := if contains_text crlf answer then crlf else [newline] in
  Ok (insert_identity attribute eol (split_inclusive answer) false []).

End server_identity.

(** ** Where the identity line goes *)

Definition ends_line (s : bytes) : Prop := exists p, s = p ++ [newline].

Lemma concat_split_inclusive s : concat (split_inclusive s) = s.
Proof.
  induction s as [|b s IH]; [done|]. cbn [split_inclusive]. case_match; cbn [concat app].
  - by rewrite IH.
  - destruct (split_inclusive s) as [|w ws] eqn:E; cbn [concat app] in *; rewrite <- IH; done.
Qed.

(** Every line but the last is terminated. *)
Fixpoint terminated (ls : list bytes) : Prop :=
  match ls with
  | l :: (_ :: _) as r => ends_line l /\ terminated r
  | _ => True
  end.

Lemma split_inclusive_terminated s : terminated (split_inclusive s).
Proof.
  induction s as [|b s IH]; [done|]. cbn [split_inclusive]. destruct (byte_eqb b newline) eqn:Eb.
  - apply byte_eqb_eq in Eb as ->. destruct (split_inclusive s); [done|]. split; [by exists []|done].
  - destruct (split_inclusive s) as [|w [|w' ws]]; [done..|]. destruct IH as [[p ->] IH].
    split; [by exists (b :: p)|done].
Qed.

Lemma insert_identity_done a e ls out :
  insert_identity a e ls true out = out ++ concat ls.
Proof.
  revert out. induction ls as [|l ls IH]; intros out; cbn; [by rewrite app_nil_r|].
  by rewrite IH, <- app_assoc.
Qed.

Lemma ends_line_app s t : ends_line (s ++ t) -> t = [] \/ ends_line t.
Proof.
  intros [p Hp]. destruct t as [|b t] using rev_ind; [by left|]. right.
  rewrite app_assoc in Hp. apply app_inj_2 in Hp as [_ [= ->]]; [|done]. by exists t.
Qed.

(** An answer has room for the line: a media section, or a terminated end. *)
Definition has_room (ls : list bytes) : Prop :=
  existsb is_media ls = true \/ concat ls = [] \/ ends_line (concat ls).

Lemma insert_identity_spec a e ls :
  terminated ls -> has_room ls ->
  exists pre post, concat ls = pre ++ post /\ (pre = [] \/ ends_line pre) /\
    forall out, insert_identity a e ls false out = out ++ pre ++ a ++ e ++ post.
Proof.
  induction ls as [|l ls IH]; intros Ht Hr.
  { exists [], []. split; [done|]. split; [by left|]. intros out. cbn. by rewrite !app_nil_r. }
  cbn [insert_identity negb andb]. destruct (is_media l) eqn:El.
  { exists [], (l ++ concat ls). split; [done|]. split; [by left|]. intros out.
    rewrite insert_identity_done. cbn [app]. by rewrite <- !app_assoc. }
  assert (ls = [] \/ (ends_line l /\ terminated ls)) as Hl by (destruct ls; [by left|by right]).
  assert (has_room ls) as Hr'.
  { destruct Hr as [Hm|[Hc|Hc]].
    - cbn in Hm. rewrite El in Hm. by left.
    - right. left. cbn in Hc. by apply app_nil in Hc as [_ ->].
    - right. cbn in Hc. by apply ends_line_app in Hc as [->|?]; [left|right]. }
  destruct Hl as [->|[Hel Htl]].
  { exists l, []. cbn [concat]. split; [done|]. split.
    - destruct Hr as [Hm|[Hc|Hc]]; cbn in *; rewrite ?El, ?app_nil_r in *; [done|by left|by right].
    - intros out. cbn. by rewrite !app_nil_r, <- app_assoc. }
  destruct (IH Htl Hr') as (pre & post & Hc & Hp & Hi). exists (l ++ pre), post. split_and!.
  - cbn. by rewrite Hc, app_assoc.
  - right. destruct Hp as [->|[p ->]]; [by rewrite app_nil_r|]. exists (l ++ p). by rewrite app_assoc.
  - intros out. by rewrite Hi, <- !app_assoc.
Qed.

Section augment_laws.
Context `{b64 : Base64} `{serde : Serde} `{p384 : P384} `{rsa : Rsa}.

(** The lines of an augmented answer: those of the answer with the identity
    line, and possibly an empty one, among them. *)
Lemma augmented_lines a answer eol :
  sep_free is_eol a -> eol = crlf \/ eol = [newline] -> has_room (split_inclusive answer) ->
  exists l1 l2 extra,
    split_on is_eol answer = l1 ++ l2 /\ (extra = [] \/ extra = [[]]) /\
    split_on is_eol (insert_identity a eol (split_inclusive answer) false [])
    = l1 ++ a :: extra ++ l2.
Proof.
  intros Ha He Hr.
  destruct (insert_identity_spec a eol (split_inclusive answer)) as (pre & post & Hc & Hp & ->);
    [apply split_inclusive_terminated|done|].
  rewrite concat_split_inclusive in Hc. subst answer. cbn [app].
  assert (exists extra, (extra = [] \/ extra = [[]]) /\
    split_on is_eol (a ++ eol ++ post) = a :: extra ++ split_on is_eol post) as (extra & Hx & Hs).
  { destruct He as [->| ->].
    - exists [[]]. split; [by right|]. unfold crlf. cbn [app]. by rewrite split_on_app.
    - exists []. split; [by left|]. cbn [app]. by rewrite split_on_app. }
  destruct Hp as [->|[p ->]].
  - exists [], (split_on is_eol post), extra. cbn [app]. by rewrite Hs.
  - exists (split_on is_eol p), (split_on is_eol post), extra.
    rewrite <- !app_assoc. cbn [app]. rewrite !split_on_sep by done. by rewrite Hs.
Qed.

Lemma find_map_app {A B} (f : A -> option B) l k :
  find_map f (l ++ k) = match find_map f l with Some y => Some y | None => find_map f k end.
Proof. induction l as [|x l IH]; [done|]. cbn. by destruct (f x). Qed.

(** ** Signing and reading back *)

Context {slaws : SerdeLaws serde} {blaws : Base64Laws b64} {plaws : P384Laws p384}.

Lemma base64_char_free s :
  Forall (fun b => base64_char b = true) s ->
  sep_free (is_byte dot) s /\ sep_free is_eol s /\ Forall (fun b => visible b = true) s.
Proof.
  intros Hs. split_and!; (eapply List.Forall_impl; [|exact Hs]); intros b Hb; by destruct b.
Qed.

Lemma sign_parse key p compact :
  sign key p = Ok compact ->
  exists jws, jws_parse compact = Ok jws /\ payload jws = p.
Proof.
  unfold sign, sign_parts. intros E. invert_binds E. invert_binds Hx. simplify_eq.
  unfold jws_parse.
  destruct (base64_char_free _ (url_alphabet ES384_HEADER)) as [H1 _].
  destruct (base64_char_free _ (url_alphabet p)) as [H2 _].
  destruct (base64_char_free _ (url_alphabet x0)) as [H3 _].
  cbn [app]. rewrite !split_on_app by done. rewrite split_on_free by done.
  unfold jws_decode. rewrite !url_decode_encode. cbn. rewrite header_es384. cbn. eauto.
Qed.

Lemma sign_detached_verifies key p compact :
  sign_detached key p = Ok compact ->
  exists jws, jws_parse_detached compact p = Ok jws /\ verify_es384 jws (verifying_key key) = Ok tt.
Proof.
  unfold sign_detached, sign_parts. intros E. invert_binds E. invert_binds Hx. simplify_eq.
  apply ok_or_inv in Hx0. apply sign_verify in Hx0 as [Hsig Hv].
  unfold jws_parse_detached.
  destruct (base64_char_free _ (url_alphabet ES384_HEADER)) as [H1 _].
  destruct (base64_char_free _ (url_alphabet x0)) as [H3 _].
  cbn [app]. rewrite split_on_app by done.
  assert (forall s, split_on (is_byte dot) (dot :: s) = [] :: split_on (is_byte dot) s) as -> by done.
  rewrite split_on_free by done.
  unfold jws_decode. rewrite !url_decode_encode. cbn [ok_or mbind res_bind].
  rewrite header_es384. cbn [ok_or mbind res_bind]. eexists. split; [reflexivity|]. unfold verify_es384.
  cbn [header alg signing_input signature].
  change (bytes_eqb (str "ES384") (str "ES384")) with true. cbn [negb].
  rewrite Hsig. cbn [ok_or mbind res_bind]. cbn [app] in Hv. by rewrite Hv.
Qed.

(** An identity survives its base64 form. *)
Lemma from_base64_to_base64 i : exists v, to_base64 i = Ok v /\ from_base64 v = Ok i /\ sep_free is_eol v.
Proof.
  unfold to_base64, to_json. destruct (assertion_roundtrip (assertion i)) as (s & -> & Ha). cbn.
  destruct (raw_roundtrip {| raw_idp := idp i; raw_assertion := s |}) as (r & -> & Hr & Hu). cbn.
  eexists. split; [reflexivity|].
  destruct (base64_char_free _ (standard_alphabet r)) as (_ & He & Hv). split; [|done].
  unfold from_base64. rewrite trim_visible by done. rewrite standard_decode_encode. cbn.
  rewrite Hu. cbn. unfold from_json. rewrite Hr. cbn. rewrite Ha. by destruct i.
Qed.

(** The key of a token is the key it was minted for. *)
Lemma verifying_key_from_jwk key : verifying_key_try_from (ec_jwk_from key) = Ok key.
Proof.
  unfold verifying_key_try_from, ec_jwk_from. cbn -[coordinate].
  destruct (sec1_roundtrip key) as (x & y & -> & -> & Hx & Hy & Hk). cbn -[coordinate].
  unfold coordinate. rewrite !url_decode_encode. cbn.
  rewrite Hx, Z.eqb_refl. cbn. rewrite Hy, Z.eqb_refl. cbn. cbn in Hk. by rewrite Hk.
Qed.

Section minted.
Context (key : SigningKey) (dom : bytes) (now : SystemTime) (l : Duration).
Hypothesis (Hdom : dom <> []).
Hypothesis (Hrange : (now + l) / 1000000000 <= i64_max).

Definition minted_claims : list (bytes * Value) :=
  [(str "cpk", ec_jwk_serialize (ec_jwk_from (verifying_key key)));
   (str "exp", VU64 (seconds (now + l))); (str "iat", VU64 (seconds now)); (str "iss", VString dom)].

Lemma mint_token_unfold :
  mint_token key (verifying_key key) dom now (Some l) = sign key (value_to_string (VObject minted_claims)).
Proof.
  unfold mint_token. replace (blen dom =? 0) with false.
  2: { symmetry. apply Z.eqb_neq. intros E%blen_zero_nil. done. }
  unfold system_time_add. replace (_ <=? i64_max) with true by lia. reflexivity.
Qed.

Lemma minted_canonical : canonical (VObject minted_claims) = true.
Proof.
  destruct (ec_jwk_object (ec_jwk_from (verifying_key key))) as (fields & E & Hc).
  unfold minted_claims. rewrite E. cbn [canonical forallb] in Hc |- *. rewrite Hc. reflexivity.
Qed.

(** What the claims of a minted token say. *)
Lemma minted_claims_read :
  let c := {| values := list_to_map minted_claims |} in
  client_public_key c = Ok (verifying_key key) /\ issuer c = Some dom /\
  values c !! str "exp" = Some (VU64 (seconds (now + l))).
Proof.
  destruct (ec_jwk_object (ec_jwk_from (verifying_key key))) as (fields & E & Hc).
  cbv zeta. unfold client_public_key, issuer, claim_string. cbn [values].
  unfold minted_claims. rewrite !list_to_map_cons.
  split_and!.
  - rewrite lookup_insert_eq, E. rewrite <- E, ec_jwk_roundtrip. cbn. apply verifying_key_from_jwk.
  - do 3 rewrite lookup_insert_ne by done. by rewrite lookup_insert_eq.
  - rewrite lookup_insert_ne by done. by rewrite lookup_insert_eq.
Qed.
End minted.

Lemma check_expiry_Ok c x now :
  values c !! str "exp" = Some (VU64 x) -> x + 60 <= i64_max -> now <= secs (x + 60) ->
  check_expiry c now = Ok tt.
Proof.
  intros Hx Hr Hn. pose proof (expiry_cases c) as He. rewrite Hx in He.
  unfold check_expiry. rewrite He. replace (x <=? i64_max) with true by lia. cbn.
  unfold system_time_add, LEEWAY, secs in *.
  replace (x * 1000000000 + 60 * 1000000000) with ((x + 60) * 1000000000) by lia.
  rewrite Z.div_mul by lia. replace (x + 60 <=? i64_max) with true by lia. cbn.
  by replace (now <=? _) with true by lia.
Qed.

Lemma sign_total key p :
  (forall m, is_Some (try_sign key m)) ->
  (exists c, sign key p = Ok c) /\ (exists c, sign_detached key p = Ok c).
Proof.
  intros Hs. unfold sign, sign_detached, sign_parts.
  destruct (Hs (url_encode ES384_HEADER ++ [dot] ++ url_encode p)) as [s ->]. cbn. eauto.
Qed.

(** An identity value for nonempty fingerprints, taken apart again. *)
Lemma identity_value_reads si answer fps now l :
  verifying si = verifying_key (signing si) -> domain si <> [] -> lifetime si = Some l ->
  (forall m, is_Some (try_sign (signing si) m)) ->
  sdp_fingerprints answer = Ok fps -> seconds (now + l) <= i64_max ->
  exists value identity jws fjws,
    identity_value si answer now = Ok value /\ sep_free is_eol value /\
    from_base64 value = Ok identity /\
    jws_parse (token (assertion identity)) = Ok jws /\
    claims_from_slice (payload jws) = Some (list_to_map (minted_claims (signing si) (domain si) now l)) /\
    jws_parse_detached (fingerprints (assertion identity)) (fingerprint_payload fps) = Ok fjws /\
    verify_es384 fjws (verifying_key (signing si)) = Ok tt.
Proof.
  intros Hv Hd Hl Hs Hf Hr.
  assert ((now + l) / 1000000000 <= i64_max) as Hr'.
  { etrans; [|exact Hr]. unfold seconds, UNIX_EPOCH. apply Z.div_le_mono; lia. }
  destruct (sign_total (signing si) (value_to_string (VObject (minted_claims (signing si) (domain si) now l))) Hs)
    as [[tok Htok] _].
  destruct (sign_total (signing si) (fingerprint_payload fps) Hs) as [_ [fp Hfp]].
  destruct (sign_parse _ _ _ Htok) as (jws & Hj & Hp).
  destruct (sign_detached_verifies _ _ _ Hfp) as (fjws & Hfj & Hver).
  destruct (from_base64_to_base64 {| idp := {| idp_domain := domain si; protocol := str "default" |};
    assertion := {| token := tok; fingerprints := fp |} |}) as (value & Hto & Hfrom & Hfree).
  exists value, {| idp := {| idp_domain := domain si; protocol := str "default" |};
    assertion := {| token := tok; fingerprints := fp |} |}, jws, fjws.
  split_and!; try done.
  - unfold identity_value. rewrite Hf, res_bind_Ok. unfold identity_for_fingerprints, token_at.
    rewrite Hv, Hl, mint_token_unfold by done. by rewrite Htok, res_bind_Ok, Hfp, res_bind_Ok.
  - rewrite Hp. apply claims_roundtrip, minted_canonical.
Qed.

(** The whole path from signing to validation. *)
Lemma augment_validate si answer fps now now' l :
  verifying si = verifying_key (signing si) -> domain si <> [] -> lifetime si = Some l ->
  (forall m, is_Some (try_sign (signing si) m)) ->
  sdp_fingerprints answer = Ok fps -> fps <> [] ->
  find_map (strip_prefix IDENTITY_PREFIX) (split_on is_eol answer) = None ->
  has_room (split_inclusive answer) ->
  seconds (now + l) + 60 <= i64_max -> now' <= secs (seconds (now + l) + 60) ->
  exists out claims,
    augment si answer now = Ok out /\ sdp_fingerprints out = Ok fps /\
    validate_sdp out now' AnyToken = (Ok claims, AnyToken) /\
    client_public_key claims = Ok (verifying si) /\ issuer claims = Some (domain si).
Proof.
  intros Hv Hd Hl Hs Hf Hne Hnone Hroom Hr Hnow.
  destruct (identity_value_reads si answer fps now l)
    as (value & identity & jws & fjws & Hval & Hfree & Hid & Hj & Hc & Hfj & Hver); try done; [lia|].
  set (a := IDENTITY_PREFIX ++ value).
  set (eol := if contains_text crlf answer then crlf else [newline]).
  set (out := insert_identity a eol (split_inclusive answer) false []).
  assert (sep_free is_eol a) as Ha by (apply Forall_app; split; [by repeat constructor|done]).
  destruct (augmented_lines a answer eol Ha) as (l1 & l2 & extra & Hans & Hx & Hout);
    [unfold eol; case_match; auto|done|]. fold out in Hout.
  exists out, {| values := list_to_map (minted_claims (signing si) (domain si) now l) |}.
  assert (sdp_fingerprints out = Ok fps) as Hfo.
  { unfold sdp_fingerprints in Hf |- *. rewrite Hout. rewrite Hans in Hf.
    rewrite omap_app in Hf |- *. change (a :: extra ++ l2) with ([a] ++ extra ++ l2).
    rewrite !omap_app. by destruct Hx as [->| ->]. }
  destruct (minted_claims_read (signing si) (domain si) now l) as (Hkey & Hiss & Hexp).
  split; [|split; [done|split; [|split; [by rewrite Hv|done]]]].
  { unfold augment. by rewrite Hval. }
  unfold validate_sdp, from_sdp. rewrite Hout, find_map_app.
  assert (find_map (strip_prefix IDENTITY_PREFIX) l1 = None) as ->.
  { rewrite Hans, find_map_app in Hnone. by destruct (find_map _ l1). }
  cbn [find_map]. unfold a. rewrite strip_prefix_app. cbn [ok_or mbind res_bind]. rewrite Hid.
  unfold trust_claims. rewrite Hj. cbn [mbind res_bind]. unfold jws_claims. rewrite Hc.
  cbn [ok_or mbind res_bind]. rewrite (check_expiry_Ok _ _ _ Hexp) by done. cbn [mbind res_bind].
  unfold canonical_fingerprint_json. rewrite Hfo. cbn [mbind res_bind]. unfold bytes_eqb.
  rewrite bool_decide_eq_false_2.
  2: { intros E. apply Hne. apply fingerprint_payload_inj. rewrite E. symmetry. apply value_empty. }
  cbn [mbind res_bind]. rewrite Hfj. cbn [mbind res_bind]. rewrite Hkey. cbn [mbind res_bind].
  by rewrite Hver.
Qed.

(** An augmented answer validates.  A server identity with a non-empty
    domain and a lifetime, given an answer that lists fingerprints, carries no
    identity yet and has a media section or a terminated last line, returns a
    description that keeps the fingerprints and that [validate_sdp] accepts
    until sixty seconds after the token expires; the claims carry the server's
    own key and its domain as the issuer. *)
Theorem augmented_answer_validates si answer fps now now' l :
  verifying si = verifying_key (signing si) -> domain si <> [] -> lifetime si = Some l ->
  (forall m, is_Some (try_sign (signing si) m)) ->
  sdp_fingerprints answer = Ok fps -> fps <> [] ->
  find_map (strip_prefix IDENTITY_PREFIX) (split_on is_eol answer) = None ->
  has_room (split_inclusive answer) ->
  seconds (now + l) + 60 <= i64_max -> now' <= secs (seconds (now + l) + 60) ->
  exists out claims,
    augment si answer now = Ok out /\ sdp_fingerprints out = Ok fps /\
    validate_sdp out now' AnyToken = (Ok claims, AnyToken) /\
    client_public_key claims = Ok (verifying si) /\ issuer claims = Some (domain si).
Proof. apply augment_validate. Qed.

Lemma from_key_ok key dom now lt si :
  from_key key dom now lt = Ok si ->
  signing si = key /\ verifying si = verifying_key (signing si) /\ domain si <> [] /\ lifetime si = lt.
Proof.
  unfold from_key. intros E. invert_binds E. simplify_eq. cbn. split_and!; try done.
  case_match; [done|]. intros ->. done.
Qed.
End augment_laws.
