(* ===== verification/IdentityInstance.v ===== *)
(** * IdentityInstance: concrete foreign code for the identity theorems

    An instance of each interface the identity layer relies on, with its laws:
    they are satisfiable together, and the theorems' hypotheses hold on a
    concrete answer.  Base64 is hexadecimal, JSON is an injective encoding, and
    the one key pair signs a message with the message itself. *)
From S2P Require Import Prelude Text Errors ServerDataModel Discovery Identity ServerIdentity.

(** ** Values as trees *)

Abbreviation tree := (gen_tree (bytes + Z)).

Fixpoint tree_of_value (v : Value) : tree :=
  match v with
  | VNull => GenNode 0 []
  | VBool b => GenNode (if b then 1 else 2)%nat []
  | VU64 n => GenNode 3 [GenLeaf (inr n)]
  | VNumber s => GenNode 4 [GenLeaf (inl s)]
  | VString s => GenNode 5 [GenLeaf (inl s)]
  | VArray l => GenNode 6 (tree_of_value <$> l)
  | VObject l => GenNode 7 ((fun '(k, w) => GenNode 8 [GenLeaf (inl k); tree_of_value w]) <$> l)
  end.

Fixpoint value_of_tree (t : tree) : Value :=
  match t with
  | GenNode 1 _ => VBool true
  | GenNode 2 _ => VBool false
  | GenNode 3 [GenLeaf (inr n)] => VU64 n
  | GenNode 4 [GenLeaf (inl s)] => VNumber s
  | GenNode 5 [GenLeaf (inl s)] => VString s
  | GenNode 6 l => VArray (value_of_tree <$> l)
  | GenNode 7 l => VObject ((fun t => match t with
      | GenNode 8 [GenLeaf (inl k); w] => (k, value_of_tree w)
      | _ => ([], VNull)
      end) <$> l)
  | _ => VNull
  end.

Lemma value_of_tree_of_value v : value_of_tree (tree_of_value v) = v.
Proof.
  revert v. fix IH 1. intros [| |n|s|s|l|l]; cbn; try done; [by destruct b|..]; f_equal.
  - induction l as [|v l IHl]; cbn; [done|]. f_equal; [apply IH|apply IHl].
  - induction l as [|[k w] l IHl]; cbn; [done|]. f_equal; [f_equal; apply IH|apply IHl].
Qed.

#[global] Instance Value_eq_dec : EqDecision Value.
Proof.
  intros v w. destruct (decide (tree_of_value v = tree_of_value w)) as [E|E]; [left|right].
  - by rewrite <- (value_of_tree_of_value v), E, value_of_tree_of_value.
  - by intros ->.
Defined.

(** Binary digits of a positive number, lowest first. *)
Fixpoint digits_of_pos (p : positive) : bytes :=
  match p with
  | xH => []
  | xO p => x30 :: digits_of_pos p
  | xI p => x31 :: digits_of_pos p
  end.

Fixpoint pos_of_digits (s : bytes) : positive :=
  match s with
  | [] => xH
  | b :: s => if byte_eqb b x31 then xI (pos_of_digits s) else xO (pos_of_digits s)
  end.

Lemma pos_of_digits_of_pos p : pos_of_digits (digits_of_pos p) = p.
Proof. induction p; cbn; by f_equal. Qed.

(** A byte as itself, or escaped when it is not visible or has a meaning. *)
Definition escape_byte (b : byte) : bytes :=
  if visible b && negb (byte_eqb b x22) && negb (byte_eqb b x25) then [b]
  else [x25; hex_lower (Z_of_byte b / 16); hex_lower (Z_of_byte b mod 16)].

Definition escape (s : bytes) : bytes := mjoin (escape_byte <$> s).

Fixpoint unescape (s : bytes) : bytes :=
  match s with
  | [] => []
  | b :: s1 =>
      if byte_eqb b x25 then
        match s1 with
        | h :: l :: s2 => match toy_unhex [h; l] with Some d => d ++ unescape s2 | None => [] end
        | _ => []
        end
      else b :: unescape s1
  end.

Lemma unescape_byte b s : unescape (escape_byte b ++ s) = b :: unescape s.
Proof. destruct b; reflexivity. Qed.

Lemma unescape_escape s : unescape (escape s) = s.
Proof.
  induction s as [|b s IH]; [done|].
  change (escape (b :: s)) with (escape_byte b ++ escape s). by rewrite unescape_byte, IH.
Qed.

(** One entry of the list a tree is written as: a tag and its content. *)
Definition segment (x : nat * nat + (bytes + Z)) : bytes :=
  match x with
  | inl p => x6e :: digits_of_pos (countable.encode p)
  | inr (inl s) => x73 :: escape s
  | inr (inr z) => x7a :: digits_of_pos (countable.encode z)
  end.

Definition unsegment (s : bytes) : option (nat * nat + (bytes + Z)) :=
  match s with
  | [] => None
  | t :: s =>
      if byte_eqb t x6e then inl <$> countable.decode (pos_of_digits s)
      else if byte_eqb t x73 then Some (inr (inl (unescape s)))
      else (fun z => inr (inr z)) <$> countable.decode (pos_of_digits s)
  end.

Lemma unsegment_segment x : unsegment (segment x) = Some x.
Proof.
  destruct x as [p|[s|z]]; cbn.
  - by rewrite pos_of_digits_of_pos, countable.decode_encode.
  - by rewrite unescape_escape.
  - by rewrite pos_of_digits_of_pos, countable.decode_encode.
Qed.

(** What a segment is made of: visible bytes that are no quotes. *)
Definition plain (b : byte) : bool := visible b && negb (byte_eqb b x22).

Lemma digits_unquoted p : forallb plain (digits_of_pos p) = true.
Proof. by induction p. Qed.

Lemma escape_plain s : forallb plain (escape s) = true.
Proof.
  induction s as [|b s IH]; [done|]. change (escape (b :: s)) with (escape_byte b ++ escape s).
  rewrite forallb_app, IH, andb_true_r. by destruct b.
Qed.

Lemma segment_plain x : forallb plain (segment x) = true.
Proof. destruct x as [p|[s|z]]; cbn; [apply digits_unquoted|apply escape_plain|apply digits_unquoted]. Qed.

Definition quoted (l : list (nat * nat + (bytes + Z))) : bytes :=
  mjoin ((fun x => segment x ++ [x22]) <$> l).

Lemma split_quote w s : forallb plain w = true ->
  split_on (is_byte x22) (w ++ x22 :: s) = w :: split_on (is_byte x22) s.
Proof.
  induction w as [|b w IH]; [done|]. cbn [forallb app]. intros [Hb Hw]%andb_true_iff.
  cbn [split_on]. rewrite (IH Hw). destruct (is_byte x22 b) eqn:E; [|done]. by destruct b.
Qed.

Lemma split_quoted l : split_on (is_byte x22) (quoted l) = (segment <$> l) ++ [[]].
Proof.
  induction l as [|x l IH]; [done|].
  change (quoted (x :: l)) with ((segment x ++ [x22]) ++ quoted l). rewrite <- app_assoc. cbn [app].
  rewrite split_quote by apply segment_plain. cbn. by rewrite IH.
Qed.

Lemma omap_segments (l : list (nat * nat + (bytes + Z))) : omap unsegment (segment <$> l) = l.
Proof. induction l as [|x l IH]; [done|]. cbn. by rewrite unsegment_segment, IH. Qed.

Definition text_of_tree (t : tree) : bytes := quoted (gen_tree_to_list t).
Definition tree_of_text (s : bytes) : option tree :=
  gen_tree_of_list [] (omap unsegment (split_on (is_byte x22) s)).

Lemma tree_of_text_of_tree t : tree_of_text (text_of_tree t) = Some t.
Proof.
  unfold tree_of_text, text_of_tree. rewrite split_quoted, omap_app. cbn. rewrite app_nil_r.
  rewrite omap_segments.
  by rewrite <- (app_nil_r (gen_tree_to_list t)), gen_tree_of_to_list.
Qed.

Lemma text_ascii t : is_ascii (text_of_tree t) = true.
Proof.
  unfold text_of_tree, is_ascii. induction (gen_tree_to_list t) as [|x l IH]; [done|].
  change (quoted (x :: l)) with ((segment x ++ [x22]) ++ quoted l).
  rewrite !forallb_app, IH, !andb_true_r. pose proof (segment_plain x) as Hp.
  rewrite forallb_forall in Hp |- *. intros b Hb. specialize (Hp b Hb). by destruct b.
Qed.

(** ** The instances *)

Definition empty_payload : Value := VObject [(str "fingerprint", VArray [])].

Definition toy_to_string (v : Value) : bytes :=
  if decide (v = empty_payload) then EMPTY_FINGERPRINTS else text_of_tree (tree_of_value v).

Definition toy_from_slice (s : bytes) : option Value :=
  if decide (s = EMPTY_FINGERPRINTS) then Some empty_payload
  else value_of_tree <$> tree_of_text s.

Lemma toy_value_roundtrip v : toy_from_slice (toy_to_string v) = Some v.
Proof.
  unfold toy_from_slice, toy_to_string. destruct (decide (v = empty_payload)) as [->|Hv].
  { by rewrite decide_True. }
  rewrite decide_False.
  - rewrite tree_of_text_of_tree. cbn. by rewrite value_of_tree_of_value.
  - unfold text_of_tree, quoted. by destruct (gen_tree_to_list (tree_of_value v)) as [|[?|[?|?]] ?].
Qed.

Definition strings_value (l : list bytes) : Value := VArray (VString <$> l).

Definition string_at (v : Value) (i : nat) : bytes :=
  match v with VArray l => match l !! i with Some (VString s) => s | _ => [] end | _ => [] end.

#[local] Instance toy_base64 : Base64 := {|
  standard_encode := toy_hex; standard_decode := toy_unhex;
  url_encode := toy_hex; url_decode := toy_unhex;
|}.

Lemma toy_hex_alphabet x : Forall (fun b => base64_char b = true) (toy_hex x).
Proof.
  induction x as [|b x IH]; [constructor|].
  change (toy_hex (b :: x))
    with ([hex_lower (Z_of_byte b / 16); hex_lower (Z_of_byte b mod 16)] ++ toy_hex x).
  apply Forall_app. split; [|done]. destruct b; repeat constructor.
Qed.

#[local] Instance toy_base64_laws : Base64Laws toy_base64.
Proof.
  split; intros x; try apply toy_hex_alphabet;
    exact (@hex_decode_encode toy_crypto toy_crypto_laws x).
Qed.

#[local] Instance toy_serde : Serde := {|
  value_to_string := toy_to_string;
  value_from_slice := toy_from_slice;
  raw_from_str s := (fun v => {| raw_idp := {| idp_domain := string_at v 0; protocol := string_at v 1 |};
                                 raw_assertion := string_at v 2 |}) <$> toy_from_slice s;
  raw_to_string r := Some (toy_to_string (strings_value
    [idp_domain (raw_idp r); protocol (raw_idp r); raw_assertion r]));
  assertion_from_str s := (fun v => {| token := string_at v 0; fingerprints := string_at v 1 |})
                          <$> toy_from_slice s;
  assertion_to_string a := Some (toy_to_string (strings_value [token a; fingerprints a]));
  header_from_slice s :=
    if decide (s = ES384_HEADER) then Some {| alg := str "ES384"; kid := None |} else None;
  claims_from_slice s := match toy_from_slice s with
                         | Some (VObject l) => Some (list_to_map l)
                         | _ => None
                         end;
  ec_jwk_deserialize v := match v with
    | VObject [(_, VString c); (_, VString k); (_, VString x); (_, VString y)] =>
        Some {| ec_kty := k; crv := c; ec_x := x; ec_y := y |}
    | _ => None
    end;
  ec_jwk_serialize j := VObject [(str "crv", VString (crv j)); (str "kty", VString (ec_kty j));
                                 (str "x", VString (ec_x j)); (str "y", VString (ec_y j))];
|}.

#[local] Instance toy_serde_laws : SerdeLaws toy_serde.
Proof.
  split.
  - intros v _. apply toy_value_roundtrip.
  - cbn. unfold toy_to_string. by rewrite decide_True.
  - intros l _. cbn. by rewrite toy_value_roundtrip.
  - cbn. by rewrite decide_True.
  - intros [[d p] a]. eexists. split; [reflexivity|]. split; [cbn; by rewrite toy_value_roundtrip|].
    apply is_ascii_utf8. unfold toy_to_string. rewrite decide_False by done. apply text_ascii.
  - intros [t f]. eexists. split; [reflexivity|]. cbn. by rewrite toy_value_roundtrip.
  - by intros [].
  - intros j. by eexists.
Qed.

#[local] Instance toy_p384 : P384 := {|
  SigningKey := unit; VerifyingKey := unit; verifying_key _ := tt;
  try_sign _ m := Some m; signature_from_slice s := Some s; verify _ m s := bool_decide (m = s);
  from_sec1_bytes s := if blen s =? 97 then Some tt else None;
  sec1_x _ := Some (replicate 48 x00); sec1_y _ := Some (replicate 48 x00);
  from_public_key_der _ := None; to_public_key_der _ := Some [];
|}.

#[local] Instance toy_p384_laws : P384Laws toy_p384.
Proof.
  split.
  - intros k m s [= <-]. split; [done|]. by apply bool_decide_eq_true.
  - intros []. by exists (replicate 48 x00), (replicate 48 x00).
Qed.

#[local] Instance toy_rsa : Rsa := {|
  RsaPublicKey := unit; rsa_public_key_new _ _ := None; rsa_signature_try_from _ := None;
  rsa_verify _ _ _ := false;
|}.

(** ** A concrete answer *)

Definition sample_answer : bytes :=
  str "v=0" ++ crlf ++ str "a=fingerprint:sha-256 AB:CD" ++ crlf
  ++ str "m=application 9 UDP/DTLS/SCTP webrtc-datachannel" ++ crlf.

Definition sample_identity : ServerIdentity := {|
  signing := tt; verifying := tt; domain := str "example.com";
  lifetime := Some DEFAULT_TOKEN_LIFETIME; server_token := [];
|}.

Lemma sample_room : has_room (split_inclusive sample_answer).
Proof. left. reflexivity. Qed.

Lemma sample_seconds : seconds (0 + DEFAULT_TOKEN_LIFETIME) = 86400.
Proof. reflexivity. Qed.

Lemma augmented_answer_validates_witness :
  exists out claims,
    augment sample_identity sample_answer 0 = Ok out /\
    validate_sdp out (secs 86460) AnyToken = (Ok claims, AnyToken) /\
    issuer claims = Some (str "example.com").
Proof.
  destruct (augmented_answer_validates sample_identity sample_answer [(str "sha-256", str "AB:CD")] 0
              (secs 86460) DEFAULT_TOKEN_LIFETIME) as (out & claims & H1 & _ & H3 & _ & H5).
  - reflexivity.
  - discriminate.
  - reflexivity.
  - intros m. exists m. reflexivity.
  - reflexivity.
  - discriminate.
  - reflexivity.
  - exact sample_room.
  - rewrite sample_seconds. unfold i64_max. lia.
  - rewrite sample_seconds. reflexivity.
  - exists out, claims. split; [exact H1|]. split; [exact H3|exact H5].
Defined.

(** The answer above, past the point where it is accepted. *)
Lemma sample_accepted :
  exists out claims, validate_sdp out 0 AnyToken = (Ok claims, AnyToken).
Proof.
  destruct (augment_validate sample_identity sample_answer [(str "sha-256", str "AB:CD")] 0 0
    DEFAULT_TOKEN_LIFETIME) as (out & claims & _ & _ & H & _);
    [reflexivity|discriminate|reflexivity|intros m; by exists m|reflexivity|discriminate|reflexivity
    |exact sample_room|rewrite sample_seconds; unfold i64_max; lia
    |rewrite sample_seconds; unfold secs; lia|]. by exists out, claims.
Qed.

Lemma validate_sdp_sound_witness :
  exists out claims identity fps key jws,
    validate_sdp out 0 AnyToken = (Ok claims, AnyToken) /\ unexpired claims 0 /\
    sdp_fingerprints out = Ok fps /\ fps <> [] /\ from_sdp out = Ok identity /\
    detached_says (fingerprints (assertion identity)) (fingerprint_payload fps) jws /\
    es384_signed key jws.
Proof.
  destruct sample_accepted as (out & claims & H).
  destruct (validate_sdp_sound out 0 AnyToken AnyToken claims H)
    as (_ & i & jws & fps & key & fjws & Hi & _ & _ & Hu & _ & Hf & Hne & _ & Hd & Hs).
  exists out, claims, i, fps, key, fjws.
  exact (conj H (conj Hu (conj Hf (conj Hne (conj Hi (conj Hd Hs)))))).
Defined.

Lemma fingerprint_signature_binds_witness :
  [(str "sha-256", str "AB:CD")] = [(str "sha-256", str "AB:CD")].
Proof.
  apply (fingerprint_signature_binds (str "h") [(str "sha-256", str "AB:CD")]
           [(str "sha-256", str "AB:CD")]).
  reflexivity.
Defined.
