(* ===== verification/HttpSignaler.v ===== *)
(** * HttpSignaler: joins over HTTP
    ([signaling/http/{mod,config,input,output,error,join}.rs])

    Requests and responses are the parts of the [http] crate's types that the
    code reads and writes: a header is looked up by name and given as the text
    [to_str] yields; a response is what its builder was given, which the crate
    builds without error for a status constant and visible header values.

    What the environment supplies is part of the inputs: the random connection
    id and the wall-clock time of a request, and for an update the order in
    which the hash map is walked. *)
From S2P Require Import Prelude Text Errors SignalMsg ServerDataModel Endpoint IpRange Candidate Sans Identity IdentityInstance.

(** ** The [http] crate *)

Inductive Method := GET | POST | OtherMethod (name : bytes).
Inductive Version := HTTP_10 | OtherVersion.

#[global] Instance Method_eq_dec : EqDecision Method.
Proof. solve_decision. Defined.

Record Request := {
  method : Method;
  path : bytes;
  version : Version;
  header_text : bytes -> option bytes;
  body : bytes;
}.

Record Response := {
  response_status : Z;
  content_type : option bytes;
  content_length : Z;
  response_body : bytes;
}.

Definition OK : Z := 200.
Definition UNAUTHORIZED : Z := 401.
Definition FORBIDDEN : Z := 403.
Definition NOT_FOUND : Z := 404.
Definition METHOD_NOT_ALLOWED : Z := 405.
Definition SERVICE_UNAVAILABLE : Z := 503.
Definition GATEWAY_TIMEOUT : Z := 504.

(** ** [input.rs] *)

Inductive RejectReason := Rejected | Timeout | Unavailable.

Definition RejectReason_from (code : SignalErrorCode) : RejectReason :=
  match code with
  | NegotiationTimeout | NegotiationTimeoutWaitingForAccept
  | NegotiationTimeoutWaitingForResponse | InactivityTimeout => Timeout
  | IncomingConnectionIgnored | NotLoggedIn => Rejected
  | _ => Unavailable
  end.

Section http.
Context `{b64 : Base64} `{serde : Serde} `{p384 : P384} `{rsa : Rsa} `{net : IpNetOps}.

Inductive HttpSignalerInput :=
| Connected (connection : Z) (from : SocketAddr) (now : Instant)
| IRequest (connection : Z) (request : Request) (now : Instant) (random : Z) (wall : SystemTime)
| IAnswer (connection_id : Z) (sdp : bytes)
| Reject (connection_id : Z) (reason : RejectReason)
| SetServerData (data : ServerData)
| SetTokenTrust (trust : option TokenTrust)
| Closed (connection : Z)
| Update (now : Instant) (order : list Z -> list Z).

(** ** [output.rs] *)

Record OfferInfo := {
  offer_connection_id : Z;
  offer_network_id : bytes;
  offer_sdp : bytes;
  offer_client_address : option SocketAddr;
  offer_host : option bytes;
  offer_player : option PlayerInfo;
}.

Definition offer_signal (o : OfferInfo) : Signal :=
  signal_offer (offer_connection_id o) (offer_sdp o) (offer_network_id o).

Inductive HttpSignalerOutput :=
| OResponse (connection : Z) (response : Response) (keep_alive : bool)
| Close (connection : Z)
| OOffer (offer : OfferInfo)
| Wait (d : Duration).

(** ** [config.rs] *)

Record HttpSignalerConfig := {
  max_connections_per_address : Z;
  max_pending_joins : Z;
  answer_timeout : Duration;
  trusted_proxies : IpRangeSet;
  advertised_addresses : list bytes;
  token_trust : option TokenTrust;
  serve_motd : bool;
}.

Definition HttpSignalerConfig_default : HttpSignalerConfig := {|
  max_connections_per_address := 16;
  max_pending_joins := 64;
  answer_timeout := secs 10;
  trusted_proxies := range_set_empty;
  advertised_addresses := [];
  token_trust := Some AnyToken;
  serve_motd := true;
|}.

(** ** [error.rs] *)

Inductive HttpSignalerError := UnknownConnection (id : Z).

(** ** [mod.rs] *)

Definition FORWARDED_FOR : bytes := str "x-forwarded-for".
Definition JOIN_PATH : bytes := str "/v1/join".
Definition HOST : bytes := str "host".
Definition CONNECTION : bytes := str "connection".

Record Connection := { connection_addr : SocketAddr; counted : bool }.

Record Pending := { pending_connection : Z; pending_keep_alive : bool; deadline : Instant }.

Record HttpSignaler := {
  config : HttpSignalerConfig;
  connections : gmap Z Connection;
  per_address : gmap IpAddr Z;
  pending : gmap Z Pending;
  server_data : option ServerData;
  output : list HttpSignalerOutput;
}.

Definition http_new (c : HttpSignalerConfig) : HttpSignaler := {|
  config := c; connections := ∅; per_address := ∅; pending := ∅; server_data := None; output := [] |}.

Definition set_config (x : HttpSignalerConfig) (s : HttpSignaler) : HttpSignaler := {|
  config := x; connections := connections s; per_address := per_address s; pending := pending s;
  server_data := server_data s; output := output s |}.
Definition set_connections (x : gmap Z Connection) (s : HttpSignaler) : HttpSignaler := {|
  config := config s; connections := x; per_address := per_address s; pending := pending s;
  server_data := server_data s; output := output s |}.
Definition set_per_address (x : gmap IpAddr Z) (s : HttpSignaler) : HttpSignaler := {|
  config := config s; connections := connections s; per_address := x; pending := pending s;
  server_data := server_data s; output := output s |}.
Definition set_pending (x : gmap Z Pending) (s : HttpSignaler) : HttpSignaler := {|
  config := config s; connections := connections s; per_address := per_address s; pending := x;
  server_data := server_data s; output := output s |}.
Definition set_server_data (x : option ServerData) (s : HttpSignaler) : HttpSignaler := {|
  config := config s; connections := connections s; per_address := per_address s;
  pending := pending s; server_data := x; output := output s |}.
Definition set_output (x : list HttpSignalerOutput) (s : HttpSignaler) : HttpSignaler := {|
  config := config s; connections := connections s; per_address := per_address s;
  pending := pending s; server_data := server_data s; output := x |}.
Definition push_back (o : HttpSignalerOutput) (s : HttpSignaler) : HttpSignaler :=
  set_output (output s ++ [o]) s.

Definition set_token_trust (t : option TokenTrust) (s : HttpSignaler) : HttpSignaler :=
  let c := config s in
  set_config {| max_connections_per_address := max_connections_per_address c;
                max_pending_joins := max_pending_joins c; answer_timeout := answer_timeout c;
                trusted_proxies := trusted_proxies c;
                advertised_addresses := advertised_addresses c; token_trust := t;
                serve_motd := serve_motd c |} s.

Definition pending_joins (s : HttpSignaler) : Z := Z.of_nat (size (pending s)).

Abbreviation Handler := (SE HttpSignaler HttpSignalerError unit).

Definition connected (connection : Z) (addr : SocketAddr) (s : HttpSignaler) : HttpSignaler :=
  let peer := normalize (ip addr) in
  if contains (trusted_proxies (config s)) peer
  then set_connections
         (<[connection := {| connection_addr := addr; counted := false |}]> (connections s)) s
  else
    let held := default 0 (per_address s !! peer) + 1 in
    if held >? max_connections_per_address (config s)
    then push_back (Close connection) (set_per_address (<[peer := held - 1]> (per_address s)) s)
    else set_connections
           (<[connection := {| connection_addr := addr; counted := true |}]> (connections s))
           (set_per_address (<[peer := held]> (per_address s)) s).

Definition closed (connection : Z) (s : HttpSignaler) : HttpSignaler :=
  match connections s !! connection with
  | None => s
  | Some entry =>
      let s := set_connections (delete connection (connections s)) s in
      let s :=
        if counted entry then
          let peer := normalize (ip (connection_addr entry)) in
          match per_address s !! peer with
          | Some held =>
              let held := Z.max 0 (held - 1) in
              if held =? 0 then set_per_address (delete peer (per_address s)) s
              else set_per_address (<[peer := held]> (per_address s)) s
          | None => s
          end
        else s in
      set_pending (filter (fun '(_, p) => pending_connection p <> connection) (pending s)) s
  end.

Definition keep_alive (request : Request) : bool :=
  let connection := default [] (header_text request CONNECTION) in
  match version request with
  | HTTP_10 => eq_ignore_ascii_case connection (str "keep-alive")
  | OtherVersion => negb (eq_ignore_ascii_case connection (str "close"))
  end.

Definition push (connection : Z) (response : Response) (keep : bool) (s : HttpSignaler)
    : HttpSignaler := push_back (OResponse connection response keep) s.

Definition respond (connection status : Z) (keep : bool) (s : HttpSignaler) : HttpSignaler :=
  push connection {| response_status := status; content_type := None; content_length := 0;
                     response_body := [] |} keep s.

Definition respond_with (connection : Z) (body ctype : bytes) (keep : bool) (s : HttpSignaler)
    : HttpSignaler :=
  push connection {| response_status := OK; content_type := Some ctype;
                     content_length := blen body; response_body := body |} keep s.

Definition status_of (reason : RejectReason) : Z :=
  match reason with
  | Rejected => FORBIDDEN
  | Timeout => GATEWAY_TIMEOUT
  | Unavailable => SERVICE_UNAVAILABLE
  end.

Definition status (connection : Z) (request : Request) (keep : bool) (s : HttpSignaler)
    : HttpSignaler :=
  if negb (bool_decide (method request = GET)) then respond connection METHOD_NOT_ALLOWED keep s
  else match (if serve_motd (config s) then server_data s else None) with
       | None => respond connection NOT_FOUND keep s
       | Some data => respond_with connection (ServerDataModel.to_json data)
                        (str "application/json") keep s
       end.

(** [strip_prefix('[').unwrap_or(first)] and its suffix. *)
Definition unbracket (first : bytes) : bytes :=
  let first := default first (strip_prefix [x5b] first) in
  default first (strip_suffix [x5d] first).

Definition client_address (s : HttpSignaler) (connection : Z) (request : Request)
    : option SocketAddr :=
  match connections s !! connection with
  | None => None
  | Some entry =>
      let remote := connection_addr entry in
      if negb (contains (trusted_proxies (config s)) (normalize (ip remote))) then Some remote
      else
        forwarded ← header_text request FORWARDED_FOR;
        first ← head (split_on (is_byte x2c) forwarded);
        a ← parse (unbracket (trim first));
        Some (socket_addr_new a (port remote))
  end.

Definition join (connection : Z) (network_id : bytes) (request : Request) (keep : bool)
    (now : Instant) (random : Z) (wall : SystemTime) : Handler := fun s =>
  if max_pending_joins (config s) <=? Z.of_nat (size (pending s))
  then (Ok tt, respond connection SERVICE_UNAVAILABLE keep s)
  else
    let client := client_address s connection request in
    let sdp := body request in
    let accept player s :=
      let s := set_pending
        (<[random := {| pending_connection := connection; pending_keep_alive := keep;
                        deadline := now + answer_timeout (config s) |}]> (pending s)) s in
      (Ok tt, push_back (OOffer {| offer_connection_id := random; offer_network_id := network_id;
                                   offer_sdp := sdp; offer_client_address := client;
                                   offer_host := header_text request HOST;
                                   offer_player := player |}) s) in
    match token_trust (config s) with
    | None => accept None s
    | Some trust =>
        match validate_sdp sdp wall trust with
        | (Ok claims, trust) =>
            accept (Some (player_info_new claims network_id client)) (set_token_trust (Some trust) s)
        | (Err _, trust) => (Ok tt, respond connection UNAUTHORIZED keep (set_token_trust (Some trust) s))
        | (Panic, trust) => (Panic, set_token_trust (Some trust) s)
        end
    end.

Definition join_network (path : bytes) : option bytes :=
  match strip_prefix (str "/v1/join/") path with
  | Some id => if negb (blen id =? 0) && negb (existsb (byte_eqb x2f) id) then Some id else None
  | None => None
  end.

Definition handle_request (connection : Z) (request : Request) (now : Instant) (random : Z)
    (wall : SystemTime) : Handler := fun s =>
  let keep := keep_alive request in
  if bytes_eqb (path request) JOIN_PATH then (Ok tt, status connection request keep s)
  else match join_network (path request) with
       | None => (Ok tt, respond connection NOT_FOUND keep s)
       | Some network_id =>
           if negb (bool_decide (method request = POST))
           then (Ok tt, respond connection METHOD_NOT_ALLOWED keep s)
           else join connection network_id request keep now random wall s
       end.

Definition answer (connection_id : Z) (sdp : bytes) : Handler := fun s =>
  match pending s !! connection_id with
  | None => (Err (UnknownConnection connection_id), s)
  | Some p =>
      let s := set_pending (delete connection_id (pending s)) s in
      let sdp := with_advertised_candidates sdp (advertised_addresses (config s)) in
      (Ok tt, respond_with (pending_connection p) sdp (str "application/sdp")
                (pending_keep_alive p) s)
  end.

Definition reject (connection_id : Z) (reason : RejectReason) : Handler := fun s =>
  match pending s !! connection_id with
  | None => (Err (UnknownConnection connection_id), s)
  | Some p =>
      let s := set_pending (delete connection_id (pending s)) s in
      (Ok tt, respond (pending_connection p) (status_of reason) (pending_keep_alive p) s)
  end.

Fixpoint reject_all (ids : list Z) : Handler := fun s =>
  match ids with
  | [] => (Ok tt, s)
  | id :: ids =>
      match reject id Timeout s with
      | (Ok _, s) => reject_all ids s
      | r => r
      end
  end.

(** [min().unwrap_or(answer_timeout)]. *)
Definition next_wait (s : HttpSignaler) (now : Instant) : Duration :=
  match (fun '(_, p) => saturating_duration_since (deadline p) now) <$> map_to_list (pending s) with
  | [] => answer_timeout (config s)
  | w :: ws => fold_left Z.min ws w
  end.

Definition handle_update (now : Instant) (order : list Z -> list Z) : Handler := fun s =>
  let expired := order (map_to_list (filter (fun '(_, p) => deadline p <= now) (pending s))).*1 in
  match reject_all expired s with
  | (Ok _, s) => (Ok tt, push_back (Wait (next_wait s now)) s)
  | r => r
  end.

Definition http_handle (msg : HttpSignalerInput) : Handler :=
  match msg with
  | Connected connection addr _ => fun s => (Ok tt, connected connection addr s)
  | IRequest connection request now random wall =>
      handle_request connection request now random wall
  | IAnswer id sdp => answer id sdp
  | Reject id reason => reject id reason
  | SetServerData data => fun s => (Ok tt, set_server_data (Some data) s)
  | SetTokenTrust trust => fun s => (Ok tt, set_token_trust trust s)
  | Closed connection => fun s => (Ok tt, closed connection s)
  | Update now order => handle_update now order
  end.

Definition http_poll (s : HttpSignaler) : option HttpSignalerOutput * HttpSignaler :=
  match output s with
  | [] => (None, s)
  | o :: rest => (Some o, set_output rest s)
  end.

#[export] Instance HttpSignaler_sans
    : Sans HttpSignaler HttpSignalerInput HttpSignalerOutput HttpSignalerError := {|
  handle := http_handle;
  poll := http_poll;
|}.

#[export] Program Instance HttpSignaler_queued
    : Queued HttpSignaler HttpSignalerInput HttpSignalerOutput HttpSignalerError := {| queue := output |}.
Next Obligation.
  intros s. cbn [poll HttpSignaler_sans]. unfold http_poll. destruct (output s); [done|]. by eexists.
Qed.

End http.

(** ** [join.rs], the client's side *)

Definition MAX_ANSWER_SIZE : Z := 2 ^ 20.

Definition join_path (network_id : bytes) : bytes := JOIN_PATH ++ str "/" ++ network_id.

Inductive JoinResponseError :=
| JoinStatus (status : Z)
| Empty
| BodySizeExceeded (size : Z)
| JoinRejected (code : SignalErrorCode).

Definition validate_join_response (status : Z) (body : bytes) : Res JoinResponseError unit :=
  if negb ((200 <=? status) && (status <? 300)) then Err (JoinStatus status)
  else if blen body =? 0 then Err Empty
  else if blen body >? MAX_ANSWER_SIZE then Err (BodySizeExceeded (blen body))
  else match parse_uint u32_max (trim body) with
       | Some code => Err (JoinRejected (SignalErrorCode_from_u32 code))
       | None => Ok tt
       end.

Definition STATUS_PATH : bytes := JOIN_PATH.
Definition JOIN_CONTENT_TYPE : bytes := str "application/sdp".

(** [serde_json::from_str] for the record of a status response. *)
Class StatusJson := { serde_status : bytes -> option ServerDataModel.Status }.

Inductive StatusResponseError := StatusStatus (status : Z) | StatusMalformed (e : ProtocolError).

Definition validate_status_response `{StatusJson} (status : Z) (body : bytes)
    : Res StatusResponseError ServerDataModel.ServerData :=
  if negb ((200 <=? status) && (status <? 300)) then Err (StatusStatus status)
  else map_err StatusMalformed (ServerDataModel.from_json serde_status (from_utf8_lossy body)).

(** ** Bookkeeping *)

Section http_props.
Context `{b64 : Base64} `{serde : Serde} `{p384 : P384} `{rsa : Rsa} `{net : IpNetOps}.

Definition holds (a : IpAddr) (c : Connection) : Prop :=
  counted c = true /\ normalize (ip (connection_addr c)) = a.

#[local] Instance holds_dec a c : Decision (holds a c).
Proof. unfold holds. apply _. Defined.

(** The counted connections of an address. *)
Definition held_by (cs : gmap Z Connection) (a : IpAddr) : Z :=
  Z.of_nat (size (filter (fun '(_, c) => holds a c) cs)).

Lemma held_by_insert cs id c a :
  cs !! id = None ->
  held_by (<[id := c]> cs) a = held_by cs a + (if decide (holds a c) then 1 else 0).
Proof.
  intros Hid. unfold held_by. case_decide as Hc.
  - rewrite map_filter_insert_True by done. rewrite map_size_insert_None; [lia|].
    apply map_lookup_filter_None. by left.
  - rewrite map_filter_insert_False by done. rewrite delete_id by done. lia.
Qed.

Lemma held_by_delete cs id c a :
  cs !! id = Some c ->
  held_by (delete id cs) a = held_by cs a - (if decide (holds a c) then 1 else 0).
Proof.
  intros Hid. unfold held_by. rewrite map_filter_delete. case_decide as Hc.
  - assert (filter (fun '(_, c) => holds a c) cs !! id = Some c) as Hin
      by (by apply map_lookup_filter_Some).
    rewrite map_size_delete_Some by eauto.
    pose proof (map_size_ne_0_lookup (filter (fun '(_, c) => holds a c) cs)) as Hne.
    assert (size (filter (fun '(_, c) => holds a c) cs) <> 0%nat) by (apply Hne; eauto). lia.
  - rewrite delete_id; [lia|]. apply map_lookup_filter_None. right. intros c' Hc'. congruence.
Qed.

Lemma held_by_nonneg cs a : 0 <= held_by cs a.
Proof. unfold held_by. lia. Qed.

Record http_inv (s : HttpSignaler) : Prop := {
  inv_held a : default 0 (per_address s !! a) = held_by (connections s) a;
  inv_limit a : held_by (connections s) a <= max_connections_per_address (config s);
  inv_pending : Z.of_nat (size (pending s)) <= max_pending_joins (config s);
}.

Definition limits (s : HttpSignaler) : Z * Z :=
  (max_connections_per_address (config s), max_pending_joins (config s)).

(** Only the output differs, or also the trust state. *)
Lemma http_inv_frame s s' :
  connections s' = connections s -> per_address s' = per_address s ->
  Z.of_nat (size (pending s')) <= Z.of_nat (size (pending s)) -> limits s' = limits s ->
  http_inv s -> http_inv s'.
Proof.
  unfold limits. intros Ec Ep Hp [= El1 El2] [H1 H2 H3].
  split; rewrite ?Ec, ?Ep, ?El1, ?El2; [done..|lia].
Qed.

Lemma connected_inv id addr s :
  connections s !! id = None -> http_inv s -> http_inv (connected id addr s).
Proof.
  intros Hid [H1 H2 H3]. unfold connected. set (peer := normalize (ip addr)).
  destruct (contains _ peer); [|case_match eqn:Eh; to_props].
  - split; cbn; try done; intros a; rewrite held_by_insert by done;
      rewrite decide_False by (intros [? _]; done); rewrite Z.add_0_r; auto.
  - split; cbn; try done. intros a. rewrite <- H1.
    destruct (decide (a = peer)) as [->|]; [by rewrite lookup_insert_eq; cbn; lia|].
    by rewrite lookup_insert_ne.
  - rewrite H1 in Eh. split; cbn; try done; intros a; rewrite held_by_insert by done;
      (destruct (decide (a = peer)) as [->|Hne];
       [rewrite decide_True by done|rewrite decide_False by (intros [_ ?]; done)]).
    + rewrite lookup_insert_eq. cbn. by rewrite H1.
    + rewrite lookup_insert_ne by done. rewrite H1. lia.
    + lia.
    + specialize (H2 a). lia.
Qed.

Lemma closed_inv id s : http_inv s -> http_inv (closed id s).
Proof.
  intros [H1 H2 H3]. unfold closed. destruct (connections s !! id) as [c|] eqn:Ec; [|done].
  assert (forall x y, size (filter (fun '(_, p) => pending_connection p <> id) (pending s)) = x ->
    Z.of_nat (size (pending s)) <= y -> Z.of_nat x <= y) as Hps.
  { intros x y <- Hy. pose proof (map_size_filter (fun '(_, p) => pending_connection p <> id) (pending s)). lia. }
  set (peer := normalize (ip (connection_addr c))).
  assert (forall a, held_by (delete id (connections s)) a <= max_connections_per_address (config s)) as Hl.
  { intros a. rewrite (held_by_delete _ _ c) by done. specialize (H2 a). case_decide; lia. }
  destruct (counted c) eqn:Ect.
  - cbn. pose proof (H1 peer) as Hp. pose proof (held_by_delete _ _ _ peer Ec) as Hd.
    rewrite decide_True in Hd by done. pose proof (held_by_nonneg (delete id (connections s)) peer).
    assert (forall a, a <> peer -> default 0 (per_address s !! a) = held_by (delete id (connections s)) a) as Hother.
    { intros a Ha. rewrite (held_by_delete _ _ c), decide_False, Z.sub_0_r by (done || by intros [_ ?]). done. }
    destruct (per_address s !! peer) as [held|] eqn:Eh; cbn in Hp; [|lia].
    case_match eqn:Ez; to_props; split; cbn; try done; try (by eapply Hps); intros a;
      destruct (decide (a = peer)) as [->|Ha].
    + rewrite lookup_delete_eq. cbn. lia.
    + rewrite lookup_delete_ne by done. by apply Hother.
    + rewrite lookup_insert_eq. cbn. lia.
    + rewrite lookup_insert_ne by done. by apply Hother.
  - split; cbn; try done; try (by eapply Hps). intros a.
    rewrite (held_by_delete _ _ c), decide_False, Z.sub_0_r by (done || intros [? _]; congruence). done.
Qed.

(** ** Expiry *)

Definition timeout_response (p : Pending) : HttpSignalerOutput :=
  OResponse (pending_connection p)
    {| response_status := GATEWAY_TIMEOUT; content_type := None; content_length := 0;
       response_body := [] |} (pending_keep_alive p).

(** Only the pending joins and the output differ. *)
Definition same_frame (s s' : HttpSignaler) : Prop :=
  config s' = config s /\ connections s' = connections s /\ per_address s' = per_address s /\
  server_data s' = server_data s.

Lemma omap_delete_notin {A B} (g : A -> B) (m : gmap Z A) id (ids : list Z) :
  id ∉ ids -> omap (fun i => g <$> delete id m !! i) ids = omap (fun i => g <$> m !! i) ids.
Proof.
  intros Hid. induction ids as [|x ids IH]; [done|]. cbn [omap list_omap].
  rewrite lookup_delete_ne by (intros ->; apply Hid; by left).
  rewrite IH; [done|]. intros Hx. apply Hid. by right.
Qed.

Lemma omap_fst {A B C} (f : A -> option C) (l : list (A * B)) :
  omap f l.*1 = omap (fun '(a, _) => f a) l.
Proof. induction l as [|[a b] l IH]; [done|]. cbn [fmap list_fmap omap list_omap fst]. by rewrite IH. Qed.

Lemma omap_all_Some {A B} (f : A -> option B) (g : A -> B) (l : list A) :
  (forall x, x ∈ l -> f x = Some (g x)) -> omap f l = g <$> l.
Proof.
  induction l as [|x l IH]; [done|]. intros Hf. cbn [omap list_omap fmap list_fmap].
  rewrite Hf by (by left). f_equal. apply IH. intros. apply Hf. by right.
Qed.

Lemma reject_all_spec ids s :
  NoDup ids -> (forall id, id ∈ ids -> is_Some (pending s !! id)) ->
  exists s', reject_all ids s = (Ok tt, s') /\ same_frame s s' /\
    (forall id, pending s' !! id = if decide (id ∈ ids) then None else pending s !! id) /\
    output s' = output s ++ omap (fun id => timeout_response <$> pending s !! id) ids.
Proof.
  intros Hnd. revert s. induction Hnd as [|id ids Hid Hnd IH]; intros s Hin; cbn [reject_all].
  { exists s. split_and!; try done. cbn. by rewrite app_nil_r. }
  unfold reject. destruct (Hin id) as [p Hp]; [by left|]. rewrite Hp.
  set (s1 := respond _ _ _ _).
  destruct (IH s1) as (s' & -> & Hf & Hpend & Hout).
  { intros id' Hid'. cbn. rewrite lookup_delete_ne by (by intros ->). apply Hin. by right. }
  exists s'. split; [done|]. split; [exact Hf|]. split.
  - intros id'. rewrite Hpend. unfold s1. cbn. destruct (decide (id' = id)) as [->|Hne].
    + rewrite lookup_delete_eq, (decide_True (P := id ∈ id :: ids)) by (by left). by case_decide.
    + rewrite lookup_delete_ne by done. apply decide_ext. rewrite elem_of_cons. naive_solver.
  - rewrite Hout. unfold s1. cbn [respond push push_back set_output output set_pending pending].
    rewrite omap_delete_notin by done. cbn [omap list_omap]. rewrite Hp, <- app_assoc. reflexivity.
Qed.

Lemma fold_min_spec ws w :
  fold_left Z.min ws w <= w /\ Forall (fun x => fold_left Z.min ws w <= x) ws /\
  (fold_left Z.min ws w = w \/ In (fold_left Z.min ws w) ws).
Proof.
  revert w. induction ws as [|x ws IH]; intros w; cbn [fold_left]; [split_and!; [lia|constructor|by left]|].
  destruct (IH (Z.min w x)) as (H1 & H2 & H3). split_and!; [lia|constructor; [lia|done]|].
  destruct H3 as [H3|H3]; [|right; by right].
  destruct (Z.min_spec w x) as [[_ E]|[_ E]]; rewrite E in H3 |- *; [by left|right; left; lia].
Qed.

Lemma next_wait_spec s now :
  (forall id p, pending s !! id = Some p -> next_wait s now <= saturating_duration_since (deadline p) now) /\
  ((pending s = ∅ /\ next_wait s now = answer_timeout (config s)) \/
   exists id p, pending s !! id = Some p /\ next_wait s now = saturating_duration_since (deadline p) now).
Proof.
  unfold next_wait.
  assert (forall x, In x ((fun '(_, p) => saturating_duration_since (deadline p) now) <$> map_to_list (pending s))
    <-> exists id p, pending s !! id = Some p /\ x = saturating_duration_since (deadline p) now) as Hin.
  { intros x. rewrite <- list_elem_of_In, list_elem_of_fmap. split.
    - intros ([id p] & -> & Hp%elem_of_map_to_list). eauto.
    - intros (id & p & Hp & ->). exists (id, p). split; [done|]. by apply elem_of_map_to_list. }
  destruct (_ <$> map_to_list (pending s)) as [|w ws] eqn:E.
  - assert (pending s = ∅) as Hemp.
    { apply map_to_list_empty_iff. by apply fmap_nil_inv in E. }
    split; [|by left]. intros id p Hp. by rewrite Hemp, lookup_empty in Hp.
  - destruct (fold_min_spec ws w) as (H1 & H2 & H3). split.
    + intros id p Hp. destruct (proj2 (Hin (saturating_duration_since (deadline p) now))) as [<-|Hw].
      { eauto. } { done. } { rewrite Forall_forall in H2. by apply H2. }
    + right. apply Hin. destruct H3 as [->|H3]; [by left|by right].
Qed.

(** An update answers every overdue join with 504 and no other, removes
    exactly those, and asks to be called again no later than the next deadline
    (after the answer timeout when nothing waits), whatever order the hash map
    is walked in. *)
Theorem update_expires_overdue_joins now order s :
  (forall l, order l ≡ₚ l) ->
  exists s' outs w, http_handle (Update now order) s = (Ok tt, s') /\
    output s' = output s ++ outs ++ [Wait w] /\
    outs ≡ₚ (fun '(_, p) => timeout_response p)
      <$> map_to_list (filter (fun '(_, p) => deadline p <= now) (pending s)) /\
    pending s' = filter (fun '(_, p) => now < deadline p) (pending s) /\
    (forall id p, pending s' !! id = Some p -> now + w <= deadline p) /\
    (pending s' = ∅ -> w = answer_timeout (config s)).
Proof.
  intros Hord. cbn [http_handle]. unfold handle_update.
  set (over := filter _ (pending s)). set (ids := order (map_to_list over).*1).
  assert (ids ≡ₚ (map_to_list over).*1) as Hperm by apply Hord.
  assert (forall id, id ∈ ids <-> exists p, pending s !! id = Some p /\ deadline p <= now) as Hids.
  { intros id. rewrite Hperm, list_elem_of_fmap. split.
    - intros ([id' p] & -> & [Hp Hd]%elem_of_map_to_list%map_lookup_filter_Some). eauto.
    - intros (p & Hp & Hd). exists (id, p). split; [done|]. apply elem_of_map_to_list.
      by apply map_lookup_filter_Some. }
  destruct (reject_all_spec ids s) as (s1 & -> & (Ec & _) & Hpend & Hout).
  { rewrite Hperm. apply NoDup_fst_map_to_list. }
  { intros id (p & Hp & _)%Hids. eauto. }
  eexists _, _, (next_wait s1 now). split; [reflexivity|].
  split; [cbn; rewrite Hout, <- app_assoc; reflexivity|].
  assert (pending s1 = filter (fun '(_, p) => now < deadline p) (pending s)) as Hp1.
  { apply map_eq. intros id. rewrite Hpend, map_lookup_filter.
    destruct (pending s !! id) as [p|] eqn:Ep; cbn; [|by case_decide].
    destruct (decide (id ∈ ids)) as [(p' & Hp' & Hd)%Hids|Hn].
    - assert (p' = p) as -> by congruence. rewrite option_guard_False; [done|lia].
    - rewrite option_guard_True; [done|]. destruct (decide (now < deadline p)); [done|].
      exfalso. apply Hn, Hids. exists p. split; [done|lia]. }
  split_and!.
  - rewrite Hperm, omap_fst. apply reflexive_eq. apply omap_all_Some.
    intros [id p] [Hp _]%elem_of_map_to_list%map_lookup_filter_Some. cbn. by rewrite Hp.
  - exact Hp1.
  - intros id p Hp. cbn in Hp. destruct (next_wait_spec s1 now) as [Hw _].
    specialize (Hw _ _ Hp). rewrite Hp1 in Hp. apply map_lookup_filter_Some in Hp as [_ Hd].
    unfold saturating_duration_since in Hw. lia.
  - intros Hemp. cbn in Hemp. destruct (next_wait_spec s1 now) as [_ [[_ ->]|(id & p & Hp & _)]].
    + by rewrite Ec.
    + by rewrite Hemp, lookup_empty in Hp.
Qed.

(** ** Limits *)

(** The ids that open connections are announced under are new. *)
Definition fresh (s : HttpSignaler) (msg : HttpSignalerInput) : Prop :=
  match msg with
  | Connected id _ _ => connections s !! id = None
  | _ => True
  end.

Inductive http_step : HttpSignaler -> HttpSignaler -> Prop :=
| http_step_handle msg s : fresh s msg -> http_step s (handle msg s).2
| http_step_poll s : http_step s (poll s).2.

Lemma http_inv_same s s' :
  connections s' = connections s -> per_address s' = per_address s ->
  pending s' = pending s -> limits s' = limits s -> http_inv s -> http_inv s'.
Proof. intros E1 E2 E3 E4. apply http_inv_frame; try done. rewrite E3. lia. Qed.

Lemma reject_all_inv ids s : http_inv s -> http_inv (reject_all ids s).2.
Proof.
  revert s. induction ids as [|id ids IH]; intros s H; cbn [reject_all]; [done|].
  unfold reject. destruct (pending s !! id) as [p|] eqn:Ep; [|done].
  apply IH. eapply http_inv_frame; [..|exact H]; try done. cbn.
  rewrite map_size_delete_Some by eauto. lia.
Qed.

Lemma join_inv c nid r k now rnd wall s :
  http_inv s -> http_inv (join c nid r k now rnd wall s).2.
Proof.
  intros H. unfold join. destruct (_ <=? _) eqn:Efull; [by apply (http_inv_same s)|]. to_props.
  assert (forall player s1, connections s1 = connections s -> per_address s1 = per_address s ->
    pending s1 = pending s -> limits s1 = limits s ->
    http_inv (push_back (OOffer player) (set_pending (<[rnd := {| pending_connection := c;
      pending_keep_alive := k; deadline := now + answer_timeout (config s1) |}]> (pending s1)) s1))) as Hacc.
  { intros o s1 E1 E2 E3 [= E4 E5]. destruct H as [H1 H2 H3].
    split; cbn; rewrite ?E1, ?E2, ?E3, ?E4, ?E5; try done.
    rewrite map_size_insert. destruct (pending s !! rnd); cbn in *; lia. }
  destruct (token_trust (config s)) as [t|]; [|by apply Hacc].
  destruct (validate_sdp _ _ _) as [[claims|e|] t']; [by apply Hacc|by apply (http_inv_same s)..].
Qed.

Lemma http_handle_inv msg s :
  fresh s msg -> http_inv s -> http_inv (http_handle msg s).2 /\ limits (http_handle msg s).2 = limits s.
Proof.
  intros Hf H. destruct msg as [id addr now|c r now rnd wall|id sdp|id reason|d|t|c|now order];
    cbn [http_handle].
  - split; [by apply connected_inv|]. unfold connected. by repeat case_match.
  - unfold handle_request. assert (forall st k, http_inv (respond c st k s) /\ limits (respond c st k s) = limits s) as Hr
      by (intros; split; [by apply (http_inv_same s)|done]).
    case_match.
    { unfold status. repeat case_match; try apply Hr; split; try done; by apply (http_inv_same s). }
    case_match; [|apply Hr]. case_match; [apply Hr|]. split; [by apply join_inv|].
    unfold join. repeat case_match; done.
  - unfold answer. destruct (pending s !! id) as [p|] eqn:Ep; [|done]. split; [|done].
    eapply http_inv_frame; [..|exact H]; try done. cbn. rewrite map_size_delete_Some by eauto. lia.
  - unfold reject. destruct (pending s !! id) as [p|] eqn:Ep; [|done]. split; [|done].
    eapply http_inv_frame; [..|exact H]; try done. cbn. rewrite map_size_delete_Some by eauto. lia.
  - split; [by apply (http_inv_same s)|done].
  - split; [by apply (http_inv_same s)|done].
  - split; [by apply closed_inv|]. unfold closed. by repeat case_match.
  - unfold handle_update. set (ids := order _).
    pose proof (reject_all_inv ids s H) as Hi.
    assert (limits (reject_all ids s).2 = limits s) as Hl.
    { clear H Hi Hf. clearbody ids. revert s. induction ids as [|id ids IH]; intros s; cbn [reject_all]; [done|].
      unfold reject. destruct (pending s !! id); [|done]. by rewrite IH. }
    destruct (reject_all ids s) as [[u|e|] s1]; cbn in *; (split; [by apply (http_inv_same s1)|done]).
Qed.

Lemma http_reachable_inv c s :
  0 <= max_connections_per_address c -> 0 <= max_pending_joins c ->
  rtc http_step (http_new c) s -> http_inv s /\ limits s = limits (http_new c).
Proof.
  intros Hc Hp Hrun.
  assert (http_inv (http_new c)) as H0 by by split.
  remember (http_new c) as s0 eqn:E0. clear E0. induction Hrun as [s|s1 s2 s3 Hstep _ IH]; [done|].
  assert (http_inv s2 /\ limits s2 = limits s1) as [H2 E2].
  { destruct Hstep as [msg s Hf|s].
    - by apply http_handle_inv.
    - cbn. unfold http_poll. destruct (output s); [done|]. split; [by apply (http_inv_same s)|done]. }
  destruct (IH H2) as [H3 E3]. split; [done|congruence].
Qed.

(** The limits hold in every reachable state, when every connection is
    announced under an id that is not open: each peer address (IPv4-mapped forms
    counted with their IPv4 address) holds at most
    [max_connections_per_address] counted connections, the counter of an address
    is exactly the number of its open counted connections, so it returns to zero
    when they close, and at most [max_pending_joins] joins wait. *)
Theorem http_limits_hold c s :
  0 <= max_connections_per_address c -> 0 <= max_pending_joins c ->
  rtc http_step (http_new c) s ->
  (forall a, default 0 (per_address s !! a) = held_by (connections s) a) /\
  (forall a, held_by (connections s) a <= max_connections_per_address c) /\
  pending_joins s <= max_pending_joins c.
Proof.
  intros Hc Hp Hrun. destruct (http_reachable_inv c s Hc Hp Hrun) as [[H1 H2 H3] [= E1 E2]].
  rewrite <- E1, <- E2. done.
Qed.

(** ** Requests *)

(** What a join may become. *)
Definition accepted (s : HttpSignaler) (c : Z) (request : Request) (wall : SystemTime)
    (network_id : bytes) (player : option PlayerInfo) : Prop :=
  match token_trust (config s) with
  | None => player = None
  | Some t => exists claims t', validate_sdp (body request) wall t = (Ok claims, t') /\
      player = Some (player_info_new claims network_id (client_address s c request))
  end.

Lemma status_push c request k s :
  exists resp, status c request k s = push c resp k s /\
    response_status resp ∈ [OK; UNAUTHORIZED; NOT_FOUND; METHOD_NOT_ALLOWED; SERVICE_UNAVAILABLE].
Proof.
  unfold status. repeat split_match; (eexists; split; [reflexivity|cbn; set_solver]).
Qed.

(** Every request gets exactly one outcome.  Either one response on its own
    connection, with a status of 200, 401, 404, 405 or 503 and no join left
    waiting; or, for a POST to [/v1/join/<id>] only, one offer and one join
    waiting under the fresh id until the answer timeout: this happens only below
    the limit of waiting joins and, when token trust is set, only if
    [validate_sdp] accepted the body, whose claims the offer carries.  The only
    other outcome is a panic of the validation. *)
Theorem request_has_one_outcome c request now random wall s :
  let keep := keep_alive request in
  let '(r, s') := http_handle (IRequest c request now random wall) s in
  connections s' = connections s /\ per_address s' = per_address s /\
  ((r = Ok tt /\ pending s' = pending s /\ exists resp,
      output s' = output s ++ [OResponse c resp keep] /\
      response_status resp ∈ [OK; UNAUTHORIZED; NOT_FOUND; METHOD_NOT_ALLOWED; SERVICE_UNAVAILABLE])
   \/ (r = Ok tt /\ method request = POST /\ exists network_id player,
      path request = join_path network_id /\
      Z.of_nat (size (pending s)) < max_pending_joins (config s) /\
      accepted s c request wall network_id player /\
      pending s' = <[random := {| pending_connection := c; pending_keep_alive := keep;
                                  deadline := now + answer_timeout (config s) |}]> (pending s) /\
      output s' = output s ++ [OOffer {| offer_connection_id := random;
        offer_network_id := network_id; offer_sdp := body request;
        offer_client_address := client_address s c request;
        offer_host := header_text request HOST; offer_player := player |}])
   \/ (r = Panic /\ output s' = output s /\ exists t, token_trust (config s) = Some t /\
      (validate_sdp (body request) wall t).1 = Panic)).
Proof.
  cbn [http_handle]. unfold handle_request.
  assert (forall st, st ∈ [OK; UNAUTHORIZED; NOT_FOUND; METHOD_NOT_ALLOWED; SERVICE_UNAVAILABLE] ->
    exists resp, output (respond c st (keep_alive request) s) = output s ++ [OResponse c resp (keep_alive request)] /\
      response_status resp ∈ [OK; UNAUTHORIZED; NOT_FOUND; METHOD_NOT_ALLOWED; SERVICE_UNAVAILABLE]) as Hresp.
  { intros st Hst. eexists. split; [reflexivity|done]. }
  destruct (bytes_eqb (path request) JOIN_PATH).
  { destruct (status_push c request (keep_alive request) s) as (resp & -> & Hst).
    split; [reflexivity|]. split; [reflexivity|]. left. split; [reflexivity|]. split; [reflexivity|]. by exists resp. }
  destruct (join_network (path request)) as [nid|] eqn:En.
  2: { split; [reflexivity|]. split; [reflexivity|]. left. split; [reflexivity|]. split; [reflexivity|]. apply Hresp. set_solver. }
  destruct (negb (bool_decide (method request = POST))) eqn:Em.
  { split; [reflexivity|]. split; [reflexivity|]. left. split; [reflexivity|]. split; [reflexivity|]. apply Hresp. set_solver. }
  to_props.
  assert (path request = join_path nid) as Hpath.
  { unfold join_network in En. destruct (strip_prefix _ _) eqn:Es; [|done].
    apply strip_prefix_Some in Es. case_match; [|done]. simplify_eq. by rewrite Es. }
  unfold join. destruct (_ <=? _) eqn:Efull.
  { split; [reflexivity|]. split; [reflexivity|]. left. split; [reflexivity|]. split; [reflexivity|]. apply Hresp. set_solver. }
  to_props. destruct (token_trust (config s)) as [t|] eqn:Et.
  2: { split; [reflexivity|]. split; [reflexivity|]. right. left. split; [reflexivity|]. split; [done|]. exists nid, None. split_and!; try done.
       unfold accepted. by rewrite Et. }
  destruct (validate_sdp (body request) wall t) as [[claims|e|] t'] eqn:Ev.
  - split; [reflexivity|]. split; [reflexivity|]. right. left. split; [reflexivity|]. split; [done|].
    eexists nid, (Some _). split_and!; try done. unfold accepted. rewrite Et. eauto.
  - split; [reflexivity|]. split; [reflexivity|]. left. split; [reflexivity|]. split; [reflexivity|]. eexists. split; [reflexivity|]. cbn. set_solver.
  - split; [reflexivity|]. split; [reflexivity|]. right. right. split; [reflexivity|]. split; [reflexivity|]. exists t. by rewrite Ev.
Qed.

(** ** What an input leaves alone *)

(** Rejections keep everything but the waiting joins and make no offers. *)
Lemma reject_all_frame ids : forall s,
  same_frame s (reject_all ids s).2 /\
  forall o, OOffer o ∈ output (reject_all ids s).2 -> OOffer o ∈ output s.
Proof.
  induction ids as [|id ids IH]; intros s; cbn [reject_all]; [by split|].
  unfold reject. destruct (pending s !! id) as [p|]; [|by split].
  destruct (IH (respond (pending_connection p) (status_of Timeout) (pending_keep_alive p)
    (set_pending (delete id (pending s)) s))) as [(E1 & E2 & E3 & E4) Ho].
  split; [by split_and!|]. intros o [Hin|Hin]%Ho%elem_of_app; [done|]. by apply list_elem_of_singleton in Hin.
Qed.

Lemma handle_update_frame now order s :
  same_frame s (handle_update now order s).2 /\
  forall o, OOffer o ∈ output (handle_update now order s).2 -> OOffer o ∈ output s.
Proof.
  unfold handle_update. set (ids := order _). destruct (reject_all_frame ids s) as [Hf Ho].
  destruct (reject_all ids s) as [[]]; cbn [snd] in *; [|by split..].
  split; [by destruct Hf as (?&?&?&?)|]. intros o [Hin|Hin]%elem_of_app; [by apply Ho|].
  by apply list_elem_of_singleton in Hin.
Qed.

(** Only a new connection adds to the table of connections. *)
Lemma http_handle_connections msg s id :
  is_Some (connections (http_handle msg s).2 !! id) ->
  is_Some (connections s !! id) \/ exists a now, msg = Connected id a now.
Proof.
  destruct msg as [c a now|c r now rnd wall|c sdp|c reason|d|t|c|now order]; cbn [http_handle]; auto.
  - unfold connected. cbn [snd]. repeat case_match; cbn; auto;
      (destruct (decide (c = id)) as [->|]; [eauto|]; rewrite lookup_insert_ne by done; auto).
  - pose proof (request_has_one_outcome c r now rnd wall s) as Ho. cbn [http_handle] in Ho.
    destruct (handle_request c r now rnd wall s) as [res s']. destruct Ho as [Ec _]. cbn [snd]. rewrite Ec. auto.
  - unfold answer. case_match; cbn; auto.
  - unfold reject. case_match; cbn; auto.
  - unfold closed. destruct (connections s !! c) as [e|] eqn:E; cbn; [|auto].
    assert (forall x, is_Some (delete c (connections s) !! x) -> is_Some (connections s !! x)) as Hd.
    { intros x [y [_ Hy]%lookup_delete_Some]. eauto. }
    repeat case_match; cbn; auto.
  - destruct (handle_update_frame now order s) as [(_ & -> & _) _]. auto.
Qed.

(** Connections come and go only as they are announced; what is queued stays
    queued, and the proxies are those of the configuration. *)
Lemma http_handle_frame msg s :
  (forall id a now, msg <> Connected id a now) -> (forall id, msg <> Closed id) ->
  connections (http_handle msg s).2 = connections s /\
  trusted_proxies (config (http_handle msg s).2) = trusted_proxies (config s) /\
  forall o, o ∈ output s -> o ∈ output (http_handle msg s).2.
Proof.
  assert (forall o x, o ∈ output s -> o ∈ output s ++ [x]) as Happ by (intros; apply elem_of_app; by left).
  intros Hc Hd. destruct msg as [c a now|c r now rnd wall|c sdp|c reason|d|t|c|now order]; cbn [http_handle]; auto.
  - by destruct (Hc c a now).
  - pose proof (request_has_one_outcome c r now rnd wall s) as Ho. cbn [http_handle] in Ho.
    assert (trusted_proxies (config (handle_request c r now rnd wall s).2) = trusted_proxies (config s)) as Hp.
    { unfold handle_request, status, join. repeat (split_match || case_match); done. }
    destruct (handle_request c r now rnd wall s) as [res s']. cbn [snd] in *. destruct Ho as (-> & _ & Ho).
    split; [done|]. split; [done|].
    destruct Ho as [(_ & _ & x & -> & _)|[(_ & _ & nid & pl & _ & _ & _ & _ & ->)|(_ & -> & _)]]; auto.
  - unfold answer. case_match; cbn; auto.
  - unfold reject. case_match; cbn; auto.
  - by destruct (Hd c).
  - destruct (handle_update_frame now order s) as [(Ecfg & Econ & _) _]. rewrite Ecfg, Econ.
    split; [done|]. split; [done|]. intros o Hin. unfold handle_update.
    assert (forall ids x, o ∈ output x -> o ∈ output (reject_all ids x).2) as Hr.
    { induction ids as [|id ids IH]; intros x Hx; cbn [reject_all]; [done|]. unfold reject.
      destruct (pending x !! id); [|done]. apply IH. cbn. apply elem_of_app. by left. }
    set (ids := order _). specialize (Hr ids s Hin). revert Hr.
    destruct (reject_all ids s) as [[]]; cbn; [|done..]. intros. apply elem_of_app. by left.
Qed.

(** A connection that goes is forgotten, without a word. *)
Lemma closed_frame id s :
  config (closed id s) = config s /\ connections (closed id s) = delete id (connections s) /\
  output (closed id s) = output s.
Proof.
  unfold closed. destruct (connections s !! id) as [e|] eqn:E.
  - repeat case_match; done.
  - by rewrite delete_id.
Qed.

(** Only a request makes an offer. *)
Lemma http_handle_offers msg s o :
  (forall c r now rnd wall, msg <> IRequest c r now rnd wall) ->
  OOffer o ∈ output (http_handle msg s).2 -> OOffer o ∈ output s.
Proof.
  assert (forall x, (forall o', x <> OOffer o') -> OOffer o ∈ output s ++ [x] -> OOffer o ∈ output s) as Happ.
  { intros x Hx [?|Hin%list_elem_of_singleton]%elem_of_app; [done|]. by destruct (Hx o). }
  intros Hr. destruct msg as [c a now|c r now rnd wall|c sdp|c reason|d|t|c|now order]; cbn [http_handle]; auto.
  - unfold connected. cbn [snd]. repeat case_match; cbn; auto. by apply Happ.
  - by destruct (Hr c r now rnd wall).
  - unfold answer. case_match; cbn; auto. by apply Happ.
  - unfold reject. case_match; cbn; auto. by apply Happ.
  - unfold closed. repeat case_match; cbn; auto.
  - by apply handle_update_frame.
Qed.

(** The trust changes only as it is set or notes something in a validation. *)
Lemma http_handle_trust msg s :
  (forall t, msg <> SetTokenTrust t) ->
  token_trust (config (http_handle msg s).2) = token_trust (config s) \/
  exists t sdp wall, token_trust (config s) = Some t /\
    token_trust (config (http_handle msg s).2) = Some (validate_sdp sdp wall t).2.
Proof.
  intros Ht. destruct msg as [c a now|c r now rnd wall|c sdp|c reason|d|t|c|now order]; cbn [http_handle]; auto.
  - left. unfold connected. by repeat case_match.
  - unfold handle_request. destruct (bytes_eqb _ _); [left; unfold status; by repeat case_match|].
    destruct (join_network _); [|by left]. destruct (negb _); [by left|]. unfold join.
    destruct (_ <=? _); [by left|]. destruct (token_trust (config s)) as [t|] eqn:E; [|by left].
    right. exists t, (body r), wall. split; [done|].
    by destruct (validate_sdp (body r) wall t) as [[] t'].
  - left. unfold answer. by case_match.
  - left. unfold reject. by case_match.
  - by destruct (Ht t).
  - left. unfold closed. by repeat case_match.
  - left. by destruct (handle_update_frame now order s) as [(-> & _) _].
Qed.

(** A waiting join is completed exactly once: answering or rejecting it
    sends one response on the connection it came from (200 with the rewritten
    description, or the status of the reason) and forgets it, after which a
    second answer or rejection fails and changes nothing. *)
Theorem join_completed_once id p s (complete : HttpSignalerInput) :
  pending s !! id = Some p ->
  (exists sdp, complete = IAnswer id sdp) \/ (exists reason, complete = Reject id reason) ->
  exists s' resp, http_handle complete s = (Ok tt, s') /\
    output s' = output s ++ [OResponse (pending_connection p) resp (pending_keep_alive p)] /\
    response_status resp = match complete with Reject _ reason => status_of reason | _ => OK end /\
    pending s' = delete id (pending s) /\
    (forall sdp, http_handle (IAnswer id sdp) s' = (Err (UnknownConnection id), s')) /\
    (forall reason, http_handle (Reject id reason) s' = (Err (UnknownConnection id), s')).
Proof.
  intros Hp Hc.
  assert (forall s', pending s' = delete id (pending s) ->
    (forall sdp, http_handle (IAnswer id sdp) s' = (Err (UnknownConnection id), s')) /\
    (forall reason, http_handle (Reject id reason) s' = (Err (UnknownConnection id), s'))) as Hgone.
  { intros s' Es'. cbn. unfold answer, reject. by rewrite Es', lookup_delete_eq. }
  destruct Hc as [[sdp ->]|[reason ->]]; cbn [http_handle]; unfold answer, reject; rewrite Hp;
    (eexists _, _; split; [reflexivity|]; split; [reflexivity|]; split; [reflexivity|];
     split; [reflexivity|]; by apply Hgone).
Qed.

(** The client address is the peer's own unless the peer is a trusted proxy:
    no forwarding header of an untrusted peer is believed, and what a proxy
    forwards is used only if its first entry is an IP literal. *)
Theorem client_address_trust s c entry request :
  connections s !! c = Some entry ->
  client_address s c request =
  if contains (trusted_proxies (config s)) (normalize (ip (connection_addr entry)))
  then
    match header_text request FORWARDED_FOR with
    | Some forwarded =>
        (fun a => socket_addr_new a (port (connection_addr entry)))
          <$> parse (unbracket (trim (default [] (head (split_on (is_byte x2c) forwarded)))))
    | None => None
    end
  else Some (connection_addr entry).
Proof.
  intros Hc. unfold client_address. rewrite Hc. destruct (contains _ _); [|done]. cbn [negb].
  destruct (header_text request FORWARDED_FOR) as [forwarded|]; [|done]. cbn.
  pose proof (split_on_not_nil (is_byte x2c) forwarded). by destruct (split_on _ forwarded).
Qed.
End http_props.

(** ** Concrete runs *)

#[local] Existing Instance toy_base64.
#[local] Existing Instance toy_serde.
#[local] Existing Instance toy_p384.
#[local] Existing Instance toy_rsa.
#[local] Existing Instance simple_net.

Definition open_config : HttpSignalerConfig := {|
  max_connections_per_address := 1; max_pending_joins := 1; answer_timeout := secs 10;
  trusted_proxies := range_set_parse [str "10.0.0.0/8"]; advertised_addresses := [];
  token_trust := None; serve_motd := true;
|}.

Definition peer_addr : SocketAddr := {| ip := Endpoint.V4 192 0 2 1; port := 1000 |}.
Definition proxy_addr : SocketAddr := {| ip := Endpoint.V4 10 1 2 3; port := 1000 |}.

Definition join_request : Request := {|
  method := POST; path := str "/v1/join/7"; version := OtherVersion;
  header_text name := if bytes_eqb name FORWARDED_FOR then Some (str "[2606:4700::1], 10.0.0.1") else None;
  body := str "v=0";
|}.

Definition after_join : HttpSignaler :=
  feed_all [Connected 1 peer_addr 0; Connected 2 peer_addr 0; Connected 3 proxy_addr 0;
            IRequest 3 join_request 0 42 0] (http_new open_config).

Example second_connection_is_closed : head (output after_join) = Some (Close 2).
Proof. vm_compute. reflexivity. Qed.

Example forwarded_address_of_a_proxy :
  client_address after_join 3 join_request
  = Some {| ip := Endpoint.V6 0x2606 0x4700 0 0 0 0 0 1; port := 1000 |}.
Proof. vm_compute. reflexivity. Qed.

Lemma http_limits_hold_witness :
  held_by (connections after_join) (Endpoint.V4 192 0 2 1) <= 1 /\ pending_joins after_join <= 1.
Proof.
  destruct (http_limits_hold open_config after_join) as (_ & H1 & H2).
  - cbn. lia.
  - cbn. lia.
  - unfold after_join. cbn [feed_all].
    eapply rtc_l; [apply (http_step_handle (Connected 1 peer_addr 0)); reflexivity|].
    eapply rtc_l; [apply (http_step_handle (Connected 2 peer_addr 0)); vm_compute; reflexivity|].
    eapply rtc_l; [apply (http_step_handle (Connected 3 proxy_addr 0)); vm_compute; reflexivity|].
    eapply rtc_l; [apply (http_step_handle (IRequest 3 join_request 0 42 0)); exact I|].
    apply rtc_refl.
  - split; [exact (H1 (Endpoint.V4 192 0 2 1))|exact H2].
Defined.

Lemma update_expires_overdue_joins_witness :
  exists s' outs w, http_handle (Update (secs 10) (fun l => rev l)) after_join = (Ok tt, s') /\
    pending s' = filter (fun '(_, p) => secs 10 < deadline p) (pending after_join) /\
    output s' = output after_join ++ outs ++ [Wait w].
Proof.
  destruct (update_expires_overdue_joins (secs 10) (fun l => rev l) after_join)
    as (s' & outs & w & H1 & H2 & _ & H4 & _).
  - intros l. symmetry. apply Permutation_rev.
  - exists s', outs, w. split; [exact H1|]. split; [exact H4|exact H2].
Defined.

Lemma join_completed_once_witness :
  exists s', http_handle (IAnswer 42 (str "v=1")) after_join = (Ok tt, s') /\
    forall reason, http_handle (Reject 42 reason) s' = (Err (UnknownConnection 42), s').
Proof.
  destruct (join_completed_once 42 {| pending_connection := 3; pending_keep_alive := true;
    deadline := secs 10 |} after_join (IAnswer 42 (str "v=1"))) as (s' & resp & H1 & _ & _ & _ & _ & H6).
  - vm_compute. reflexivity.
  - left. exists (str "v=1"). reflexivity.
  - exists s'. split; [exact H1|exact H6].
Defined.

Lemma client_address_trust_witness :
  client_address after_join 1 join_request = Some peer_addr.
Proof.
  rewrite (client_address_trust after_join 1 {| connection_addr := peer_addr; counted := true |} join_request);
    vm_compute; reflexivity.
Defined.
