(* ===== verification/Webrtc.v ===== *)
(** * Webrtc: session descriptions, ICE candidates and certificate fingerprints
    ([protocol/webrtc/{description,candidate,certificate}.rs] and the
    fingerprint check of [session/dtls.rs])

    The SDP and ICE crates are behind classes: an SDP value is the record of
    the fields the source fills, the builder methods and the text form are
    operations, and their documented behaviour is stated as laws. *)
From S2P Require Import Prelude Text Errors Endpoint Discovery Identity.

(** ** Values of the SDP crate *)

Record Attribute := { attr_key : bytes; attr_value : option bytes }.
Record RangedPort := { port_value : Z; port_range : option Z }.
Record MediaName := {
  media : bytes; media_port : RangedPort; protos : list bytes; formats : list bytes }.
Record Address := { addr_address : bytes; addr_ttl : option Z; addr_range : option Z }.
Record ConnectionInformation := {
  ci_network_type : bytes; ci_address_type : bytes; ci_address : option Address }.
Record MediaDescription := {
  media_name : MediaName;
  connection_information : option ConnectionInformation;
  media_attributes : list Attribute;
}.
Record Origin := {
  username : bytes; origin_session_id : Z; session_version : Z;
  o_network_type : bytes; o_address_type : bytes; unicast_address : bytes }.
(** Every other field of a description the source builds is its default;
    [time_descriptions] counts default entries. *)
Record SessionDescription := {
  version : Z;
  origin : Origin;
  session_name : bytes;
  time_descriptions : nat;
  session_attributes : list Attribute;
  media_descriptions : list MediaDescription;
}.

Inductive ConnectionRole := Active | Actpass.

Definition attr (k v : bytes) : Attribute := {| attr_key := k; attr_value := Some v |}.

Definition push_attributes (l : list Attribute) (m : MediaDescription) : MediaDescription :=
  {| media_name := media_name m; connection_information := connection_information m;
     media_attributes := media_attributes m ++ l |}.

(** The first attribute of a name. *)
Fixpoint first_attribute (k : bytes) (l : list Attribute) : option Attribute :=
  match l with
  | [] => None
  | a :: l => if bytes_eqb (attr_key a) k then Some a else first_attribute k l
  end.

(** ** The SDP and ICE crates *)

Class Sdp := {
  ATTR_KEY_CONNECTION_SETUP : bytes;
  ATTR_KEY_END_OF_CANDIDATES : bytes;
  ATTR_KEY_EXTMAP_ALLOW_MIXED : bytes;
  ATTR_KEY_GROUP : bytes;
  ATTR_KEY_IDENTITY : bytes;
  ATTR_KEY_MAX_MESSAGE_SIZE : bytes;
  ATTR_KEY_MID : bytes;
  ATTR_KEY_MSID_SEMANTIC : bytes;
  role_to_string : ConnectionRole -> bytes;
  with_value_attribute : bytes -> bytes -> MediaDescription -> MediaDescription;
  with_ice_credentials : bytes -> bytes -> MediaDescription -> MediaDescription;
  with_fingerprint : bytes -> bytes -> MediaDescription -> MediaDescription;
  with_candidate : bytes -> MediaDescription -> MediaDescription;
  with_media : MediaDescription -> SessionDescription -> SessionDescription;
  media_attribute : MediaDescription -> bytes -> option (option bytes);
  session_attribute : SessionDescription -> bytes -> option bytes;
  marshal : SessionDescription -> bytes;
  unmarshal : bytes -> option SessionDescription;
}.

Class IceCandidate := {
  Candidate : Type;
  candidate_address : Candidate -> bytes;
  candidate_port : Candidate -> Z;
  candidate_marshal : Candidate -> bytes;
  unmarshal_candidate : bytes -> option Candidate;
}.

Record Credentials := { ufrag : bytes; pwd : bytes }.

Section webrtc.
Context `{Sdp} `{IceCandidate}.

(** ** [candidate.rs] *)

Definition attribute_value (index : nat) (candidate : Candidate) (ufrag : bytes) : bytes :=
  candidate_marshal candidate ++ str " generation 0 ufrag " ++ ufrag
  ++ str " network-id " ++ dec (Z.of_nat index) ++ str " network-cost 0".

Definition format_ice_candidate (index : nat) (candidate : Candidate) (ufrag : bytes) : bytes :=
  str "candidate:" ++ attribute_value index candidate ufrag.

Definition parse_ice_candidate (data : bytes) : Res ProtocolError Candidate :=
  let raw := match strip_prefix (str "candidate:") data with Some r => r | None => data end in
  ok_or (Other (str "decode candidate: ")) (unmarshal_candidate raw).

(** ** [description.rs] *)

Definition SCTP_PORT : Z := 5000.

Inductive DtlsRole := RoleClient | RoleServer | RoleAuto.

Record Description := {
  ice : Credentials;
  dtls_role : DtlsRole;
  desc_fingerprint : bytes * bytes;
  sctp_max_message_size : Z;
  desc_identity : option bytes;
}.

Definition connection_role (role : DtlsRole) : ConnectionRole :=
  match role with RoleServer => Actpass | _ => Active end.

(** [now] is the wall clock; [as u64] truncates. *)
Definition session_id (now : SystemTime) : Z :=
  if now <? UNIX_EPOCH then 1 else (now - UNIX_EPOCH) mod 2 ^ 64.

Definition attribute (m : MediaDescription) (key : bytes) : Res ProtocolError bytes :=
  match media_attribute m key with
  | Some (Some value) => Ok value
  | Some None => Err (Other (str "empty " ++ key ++ str " attribute"))
  | None => Err (Other (str "missing " ++ key ++ str " attribute"))
  end.

Definition empty_media : MediaDescription := {|
  media_name := {|
    media := str "application";
    media_port := {| port_value := 9; port_range := None |};
    protos := [str "UDP"; str "DTLS"; str "SCTP"];
    formats := [str "webrtc-datachannel"] |};
  connection_information := Some {|
    ci_network_type := str "IN";
    ci_address_type := str "IP4";
    ci_address := Some {| addr_address := str "0.0.0.0"; addr_ttl := None; addr_range := None |} |};
  media_attributes := [] |}.

Definition base_media (d : Description) : MediaDescription :=
  let m := with_ice_credentials (ufrag (ice d)) (pwd (ice d)) empty_media in
  let '(algorithm, value) := desc_fingerprint d in
  let m := with_fingerprint algorithm value m in
  let m := with_value_attribute ATTR_KEY_CONNECTION_SETUP
             (role_to_string (connection_role (dtls_role d))) m in
  let m := with_value_attribute ATTR_KEY_MID (str "0") m in
  let m := with_value_attribute (str "sctp-port") (dec SCTP_PORT) m in
  with_value_attribute ATTR_KEY_MAX_MESSAGE_SIZE (dec (sctp_max_message_size d)) m.

(** The session-level literal, before [with_media]. *)
Definition session_frame (id : Z) (attributes : list Attribute) : SessionDescription := {|
  version := 0;
  origin := {| username := str "-"; origin_session_id := id; session_version := 2;
               o_network_type := str "IN"; o_address_type := str "IP4";
               unicast_address := str "127.0.0.1" |};
  session_name := str "-";
  time_descriptions := 1;
  session_attributes := attributes;
  media_descriptions := [] |}.

Definition base_attributes (identity : option bytes) : list Attribute :=
  [attr ATTR_KEY_GROUP (str "BUNDLE 0");
   {| attr_key := ATTR_KEY_EXTMAP_ALLOW_MIXED; attr_value := None |};
   attr ATTR_KEY_MSID_SEMANTIC (str " WMS")]
  ++ match identity with Some i => [attr ATTR_KEY_IDENTITY i] | None => [] end.

Definition session (m : MediaDescription) (identity : option bytes) (now : SystemTime)
    : SessionDescription :=
  with_media m (session_frame (session_id now) (base_attributes identity)).

Definition encode_trickle (d : Description) (now : SystemTime) : bytes :=
  let m := with_value_attribute (str "ice-options") (str "trickle") (base_media d) in
  marshal (session m (desc_identity d) now).

Fixpoint add_candidates (index : nat) (cs : list Candidate) (ufrag : bytes) (m : MediaDescription)
    : MediaDescription :=
  match cs with
  | [] => m
  | c :: cs => add_candidates (S index) cs ufrag (with_candidate (attribute_value index c ufrag) m)
  end.

Definition encode_full (d : Description) (cs : list Candidate) (now : SystemTime) : bytes :=
  let m := add_candidates 0 cs (ufrag (ice d)) (base_media d) in
  let m := with_value_attribute ATTR_KEY_END_OF_CANDIDATES [] m in
  marshal (session m (desc_identity d) now).

(** The candidate attributes that parse; the others are skipped. *)
Definition parse_candidates (l : list Attribute) : list Candidate :=
  omap (fun a =>
    if bytes_eqb (attr_key a) (str "candidate")
    then value ← attr_value a; res_ok (parse_ice_candidate value)
    else None) l.

Definition parse_setup (setup : bytes) : Res ProtocolError DtlsRole :=
  if bytes_eqb setup (str "active") then Ok RoleClient
  else if bytes_eqb setup (str "actpass") then Ok RoleServer
  else Err (Other (str "invalid setup attribute: " ++ setup)).

Definition parse_max_message_size (m : MediaDescription) : Res ProtocolError Z :=
  match attribute m ATTR_KEY_MAX_MESSAGE_SIZE with
  | Ok value => ok_or (Other (str "parse max-message-size attribute: ")) (parse_uint u32_max value)
  | _ => Ok SCTP_MAX_MESSAGE_SIZE
  end.

Definition parse_description (sdp : bytes) : Res ProtocolError (Description * list Candidate) :=
  s ← ok_or (Other (str "decode session description: ")) (unmarshal sdp);
  match media_descriptions s with
  | [m] =>
      u ← attribute m (str "ice-ufrag");
      p ← attribute m (str "ice-pwd");
      fingerprint_attr ← attribute m (str "fingerprint");
      '(algorithm, value) ← ok_or (Other (str "invalid fingerprint: " ++ fingerprint_attr))
        (split_once (is_byte space) fingerprint_attr);
      setup ← attribute m ATTR_KEY_CONNECTION_SETUP;
      role ← parse_setup setup;
      size ← parse_max_message_size m;
      Ok ({| ice := {| ufrag := u; pwd := p |}; dtls_role := role;
             desc_fingerprint := (algorithm, value); sctp_max_message_size := size;
             desc_identity := session_attribute s ATTR_KEY_IDENTITY |},
          parse_candidates (media_attributes m))
  | l => Err (Other (str "unexpected number of media descriptions: "
                     ++ dec (Z.of_nat (length l)) ++ str ", expected 1"))
  end.

End webrtc.

(** ** Documented behaviour of the crates *)

(** What an attribute line can carry: no line break, no colon in the name. *)
Definition attr_text (a : Attribute) : Prop :=
  attr_key a <> [] /\ sep_free is_eol (attr_key a) /\ sep_free (is_byte x3a) (attr_key a) /\
  match attr_value a with Some v => sep_free is_eol v | None => True end.

Class SdpLaws (sdp : Sdp) := {
  setup_key : ATTR_KEY_CONNECTION_SETUP = str "setup";
  end_of_candidates_key : ATTR_KEY_END_OF_CANDIDATES = str "end-of-candidates";
  extmap_key : ATTR_KEY_EXTMAP_ALLOW_MIXED = str "extmap-allow-mixed";
  group_key : ATTR_KEY_GROUP = str "group";
  identity_key : ATTR_KEY_IDENTITY = str "identity";
  max_message_size_key : ATTR_KEY_MAX_MESSAGE_SIZE = str "max-message-size";
  mid_key : ATTR_KEY_MID = str "mid";
  msid_key : ATTR_KEY_MSID_SEMANTIC = str "msid-semantic";
  active_text : role_to_string Active = str "active";
  actpass_text : role_to_string Actpass = str "actpass";
  with_value_attribute_spec k v m : with_value_attribute k v m = push_attributes [attr k v] m;
  with_ice_credentials_spec u p m :
    with_ice_credentials u p m
    = push_attributes [attr (str "ice-ufrag") u; attr (str "ice-pwd") p] m;
  with_fingerprint_spec a v m :
    with_fingerprint a v m = push_attributes [attr (str "fingerprint") (a ++ [space] ++ v)] m;
  with_candidate_spec v m :
    with_candidate v m = push_attributes [attr (str "candidate") v] m;
  with_media_spec m s :
    with_media m s
    = {| version := version s; origin := origin s; session_name := session_name s;
         time_descriptions := time_descriptions s; session_attributes := session_attributes s;
         media_descriptions := media_descriptions s ++ [m] |};
  media_attribute_spec m k :
    media_attribute m k = attr_value <$> first_attribute k (media_attributes m);
  session_attribute_spec s k :
    session_attribute s k = first_attribute k (session_attributes s) ≫= attr_value;
  (** A data-channel description of attribute texts survives its text form. *)
  unmarshal_marshal id attributes media_attrs :
    is_u64 id -> Forall attr_text attributes -> Forall attr_text media_attrs ->
    let s := with_media (push_attributes media_attrs empty_media) (session_frame id attributes) in
    exists s', unmarshal (marshal s) = Some s' /\
      session_attributes s' = session_attributes s /\
      media_attributes <$> media_descriptions s' = media_attributes <$> media_descriptions s;
}.

(** A word of a candidate line. *)
Definition word (w : bytes) : Prop := w <> [] /\ sep_free (is_byte space) w /\ sep_free is_eol w.

(** Where a candidate is. *)
Definition endpoint_of `{IceCandidate} (c : Candidate) : bytes * Z :=
  (candidate_address c, candidate_port c).

(** The keys of the extensions that descriptions write. *)
Definition EXTENSION_KEYS : list bytes :=
  [str "generation"; str "ufrag"; str "network-id"; str "network-cost"].

Class IceCandidateLaws (ice : IceCandidate) := {
  candidate_marshal_line c : sep_free is_eol (candidate_marshal c);
  (** A candidate line starts with its foundation, never with the prefix. *)
  candidate_marshal_prefix c rest :
    strip_prefix (str "candidate:") (candidate_marshal c ++ rest) = None;
  (** Pairs of these extensions after the mandatory fields do not change the
      endpoint. *)
  unmarshal_candidate_marshal c (extensions : list (bytes * bytes)) :
    Forall (fun '(k, v) => k ∈ EXTENSION_KEYS /\ word v) extensions ->
    exists c', unmarshal_candidate
        (candidate_marshal c ++ concat ((fun '(k, v) => [space] ++ k ++ [space] ++ v) <$> extensions))
      = Some c' /\ endpoint_of c' = endpoint_of c;
}.

Section roundtrip.
Context {sdp : Sdp} {sdp_laws : SdpLaws sdp} {ice_ops : IceCandidate} {ice_laws : IceCandidateLaws ice_ops}.

(** A description that can be written as SDP text. *)
Definition description_ok (d : Description) : Prop :=
  word (ufrag (ice d)) /\ sep_free is_eol (pwd (ice d)) /\
  sep_free (is_byte space) (desc_fingerprint d).1 /\
  sep_free is_eol (desc_fingerprint d).1 /\ sep_free is_eol (desc_fingerprint d).2 /\
  is_u32 (sctp_max_message_size d) /\
  match desc_identity d with Some i => sep_free is_eol i | None => True end.

(** What the other side reads: [Auto] is announced as [active]. *)
Definition announced (d : Description) : Description :=
  {| ice := ice d;
     dtls_role := match dtls_role d with RoleServer => RoleServer | _ => RoleClient end;
     desc_fingerprint := desc_fingerprint d;
     sctp_max_message_size := sctp_max_message_size d;
     desc_identity := desc_identity d |}.

Definition setup_text (r : DtlsRole) : bytes :=
  match r with RoleServer => str "actpass" | _ => str "active" end.

Definition base_attrs (d : Description) : list Attribute :=
  [attr (str "ice-ufrag") (ufrag (ice d)); attr (str "ice-pwd") (pwd (ice d));
   attr (str "fingerprint") ((desc_fingerprint d).1 ++ [space] ++ (desc_fingerprint d).2);
   attr (str "setup") (setup_text (dtls_role d));
   attr (str "mid") (str "0"); attr (str "sctp-port") (dec SCTP_PORT);
   attr (str "max-message-size") (dec (sctp_max_message_size d))].

Fixpoint candidate_attrs (index : nat) (cs : list Candidate) (u : bytes) : list Attribute :=
  match cs with
  | [] => []
  | c :: cs => attr (str "candidate") (attribute_value index c u) :: candidate_attrs (S index) cs u
  end.

Lemma push_attributes_app a b m :
  push_attributes b (push_attributes a m) = push_attributes (a ++ b) m.
Proof. unfold push_attributes. cbn. by rewrite (assoc_L (++)). Qed.

Lemma base_media_spec d : base_media d = push_attributes (base_attrs d) empty_media.
Proof.
  unfold base_media, base_attrs. destruct (desc_fingerprint d) as [a v].
  rewrite !with_value_attribute_spec, with_fingerprint_spec, with_ice_credentials_spec,
    setup_key, mid_key, max_message_size_key, !push_attributes_app.
  destruct (dtls_role d); cbn [connection_role setup_text];
    rewrite ?active_text, ?actpass_text; reflexivity.
Qed.

Lemma add_candidates_spec cs u : forall i m,
  add_candidates i cs u m = push_attributes (candidate_attrs i cs u) m.
Proof.
  induction cs as [|c cs IH]; intros i m; cbn [add_candidates candidate_attrs].
  { unfold push_attributes. rewrite app_nil_r. by destruct m. }
  by rewrite with_candidate_spec, IH, push_attributes_app.
Qed.

(** ** The attribute texts are clean *)

Lemma sep_free_bool sep a : forallb (fun b => negb (sep b)) a = true -> sep_free sep a.
Proof.
  intros E. apply list.Forall_forall. intros x Hx.
  rewrite forallb_forall in E. apply negb_true_iff, E, list_elem_of_In, Hx.
Qed.

(** Closes a goal about a constant text. *)
Ltac clean := apply sep_free_bool; vm_compute; reflexivity.

Lemma sep_free_dec sep z :
  0 <= z -> (forall b, is_ascii_digit b = true -> sep b = false) -> sep_free sep (dec z).
Proof. intros Hz Hs. eapply Forall_impl; [apply Hs|apply dec_all_digits, Hz]. Qed.

Lemma digit_not_eol b : is_ascii_digit b = true -> is_eol b = false.
Proof. destruct b; vm_compute; done. Qed.

Lemma digit_not_space b : is_ascii_digit b = true -> is_byte space b = false.
Proof. destruct b; vm_compute; done. Qed.

Lemma attr_text_intro k v :
  k <> [] -> forallb (fun b => negb (is_eol b) && negb (is_byte x3a b)) k = true ->
  sep_free is_eol v -> attr_text (attr k v).
Proof.
  intros Hk E Hv. rewrite forallb_forall in E. split; [done|]. split; [|split; [|done]];
    apply list.Forall_forall; intros x Hx; apply list_elem_of_In, E in Hx; to_props; done.
Qed.

Lemma attribute_value_line i c u : word u -> sep_free is_eol (attribute_value i c u).
Proof.
  intros (_ & _ & Hu). unfold attribute_value. rewrite !sep_free_app.
  repeat split; [apply candidate_marshal_line|clean|done|clean|
    apply sep_free_dec; [lia|apply digit_not_eol]|clean].
Qed.

Ltac text := apply attr_text_intro; [done|reflexivity|].

Lemma base_attrs_text d : description_ok d -> Forall attr_text (base_attrs d).
Proof.
  intros ((_ & _ & Hu) & Hp & _ & Ha & Hv & Hsize & _). unfold base_attrs, is_u32 in *.
  repeat (apply list.Forall_cons_2; [text; try done|]); [..|constructor].
  - rewrite !sep_free_app. repeat split; [done|clean|done].
  - destruct (dtls_role d); clean.
  - clean.
  - apply sep_free_dec; [unfold SCTP_PORT; lia|apply digit_not_eol].
  - apply sep_free_dec; [lia|apply digit_not_eol].
Qed.

Lemma candidate_attrs_text u cs : word u -> forall i, Forall attr_text (candidate_attrs i cs u).
Proof.
  intros Hu. induction cs as [|c cs IH]; intros i; cbn [candidate_attrs]; constructor; [|done].
  text. by apply attribute_value_line.
Qed.

Lemma base_attributes_text o :
  match o with Some i => sep_free is_eol i | None => True end ->
  Forall attr_text (base_attributes o).
Proof.
  intros Ho. unfold base_attributes. rewrite group_key, extmap_key, msid_key, identity_key.
  assert (attr_text (attr (str "group") (str "BUNDLE 0"))) by (text; clean).
  assert (attr_text (attr (str "msid-semantic") (str " WMS"))) by (text; clean).
  assert (attr_text {| attr_key := str "extmap-allow-mixed"; attr_value := None |})
    by (repeat split; [done|clean..]).
  repeat (apply list.Forall_cons_2; [done|]). destruct o; cbn [app]; [|constructor].
  apply list.Forall_cons_2; [by text|constructor].
Qed.

Lemma session_id_u64 now : is_u64 (session_id now).
Proof.
  unfold session_id, is_u64. destruct (now <? UNIX_EPOCH); [lia|]. apply Z.mod_pos_bound. lia.
Qed.

(** ** Reading back *)

Lemma word_intro w :
  w <> [] -> forallb (fun b => negb (is_byte space b || is_eol b)) w = true -> word w.
Proof.
  intros Hw E. rewrite forallb_forall in E. split; [done|].
  split; apply list.Forall_forall; intros x Hx; apply list_elem_of_In, E in Hx; to_props; done.
Qed.

Lemma attribute_value_extensions i c u :
  attribute_value i c u = candidate_marshal c ++
    concat ((fun '(k, v) => [space] ++ k ++ [space] ++ v) <$>
      [(str "generation", str "0"); (str "ufrag", u); (str "network-id", dec (Z.of_nat i));
       (str "network-cost", str "0")]).
Proof.
  unfold attribute_value. cbn [concat fmap list_fmap]. rewrite <- !(assoc_L (++)). reflexivity.
Qed.

Lemma parse_ice_candidate_attribute i c u :
  word u -> exists c', parse_ice_candidate (attribute_value i c u) = Ok c' /\
    parse_ice_candidate (format_ice_candidate i c u) = Ok c' /\ endpoint_of c' = endpoint_of c.
Proof.
  intros Hu.
  assert (word (dec (Z.of_nat i))) as Hi.
  { split; [apply dec_not_nil|]. split; apply sep_free_dec; try lia;
      [apply digit_not_space|apply digit_not_eol]. }
  edestruct (unmarshal_candidate_marshal c
    [(str "generation", str "0"); (str "ufrag", u); (str "network-id", dec (Z.of_nat i));
     (str "network-cost", str "0")]) as (c' & Hc' & Hend).
  { assert (forall k v, existsb (bytes_eqb k) EXTENSION_KEYS = true -> word v -> k ∈ EXTENSION_KEYS /\ word v) as Hk.
    { intros k v (x & Hx%list_elem_of_In & ->%bool_decide_eq_true)%existsb_exists Hv. by split. }
    repeat (apply list.Forall_cons_2; [apply Hk; [reflexivity|first [done|by apply word_intro]]|]). constructor. }
  rewrite <- attribute_value_extensions in Hc'.
  exists c'. unfold parse_ice_candidate, format_ice_candidate. rewrite strip_prefix_app, Hc'.
  split; [|done]. unfold attribute_value at 1. rewrite candidate_marshal_prefix.
  by rewrite Hc'.
Qed.

Lemma parse_candidates_attrs u cs : word u -> forall i, exists cs',
  parse_candidates (candidate_attrs i cs u) = cs' /\ endpoint_of <$> cs' = endpoint_of <$> cs.
Proof.
  intros Hu. induction cs as [|c cs IH]; intros i; [by exists []|].
  destruct (parse_ice_candidate_attribute i c u Hu) as (c' & Hc & _ & He).
  destruct (IH (S i)) as (cs' & Hcs & Hes).
  exists (c' :: cs'). split; [|cbn [fmap list_fmap]; congruence].
  cbn [candidate_attrs parse_candidates omap list_omap attr attr_key attr_value].
  rewrite <- Hcs. unfold parse_candidates.
  destruct (bytes_eqb (str "candidate") (str "candidate")) eqn:E; [|done].
  cbn [mbind option_bind]. by rewrite Hc.
Qed.

Lemma parse_candidates_app a b :
  parse_candidates (a ++ b) = parse_candidates a ++ parse_candidates b.
Proof. apply omap_app. Qed.

Lemma parse_candidates_base d : parse_candidates (base_attrs d) = [].
Proof. reflexivity. Qed.

(** What parsing the description of given media attributes yields. *)
Lemma parse_described d id tail :
  description_ok d -> is_u64 id -> Forall attr_text tail ->
  parse_description (marshal (with_media (push_attributes (base_attrs d ++ tail) empty_media)
                                (session_frame id (base_attributes (desc_identity d)))))
  = Ok (announced d, parse_candidates tail).
Proof.
  intros Hd Hid Htail. pose proof Hd as (_ & _ & Hspace & _ & _ & Hsize & Hi).
  destruct (unmarshal_marshal id (base_attributes (desc_identity d)) (base_attrs d ++ tail))
    as (s' & Hs' & Hattrs & Hmedia); [done|by apply base_attributes_text| |].
  { apply list.Forall_app. split; [by apply base_attrs_text|done]. }
  rewrite with_media_spec in Hattrs, Hmedia.
  cbn [session_attributes media_descriptions session_frame app fmap list_fmap] in Hattrs, Hmedia.
  unfold parse_description. rewrite Hs'. cbn [ok_or]. rewrite res_bind_Ok.
  destruct (media_descriptions s') as [|m [|? ?]]; [discriminate| |discriminate].
  assert (media_attributes m = base_attrs d ++ tail) as Hm by exact (f_equal (hd []) Hmedia).
  clear Hmedia.
  assert (forall k v, first_attribute k (base_attrs d) = Some (attr k v) -> attribute m k = Ok v) as Hat.
  { intros k v E. unfold attribute. rewrite media_attribute_spec, Hm.
    assert (first_attribute k (base_attrs d ++ tail) = Some (attr k v)) as ->; [|done].
    revert E. generalize (base_attrs d). intros l. induction l as [|a l IH]; [done|].
    cbn [app first_attribute]. by destruct (bytes_eqb (attr_key a) k). }
  rewrite (Hat (str "ice-ufrag") _ eq_refl), res_bind_Ok, (Hat (str "ice-pwd") _ eq_refl), res_bind_Ok,
    (Hat (str "fingerprint") ((desc_fingerprint d).1 ++ space :: (desc_fingerprint d).2) eq_refl),
    res_bind_Ok.
  rewrite split_once_app by done. cbn [ok_or]. rewrite res_bind_Ok.
  rewrite setup_key, (Hat (str "setup") _ eq_refl), res_bind_Ok.
  assert (parse_setup (setup_text (dtls_role d)) = Ok (dtls_role (announced d))) as ->
    by (destruct d as [? []]; reflexivity).
  rewrite res_bind_Ok. unfold parse_max_message_size.
  rewrite max_message_size_key, (Hat (str "max-message-size") _ eq_refl), parse_uint_dec by (unfold is_u32, u32_max in *; lia).
  cbn [ok_or]. rewrite res_bind_Ok, Hm, parse_candidates_app, parse_candidates_base.
  rewrite session_attribute_spec, Hattrs. do 3 f_equal.
  unfold announced, base_attributes. rewrite group_key, extmap_key, msid_key, identity_key.
  destruct d as [[? ?] ? [? ?] ? [i|]]; reflexivity.
Qed.

Lemma parse_encoded (d : Description) (cs : list Candidate) (now : SystemTime) :
  description_ok d ->
  (exists cs', parse_description (encode_full d cs now) = Ok (announced d, cs') /\
               endpoint_of <$> cs' = endpoint_of <$> cs) /\
  parse_description (encode_trickle d now) = Ok (announced d, []).
Proof.
  intros Hd. unfold encode_full, encode_trickle, session.
  rewrite add_candidates_spec, base_media_spec, !with_value_attribute_spec, !push_attributes_app,
    end_of_candidates_key.
  assert (attr_text (attr (str "end-of-candidates") [])) by (text; constructor).
  assert (attr_text (attr (str "ice-options") (str "trickle"))) by (text; clean).
  pose proof Hd as (Hu & _). destruct (parse_candidates_attrs _ cs Hu 0) as (cs' & Hcs & He).
  rewrite !parse_described; try done;
    try apply session_id_u64; try (by repeat constructor).
  - split; [|done]. exists cs'. rewrite parse_candidates_app, Hcs, app_nil_r. done.
  - apply list.Forall_app. split; [by apply candidate_attrs_text|by repeat constructor].
Qed.

(** What one peer writes the other reads: parsing the SDP of a description
    gives back its credentials, fingerprint, message size and identity, with the
    setup role as announced; a full description also gives its candidates in
    order, each at its address and port, and a trickle description none. *)
Theorem description_roundtrip (d : Description) (cs : list Candidate) (now : SystemTime) :
  description_ok d ->
  (exists cs', parse_description (encode_full d cs now) = Ok (announced d, cs') /\
               endpoint_of <$> cs' = endpoint_of <$> cs) /\
  parse_description (encode_trickle d now) = Ok (announced d, []).
Proof. apply parse_encoded. Qed.

End roundtrip.

(** ** [certificate.rs] and the fingerprint check of [dtls.rs] *)

(** The certificates of the DTLS crate: a chain of DER texts, and a generator
    drawing from the provider's randomness. *)
Class CertificateOps := {
  Certificate : Type;
  certificate_chain : Certificate -> list bytes;
  CryptoProvider : Type;
  default_provider : option CryptoProvider;
  generate_self_signed : list bytes -> CryptoProvider -> bytes -> option Certificate;
}.

Definition hex_upper (d : Z) : byte :=
  if d <? 10 then byte_of_Z (48 + d) else byte_of_Z (55 + d).

(** [format!("{byte:02X}")]. *)
Definition hex2 (b : byte) : bytes :=
  [hex_upper (Z_of_byte b / 16); hex_upper (Z_of_byte b mod 16)].

Definition colon_hex (digest : bytes) : bytes := intercalate (str ":") (hex2 <$> digest).

Inductive SharedError := ErrFingerprintMismatch.

Section certificate.
Context `{CryptoOps} `{CertificateOps}.

Definition crypto_provider : Res ProtocolError CryptoProvider :=
  ok_or (Other (str "crypto provider: ")) default_provider.

Definition generate_certificate (random : bytes) : Res ProtocolError Certificate :=
  provider ← crypto_provider;
  ok_or (Other (str "generate certificate: "))
    (generate_self_signed [str "nethernet"] provider random).

Definition fingerprint (certificate : Certificate) : Res ProtocolError (bytes * bytes) :=
  der ← ok_or (Other (str "certificate has no DER bytes")) (head (certificate_chain certificate));
  Ok (str "sha-256", colon_hex (sha256 der)).

Definition verify_fingerprint (expected : bytes * bytes) (presented_certs : list bytes)
    : Res SharedError unit :=
  match presented_certs with
  | [] => Err ErrFingerprintMismatch
  | cert :: _ =>
      let hex := colon_hex (sha256 cert) in
      if eq_ignore_ascii_case expected.1 (str "sha-256") && eq_ignore_ascii_case hex expected.2
      then Ok tt else Err ErrFingerprintMismatch
  end.

End certificate.

Definition hex_value (b : byte) : Z :=
  if is_ascii_digit b then Z_of_byte b - 48 else Z_of_byte b - 87.

Fixpoint colon_unhex (s : bytes) : bytes :=
  match s with
  | [a; b] => [byte_of_Z (16 * hex_value a + hex_value b)]
  | a :: b :: _ :: s => byte_of_Z (16 * hex_value a + hex_value b) :: colon_unhex s
  | _ => []
  end.

Lemma hex2_lower b : exists x y, to_ascii_lowercase (hex2 b) = [x; y] /\
  byte_of_Z (16 * hex_value x + hex_value y) = b.
Proof. destruct b; eexists _, _; split; reflexivity. Qed.

Lemma to_ascii_lowercase_app a b :
  to_ascii_lowercase (a ++ b) = to_ascii_lowercase a ++ to_ascii_lowercase b.
Proof. apply fmap_app. Qed.

Lemma colon_unhex_lower digest : colon_unhex (to_ascii_lowercase (colon_hex digest)) = digest.
Proof.
  unfold colon_hex. induction digest as [|b digest IH]; [done|].
  destruct (hex2_lower b) as (x & y & Hxy & Hb).
  destruct digest as [|c digest].
  { cbn [fmap list_fmap intercalate]. rewrite Hxy. cbn [colon_unhex]. by rewrite Hb. }
  change (intercalate (str ":") (hex2 <$> b :: c :: digest))
    with (hex2 b ++ str ":" ++ intercalate (str ":") (hex2 <$> c :: digest)).
  rewrite !to_ascii_lowercase_app, Hxy.
  set (rest := to_ascii_lowercase (intercalate _ _)) in *.
  change (byte_of_Z (16 * hex_value x + hex_value y) :: colon_unhex rest = b :: c :: digest).
  by rewrite Hb, IH.
Qed.

(** Digests with the same text, up to case, are the same. *)
Lemma colon_hex_inj a b : eq_ignore_ascii_case (colon_hex a) (colon_hex b) = true -> a = b.
Proof.
  unfold eq_ignore_ascii_case. intros E.
  assert (to_ascii_lowercase (colon_hex a) = to_ascii_lowercase (colon_hex b)) as E'.
  { revert E. unfold bytes_eqb. by rewrite ?bool_decide_eq_true. }
  by rewrite <- (colon_unhex_lower a), E', colon_unhex_lower.
Qed.

Section pinning.
Context `{CryptoOps} `{CertificateOps}.

(** C39: The DTLS handshake is pinned to the description: against the
    fingerprint a side announces for its certificate, the check accepts a
    presented chain exactly when its first certificate has the SHA-256 digest
    of the announced one. *)
Theorem fingerprint_pins_certificate (certificate : Certificate) (fp : bytes * bytes)
    (presented : list bytes) :
  fingerprint certificate = Ok fp ->
  verify_fingerprint fp presented = Ok tt <->
  exists announced der,
    head (certificate_chain certificate) = Some announced /\
    head presented = Some der /\ sha256 der = sha256 announced.
Proof.
  unfold fingerprint, verify_fingerprint.
  destruct (certificate_chain certificate) as [|first chain]; [done|].
  cbn [head ok_or]. rewrite res_bind_Ok. intros <-%Ok_inj. cbn [fst snd].
  destruct presented as [|der presented]; [naive_solver|]. cbn [head].
  destruct (eq_ignore_ascii_case (str "sha-256") (str "sha-256")) eqn:E1; [|done].
  destruct (eq_ignore_ascii_case (colon_hex (sha256 der)) _) eqn:E2; cbn [andb]; split; try done.
  - intros _. exists first, der. repeat split. by apply colon_hex_inj.
  - intros (a & d & [= ->] & [= ->] & Heq). exfalso. revert E2. rewrite Heq.
    unfold eq_ignore_ascii_case, bytes_eqb. by rewrite ?bool_decide_eq_true_2.
Qed.
End pinning.
