(* ===== verification/WebrtcInstance.v ===== *)
(** * WebrtcInstance: concrete foreign code for the WebRTC theorems

    An SDP text form that is an injective encoding of the attributes, candidates
    that are a port, and certificates that are their own DER text: the laws of
    the crates are satisfiable together, and the theorems apply to a concrete
    description. *)
From S2P Require Import Prelude Text Errors Endpoint Discovery Identity IdentityInstance Webrtc.

Abbreviation flat := (list (bytes * option bytes)).

Definition flatten (l : list Attribute) : flat := (fun a => (attr_key a, attr_value a)) <$> l.
Definition unflatten (l : flat) : list Attribute :=
  (fun '(k, v) => {| attr_key := k; attr_value := v |}) <$> l.

Lemma unflatten_flatten l : unflatten (flatten l) = l.
Proof.
  unfold unflatten, flatten. induction l as [|[k v] l IH]; [done|]. cbn. by f_equal.
Qed.

Definition toy_marshal (s : SessionDescription) : bytes :=
  digits_of_pos (countable.encode
    (flatten (session_attributes s), flatten ∘ media_attributes <$> media_descriptions s)).

Definition toy_unmarshal (s : bytes) : option SessionDescription :=
  '(a, ms) ← countable.decode (A := flat * list flat) (pos_of_digits s);
  Some {| version := 0;
          origin := origin (session_frame 0 []); session_name := str "-"; time_descriptions := 1;
          session_attributes := unflatten a;
          media_descriptions := (fun l => push_attributes (unflatten l) empty_media) <$> ms |}.

#[global] Instance toy_sdp : Sdp := {|
  ATTR_KEY_CONNECTION_SETUP := str "setup";
  ATTR_KEY_END_OF_CANDIDATES := str "end-of-candidates";
  ATTR_KEY_EXTMAP_ALLOW_MIXED := str "extmap-allow-mixed";
  ATTR_KEY_GROUP := str "group";
  ATTR_KEY_IDENTITY := str "identity";
  ATTR_KEY_MAX_MESSAGE_SIZE := str "max-message-size";
  ATTR_KEY_MID := str "mid";
  ATTR_KEY_MSID_SEMANTIC := str "msid-semantic";
  role_to_string r := match r with Active => str "active" | Actpass => str "actpass" end;
  with_value_attribute k v := push_attributes [attr k v];
  with_ice_credentials u p := push_attributes [attr (str "ice-ufrag") u; attr (str "ice-pwd") p];
  with_fingerprint a v := push_attributes [attr (str "fingerprint") (a ++ [space] ++ v)];
  with_candidate v := push_attributes [attr (str "candidate") v];
  with_media m s :=
    {| version := version s; origin := origin s; session_name := session_name s;
       time_descriptions := time_descriptions s; session_attributes := session_attributes s;
       media_descriptions := media_descriptions s ++ [m] |};
  media_attribute m k := attr_value <$> first_attribute k (media_attributes m);
  session_attribute s k := first_attribute k (session_attributes s) ≫= attr_value;
  marshal := toy_marshal;
  unmarshal := toy_unmarshal;
|}.

#[global] Instance toy_sdp_laws : SdpLaws toy_sdp.
Proof.
  constructor; try reflexivity. intros id attributes attrs _ _ _. cbv zeta. eexists. split.
  - cbn [unmarshal marshal toy_sdp]. unfold toy_unmarshal, toy_marshal.
    rewrite pos_of_digits_of_pos, countable.decode_encode. reflexivity.
  - cbn. by rewrite !unflatten_flatten.
Qed.

Fixpoint until_space (s : bytes) : bytes :=
  match s with
  | [] => []
  | b :: s => if is_byte space b then [] else b :: until_space s
  end.

#[global] Instance toy_candidates : IceCandidate := {|
  Candidate := positive;
  candidate_address _ := str "192.168.1.10";
  candidate_port p := Z.pos p;
  candidate_marshal p := x31 :: digits_of_pos p;
  unmarshal_candidate s :=
    match until_space s with _ :: w => Some (pos_of_digits w) | [] => None end;
|}.

Lemma digits_plain p : Forall (fun b => b = x30 \/ b = x31) (digits_of_pos p).
Proof. induction p; cbn [digits_of_pos]; constructor; auto. Qed.

Lemma until_space_digits p s :
  (s = [] \/ exists r, s = space :: r) -> until_space (digits_of_pos p ++ s) = digits_of_pos p.
Proof.
  intros Hs. induction (digits_plain p) as [|b l Hb _ IH].
  - by destruct Hs as [->|[? ->]].
  - destruct Hb as [-> | ->]; cbn; by rewrite IH.
Qed.

#[global] Instance toy_candidates_laws : IceCandidateLaws toy_candidates.
Proof.
  constructor.
  - intros p. cbn. constructor; [done|]. eapply Forall_impl; [|apply digits_plain].
    by intros b [-> | ->].
  - reflexivity.
  - intros p exts _. exists p. cbn [candidate_marshal toy_candidates unmarshal_candidate app until_space].
    cbn [is_byte byte_eqb]. change (is_byte space x31) with false. cbn iota.
    rewrite until_space_digits; [by rewrite pos_of_digits_of_pos|].
    destruct exts as [|[k v] exts]; [by left|right]. by eexists.
Qed.

#[global] Instance toy_certificates : CertificateOps := {|
  Certificate := list bytes;
  certificate_chain c := c;
  CryptoProvider := unit;
  default_provider := Some tt;
  generate_self_signed names _ random := Some [concat names ++ random];
|}.

(** ** Witnesses *)

Definition sample_description : Description := {|
  ice := {| ufrag := str "abcd"; pwd := str "secret" |};
  dtls_role := RoleAuto;
  desc_fingerprint := (str "sha-256", str "AB:CD");
  sctp_max_message_size := LOCAL_SCTP_MAX_MESSAGE_SIZE;
  desc_identity := None;
|}.

Definition sample_candidates : list (@Candidate toy_candidates) := [5; 7]%positive.

Lemma sample_description_ok : description_ok sample_description.
Proof.
  repeat split; try (apply sep_free_bool; reflexivity); try done; vm_compute; congruence.
Qed.

Lemma description_roundtrip_witness :
  description_ok sample_description /\
  (exists cs', parse_description (encode_full sample_description sample_candidates 12) =
      Ok (announced sample_description, cs') /\
      endpoint_of <$> cs' = endpoint_of <$> sample_candidates) /\
  parse_description (encode_trickle sample_description 12) = Ok (announced sample_description, []).
Proof.
  split; [apply sample_description_ok|].
  apply (description_roundtrip sample_description sample_candidates 12), sample_description_ok.
Defined.

#[local] Existing Instance toy_crypto.

Lemma fingerprint_pins_certificate_witness :
  verify_fingerprint (str "sha-256", colon_hex (sha256 (str "cert"))) [str "cert"] = Ok tt.
Proof.
  apply (fingerprint_pins_certificate ([str "cert"] : @Certificate toy_certificates)); [reflexivity|].
  exists (str "cert"), (str "cert"). repeat split.
Defined.
