(* ===== verification/Transports.v ===== *)
(** * Transports: the ICE, DTLS and SCTP layers of a session
    ([session/{ice,dtls,sctp,dcep}.rs])

    The crates below the layers are classes.  A foreign object is a type, a
    [&mut self] method is a state transformer ([SE], with the error reduced to
    [tt], since only its text is used), and a [poll] method returns an option
    with the new state.  Each queue that the session drains in a loop comes
    with a measure, the number of items it can still yield; the loops take it
    as fuel, and the laws say that a poll that yields something lowers it. *)
From S2P Require Import Prelude Text Errors Endpoint Discovery Identity Webrtc.

(** ** Combinators *)

(** A foreign error becomes [ProtocolError::Other] of its text, left out here. *)
Definition foreign {S A} (m : SE S unit A) : SE S ProtocolError A := fun s =>
  let '(r, s') := m s in (map_err (fun _ => Other []) r, s').

Definition lift_res {S E A} (r : Res E A) : SE S E A := fun s => (r, s).
Definition modify {S E} (f : S -> S) : SE S E unit := fun s => (Ok tt, f s).
Definition gets {S E A} (f : S -> A) : SE S E A := fun s => (Ok (f s), s).

(** [if let Ok(x) = m]: the error is dropped, a panic is not. *)
Definition attempt {S E F A} (m : SE S E A) : SE S F (option A) := fun s =>
  match m s with
  | (Ok a, s') => (Ok (Some a), s')
  | (Err _, s') => (Ok None, s')
  | (Panic, s') => (Panic, s')
  end.

(** A [poll] method as a computation that cannot fail. *)
Definition polls {S E A} (p : S -> option A * S) : SE S E (option A) := fun s =>
  let '(o, s') := p s in (Ok o, s').

(** [while let Some(x) = m.poll()], the items in order. *)
Fixpoint drain {S A} (p : S -> option A * S) (fuel : nat) (s : S) : list A * S :=
  match fuel with
  | O => ([], s)
  | S fuel =>
      match p s with
      | (None, s') => ([], s')
      | (Some a, s') => let '(l, s'') := drain p fuel s' in (a :: l, s'')
      end
  end.

(** A queue with [measure s] items at most. *)
Definition drains {S A} (p : S -> option A * S) (measure : S -> nat) : Prop :=
  forall s a s', p s = (Some a, s') -> (measure s' < measure s)%nat.

Lemma drain_complete {S A} (p : S -> option A * S) measure :
  drains p measure -> forall fuel s, (measure s < fuel)%nat ->
  exists s1 l, drain p fuel s = (l, (p s1).2) /\ (p s1).1 = None.
Proof.
  intros Hp. induction fuel as [|fuel IH]; intros s Hs; [lia|]. cbn [drain].
  destruct (p s) as [[a|] s'] eqn:E.
  - pose proof (Hp _ _ _ E). destruct (IH s') as (s1 & l & -> & Hn); [lia|]. by eexists _, _.
  - exists s, []. by rewrite E.
Qed.

(** ** The ICE crate *)

Inductive CandidateType := TypeHost.
Inductive NetworkType := Udp4 | Udp6.

Record AgentConfig := {
  config_ufrag : bytes; config_pwd : bytes; config_controlling : bool;
  candidate_types : list CandidateType; network_types : list NetworkType }.

Record CandidateConfig := { network : bytes; cfg_address : bytes; cfg_port : Z; component : Z }.

Inductive IceConnectionState := IceFailed | IceDisconnected | IceClosed | IceOtherState.
Inductive IceEvent := ConnectionStateChange (state : IceConnectionState) | IceOtherEvent.

Class IceOps `{IceCandidate} `{CertificateOps} := {
  Agent : Type;
  agent_new : Instant -> AgentConfig -> CryptoProvider -> option Agent;
  new_candidate_host : CandidateConfig -> option Candidate;
  add_local_candidate : Candidate -> SE Agent unit unit;
  get_local_credentials : Agent -> Credentials;
  get_local_candidates : Agent -> list Candidate;
  agent_set_remote_credentials : bytes -> bytes -> SE Agent unit unit;
  agent_add_remote_candidate : Candidate -> SE Agent unit bool;
  is_stun_message : bytes -> bool;
  agent_handle_read : Instant -> SocketAddr -> SocketAddr -> bytes -> SE Agent unit unit;
  agent_poll_write : Agent -> option (bytes * SocketAddr) * Agent;
  agent_poll_event : Agent -> option IceEvent * Agent;
  agent_handle_timeout : Instant -> SE Agent unit unit;
  agent_poll_timeout : Agent -> option Instant * Agent;
  get_selected_candidate_pair : Agent -> option (Candidate * Candidate);
  candidate_addr : Candidate -> SocketAddr;
  agent_writes : Agent -> nat;
  agent_events : Agent -> nat;
}.

Class IceLaws `(ops : IceOps) := {
  agent_writes_drain : drains agent_poll_write agent_writes;
  agent_events_drain : drains agent_poll_event agent_events;
}.

(** ** [ice.rs] *)

Section ice.
Context `{IceOps}.

Record IceLayer := { agent : Agent; ice_local_addr : SocketAddr }.

Definition on_agent {E A} (m : SE Agent E A) : SE IceLayer E A := fun l =>
  let '(r, a) := m (agent l) in (r, {| agent := a; ice_local_addr := ice_local_addr l |}).

(** The announced addresses: the local one first, no address twice. *)
Fixpoint announce (announced advertised : list IpAddr) : list IpAddr :=
  match advertised with
  | [] => announced
  | i :: advertised =>
      announce (if bool_decide (i ∈ announced) then announced else announced ++ [i]) advertised
  end.

Fixpoint add_hosts (local_addr : SocketAddr) (ips : list IpAddr) : SE Agent ProtocolError unit :=
  match ips with
  | [] => mret tt
  | i :: ips =>
      c ← lift_res (ok_or (Other []) (new_candidate_host
            {| network := str "udp"; cfg_address := show_ip i; cfg_port := port local_addr;
               component := 1 |}));
      _ ← foreign (add_local_candidate c);
      add_hosts local_addr ips
  end.

(** [ufrag] and [pwd] are the random credentials drawn. *)
Definition ice_with_advertised (local_addr : SocketAddr) (advertised : list IpAddr)
    (is_controlling : bool) (ufrag pwd : bytes) (now : Instant) : Res ProtocolError IceLayer :=
  let config := {| config_ufrag := ufrag; config_pwd := pwd; config_controlling := is_controlling;
                   candidate_types := [TypeHost]; network_types := [Udp4; Udp6] |} in
  provider ← crypto_provider;
  a ← ok_or (Other []) (agent_new now config provider);
  match add_hosts local_addr (announce [ip local_addr] advertised) a with
  | (Ok _, a) => Ok {| agent := a; ice_local_addr := local_addr |}
  | (Err e, _) => Err e
  | (Panic, _) => Panic
  end.

Definition local_credentials (l : IceLayer) : Credentials := get_local_credentials (agent l).

(** Indexing panics when there is no candidate. *)
Definition ice_local_candidate (l : IceLayer) : Res ProtocolError Candidate :=
  match get_local_candidates (agent l) with c :: _ => Ok c | [] => Panic end.

Definition ice_local_candidates (l : IceLayer) : list Candidate := get_local_candidates (agent l).

Definition set_remote_credentials (ufrag pwd : bytes) : SE IceLayer ProtocolError unit :=
  on_agent (foreign (agent_set_remote_credentials ufrag pwd)).

Definition ice_add_remote_candidate (c : Candidate) : SE IceLayer ProtocolError unit :=
  _ ← on_agent (foreign (agent_add_remote_candidate c)); mret tt.

Definition is_stun_packet (data : bytes) : bool := is_stun_message data.

Definition ice_handle_read (data : bytes) (from : SocketAddr) (now : Instant)
    : SE IceLayer ProtocolError bool :=
  if negb (is_stun_packet data) then mret false
  else fun l =>
    (_ ← on_agent (foreign (agent_handle_read now (ice_local_addr l) from data)); mret true) l.

Definition ice_poll_write (l : IceLayer) : option (bytes * SocketAddr) * IceLayer :=
  let '(o, a) := agent_poll_write (agent l) in
  (o, {| agent := a; ice_local_addr := ice_local_addr l |}).

Definition ice_poll_event (l : IceLayer) : option IceEvent * IceLayer :=
  let '(o, a) := agent_poll_event (agent l) in
  (o, {| agent := a; ice_local_addr := ice_local_addr l |}).

Definition ice_handle_timeout (now : Instant) : SE IceLayer ProtocolError unit :=
  on_agent (foreign (agent_handle_timeout now)).

Definition ice_poll_timeout (l : IceLayer) : option Instant * IceLayer :=
  let '(o, a) := agent_poll_timeout (agent l) in
  (o, {| agent := a; ice_local_addr := ice_local_addr l |}).

Definition selected_remote_addr (l : IceLayer) : option SocketAddr :=
  (fun '(_, remote) => candidate_addr remote) <$> get_selected_candidate_pair (agent l).

End ice.

(** ** The DTLS crate *)

Inductive ClientAuthType := RequireAnyClientCert.
Inductive SrtpProtectionProfile :=
  Srtp_Aead_Aes_256_Gcm | Srtp_Aead_Aes_128_Gcm | Srtp_Aes128_Cm_Hmac_Sha1_80.

Inductive EndpointEvent := ApplicationData (data : bytes) | OtherEndpointEvent.

(** What the source sets on the configuration builder. *)
Record ConfigBuilder `{CertificateOps} := {
  builder_provider : CryptoProvider;
  builder_certificates : list Certificate;
  insecure_skip_verify : bool;
  client_auth : ClientAuthType;
  verify_peer_certificate : list bytes -> Res SharedError unit;
  srtp_protection_profiles : list SrtpProtectionProfile;
}.

Class DtlsOps `{CertificateOps} := {
  DtlsConfig : Type;
  DtlsEndpoint : Type;
  dtls_build : ConfigBuilder -> bool -> SocketAddr -> option DtlsConfig;
  dtls_endpoint_new : SocketAddr -> option DtlsConfig -> DtlsEndpoint;
  dtls_endpoint_connect : Instant -> SocketAddr -> DtlsConfig -> SE DtlsEndpoint unit unit;
  dtls_endpoint_read :
    Instant -> SocketAddr -> bytes -> SE DtlsEndpoint unit (list EndpointEvent);
  dtls_endpoint_write : Instant -> SocketAddr -> bytes -> SE DtlsEndpoint unit unit;
  dtls_endpoint_poll_transmit : DtlsEndpoint -> option (bytes * SocketAddr) * DtlsEndpoint;
  dtls_endpoint_handle_timeout : SocketAddr -> Instant -> SE DtlsEndpoint unit unit;
  dtls_endpoint_poll_timeout : DtlsEndpoint -> SocketAddr -> option Instant;
  dtls_transmits : DtlsEndpoint -> nat;
}.

Class DtlsLaws `(ops : DtlsOps) := {
  dtls_transmits_drain : drains dtls_endpoint_poll_transmit dtls_transmits;
}.

(** ** [dtls.rs] *)

Inductive ResolvedRole := ResolvedClient | ResolvedServer.
#[global] Instance ResolvedRole_eq_dec : EqDecision ResolvedRole.
Proof. solve_decision. Defined.

Definition from_remote_announced (remote : DtlsRole) : ResolvedRole :=
  match remote with
  | RoleClient => ResolvedServer
  | RoleServer | RoleAuto => ResolvedClient
  end.

Section dtls.
Context `{CryptoOps} `{DtlsOps}.

Record DtlsLayer := { dtls_endpoint : DtlsEndpoint; dtls_remote_addr : SocketAddr }.

Definition on_endpoint {E A} (m : SE DtlsEndpoint E A) : SE DtlsLayer E A := fun l =>
  let '(r, e) := m (dtls_endpoint l) in
  (r, {| dtls_endpoint := e; dtls_remote_addr := dtls_remote_addr l |}).

Definition dtls_new (local_addr remote_addr : SocketAddr) (role : ResolvedRole)
    (certificate : Certificate) (remote_fingerprint : bytes * bytes) (now : Instant)
    : Res ProtocolError DtlsLayer :=
  let is_client := bool_decide (role = ResolvedClient) in
  provider ← crypto_provider;
  config ← ok_or (Other (str "build DTLS config: "))
    (dtls_build {|
       builder_provider := provider;
       builder_certificates := [certificate];
       insecure_skip_verify := true;
       client_auth := RequireAnyClientCert;
       verify_peer_certificate := verify_fingerprint remote_fingerprint;
       srtp_protection_profiles :=
         [Srtp_Aead_Aes_256_Gcm; Srtp_Aead_Aes_128_Gcm; Srtp_Aes128_Cm_Hmac_Sha1_80] |}
     is_client remote_addr);
  let endpoint := dtls_endpoint_new local_addr (if negb is_client then Some config else None) in
  if is_client then
    match dtls_endpoint_connect now remote_addr config endpoint with
    | (Ok _, endpoint) => Ok {| dtls_endpoint := endpoint; dtls_remote_addr := remote_addr |}
    | (Err _, _) => Err (Other (str "start DTLS handshake: "))
    | (Panic, _) => Panic
    end
  else Ok {| dtls_endpoint := endpoint; dtls_remote_addr := remote_addr |}.

Definition dtls_handle_read (data : bytes) (now : Instant)
    : SE DtlsLayer ProtocolError (list EndpointEvent) := fun l =>
  on_endpoint (foreign (dtls_endpoint_read now (dtls_remote_addr l) data)) l.

Definition dtls_write (data : bytes) (now : Instant) : SE DtlsLayer ProtocolError unit := fun l =>
  on_endpoint (foreign (dtls_endpoint_write now (dtls_remote_addr l) data)) l.

Definition dtls_poll_transmit (l : DtlsLayer) : option (bytes * SocketAddr) * DtlsLayer :=
  let '(o, e) := dtls_endpoint_poll_transmit (dtls_endpoint l) in
  (o, {| dtls_endpoint := e; dtls_remote_addr := dtls_remote_addr l |}).

(** The endpoint's error is ignored. *)
Definition dtls_handle_timeout (now : Instant) : SE DtlsLayer ProtocolError unit := fun l =>
  (_ ← on_endpoint (attempt (dtls_endpoint_handle_timeout (dtls_remote_addr l) now)); mret tt) l.

Definition dtls_poll_timeout (l : DtlsLayer) : option Instant :=
  dtls_endpoint_poll_timeout (dtls_endpoint l) (dtls_remote_addr l).

End dtls.

(** ** The SCTP crate *)

Abbreviation StreamId := Z.

Inductive PayloadProtocolIdentifier := Dcep | Binary | OtherPpi.
Inductive SctpEvent := SctpConnected | HandshakeFailed | AssociationLost | OtherSctpEvent.
Inductive Payload := RawEncode (packets : list bytes) | OtherPayload.

(** [TransportConfig::default] with the two settings of the source. *)
Record TransportConfig := { cfg_sctp_port : Z; cfg_max_message_size : Z }.

Inductive DatagramEvent (assoc event : Type) :=
| NewAssociation (a : assoc)
| AssociationEvent (e : event)
| OtherDatagramEvent.
Arguments NewAssociation {assoc event} a.
Arguments AssociationEvent {assoc event} e.
Arguments OtherDatagramEvent {assoc event}.

Class SctpOps := {
  SctpEndpoint : Type;
  AssociationHandle : Type;
  Association : Type;
  AssocEvent : Type;
  SctpEndpointEvent : Type;
  Chunks : Type;
  sctp_endpoint_new : SocketAddr -> option TransportConfig -> SctpEndpoint;
  sctp_endpoint_connect : Instant -> TransportConfig -> SocketAddr
    -> SE SctpEndpoint unit (AssociationHandle * Association);
  sctp_endpoint_handle : Instant -> SocketAddr -> bytes -> SctpEndpoint
    -> option (AssociationHandle * DatagramEvent Association AssocEvent) * SctpEndpoint;
  sctp_endpoint_handle_event :
    AssociationHandle -> SctpEndpointEvent -> SctpEndpoint -> SctpEndpoint;
  assoc_handle_event : AssocEvent -> Association -> Association;
  assoc_rtt : Association -> Duration;
  assoc_poll_transmit : Instant -> Association -> option Payload * Association;
  assoc_poll : Association -> option SctpEvent * Association;
  assoc_handle_timeout : Instant -> Association -> Association;
  assoc_poll_endpoint_event : Association -> option SctpEndpointEvent * Association;
  assoc_poll_timeout : Association -> option Instant;
  open_stream : StreamId -> PayloadProtocolIdentifier -> SE Association unit unit;
  (** Whether [Association::stream] finds the stream. *)
  has_stream : StreamId -> Association -> bool;
  accept_stream : Association -> option StreamId * Association;
  stream_read : StreamId -> SE Association unit (option Chunks);
  stream_write : StreamId -> Instant -> bytes -> PayloadProtocolIdentifier
    -> SE Association unit unit;
  chunks_ppi : Chunks -> PayloadProtocolIdentifier;
  chunks_to_payload : Chunks -> Z -> option bytes;
  assoc_transmits : Association -> nat;
  assoc_events : Association -> nat;
  assoc_endpoint_events : Association -> nat;
  assoc_accepts : Association -> nat;
  assoc_reads : Association -> nat;
}.

Class SctpLaws (ops : SctpOps) := {
  assoc_endpoint_events_drain : drains assoc_poll_endpoint_event assoc_endpoint_events;
  assoc_events_drain : drains assoc_poll assoc_events;
  assoc_accepts_drain : drains accept_stream assoc_accepts;
  (** The measure of transmissions counts packets. *)
  assoc_transmits_drain now a packets a' :
    assoc_poll_transmit now a = (Some (RawEncode packets), a') ->
    (assoc_transmits a' + length packets <= assoc_transmits a)%nat;
  stream_read_drain sid a c a' :
    stream_read sid a = (Ok (Some c), a') -> (assoc_reads a' < assoc_reads a)%nat;
  (** Reading and writing a stream announce no stream, opening one raises no event. *)
  stream_read_accepts sid a : (assoc_accepts (stream_read sid a).2 <= assoc_accepts a)%nat;
  stream_write_accepts sid now d p a :
    (assoc_accepts (stream_write sid now d p a).2 <= assoc_accepts a)%nat;
  open_stream_events sid p a : (assoc_events (open_stream sid p a).2 <= assoc_events a)%nat;
  stream_write_events sid now d p a :
    (assoc_events (stream_write sid now d p a).2 <= assoc_events a)%nat;
}.

(** ** [sctp.rs] *)

Section sctp.
Context `{SctpOps}.

Record SctpLayer := {
  sctp_endpoint : SctpEndpoint;
  sctp_remote_addr : SocketAddr;
  association : option (AssociationHandle * Association);
  pending_transmits : list bytes;
}.

Definition set_sctp_endpoint (e : SctpEndpoint) (l : SctpLayer) : SctpLayer := {|
  sctp_endpoint := e; sctp_remote_addr := sctp_remote_addr l; association := association l;
  pending_transmits := pending_transmits l |}.
Definition set_association (a : option (AssociationHandle * Association)) (l : SctpLayer)
    : SctpLayer := {|
  sctp_endpoint := sctp_endpoint l; sctp_remote_addr := sctp_remote_addr l; association := a;
  pending_transmits := pending_transmits l |}.
Definition set_pending_transmits (p : list bytes) (l : SctpLayer) : SctpLayer := {|
  sctp_endpoint := sctp_endpoint l; sctp_remote_addr := sctp_remote_addr l;
  association := association l; pending_transmits := p |}.

Definition sctp_new (local_addr remote_addr : SocketAddr) (role : ResolvedRole)
    (max_message_size : Z) (now : Instant) : Res ProtocolError SctpLayer :=
  let transport := {| cfg_sctp_port := SCTP_PORT; cfg_max_message_size := max_message_size |} in
  let endpoint := sctp_endpoint_new local_addr
    (if bool_decide (role = ResolvedServer) then Some transport else None) in
  if bool_decide (role = ResolvedClient) then
    match sctp_endpoint_connect now transport remote_addr endpoint with
    | (Ok assoc, endpoint) =>
        Ok {| sctp_endpoint := endpoint; sctp_remote_addr := remote_addr;
              association := Some assoc; pending_transmits := [] |}
    | (Err _, _) => Err (Other [])
    | (Panic, _) => Panic
    end
  else Ok {| sctp_endpoint := endpoint; sctp_remote_addr := remote_addr; association := None;
             pending_transmits := [] |}.

Definition sctp_handle_read (data : bytes) (now : Instant) (l : SctpLayer) : SctpLayer :=
  let '(o, e) := sctp_endpoint_handle now (sctp_remote_addr l) data (sctp_endpoint l) in
  let l := set_sctp_endpoint e l in
  match o with
  | None => l
  | Some (handle, NewAssociation assoc) => set_association (Some (handle, assoc)) l
  | Some (_, AssociationEvent event) =>
      match association l with
      | Some (h, assoc) => set_association (Some (h, assoc_handle_event event assoc)) l
      | None => l
      end
  | Some (_, OtherDatagramEvent) => l
  end.

Definition association_mut (l : SctpLayer) : option Association := snd <$> association l.

(** Writing back through [association_mut]. *)
Definition put_association (a : Association) (l : SctpLayer) : SctpLayer :=
  match association l with
  | Some (h, _) => set_association (Some (h, a)) l
  | None => l
  end.

Definition sctp_rtt (l : SctpLayer) : option Duration := assoc_rtt <$> association_mut l.

Definition sctp_poll_transmit (now : Instant) (l : SctpLayer) : option bytes * SctpLayer :=
  match pending_transmits l with
  | data :: pending => (Some data, set_pending_transmits pending l)
  | [] =>
      match association_mut l with
      | None => (None, l)
      | Some assoc =>
          let '(transmit, assoc) := assoc_poll_transmit now assoc in
          let l := put_association assoc l in
          match transmit with
          | Some (RawEncode (data :: packets)) => (Some data, set_pending_transmits packets l)
          | _ => (None, l)
          end
      end
  end.

Definition sctp_poll_event (l : SctpLayer) : option SctpEvent * SctpLayer :=
  match association_mut l with
  | None => (None, l)
  | Some assoc => let '(o, assoc) := assoc_poll assoc in (o, put_association assoc l)
  end.

Definition sctp_handle_timeout (now : Instant) (l : SctpLayer) : SctpLayer :=
  match association l with
  | None => l
  | Some (handle, assoc) =>
      let assoc := assoc_handle_timeout now assoc in
      let '(events, assoc) :=
        drain assoc_poll_endpoint_event (S (assoc_endpoint_events assoc)) assoc in
      set_sctp_endpoint
        (fold_left (fun e event => sctp_endpoint_handle_event handle event e) events
           (sctp_endpoint l))
        (set_association (Some (handle, assoc)) l)
  end.

Definition sctp_poll_timeout (l : SctpLayer) : option Instant :=
  association_mut l ≫= assoc_poll_timeout.

End sctp.

(** ** [dcep.rs] *)

Inductive ChannelType := ChannelReliable | PartialReliableRexmitUnordered.

Record DataChannelOpen := {
  channel_type : ChannelType; priority : Z; reliability_parameter : Z;
  label : bytes; open_protocol : bytes }.

Inductive DcepMessage := MessageOpen (open : DataChannelOpen) | MessageAck | OtherDcepMessage.

Class DcepOps := {
  CHANNEL_PRIORITY_NORMAL : Z;
  dcep_marshal : DcepMessage -> option bytes;
  dcep_unmarshal : bytes -> option DcepMessage;
}.

Class DcepLaws (ops : DcepOps) := {
  dcep_unmarshal_marshal m d : dcep_marshal m = Some d -> dcep_unmarshal d = Some m;
}.

Definition RELIABLE_CHANNEL_LABEL : bytes := str "ReliableDataChannel".
Definition UNRELIABLE_CHANNEL_LABEL : bytes := str "UnreliableDataChannel".

Section dcep.
Context `{DcepOps}.

Definition reliable_open : DataChannelOpen := {|
  channel_type := ChannelReliable; priority := CHANNEL_PRIORITY_NORMAL; reliability_parameter := 0;
  label := RELIABLE_CHANNEL_LABEL; open_protocol := [] |}.

Definition unreliable_open : DataChannelOpen := {|
  channel_type := PartialReliableRexmitUnordered; priority := CHANNEL_PRIORITY_NORMAL;
  reliability_parameter := 0; label := UNRELIABLE_CHANNEL_LABEL; open_protocol := [] |}.

Definition encode_open (open : DataChannelOpen) : Res ProtocolError bytes :=
  ok_or (Other (str "encode DATA_CHANNEL_OPEN: ")) (dcep_marshal (MessageOpen open)).

Definition encode_ack : Res ProtocolError bytes :=
  ok_or (Other (str "encode DATA_CHANNEL_ACK: ")) (dcep_marshal MessageAck).

Definition dcep_decode (data : bytes) : Res ProtocolError DcepMessage :=
  ok_or (Other (str "decode DCEP: ")) (dcep_unmarshal data).

End dcep.

(** ** Two-state properties of computations *)

(** [m] moves the state along [R], whatever it returns. *)
Definition steps {S E A} (R : relation S) (m : SE S E A) : Prop := forall s, R s (m s).2.

Section steps.
Context {S E : Type} (R : relation S) `{!PreOrder R}.

Lemma steps_ret {A} (a : A) : steps R (mret a : SE S E A).
Proof. intros s. reflexivity. Qed.

Lemma steps_lift {A} (r : Res E A) : steps R (lift_res r).
Proof. intros s. reflexivity. Qed.

Lemma steps_modify (f : S -> S) : (forall s, R s (f s)) -> steps R (modify f : SE S E unit).
Proof. intros Hf s. apply Hf. Qed.

Lemma steps_gets {A} (f : S -> A) : steps R (gets f : SE S E A).
Proof. intros s. cbn. reflexivity. Qed.

Lemma steps_bind {A B} (m : SE S E A) (f : A -> SE S E B) :
  steps R m -> (forall a, steps R (f a)) -> steps R (m ≫= f).
Proof.
  intros Hm Hf s. specialize (Hm s). cbv [mbind se_bind].
  destruct (m s) as [[a|e|] s']; cbn in *; [|done..]. etransitivity; [exact Hm|apply Hf].
Qed.
End steps.

(** Lemmas on the primitive computations of a component. *)
Create HintDb steps.

(** The primitives first, then the structure of the computation. *)
Ltac steps_auto := repeat first
  [ solve [auto with steps nocore] | typeclasses eauto
  | apply steps_bind; [..|intros ?] | apply steps_ret | apply steps_lift | apply steps_gets
  | apply steps_modify ].
