(* ===== verification/Session.v ===== *)
(** * Session: a DTLS-secured SCTP session over ICE ([session/mod.rs])

    [Session] is the whole state machine: connectivity, transports, the two data
    channels, the establishment deadline and the output queue.  Computations on
    the session are in the state-and-error monad, so that what an early return
    leaves behind is kept.  [Instant]s are unbounded, so the addition that gives
    the deadline does not overflow. *)
From S2P Require Import Prelude Text Errors Endpoint Discovery Identity Webrtc Framing Transports Sans.

Definition RELIABLE_STREAM_ID : StreamId := 1.
Definition MAX_EARLY_PACKETS : Z := 8.
Definition UNRELIABLE_STREAM_ID : StreamId := 3.
Definition DEFAULT_ESTABLISH_DEADLINE : Duration := secs 10.

Inductive Channel := Reliable | Unreliable.
#[global] Instance Channel_eq_dec : EqDecision Channel.
Proof. solve_decision. Defined.

Inductive SessionEvent := Ready | Failed.
#[global] Instance SessionEvent_eq_dec : EqDecision SessionEvent.
Proof. solve_decision. Defined.

Inductive SessionOutput :=
| OSend (data : bytes) (to : SocketAddr)
| OEvent (event : SessionEvent)
| OMessage (channel : Channel) (data : bytes)
| OWait (d : Duration).
#[global] Instance SessionOutput_eq_dec : EqDecision SessionOutput.
Proof. solve_decision. Defined.

Inductive SessionInput `{IceCandidate} :=
| IPacket (data : bytes) (from : SocketAddr) (now : Instant)
| IRemoteDescription (remote : Description) (candidates : list Candidate) (now : Instant)
| IRemoteCandidate (candidate : Candidate) (now : Instant)
| ISend (channel : Channel) (data : bytes) (now : Instant)
| ITimeout (now : Instant).

Record Channels := {
  reliable_stream_id : option StreamId;
  unreliable_stream_id : option StreamId;
  reassembly : Message;
  ready_emitted : bool;
  failed_emitted : bool;
}.

Definition Channels_default : Channels := {|
  reliable_stream_id := None; unreliable_stream_id := None; reassembly := message_new;
  ready_emitted := false; failed_emitted := false |}.

Definition stream_id (c : Channels) (channel : Channel) : option StreamId :=
  match channel with
  | Reliable => reliable_stream_id c
  | Unreliable => unreliable_stream_id c
  end.

Definition set_open (channel : Channel) (sid : StreamId) (c : Channels) : Channels :=
  match channel with
  | Reliable => {| reliable_stream_id := Some sid; unreliable_stream_id := unreliable_stream_id c;
                   reassembly := reassembly c; ready_emitted := ready_emitted c;
                   failed_emitted := failed_emitted c |}
  | Unreliable => {| reliable_stream_id := reliable_stream_id c; unreliable_stream_id := Some sid;
                     reassembly := reassembly c; ready_emitted := ready_emitted c;
                     failed_emitted := failed_emitted c |}
  end.

Definition set_reassembly (m : Message) (c : Channels) : Channels := {|
  reliable_stream_id := reliable_stream_id c; unreliable_stream_id := unreliable_stream_id c;
  reassembly := m; ready_emitted := ready_emitted c; failed_emitted := failed_emitted c |}.
Definition set_emitted (event : SessionEvent) (c : Channels) : Channels := {|
  reliable_stream_id := reliable_stream_id c; unreliable_stream_id := unreliable_stream_id c;
  reassembly := reassembly c;
  ready_emitted := bool_decide (event = Ready) || ready_emitted c;
  failed_emitted := bool_decide (event = Failed) || failed_emitted c |}.

(** ** Data channels over the association *)

Section channels.
Context `{SctpOps} `{DcepOps}.

(** What [open_channels_if_controlling] and [drain_dcep_and_data] borrow. *)
Record Links := { l_assoc : Association; l_channels : Channels; l_output : list SessionOutput }.

Abbreviation Linked := (SE Links ProtocolError).

Definition on_assoc {A} (m : SE Association ProtocolError A) : Linked A := fun l =>
  let '(r, a) := m (l_assoc l) in
  (r, {| l_assoc := a; l_channels := l_channels l; l_output := l_output l |}).
Definition on_channels (f : Channels -> Channels) : Linked unit :=
  modify (fun l => {| l_assoc := l_assoc l; l_channels := f (l_channels l); l_output := l_output l |}).
Definition push_link (o : SessionOutput) : Linked unit :=
  modify (fun l => {| l_assoc := l_assoc l; l_channels := l_channels l;
                      l_output := l_output l ++ [o] |}).

Definition open_channel (now : Instant) (sid : StreamId) (channel : Channel)
    (open : DataChannelOpen) : Linked unit :=
  _ ← on_assoc (foreign (open_stream sid Binary));
  encoded ← lift_res (encode_open open);
  _ ← on_assoc (foreign (stream_write sid now encoded Dcep));
  on_channels (set_open channel sid).

(** Given an association; without one there is nothing to do. *)
Definition open_channels_if_controlling (is_controlling : bool) (now : Instant) : Linked unit :=
  if negb is_controlling then mret tt
  else
    _ ← open_channel now RELIABLE_STREAM_ID Reliable reliable_open;
    open_channel now UNRELIABLE_STREAM_ID Unreliable unreliable_open.

Definition channel_of_label (l : bytes) : option Channel :=
  if bytes_eqb l RELIABLE_CHANNEL_LABEL then Some Reliable
  else if bytes_eqb l UNRELIABLE_CHANNEL_LABEL then Some Unreliable
  else None.

(** The channel that the first message of a new stream opens, if it opens one. *)
Definition opened_channel (chunks : Chunks) : option Channel :=
  data ← chunks_to_payload chunks 4096;
  message ← res_ok (dcep_decode data);
  match message with
  | MessageOpen open => channel_of_label (label open)
  | _ => None
  end.

Definition accept_one (now : Instant) (sid : StreamId) : Linked unit :=
  r ← on_assoc (attempt (stream_read sid));
  match r with
  | Some (Some chunks) =>
      match opened_channel chunks with
      | Some channel =>
          ack ← lift_res encode_ack;
          _ ← on_assoc (foreign (stream_write sid now ack Dcep));
          on_channels (set_open channel sid)
      | None => mret tt
      end
  | _ => mret tt
  end.

Fixpoint accept_loop (fuel : nat) (now : Instant) : Linked unit :=
  match fuel with
  | O => mret tt
  | S fuel =>
      o ← on_assoc (polls accept_stream);
      match o with
      | None => mret tt
      | Some sid => _ ← accept_one now sid; accept_loop fuel now
      end
  end.

(** One chunk read on an open channel. *)
Definition receive (channel : Channel) (chunks : Chunks) : Linked unit :=
  match chunks_to_payload chunks (2 ^ 20) with
  | None => mret tt
  | Some data =>
      match chunks_ppi chunks with
      | Dcep => mret tt
      | _ =>
          match segment_decode data with
          | Ok segment =>
              match channel with
              | Reliable => fun l =>
                  match add_segment segment (reassembly (l_channels l)) with
                  | (Panic, m) => (Panic, (on_channels (set_reassembly m) l).2)
                  | (Ok (Some message), m) =>
                      (_ ← on_channels (set_reassembly m); push_link (OMessage Reliable message)) l
                  | (_, m) => on_channels (set_reassembly m) l
                  end
              | Unreliable =>
                  if remaining_segments segment =? 0
                  then push_link (OMessage Unreliable (segment_data segment))
                  else mret tt
              end
          | Err _ => mret tt
          | Panic => lift_res Panic
          end
      end
  end.

Fixpoint read_loop (fuel : nat) (channel : Channel) (sid : StreamId) : Linked unit :=
  match fuel with
  | O => mret tt
  | S fuel =>
      r ← on_assoc (attempt (stream_read sid));
      match r with
      | Some (Some chunks) => _ ← receive channel chunks; read_loop fuel channel sid
      | _ => mret tt
      end
  end.

Definition read_channel (channel : Channel) : Linked unit := fun l =>
  match stream_id (l_channels l) channel with
  | None => (Ok tt, l)
  | Some sid =>
      if has_stream sid (l_assoc l)
      then read_loop (S (assoc_reads (l_assoc l))) channel sid l
      else (Ok tt, l)
  end.

(** Given an association; without one there is nothing to do. *)
Definition drain_dcep_and_data (now : Instant) : Linked unit := fun l =>
  (_ ← accept_loop (S (assoc_accepts (l_assoc l))) now;
   _ ← read_channel Reliable;
   read_channel Unreliable) l.

End channels.

(** ** The session *)

Section session.
Context {crypto : CryptoOps} {cand : IceCandidate} {cert : CertificateOps}
  {iceops : IceOps} {dtlsops : DtlsOps} {sctpops : SctpOps} {dcepops : DcepOps}.

Record Session := {
  is_controlling : bool;
  local_addr : SocketAddr;
  s_ice : IceLayer;
  certificate : option Certificate;
  pending_role_fingerprint : option (ResolvedRole * (bytes * bytes));
  remote_max_message_size : Z;
  early_packets : list bytes;
  remote : option SocketAddr;
  s_dtls : option DtlsLayer;
  s_sctp : option SctpLayer;
  channels : Channels;
  output : list SessionOutput;
  establish_within : Duration;
  establish_started : option Instant;
}.

Abbreviation M := (SE Session ProtocolError).

(** Field assignments. *)
Definition set_ice (x : IceLayer) (s : Session) : Session := {|
  is_controlling := is_controlling s; local_addr := local_addr s; s_ice := x;
  certificate := certificate s; pending_role_fingerprint := pending_role_fingerprint s;
  remote_max_message_size := remote_max_message_size s; early_packets := early_packets s;
  remote := remote s; s_dtls := s_dtls s; s_sctp := s_sctp s; channels := channels s;
  output := output s; establish_within := establish_within s;
  establish_started := establish_started s |}.
Definition set_certificate (x : option Certificate) (s : Session) : Session := {|
  is_controlling := is_controlling s; local_addr := local_addr s; s_ice := s_ice s;
  certificate := x; pending_role_fingerprint := pending_role_fingerprint s;
  remote_max_message_size := remote_max_message_size s; early_packets := early_packets s;
  remote := remote s; s_dtls := s_dtls s; s_sctp := s_sctp s; channels := channels s;
  output := output s; establish_within := establish_within s;
  establish_started := establish_started s |}.
Definition set_pending_role (x : option (ResolvedRole * (bytes * bytes))) (s : Session) : Session := {|
  is_controlling := is_controlling s; local_addr := local_addr s; s_ice := s_ice s;
  certificate := certificate s; pending_role_fingerprint := x;
  remote_max_message_size := remote_max_message_size s; early_packets := early_packets s;
  remote := remote s; s_dtls := s_dtls s; s_sctp := s_sctp s; channels := channels s;
  output := output s; establish_within := establish_within s;
  establish_started := establish_started s |}.
Definition set_remote_max_message_size (x : Z) (s : Session) : Session := {|
  is_controlling := is_controlling s; local_addr := local_addr s; s_ice := s_ice s;
  certificate := certificate s; pending_role_fingerprint := pending_role_fingerprint s;
  remote_max_message_size := x; early_packets := early_packets s;
  remote := remote s; s_dtls := s_dtls s; s_sctp := s_sctp s; channels := channels s;
  output := output s; establish_within := establish_within s;
  establish_started := establish_started s |}.
Definition set_early_packets (x : list bytes) (s : Session) : Session := {|
  is_controlling := is_controlling s; local_addr := local_addr s; s_ice := s_ice s;
  certificate := certificate s; pending_role_fingerprint := pending_role_fingerprint s;
  remote_max_message_size := remote_max_message_size s; early_packets := x;
  remote := remote s; s_dtls := s_dtls s; s_sctp := s_sctp s; channels := channels s;
  output := output s; establish_within := establish_within s;
  establish_started := establish_started s |}.
Definition set_transports (r : option SocketAddr) (d : option DtlsLayer) (t : option SctpLayer)
    (s : Session) : Session := {|
  is_controlling := is_controlling s; local_addr := local_addr s; s_ice := s_ice s;
  certificate := certificate s; pending_role_fingerprint := pending_role_fingerprint s;
  remote_max_message_size := remote_max_message_size s; early_packets := early_packets s;
  remote := r; s_dtls := d; s_sctp := t; channels := channels s;
  output := output s; establish_within := establish_within s;
  establish_started := establish_started s |}.
Definition set_dtls (d : option DtlsLayer) (s : Session) : Session :=
  set_transports (remote s) d (s_sctp s) s.
Definition set_sctp (t : option SctpLayer) (s : Session) : Session :=
  set_transports (remote s) (s_dtls s) t s.
Definition set_channels (x : Channels) (s : Session) : Session := {|
  is_controlling := is_controlling s; local_addr := local_addr s; s_ice := s_ice s;
  certificate := certificate s; pending_role_fingerprint := pending_role_fingerprint s;
  remote_max_message_size := remote_max_message_size s; early_packets := early_packets s;
  remote := remote s; s_dtls := s_dtls s; s_sctp := s_sctp s; channels := x;
  output := output s; establish_within := establish_within s;
  establish_started := establish_started s |}.
Definition set_output (x : list SessionOutput) (s : Session) : Session := {|
  is_controlling := is_controlling s; local_addr := local_addr s; s_ice := s_ice s;
  certificate := certificate s; pending_role_fingerprint := pending_role_fingerprint s;
  remote_max_message_size := remote_max_message_size s; early_packets := early_packets s;
  remote := remote s; s_dtls := s_dtls s; s_sctp := s_sctp s; channels := channels s;
  output := x; establish_within := establish_within s;
  establish_started := establish_started s |}.
Definition set_establish (within : Duration) (started : option Instant) (s : Session) : Session := {|
  is_controlling := is_controlling s; local_addr := local_addr s; s_ice := s_ice s;
  certificate := certificate s; pending_role_fingerprint := pending_role_fingerprint s;
  remote_max_message_size := remote_max_message_size s; early_packets := early_packets s;
  remote := remote s; s_dtls := s_dtls s; s_sctp := s_sctp s; channels := channels s;
  output := output s; establish_within := within; establish_started := started |}.

Definition push_outputs (l : list SessionOutput) (s : Session) : Session :=
  set_output (output s ++ l) s.

Definition on_ice {A} (m : SE IceLayer ProtocolError A) : M A := fun s =>
  let '(r, i) := m (s_ice s) in (r, set_ice i s).

(** [random] is the certificate's randomness, [ufrag] and [pwd] the credentials drawn. *)
Definition session_with_advertised (addr : SocketAddr) (advertised : list IpAddr)
    (controlling : bool) (ufrag pwd random : bytes) (now : Instant)
    : Res ProtocolError (Session * Description) :=
  ice ← ice_with_advertised addr advertised controlling ufrag pwd now;
  c ← generate_certificate random;
  fp ← fingerprint c;
  let description := {|
    Webrtc.ice := local_credentials ice;
    dtls_role := if controlling then RoleServer else RoleAuto;
    desc_fingerprint := fp;
    sctp_max_message_size := LOCAL_SCTP_MAX_MESSAGE_SIZE;
    desc_identity := None |} in
  let session := {|
    is_controlling := controlling; local_addr := addr; s_ice := ice; certificate := Some c;
    pending_role_fingerprint := None; remote_max_message_size := SCTP_MAX_MESSAGE_SIZE;
    early_packets := []; remote := None; s_dtls := None; s_sctp := None;
    channels := Channels_default; output := []; establish_within := DEFAULT_ESTABLISH_DEADLINE;
    establish_started := None |} in
  Ok (session, description).

Definition session_new (addr : SocketAddr) (controlling : bool) (ufrag pwd random : bytes)
    (now : Instant) : Res ProtocolError (Session * Description) :=
  session_with_advertised addr [] controlling ufrag pwd random now.

Definition set_establish_deadline (within : Duration) (s : Session) : Session :=
  set_establish within (establish_started s) s.

Definition local_candidate (s : Session) : Res ProtocolError Candidate :=
  ice_local_candidate (s_ice s).
Definition local_candidates (s : Session) : list Candidate := ice_local_candidates (s_ice s).

Definition remote_addr (s : Session) : option SocketAddr :=
  match selected_remote_addr (s_ice s) with Some a => Some a | None => remote s end.

Definition rtt (s : Session) : option Duration := s_sctp s ≫= sctp_rtt.

Definition fail (s : Session) : Session :=
  if failed_emitted (channels s) then s
  else push_outputs [OEvent Failed] (set_channels (set_emitted Failed (channels s)) s).

Definition establish_deadline (s : Session) : option Instant :=
  if ready_emitted (channels s) || failed_emitted (channels s) then None
  else (fun at_ => at_ + establish_within s) <$> establish_started s.

(** [Iterator::min] of the present deadlines. *)
Definition min_opt (l : list (option Instant)) : option Instant :=
  fold_left (fun acc o =>
    match acc, o with
    | Some a, Some b => Some (Z.min a b)
    | Some a, None => Some a
    | None, o => o
    end) l None.

Definition poll_timeout (s : Session) : option Instant * Session :=
  let '(ice_deadline, i) := ice_poll_timeout (s_ice s) in
  let s' := set_ice i s in
  (min_opt [establish_deadline s; ice_deadline; s_dtls s' ≫= dtls_poll_timeout;
            s_sctp s' ≫= sctp_poll_timeout], s').

Definition push_wait (now : Instant) (s : Session) : Session :=
  let '(o, s) := poll_timeout s in
  match o with
  | Some deadline => push_outputs [OWait (saturating_duration_since deadline now)] s
  | None => s
  end.

Definition handle_dtls_event (event : EndpointEvent) (now : Instant) (s : Session) : Session :=
  match event, s_sctp s with
  | ApplicationData data, Some sctp => set_sctp (Some (sctp_handle_read data now sctp)) s
  | _, _ => s
  end.

Definition read_dtls (data : bytes) (now : Instant) : M unit := fun s =>
  match s_dtls s with
  | None => (Ok tt, s)
  | Some dtls =>
      match dtls_handle_read data now dtls with
      | (Ok events, dtls) =>
          (Ok tt, fold_left (fun s event => handle_dtls_event event now s) events
                    (set_dtls (Some dtls) s))
      | (Err e, dtls) => (Err e, set_dtls (Some dtls) s)
      | (Panic, dtls) => (Panic, set_dtls (Some dtls) s)
      end
  end.

Definition start_transports (remote_addr : SocketAddr) (role : ResolvedRole)
    (remote_fingerprint : bytes * bytes) (now : Instant) : M unit := fun s =>
  match certificate s with
  | None => (Err (Other (str "transports already started")), s)
  | Some c =>
      let s := set_certificate None s in
      match (dtls ← dtls_new (local_addr s) remote_addr role c remote_fingerprint now;
             sctp ← sctp_new (local_addr s) remote_addr role (remote_max_message_size s) now;
             Ok (dtls, sctp)) with
      | Ok (dtls, sctp) => (Ok tt, set_transports (Some remote_addr) (Some dtls) (Some sctp) s)
      | Err e => (Err e, s)
      | Panic => (Panic, s)
      end
  end.

Fixpoint replay (packets : list bytes) (now : Instant) : M unit :=
  match packets with
  | [] => mret tt
  | p :: packets => _ ← read_dtls p now; replay packets now
  end.

Definition start_transports_on_selected_pair (now : Instant) : M unit := fun s =>
  match s_dtls s, selected_remote_addr (s_ice s), pending_role_fingerprint s with
  | None, Some addr, Some (role, fp) =>
      (_ ← start_transports addr role fp now;
       packets ← gets early_packets;
       _ ← modify (set_early_packets []);
       replay packets now) (set_pending_role None s)
  | _, _, _ => (Ok tt, s)
  end.

(** The ICE part of [pump]: datagrams to send, then state changes. *)
Definition pump_ice_writes (s : Session) : Session :=
  let '(l, i) := drain ice_poll_write (S (agent_writes (agent (s_ice s)))) (s_ice s) in
  push_outputs ((fun '(data, to) => OSend data to) <$> l) (set_ice i s).

Definition is_failure (event : IceEvent) : bool :=
  match event with
  | ConnectionStateChange (IceFailed | IceDisconnected | IceClosed) => true
  | _ => false
  end.

Definition pump_ice_events (s : Session) : Session :=
  let '(l, i) := drain ice_poll_event (S (agent_events (agent (s_ice s)))) (s_ice s) in
  fold_left (fun s event => if is_failure event then fail s else s) l (set_ice i s).

(** Running [m] on the association, when there is one. *)
Definition with_links (m : SE Links ProtocolError unit) : M unit := fun s =>
  match s_sctp s with
  | None => (Ok tt, s)
  | Some sctp =>
      match association_mut sctp with
      | None => (Ok tt, s)
      | Some assoc =>
          let '(r, l) := m {| l_assoc := assoc; l_channels := channels s; l_output := output s |} in
          (r, set_output (l_output l) (set_channels (l_channels l)
                (set_sctp (Some (put_association (l_assoc l) sctp)) s)))
      end
  end.

Definition poll_sctp {A} (p : SctpLayer -> option A * SctpLayer) : M (option A) := fun s =>
  match s_sctp s with
  | None => (Ok None, s)
  | Some sctp => let '(o, sctp) := p sctp in (Ok o, set_sctp (Some sctp) s)
  end.

(** The loop over SCTP events; the result says whether the association failed. *)
Fixpoint pump_sctp_events (fuel : nat) (failed : bool) (now : Instant) : M bool :=
  match fuel with
  | O => mret failed
  | S fuel =>
      o ← poll_sctp sctp_poll_event;
      match o with
      | None => mret failed
      | Some SctpConnected =>
          _ ← (fun s => with_links (open_channels_if_controlling (is_controlling s) now) s);
          pump_sctp_events fuel failed now
      | Some (HandshakeFailed | AssociationLost) => pump_sctp_events fuel true now
      | Some OtherSctpEvent => pump_sctp_events fuel failed now
      end
  end.

(** SCTP packets are written to DTLS. *)
Fixpoint pump_sctp_transmits (fuel : nat) (now : Instant) : M unit :=
  match fuel with
  | O => mret tt
  | S fuel =>
      o ← poll_sctp (sctp_poll_transmit now);
      match o with
      | None => mret tt
      | Some packet =>
          _ ← (fun s => match s_dtls s with
                        | None => (Ok tt, s)
                        | Some d => let '(r, d) := dtls_write packet now d in (r, set_dtls (Some d) s)
                        end);
          pump_sctp_transmits fuel now
      end
  end.

Definition pump_dtls_transmits (s : Session) : Session :=
  match s_dtls s with
  | None => s
  | Some d =>
      let '(l, d) := drain dtls_poll_transmit (S (dtls_transmits (dtls_endpoint d))) d in
      push_outputs ((fun '(data, to) => OSend data to) <$> l) (set_dtls (Some d) s)
  end.

(** Items the layer can still yield. *)
Definition layer_events (l : SctpLayer) : nat :=
  match association_mut l with Some a => assoc_events a | None => 0 end.
Definition layer_transmits (l : SctpLayer) : nat :=
  length (pending_transmits l) + match association_mut l with Some a => assoc_transmits a | None => 0 end.

Definition pump_transports (now : Instant) : M bool := fun s =>
  match s_sctp s, s_dtls s with
  | Some sctp, Some _ =>
      (failed ← pump_sctp_events (S (layer_events sctp)) false now;
       _ ← with_links (drain_dcep_and_data now);
       _ ← (fun s => pump_sctp_transmits
                       (S (match s_sctp s with Some t => layer_transmits t | None => 0 end)) now s);
       _ ← modify pump_dtls_transmits;
       mret failed) s
  | _, _ => (Ok false, s)
  end.

Definition emit_ready (s : Session) : Session :=
  if bool_decide (is_Some (reliable_stream_id (channels s)))
     && bool_decide (is_Some (unreliable_stream_id (channels s)))
     && negb (ready_emitted (channels s))
  then push_outputs [OEvent Ready] (set_channels (set_emitted Ready (channels s)) s)
  else s.

Definition expire (now : Instant) (s : Session) : Session :=
  match establish_deadline s with
  | Some deadline => if deadline <=? now then fail s else s
  | None => s
  end.

Definition pump (now : Instant) : M unit :=
  _ ← modify pump_ice_writes;
  _ ← modify pump_ice_events;
  _ ← start_transports_on_selected_pair now;
  failed ← pump_transports now;
  _ ← modify (fun s => if failed : bool then fail s else s);
  _ ← modify emit_ready;
  modify (expire now).

Fixpoint add_candidates (l : list Candidate) : M unit :=
  match l with
  | [] => mret tt
  | c :: l => _ ← on_ice (ice_add_remote_candidate c); add_candidates l
  end.

Definition set_remote_description (r : Description) (candidates : list Candidate) (now : Instant)
    : M unit :=
  _ ← on_ice (set_remote_credentials (ufrag (Webrtc.ice r)) (pwd (Webrtc.ice r)));
  _ ← modify (set_remote_max_message_size
                (if sctp_max_message_size r =? 0 then u32_max else sctp_max_message_size r));
  _ ← add_candidates candidates;
  _ ← modify (set_pending_role (Some (from_remote_announced (dtls_role r), desc_fingerprint r)));
  _ ← modify (fun s => set_establish (establish_within s)
                (match establish_started s with Some t => Some t | None => Some now end) s);
  _ ← pump now;
  modify (push_wait now).

Definition add_remote_candidate (c : Candidate) (now : Instant) : M unit :=
  _ ← on_ice (ice_add_remote_candidate c);
  pump now.

Definition handle_packet (data : bytes) (from : SocketAddr) (now : Instant) : M unit :=
  is_ice ← on_ice (ice_handle_read data from now);
  if is_ice : bool then pump now
  else fun s =>
    match s_dtls s with
    | None =>
        (Ok tt, if blen (early_packets s) <? MAX_EARLY_PACKETS
                then set_early_packets (early_packets s ++ [data]) s else s)
    | Some _ => (_ ← read_dtls data now; pump now) s
    end.

Definition handle_timeout (now : Instant) : M unit :=
  _ ← on_ice (ice_handle_timeout now);
  _ ← (fun s => match s_dtls s with
                | None => (Ok tt, s)
                | Some d => let '(r, d) := dtls_handle_timeout now d in (r, set_dtls (Some d) s)
                end);
  _ ← modify (fun s => match s_sctp s with
                       | None => s
                       | Some t => set_sctp (Some (sctp_handle_timeout now t)) s
                       end);
  _ ← pump now;
  modify (push_wait now).

Fixpoint write_segments (sid : StreamId) (l : list MessageSegment) (now : Instant)
    : SE Association ProtocolError unit :=
  match l with
  | [] => mret tt
  | segment :: l =>
      _ ← foreign (stream_write sid now (segment_encode segment) Binary);
      write_segments sid l now
  end.

Definition send_on (sid : StreamId) (channel : Channel) (data : bytes) (now : Instant)
    : SE Association ProtocolError unit := fun a =>
  if negb (has_stream sid a) then (Err (Other []), a)
  else
    match channel with
    | Reliable => (segments ← lift_res (split_into_segments data);
                   write_segments sid segments now) a
    | Unreliable => (encoded ← lift_res (encode_unreliable data);
                     foreign (stream_write sid now encoded Binary)) a
    end.

Definition send (channel : Channel) (data : bytes) (now : Instant) : M unit := fun s =>
  match stream_id (channels s) channel with
  | None => (Err (Other (str "channel not open yet")), s)
  | Some sid =>
      match s_sctp s with
      | None => (Err (Other (str "transports not started")), s)
      | Some sctp =>
          match association_mut sctp with
          | None => (Err (Other (str "association not established")), s)
          | Some assoc =>
              let '(r, assoc) := send_on sid channel data now assoc in
              (r, set_sctp (Some (put_association assoc sctp)) s)
          end
      end
  end.

Definition session_handle (msg : SessionInput) : M unit :=
  match msg with
  | IPacket data from now => handle_packet data from now
  | IRemoteDescription remote candidates now => set_remote_description remote candidates now
  | IRemoteCandidate candidate now => add_remote_candidate candidate now
  | ISend channel data now => _ ← send channel data now; pump now
  | ITimeout now => handle_timeout now
  end.

Definition session_poll (s : Session) : option SessionOutput * Session :=
  match output s with
  | [] => (None, s)
  | o :: rest => (Some o, set_output rest s)
  end.

#[global] Instance session_sans : Sans Session SessionInput SessionOutput ProtocolError :=
  {| handle := session_handle; poll := session_poll |}.

End session.
