(* ===== verification/SessionSafety.v ===== *)
(** * SessionSafety: the invariant of a session and the events it emits

    Every operation of [Session.v] moves the session along the relation
    [evolves], which only appends to the output queue and accounts for the
    events appended; the theorems follow from the accounting. *)
From S2P Require Import Prelude Text Errors Endpoint Discovery Identity Webrtc Framing Transports Sans Session.

(** How often an event occurs in a list of outputs. *)
Fixpoint occurrences (e : SessionEvent) (l : list SessionOutput) : nat :=
  match l with
  | [] => 0
  | OEvent e' :: l => (if bool_decide (e = e') then 1 else 0) + occurrences e l
  | _ :: l => occurrences e l
  end.

Lemma occurrences_app e a b : occurrences e (a ++ b) = (occurrences e a + occurrences e b)%nat.
Proof. induction a as [|[] a IH]; cbn; lia. Qed.

Definition emitted (e : SessionEvent) (c : Channels) : nat :=
  if match e with Ready => ready_emitted c | Failed => failed_emitted c end then 1 else 0.

(** ** Channels *)

(** Channels stay open, and an accounted list of outputs was appended. *)
Record channels_evolve (l : list SessionOutput) (c c' : Channels) : Prop := {
  ce_events e : (occurrences e l + emitted e c = emitted e c')%nat;
  ce_open ch : is_Some (stream_id c ch) -> is_Some (stream_id c' ch);
  ce_reassembly : message_inv (reassembly c) -> message_inv (reassembly c');
  ce_ready : (ready_emitted c = true -> forall ch, is_Some (stream_id c ch)) ->
             (ready_emitted c' = true -> forall ch, is_Some (stream_id c' ch));
}.

Lemma channels_evolve_refl c : channels_evolve [] c c.
Proof. by constructor. Qed.

Lemma channels_evolve_trans a b c1 c2 c3 :
  channels_evolve a c1 c2 -> channels_evolve b c2 c3 -> channels_evolve (a ++ b) c1 c3.
Proof.
  intros [E1 O1 R1 Y1] [E2 O2 R2 Y2]. constructor; [|eauto..].
  intros e. rewrite occurrences_app. specialize (E1 e). specialize (E2 e). lia.
Qed.

Lemma channels_evolve_quiet l c c' :
  (forall e, occurrences e l = 0%nat) -> ready_emitted c' = ready_emitted c ->
  failed_emitted c' = failed_emitted c ->
  (forall ch, is_Some (stream_id c ch) -> is_Some (stream_id c' ch)) ->
  (message_inv (reassembly c) -> message_inv (reassembly c')) -> channels_evolve l c c'.
Proof.
  intros Hl Hr Hf Ho Hm. constructor; [|done|done|].
  - intros e. rewrite Hl. unfold emitted. by rewrite Hr, Hf.
  - rewrite Hr. auto.
Qed.

Lemma set_open_evolves ch sid c : channels_evolve [] c (set_open ch sid c).
Proof. apply channels_evolve_quiet; [done|by destruct ch..| |by destruct ch]. destruct ch; intros []; cbn; eauto. Qed.

Section links.
Context `{SctpOps} `{DcepOps}.

Definition links_evolve (l l' : Links) : Prop :=
  exists o, l_output l' = l_output l ++ o /\ channels_evolve o (l_channels l) (l_channels l').

#[global] Instance links_evolve_preorder : PreOrder links_evolve.
Proof.
  split.
  - intros l. exists []. rewrite app_nil_r. split; [done|apply channels_evolve_refl].
  - intros l1 l2 l3 (a & Ha & Ea) (b & Hb & Eb). exists (a ++ b).
    rewrite Hb, Ha, <- (assoc_L (++)). split; [done|by eapply channels_evolve_trans].
Qed.

Lemma links_on_assoc {A} (m : SE Association ProtocolError A) : steps links_evolve (on_assoc m).
Proof.
  intros l. unfold on_assoc. destruct (m (l_assoc l)). cbn.
  exists []. rewrite app_nil_r. split; [done|apply channels_evolve_refl].
Qed.

Lemma links_on_channels f :
  (forall c, channels_evolve [] c (f c)) -> steps links_evolve (on_channels f).
Proof. intros Hf l. exists []. cbn. by rewrite app_nil_r. Qed.

Lemma links_push_message ch d : steps links_evolve (push_link (OMessage ch d)).
Proof. intros l. exists [OMessage ch d]. split; [done|]. by apply channels_evolve_quiet. Qed.

#[local] Hint Resolve links_on_assoc links_on_channels links_push_message set_open_evolves : steps.

Lemma open_channel_steps now sid ch o : steps links_evolve (open_channel now sid ch o).
Proof. unfold open_channel. steps_auto. Qed.
#[local] Hint Resolve open_channel_steps : steps.

Lemma open_channels_steps b now : steps links_evolve (open_channels_if_controlling b now).
Proof.
  unfold open_channels_if_controlling. destruct (negb b); steps_auto.
Qed.
#[local] Hint Resolve open_channels_steps : steps.

Lemma accept_one_steps now sid : steps links_evolve (accept_one now sid).
Proof.
  unfold accept_one. apply steps_bind; [typeclasses eauto|auto with steps|].
  intros [[c|]|]; [|steps_auto..]. destruct (opened_channel c); steps_auto.
Qed.
#[local] Hint Resolve accept_one_steps : steps.

Lemma accept_loop_steps fuel now : steps links_evolve (accept_loop fuel now).
Proof.
  induction fuel as [|fuel IH]; cbn [accept_loop]; [steps_auto|].
  apply steps_bind; [typeclasses eauto|auto with steps|].
  intros [sid|]; steps_auto.
Qed.
#[local] Hint Resolve accept_loop_steps : steps.

(** Reassembly keeps its invariant whatever is fed to it. *)
Lemma add_segment_inv d segment m :
  segment_decode d = Ok segment -> message_inv m -> message_inv (add_segment segment m).2.
Proof.
  intros Hd Hm.
  assert (segment_ok segment) as Hs.
  { destruct d as [|b [|b' d]]; try done. cbn in Hd. apply Ok_inj in Hd as <-.
    unfold segment_ok, is_u8. cbn. pose proof (Z_of_byte_range b). lia. }
  eapply add_outcome_inv; [done..|]. by apply add_segment_cases.
Qed.

Lemma receive_steps ch c : steps links_evolve (receive ch c).
Proof.
  unfold receive. destruct (chunks_to_payload c (2 ^ 20)) as [d|]; [|steps_auto].
  assert (forall segment, segment_decode d = Ok segment ->
    steps links_evolve (fun l =>
      match add_segment segment (reassembly (l_channels l)) with
      | (Panic, m) => (Panic, (on_channels (set_reassembly m) l).2)
      | (Ok (Some message), m) =>
          (_ ← on_channels (set_reassembly m); push_link (OMessage Reliable message)) l
      | (_, m) => on_channels (set_reassembly m) l
      end)) as Hrel.
  { intros segment Hd l.
    pose proof (add_segment_inv d segment (reassembly (l_channels l)) Hd) as Hinv.
    destruct (add_segment segment (reassembly (l_channels l))) as [r m]. cbn in Hinv.
    assert (channels_evolve [] (l_channels l) (set_reassembly m (l_channels l))) as Hc.
    { apply channels_evolve_quiet; try done. }
    destruct r as [[message|]|e|].
    2-4: exists []; rewrite app_nil_r; by split.
    exists [OMessage Reliable message]. split; [done|].
    apply (channels_evolve_trans [] [OMessage Reliable message] _ _ _ Hc). by apply channels_evolve_quiet. }
  destruct (segment_decode d) as [segment| |] eqn:Hd.
  2,3: by destruct (chunks_ppi c); steps_auto.
  assert (steps links_evolve (if remaining_segments segment =? 0
     then push_link (OMessage Unreliable (segment_data segment)) else mret tt)).
  { destruct (_ =? _); [apply links_push_message|steps_auto]. }
  destruct (chunks_ppi c), ch; first [by apply Hrel|done|steps_auto].
Qed.
#[local] Hint Resolve receive_steps : steps.

Lemma read_loop_steps fuel ch sid : steps links_evolve (read_loop fuel ch sid).
Proof.
  induction fuel as [|fuel IH]; cbn [read_loop]; [steps_auto|].
  apply steps_bind; [typeclasses eauto|auto with steps|].
  intros [[c|]|]; steps_auto.
Qed.
#[local] Hint Resolve read_loop_steps : steps.

Lemma read_channel_steps ch : steps links_evolve (read_channel ch).
Proof.
  intros l. unfold read_channel. destruct (stream_id _ _); [|reflexivity].
  destruct (has_stream _ _); [apply read_loop_steps|reflexivity].
Qed.
#[local] Hint Resolve read_channel_steps : steps.

Lemma drain_dcep_and_data_steps now : steps links_evolve (drain_dcep_and_data now).
Proof.
  intros l. unfold drain_dcep_and_data.
  apply (steps_bind links_evolve (accept_loop (S (assoc_accepts (l_assoc l))) now));
    [apply accept_loop_steps|intros _]. steps_auto.
Qed.
#[local] Hint Resolve drain_dcep_and_data_steps : steps.
End links.

(** ** Sessions *)

Section session.
Context {crypto : CryptoOps} {cand : IceCandidate} {cert : CertificateOps}
  {iceops : IceOps} {dtlsops : DtlsOps} {sctpops : SctpOps} {dcepops : DcepOps}.

(** Either no transport has started, with at most [MAX_EARLY_PACKETS] waiting, or
    all have: towards one address, with the certificate spent and nothing waiting. *)
Definition transports_inv (s : Session) : Prop :=
  match s_dtls s, s_sctp s, remote s with
  | None, None, None => blen (early_packets s) <= MAX_EARLY_PACKETS
  | Some _, Some _, Some _ => certificate s = None /\ early_packets s = []
  | _, _, _ => False
  end.

Record evolves (s s' : Session) : Prop := {
  ev_output : exists o, output s' = output s ++ o /\ channels_evolve o (channels s) (channels s');
  ev_transports : transports_inv s -> transports_inv s';
  ev_within : establish_within s' = establish_within s;
  ev_started t : establish_started s = Some t -> establish_started s' = Some t;
}.

#[global] Instance evolves_preorder : PreOrder evolves.
Proof.
  split.
  - intros s. constructor; [|done..]. exists []. rewrite app_nil_r.
    split; [done|apply channels_evolve_refl].
  - intros s1 s2 s3 [(a & Ha & Ea) T1 W1 S1] [(b & Hb & Eb) T2 W2 S2]. constructor; [|auto| |auto].
    + exists (a ++ b). rewrite Hb, Ha, <- (assoc_L (++)).
      split; [done|by eapply channels_evolve_trans].
    + congruence.
Qed.

(** Assignments that leave the queue and the channels alone. *)
Lemma evolves_quiet s s' :
  output s' = output s -> channels s' = channels s -> (transports_inv s -> transports_inv s') ->
  establish_within s' = establish_within s -> establish_started s' = establish_started s ->
  evolves s s'.
Proof.
  intros Ho Hc Ht Hw Hs. constructor; [|done|done|congruence]. exists [].
  rewrite app_nil_r, Hc. split; [done|apply channels_evolve_refl].
Qed.

Lemma evolves_push l s : (forall e, occurrences e l = 0%nat) -> evolves s (push_outputs l s).
Proof.
  intros Hl. constructor; [|done..]. exists l. split; [done|]. by apply channels_evolve_quiet.
Qed.

Lemma evolves_fail s : evolves s (fail s).
Proof.
  unfold fail. destruct (failed_emitted (channels s)) eqn:E; [reflexivity|].
  constructor; [|done..]. exists [OEvent Failed]. split; [done|]. constructor; try done.
  intros []; unfold emitted; cbn; by rewrite ?E.
Qed.

Lemma evolves_emit_ready s : evolves s (emit_ready s).
Proof.
  unfold emit_ready. destruct (_ && _) eqn:E; [|reflexivity]. to_props.
  constructor; [|done..]. exists [OEvent Ready]. split; [done|]. constructor; try done.
  - intros []; unfold emitted; cbn; [|done]. match goal with H : ready_emitted _ = false |- _ => by rewrite H end.
  - intros _ _ []; done.
Qed.

Lemma evolves_expire now s : evolves s (expire now s).
Proof.
  unfold expire. destruct (establish_deadline s); [|reflexivity].
  destruct (_ <=? _); [apply evolves_fail|reflexivity].
Qed.

Lemma evolves_set_ice i s : evolves s (set_ice i s).
Proof. by apply evolves_quiet. Qed.

Lemma evolves_on_ice {A} (m : SE IceLayer ProtocolError A) : steps evolves (on_ice m).
Proof. intros s. unfold on_ice. destruct (m (s_ice s)). apply evolves_set_ice. Qed.

(** Replacing a running transport. *)
Lemma evolves_set_dtls d d' s : s_dtls s = Some d -> evolves s (set_dtls (Some d') s).
Proof.
  intros E. apply evolves_quiet; try done. unfold transports_inv. cbn. rewrite E. done.
Qed.

Lemma evolves_set_sctp t t' s : s_sctp s = Some t -> evolves s (set_sctp (Some t') s).
Proof.
  intros E. apply evolves_quiet; try done. unfold transports_inv. cbn. by rewrite E.
Qed.

Lemma evolves_handle_dtls_event event now s : evolves s (handle_dtls_event event now s).
Proof.
  unfold handle_dtls_event. destruct event; [|reflexivity].
  destruct (s_sctp s) eqn:E; [by eapply evolves_set_sctp|reflexivity].
Qed.

Lemma evolves_fold {A} (f : Session -> A -> Session) l :
  (forall s a, evolves s (f s a)) -> forall s, evolves s (fold_left f l s).
Proof.
  intros Hf. induction l as [|a l IH]; intros s; cbn; [reflexivity|].
  etransitivity; [apply Hf|apply IH].
Qed.

Lemma read_dtls_steps data now : steps evolves (read_dtls data now).
Proof.
  intros s. unfold read_dtls. destruct (s_dtls s) as [d|] eqn:E; [|reflexivity].
  destruct (dtls_handle_read data now d) as [[events|e|] d']; cbn;
    (etransitivity; [by eapply (evolves_set_dtls _ d')|]); try reflexivity.
  apply evolves_fold. intros. apply evolves_handle_dtls_event.
Qed.

#[local] Hint Resolve evolves_on_ice read_dtls_steps : steps.

Lemma replay_steps packets now : steps evolves (replay packets now).
Proof. induction packets; cbn [replay]; steps_auto. Qed.
#[local] Hint Resolve replay_steps : steps.

Lemma start_transports_on_selected_pair_steps now :
  steps evolves (start_transports_on_selected_pair now).
Proof.
  intros s. unfold start_transports_on_selected_pair.
  destruct (s_dtls s) as [d|] eqn:Ed; [reflexivity|].
  destruct (selected_remote_addr (s_ice s)) as [addr|]; [|reflexivity].
  destruct (pending_role_fingerprint s) as [[role fp]|]; [|reflexivity].
  cbv [mbind se_bind start_transports]. cbn [certificate set_pending_role].
  assert (forall x, evolves s (set_certificate x (set_pending_role None s))) as Hc.
  { intros x. apply evolves_quiet; try done. unfold transports_inv. cbn. by rewrite Ed. }
  destruct (certificate s) as [c|] eqn:Ecert; [|cbn; by apply evolves_quiet].
  destruct (res_bind _ _ _ _ _) as [[dtls sctp]|e|]; cbn; [|apply Hc..].
  etransitivity; [|apply replay_steps]. by apply evolves_quiet.
Qed.

Lemma occurrences_sends e (l : list (bytes * SocketAddr)) :
  occurrences e ((fun '(data, to) => OSend data to) <$> l) = 0%nat.
Proof. induction l as [|[]]; done. Qed.

Lemma evolves_pump_ice_writes s : evolves s (pump_ice_writes s).
Proof.
  unfold pump_ice_writes. destruct (drain _ _ _) as [l i].
  etransitivity; [apply (evolves_set_ice i)|]. apply evolves_push. intros. apply occurrences_sends.
Qed.

Lemma evolves_pump_ice_events s : evolves s (pump_ice_events s).
Proof.
  unfold pump_ice_events. destruct (drain _ _ _) as [l i].
  etransitivity; [apply (evolves_set_ice i)|]. apply evolves_fold.
  intros s' a. destruct (is_failure a); [apply evolves_fail|reflexivity].
Qed.

Lemma with_links_steps (m : SE Links ProtocolError unit) :
  steps links_evolve m -> steps evolves (with_links m).
Proof.
  intros Hm s. unfold with_links. destruct (s_sctp s) as [t|] eqn:E; [|reflexivity].
  destruct (association_mut t) as [a|]; [|reflexivity].
  specialize (Hm {| l_assoc := a; l_channels := channels s; l_output := output s |}).
  destruct (m _) as [r l]. destruct Hm as (o & Ho & Hc). cbn in *.
  constructor; [by exists o| |done..]. cbn. unfold transports_inv. cbn. by rewrite E.
Qed.

Lemma poll_sctp_steps {A} (p : SctpLayer -> option A * SctpLayer) : steps evolves (poll_sctp p).
Proof.
  intros s. unfold poll_sctp. destruct (s_sctp s) as [t|] eqn:E; [|reflexivity].
  destruct (p t) as [o t']. by eapply evolves_set_sctp.
Qed.
#[local] Hint Resolve with_links_steps poll_sctp_steps start_transports_on_selected_pair_steps : steps.

Lemma open_channels_link_steps now :
  steps evolves (fun s => with_links (open_channels_if_controlling (is_controlling s) now) s).
Proof. intros s. apply with_links_steps, open_channels_steps. Qed.
#[local] Hint Resolve open_channels_link_steps : steps.

Lemma pump_sctp_events_steps fuel : forall failed now,
  steps evolves (pump_sctp_events fuel failed now).
Proof.
  induction fuel as [|fuel IH]; intros failed now; cbn [pump_sctp_events]; [steps_auto|].
  apply steps_bind; [typeclasses eauto|apply poll_sctp_steps|].
  intros [[]|]; steps_auto.
Qed.

Lemma dtls_write_steps packet now :
  steps evolves (fun s => match s_dtls s with
    | None => (Ok tt, s)
    | Some d => let '(r, d) := dtls_write packet now d in (r, set_dtls (Some d) s)
    end).
Proof.
  intros s. destruct (s_dtls s) as [d|] eqn:E; [|reflexivity].
  destruct (dtls_write packet now d). by eapply evolves_set_dtls.
Qed.
#[local] Hint Resolve dtls_write_steps : steps.

Lemma pump_sctp_transmits_steps fuel now : steps evolves (pump_sctp_transmits fuel now).
Proof.
  induction fuel as [|fuel IH]; cbn [pump_sctp_transmits]; [steps_auto|].
  apply steps_bind; [typeclasses eauto|apply poll_sctp_steps|]. intros [p|]; steps_auto.
Qed.

Lemma evolves_pump_dtls_transmits s : evolves s (pump_dtls_transmits s).
Proof.
  unfold pump_dtls_transmits. destruct (s_dtls s) as [d|] eqn:E; [|reflexivity].
  destruct (drain _ _ _) as [l d'].
  etransitivity; [by eapply (evolves_set_dtls _ d')|]. apply evolves_push. intros. apply occurrences_sends.
Qed.

Lemma pump_transports_steps now : steps evolves (pump_transports now).
Proof.
  intros s. unfold pump_transports. destruct (s_sctp s) as [t|] eqn:E; [|reflexivity].
  destruct (s_dtls s); [|reflexivity].
  apply (steps_bind evolves (pump_sctp_events (S (layer_events t)) false now));
    [apply pump_sctp_events_steps|intros failed].
  apply steps_bind; [typeclasses eauto|apply with_links_steps, drain_dcep_and_data_steps|intros _].
  apply steps_bind; [typeclasses eauto|intros s'; apply pump_sctp_transmits_steps|intros _].
  apply steps_bind; [typeclasses eauto|apply steps_modify, evolves_pump_dtls_transmits|intros _].
  steps_auto.
Qed.
#[local] Hint Resolve pump_transports_steps : steps.

Lemma pump_steps now : steps evolves (pump now).
Proof.
  unfold pump. apply steps_bind; [typeclasses eauto|apply steps_modify, evolves_pump_ice_writes|intros _].
  apply steps_bind; [typeclasses eauto|apply steps_modify, evolves_pump_ice_events|intros _].
  apply steps_bind; [typeclasses eauto|auto with steps|intros _].
  apply steps_bind; [typeclasses eauto|auto with steps|intros failed].
  apply steps_bind; [typeclasses eauto|apply steps_modify|intros _].
  { intros s. destruct failed; [apply evolves_fail|reflexivity]. }
  apply steps_bind; [typeclasses eauto|apply steps_modify, evolves_emit_ready|intros _].
  apply steps_modify, evolves_expire.
Qed.
#[local] Hint Resolve pump_steps : steps.

Lemma evolves_push_wait now s : evolves s (push_wait now s).
Proof.
  unfold push_wait, poll_timeout. destruct (ice_poll_timeout (s_ice s)) as [o i].
  destruct (min_opt _); [|apply evolves_set_ice].
  etransitivity; [apply (evolves_set_ice i)|]. by apply evolves_push.
Qed.

Lemma add_candidates_steps l : steps evolves (add_candidates l).
Proof. induction l; cbn [add_candidates]; steps_auto. Qed.

Lemma set_remote_description_steps r l now : steps evolves (set_remote_description r l now).
Proof.
  unfold set_remote_description.
  apply steps_bind; [typeclasses eauto|apply evolves_on_ice|intros _].
  apply steps_bind; [typeclasses eauto|apply steps_modify; intros; by apply evolves_quiet|intros _].
  apply steps_bind; [typeclasses eauto|apply add_candidates_steps|intros _].
  apply steps_bind; [typeclasses eauto|apply steps_modify; intros; by apply evolves_quiet|intros _].
  apply steps_bind; [typeclasses eauto|apply steps_modify|intros _].
  { intros s. constructor; [|done..|].
    - exists []. cbn. rewrite app_nil_r. split; [done|apply channels_evolve_refl].
    - cbn. by intros t ->. }
  apply steps_bind; [typeclasses eauto|apply pump_steps|intros _].
  apply steps_modify, evolves_push_wait.
Qed.

Lemma handle_packet_steps data from now : steps evolves (handle_packet data from now).
Proof.
  unfold handle_packet. apply steps_bind; [typeclasses eauto|apply evolves_on_ice|].
  intros []; [apply pump_steps|]. intros s. destruct (s_dtls s) as [d|] eqn:E.
  - apply (steps_bind evolves (read_dtls data now)); [apply read_dtls_steps|intros _; apply pump_steps].
  - cbn. destruct (_ <? _) eqn:El; [|reflexivity]. to_props. apply evolves_quiet; try done.
    unfold transports_inv. cbn. rewrite E. destruct (s_sctp s), (remote s); try done.
    intros _. rewrite blen_app. change (blen [data]) with 1. lia.
Qed.

Lemma handle_timeout_steps now : steps evolves (handle_timeout now).
Proof.
  unfold handle_timeout. apply steps_bind; [typeclasses eauto|apply evolves_on_ice|intros _].
  apply steps_bind; [typeclasses eauto| |intros _].
  { intros s. destruct (s_dtls s) as [d|] eqn:E; [|reflexivity].
    destruct (dtls_handle_timeout now d). by eapply evolves_set_dtls. }
  apply steps_bind; [typeclasses eauto|apply steps_modify|intros _].
  { intros s. destruct (s_sctp s) as [t|] eqn:E; [by eapply evolves_set_sctp|reflexivity]. }
  apply steps_bind; [typeclasses eauto|apply pump_steps|intros _].
  apply steps_modify, evolves_push_wait.
Qed.

Lemma send_steps ch data now : steps evolves (send ch data now).
Proof.
  intros s. unfold send. destruct (stream_id _ _); [|reflexivity].
  destruct (s_sctp s) as [t|] eqn:E; [|reflexivity].
  destruct (association_mut t); [|reflexivity].
  destruct (send_on _ _ _ _ _). by eapply evolves_set_sctp.
Qed.

Lemma session_handle_steps i : steps evolves (session_handle i).
Proof.
  destruct i; cbn [session_handle].
  - apply handle_packet_steps.
  - apply set_remote_description_steps.
  - unfold add_remote_candidate. apply steps_bind; [typeclasses eauto|apply evolves_on_ice|intros _].
    apply pump_steps.
  - apply steps_bind; [typeclasses eauto|apply send_steps|intros _]. apply pump_steps.
  - apply handle_timeout_steps.
Qed.

(** ** The invariant and the events *)

(** [outs] is what has been polled so far. *)
Definition session_inv (outs : list SessionOutput) (s : Session) : Prop :=
  transports_inv s /\ message_inv (reassembly (channels s)) /\
  (ready_emitted (channels s) = true -> forall ch, is_Some (stream_id (channels s) ch)) /\
  forall e, occurrences e (outs ++ output s) = emitted e (channels s).

Lemma session_inv_evolves outs s s' : evolves s s' -> session_inv outs s -> session_inv outs s'.
Proof.
  intros [(o & Ho & [Ee _ Er Ey]) Ht _ _] (H1 & H2 & H3 & H4).
  split; [auto|]. split; [auto|]. split; [auto|].
  intros e. rewrite Ho, (assoc_L (++)), occurrences_app, H4. specialize (Ee e). lia.
Qed.

Lemma session_inv_poll outs s :
  session_inv outs s -> session_inv (outs ++ option_list (poll s).1) (poll s).2.
Proof.
  intros (H1 & H2 & H3 & H4). cbn [poll session_sans]. unfold session_poll.
  destruct (output s) as [|o rest] eqn:E; cbn [fst snd option_list].
  - rewrite app_nil_r. rewrite <- E in H4. exact (conj H1 (conj H2 (conj H3 H4))).
  - split; [done|]. split; [done|]. split; [done|]. intros e. cbn [output set_output channels]. rewrite <- H4.
    by rewrite <- (assoc_L (++)).
Qed.

Lemma session_new_inv addr advertised controlling u p random now s d :
  session_with_advertised addr advertised controlling u p random now = Ok (s, d) ->
  session_inv [] s.
Proof.
  unfold session_with_advertised.
  intros (i & _ & (c & _ & (fp & _ & Heq)%res_bind_inv)%res_bind_inv)%res_bind_inv.
  apply Ok_inj in Heq as [= <- _]. split; [done|]. split; [apply message_new_inv|].
  split; [done|]. intros []; done.
Qed.

Lemma session_inv_trace s0 outs s : session_inv [] s0 -> trace s0 outs s -> session_inv outs s.
Proof.
  intros H0. induction 1 as [|i s0 outs s _ IH|s0 outs s _ IH]; [done| |].
  - eapply session_inv_evolves; [apply session_handle_steps|auto].
  - by apply session_inv_poll, IH.
Qed.

(** C1: Over the whole life of a session, whatever it is fed and in whatever
    order, [Ready] is emitted at most once and only when both channels are open,
    and [Failed] is emitted at most once. *)
Theorem session_events_once addr advertised controlling u p random now
    (s0 s : Session) (d : Description) (outs : list SessionOutput) :
  session_with_advertised addr advertised controlling u p random now = Ok (s0, d) ->
  trace s0 outs s ->
  (occurrences Ready (outs ++ output s) <= 1)%nat /\
  (occurrences Failed (outs ++ output s) <= 1)%nat /\
  ((0 < occurrences Ready (outs ++ output s))%nat ->
     is_Some (reliable_stream_id (channels s)) /\ is_Some (unreliable_stream_id (channels s))).
Proof.
  intros Hnew%session_new_inv Htrace.
  destruct (session_inv_trace _ _ _ Hnew Htrace) as (_ & _ & Hready & Hev).
  rewrite !Hev. unfold emitted.
  split; [destruct (ready_emitted _); lia|]. split; [destruct (failed_emitted _); lia|].
  destruct (ready_emitted _) eqn:E; [|lia]. intros _.
  split; [apply (Hready eq_refl Reliable)|apply (Hready eq_refl Unreliable)].
Qed.

(** C38: In every state a session can reach, the transports have either all
    started, towards the address recorded as remote, with the certificate spent
    and no packet left waiting, or none has and at most eight packets wait; and
    the reassembly buffer is within its bounds. *)
Theorem session_reachable_invariant addr advertised controlling u p random now
    (s0 s : Session) (d : Description) :
  session_with_advertised addr advertised controlling u p random now = Ok (s0, d) ->
  reachable s0 s ->
  match s_dtls s with
  | Some _ => is_Some (s_sctp s) /\ is_Some (remote s) /\ certificate s = None /\ early_packets s = []
  | None => s_sctp s = None /\ remote s = None /\ blen (early_packets s) <= MAX_EARLY_PACKETS
  end /\
  blen (data (reassembly (channels s))) <= MAX_REASSEMBLED_SIZE.
Proof.
  intros Hnew%session_new_inv Hr.
  assert (transports_inv s /\ message_inv (reassembly (channels s))) as [Ht (_ & _ & Hm)].
  { apply (reachable_invariant (fun s => transports_inv s /\ message_inv (reassembly (channels s))) s0).
    - intros i s1 [H1 H2]. destruct (session_handle_steps i s1) as [(o & _ & Hc) Ht _ _].
      split; [auto|by eapply ce_reassembly].
    - intros s1 [H1 H2]. cbn. unfold session_poll. by destruct (output s1).
    - by destruct Hnew as (? & ? & _).
    - done. }
  split; [|done]. unfold transports_inv in Ht.
  destruct (s_dtls s), (s_sctp s), (remote s); naive_solver.
Qed.

(** ** The establishment deadline *)

Lemma se_bind_Ok_inv {S E A B} (m : SE S E A) (f : A -> SE S E B) s b s' :
  (m ≫= f) s = (Ok b, s') -> exists a s1, m s = (Ok a, s1) /\ f a s1 = (Ok b, s').
Proof. cbv [mbind se_bind]. destruct (m s) as [[]]; [eauto|done..]. Qed.

(** A completed pump ends by checking the deadline. *)
Lemma pump_ends_with_expire now s s' :
  pump now s = (Ok tt, s') -> exists s1, s' = expire now s1 /\ evolves s s1.
Proof.
  unfold pump.
  intros ([] & s1 & E1 & ([] & s2 & E2 & ([] & s3 & E3 & (failed & s4 & E4 & ([] & s5 & E5 &
    ([] & s6 & E6 & E7)%se_bind_Ok_inv)%se_bind_Ok_inv)%se_bind_Ok_inv)%se_bind_Ok_inv
    )%se_bind_Ok_inv)%se_bind_Ok_inv.
  exists s6. split; [by injection E7|].
  injection E1 as <-. injection E2 as <-. injection E5 as <-. injection E6 as <-.
  etransitivity; [apply evolves_pump_ice_writes|].
  etransitivity; [apply evolves_pump_ice_events|].
  pose proof (start_transports_on_selected_pair_steps now (pump_ice_events (pump_ice_writes s))) as H3.
  rewrite E3 in H3. etransitivity; [exact H3|].
  pose proof (pump_transports_steps now s3) as H4. rewrite E4 in H4.
  etransitivity; [exact H4|]. etransitivity; [|apply evolves_emit_ready].
  destruct failed; [apply evolves_fail|reflexivity].
Qed.

Lemma expire_decides now s t :
  establish_started s = Some t -> t + establish_within s <= now ->
  ready_emitted (channels (expire now s)) || failed_emitted (channels (expire now s)) = true.
Proof.
  intros Ht Hnow. unfold expire, establish_deadline.
  destruct (ready_emitted (channels s) || failed_emitted (channels s)) eqn:E; [done|].
  rewrite Ht. cbn. destruct (_ <=? now) eqn:El; [|to_props; lia].
  to_props. unfold fail. rewrite H0. cbn. by rewrite orb_true_r.
Qed.

Lemma push_wait_channels now s : channels (push_wait now s) = channels s.
Proof.
  unfold push_wait, poll_timeout. destruct (ice_poll_timeout _). by destruct (min_opt _).
Qed.

Lemma min_opt_head a l : exists m, min_opt (Some a :: l) = Some m /\ m <= a.
Proof.
  unfold min_opt. cbn [fold_left].
  assert (forall b, b <= a -> exists m, fold_left (fun acc o =>
    match acc, o with
    | Some a, Some b => Some (Z.min a b)
    | Some a, None => Some a
    | None, o => o
    end) l (Some b) = Some m /\ m <= a) as H; [|apply H; lia].
  induction l as [|[c|] l IH]; intros b Hb; cbn [fold_left]; [eauto|apply IH; lia|by apply IH].
Qed.

Lemma push_wait_before_deadline now s deadline :
  establish_deadline s = Some deadline ->
  exists o w, output (push_wait now s) = o ++ [OWait w] /\ w <= Z.max 0 (deadline - now).
Proof.
  intros Hd. unfold push_wait, poll_timeout. rewrite Hd.
  destruct (ice_poll_timeout (s_ice s)) as [o i].
  destruct (min_opt_head deadline [o; s_dtls (set_ice i s) ≫= dtls_poll_timeout;
    s_sctp (set_ice i s) ≫= sctp_poll_timeout]) as (m & -> & Hm).
  eexists _, _. split; [done|]. unfold saturating_duration_since. lia.
Qed.

(** The deadline is fixed once: no input moves it, whether it was handled or
    ended in an error, and neither does polling. *)
Lemma deadline_stands s s' t :
  reachable s s' -> establish_started s = Some t ->
  establish_started s' = Some t /\ establish_within s' = establish_within s.
Proof.
  intros Hr Ht.
  apply (reachable_invariant (fun s' => establish_started s' = Some t /\
    establish_within s' = establish_within s) s); [| |done|done].
  - intros i s1 [Hs Hw]. destruct (session_handle_steps i s1) as [_ _ Hw' Hs'].
    cbn. rewrite Hw', Hw. split; [by apply Hs'|done].
  - intros s1 [Hs Hw]. cbn. unfold session_poll. by destruct (output s1).
Qed.

Lemma timeout_decides s s' now t :
  handle (ITimeout now) s = (Ok tt, s') -> establish_started s = Some t ->
  (t + establish_within s <= now ->
     ready_emitted (channels s') || failed_emitted (channels s') = true) /\
  (ready_emitted (channels s') || failed_emitted (channels s') = false ->
     exists o w, output s' = o ++ [OWait w] /\ w <= Z.max 0 (t + establish_within s - now)).
Proof.
  cbn [handle session_sans session_handle]. intros Hh Ht. unfold handle_timeout in Hh.
  apply se_bind_Ok_inv in Hh as ([] & s1 & E1 & Hh). apply se_bind_Ok_inv in Hh as ([] & s2 & E2 & Hh).
  apply se_bind_Ok_inv in Hh as ([] & s3 & E3 & Hh). apply se_bind_Ok_inv in Hh as ([] & s4 & E4 & Hh).
  injection Hh as <-. injection E3 as <-.
  pose proof (evolves_on_ice (ice_handle_timeout now) s) as H1. rewrite E1 in H1. cbn in H1.
  assert (evolves s1 s2) as H2.
  { destruct (s_dtls s1) as [d|] eqn:E; [|by injection E2 as <-].
    destruct (dtls_handle_timeout now d) as [r d']. injection E2 as _ <-. by eapply evolves_set_dtls. }
  set (s3 := match s_sctp s2 with None => s2 | Some t => _ end) in *.
  assert (evolves s2 s3) as H3.
  { subst s3. destruct (s_sctp s2) eqn:E; [by eapply evolves_set_sctp|reflexivity]. }
  apply pump_ends_with_expire in E4 as (s5 & -> & H5).
  assert (evolves s s5) as H by (repeat (etransitivity; [eassumption|]); reflexivity).
  destruct H as [_ _ Hw Hs]. specialize (Hs _ Ht). rewrite <- Hw.
  rewrite push_wait_channels. split; [by apply expire_decides|]. intros Hneither.
  apply push_wait_before_deadline. unfold establish_deadline. rewrite Hneither.
  destruct (evolves_expire now s5) as [_ _ Hw' Hs']. by rewrite Hw', (Hs' _ Hs).
Qed.

(** C35: The establishment deadline is fixed when the remote description
    arrives and is enforced by the next timeout that is handled: after any
    further inputs and polls, those that ended in an error included, a timeout
    that is handled without an error at or after the deadline leaves the session
    ready or failed; and while the session is neither, it ends by asking to be
    woken no later than the deadline.  (A timeout that ends in an error has not
    reached the check of the deadline: it leaves the deadline as it was.) *)
Theorem session_deadline_enforced (s s1 s' : Session) (now t : Instant) :
  establish_started s = Some t -> reachable s s1 ->
  handle (ITimeout now) s1 = (Ok tt, s') ->
  (t + establish_within s <= now ->
     ready_emitted (channels s') || failed_emitted (channels s') = true) /\
  (ready_emitted (channels s') || failed_emitted (channels s') = false ->
     exists o w, output s' = o ++ [OWait w] /\ w <= Z.max 0 (t + establish_within s - now)).
Proof.
  intros Ht Hr Hh. destruct (deadline_stands _ _ _ Hr Ht) as [Ht1 <-]. by apply timeout_decides.
Qed.

End session.
