(* ===== verification/SessionDelivery.v ===== *)
(** * SessionDelivery: the data channels of a session end to end

    From the writes of a sending session to the messages a receiving session
    emits, over streams that deliver what was written in order: framing
    ([Framing.v]), the stream loops and the channel table together. *)
From S2P Require Import Prelude Text Errors Endpoint Discovery Identity Webrtc Framing Transports Sans Session.

Section delivery.
Context {sctpops : SctpOps} {sctp_laws : SctpLaws sctpops} {dcepops : DcepOps}
  {dcep_laws : DcepLaws dcepops}.

(** ** Streams as sequences *)

(** Successful writes of [payloads], in order. *)
Inductive writes (sid : StreamId) (now : Instant) : list bytes -> Association -> Association -> Prop :=
| writes_nil a : writes sid now [] a a
| writes_cons p l a a' a'' :
    stream_write sid now p Binary a = (Ok tt, a') -> writes sid now l a' a'' ->
    writes sid now (p :: l) a a''.

(** Reading until there is nothing to read, or an error. *)
Inductive reads (sid : StreamId) : list Chunks -> Association -> Association -> Prop :=
| reads_end r a a' :
    stream_read sid a = (r, a') -> r <> Panic -> (forall c, r <> Ok (Some c)) -> reads sid [] a a'
| reads_cons c l a a' a'' :
    stream_read sid a = (Ok (Some c), a') -> reads sid l a' a'' -> reads sid (c :: l) a a''.

(** A chunk that carries a binary payload. *)
Definition carries (c : Chunks) (p : bytes) : Prop :=
  chunks_to_payload c (2 ^ 20) = Some p /\ chunks_ppi c = Binary.

Lemma writes_app sid now p q a a' a'' :
  writes sid now p a a' -> writes sid now q a' a'' -> writes sid now (p ++ q) a a''.
Proof. induction 1; cbn; [done|]. intros. econstructor; eauto. Qed.

(** The measure bounds what can be read, so the loop's fuel is enough. *)
Lemma reads_length sid l a a' : reads sid l a a' -> (length l <= assoc_reads a)%nat.
Proof.
  induction 1 as [|c l a a' a'' Hr _ IH]; cbn; [lia|].
  pose proof (stream_read_drain _ _ _ _ Hr). lia.
Qed.

(** ** Sending *)

Lemma write_segments_writes sid now segments : forall a a',
  write_segments sid segments now a = (Ok tt, a') ->
  writes sid now (segment_encode <$> segments) a a'.
Proof.
  induction segments as [|s segments IH]; intros a a'; cbn [write_segments fmap list_fmap].
  { intros [= ->]. constructor. }
  cbv [mbind se_bind foreign].
  destruct (stream_write sid now (segment_encode s) Binary a) as [[[]|e|] a1] eqn:E; try done.
  cbn. intros H. econstructor; [done|by apply IH].
Qed.

(** Messages sent one after the other. *)
Inductive sends (sid : StreamId) (ch : Channel) (now : Instant) :
    list bytes -> Association -> Association -> Prop :=
| sends_nil a : sends sid ch now [] a a
| sends_cons d l a a' a'' :
    send_on sid ch d now a = (Ok tt, a') -> sends sid ch now l a' a'' ->
    sends sid ch now (d :: l) a a''.

Lemma send_on_reliable sid now d a a' :
  send_on sid Reliable d now a = (Ok tt, a') ->
  exists segments, split_into_segments d = Ok segments /\
    writes sid now (segment_encode <$> segments) a a'.
Proof.
  unfold send_on. destruct (negb _); [done|]. cbv [mbind se_bind lift_res].
  destruct (split_into_segments d) as [segments| |]; try done. cbn.
  intros H. exists segments. split; [done|by apply write_segments_writes].
Qed.

Lemma send_on_unreliable sid now d a a' :
  send_on sid Unreliable d now a = (Ok tt, a') ->
  exists p, encode_unreliable d = Ok p /\ writes sid now [p] a a'.
Proof.
  unfold send_on. destruct (negb _); [done|]. cbv [mbind se_bind lift_res foreign].
  destruct (encode_unreliable d) as [p| |]; try done. cbn.
  destruct (stream_write sid now p Binary a) as [[[]| |] a1] eqn:E; cbn; try done.
  intros [= ->]. exists p. split; [done|]. econstructor; [done|constructor].
Qed.

(** ** Receiving *)

Definition delivered (rs : list (Res ProtocolError (option bytes))) : list bytes :=
  omap (fun r => match r with Ok (Some d) => Some d | _ => None end) rs.

Lemma feed_app m a b :
  feed m (a ++ b) =
    let '(r1, m1) := feed m a in let '(r2, m2) := feed m1 b in (r1 ++ r2, m2).
Proof.
  revert m. induction a as [|s a IH]; intros m; cbn [feed app].
  { by destruct (feed m b). }
  destruct (add_segment s m) as [r m1]. rewrite IH.
  destruct (feed m1 a) as [r1 m2]. by destruct (feed m2 b).
Qed.

(** A payload of one byte or none is ignored: a segment without data, which is
    what an empty message becomes, is never delivered. *)
Definition nonempty (d : bytes) : bool := match d with [] => false | _ => true end.

Definition full (segments : list MessageSegment) : list MessageSegment :=
  List.filter (fun s => nonempty (segment_data s)) segments.

Lemma full_app a b : full (a ++ b) = full a ++ full b.
Proof. apply List.filter_app. Qed.

Lemma full_id segments : Forall (fun s => segment_data s <> []) segments -> full segments = segments.
Proof.
  induction 1 as [|s segments Hs _ IH]; [done|]. unfold full in *. cbn.
  rewrite IH. by destruct (segment_data s).
Qed.

Lemma receive_segment c s a chans out :
  carries c (segment_encode s) -> segment_ok s -> segment_data s <> [] ->
  message_inv (reassembly chans) ->
  receive Reliable c {| l_assoc := a; l_channels := chans; l_output := out |} =
    (Ok tt, {| l_assoc := a;
               l_channels := set_reassembly (add_segment s (reassembly chans)).2 chans;
               l_output := out ++ (OMessage Reliable <$>
                 delivered [(add_segment s (reassembly chans)).1]) |}).
Proof.
  intros [Hp Hppi] Hs Hne Hinv. unfold receive. rewrite Hp, Hppi, segment_decode_encode by done.
  cbn [l_channels]. pose proof (add_segment_cases _ _ Hinv Hs) as Hout.
  destruct (add_segment s (reassembly chans)) as [r m]. cbn [fst snd] in Hout |- *.
  destruct r as [[d|]|e|]; cbn; rewrite ?app_nil_r; try done. inversion Hout.
Qed.

Lemma receive_empty_segment c s l :
  carries c (segment_encode s) -> segment_data s = [] -> receive Reliable c l = (Ok tt, l).
Proof.
  intros [Hp Hppi] Hs. unfold receive. rewrite Hp, Hppi. destruct s as [n d]. cbn in Hs. by subst d.
Qed.

Lemma read_segments sid segments : forall chunks a a' fuel chans out rs m',
  Forall2 (fun c s => carries c (segment_encode s)) chunks segments ->
  Forall segment_ok segments ->
  reads sid chunks a a' -> (length chunks < fuel)%nat ->
  message_inv (reassembly chans) -> feed (reassembly chans) (full segments) = (rs, m') ->
  read_loop fuel Reliable sid {| l_assoc := a; l_channels := chans; l_output := out |} =
    (Ok tt, {| l_assoc := a'; l_channels := set_reassembly m' chans;
               l_output := out ++ (OMessage Reliable <$> delivered rs) |}).
Proof.
  induction segments as [|s segments IH]; intros chunks a a' fuel chans out rs m' Hc Hs Hr Hf Hinv Hfeed;
    (destruct fuel as [|fuel]; [lia|]); cbn [read_loop].
  - inversion Hc; subst. cbn in Hfeed. injection Hfeed as <- <-.
    inversion Hr as [r ? ? Hread Hnp Hno|]; subst.
    cbv [mbind se_bind on_assoc attempt]. cbn [l_assoc]. rewrite Hread.
    destruct r as [[c|]|e|]; cbn; rewrite ?app_nil_r; try done; try (by destruct chans);
      [by destruct (Hno c)|by destruct chans..].
  - inversion Hc as [|c ? chunks' ? Hcs Hc']; subst. inversion Hs; subst.
    inversion Hr as [|? ? ? a1 ? Hread Hr']; subst.
    cbv [mbind se_bind on_assoc attempt]. cbn [l_assoc]. rewrite Hread. cbn [fst snd].
    destruct (segment_data s) as [|x d] eqn:Ed.
    { rewrite (receive_empty_segment c s) by done. unfold full in Hfeed. cbn in Hfeed.
      rewrite Ed in Hfeed. cbn in Hf. by rewrite (IH chunks' a1 a' fuel chans _ rs m'); [|done|done|done|lia|done|]. }
    unfold full in Hfeed. cbn [List.filter] in Hfeed. rewrite Ed in Hfeed. cbn [nonempty] in Hfeed.
    fold (full segments) in Hfeed.
    cbn [feed] in Hfeed. destruct (add_segment s (reassembly chans)) as [r1 m1] eqn:Ea.
    destruct (feed m1 (full segments)) as [rs' m2] eqn:Ef. injection Hfeed as <- <-.
    rewrite (receive_segment c s) by (done || congruence).
    cbn [l_channels l_output]. rewrite Ea. cbn [fst snd].
    rewrite (IH chunks' a1 a' fuel (set_reassembly m1 chans) _ rs' m2); try done; [|cbn in Hf; lia|].
    + f_equal. f_equal. rewrite <- (assoc_L (++)), <- fmap_app. f_equal.
      f_equal. unfold delivered. by rewrite <- omap_app.
    + cbn. eapply add_outcome_inv; [done..|]. replace m1 with (add_segment s (reassembly chans)).2
        by (by rewrite Ea). by apply add_segment_cases.
Qed.

(** ** What a sequence of sent messages puts on the stream *)

Definition segments_of (d : bytes) : list MessageSegment :=
  match split_into_segments d with Ok segments => segments | _ => [] end.

(** The payloads of messages sent one after the other. *)
Definition reliable_payloads (msgs : list bytes) : list bytes :=
  segment_encode <$> (msgs ≫= segments_of).

(** One message, fed to an idle buffer. *)
Lemma feed_message d segments :
  split_into_segments d = Ok segments ->
  Forall segment_ok segments /\
  exists rs, feed message_new (full segments) = (rs, message_new) /\
    delivered rs = List.filter nonempty [d].
Proof.
  intros Hsplit. destruct (decide (d = [])) as [->|Hne].
  { vm_compute in Hsplit. apply Ok_inj in Hsplit as <-. split; [|by exists []].
    constructor; [|constructor]. unfold segment_ok, is_u8. cbn. lia. }
  pose proof (split_into_segments_spec d) as Hspec.
  destruct (blen d <=? MAX_SPLIT_SIZE) eqn:E; [|congruence].
  destruct Hspec as (segs & n & Hsplit' & Hn & Hcounts & Hpay & _ & Hfulls).
  assert (segs = segments) as -> by congruence.
  split; [apply (countdown_u8 n); [lia|done]|].
  exists (replicate n (Ok None) ++ [Ok (Some d)]). rewrite full_id by by apply Hfulls.
  rewrite (feed_run n); [|lia|done|by left| |apply message_new_inv].
  - rewrite Hpay. cbn [data message_new app]. split; [done|]. destruct d as [|x d]; [done|]. cbn.
    unfold delivered. rewrite omap_app. clear. by induction n.
  - to_props. rewrite Hpay. cbn [data message_new]. rewrite blen_nil.
    unfold MAX_SPLIT_SIZE, MAX_REASSEMBLED_SIZE, MAX_MESSAGE_SIZE in *. lia.
Qed.

Lemma sends_reliable sid now msgs a a' :
  sends sid Reliable now msgs a a' ->
  writes sid now (reliable_payloads msgs) a a' /\
  Forall segment_ok (msgs ≫= segments_of) /\
  exists rs, feed message_new (full (msgs ≫= segments_of)) = (rs, message_new) /\
    delivered rs = List.filter nonempty msgs.
Proof.
  unfold reliable_payloads.
  induction 1 as [|d msgs a a1 a' Hsend _ IH].
  { split; [constructor|]. split; [constructor|]. by exists []. }
  destruct IH as (Hw & Hok & rs & Hfeed & Hdel).
  apply send_on_reliable in Hsend as (segs & Hsplit & Hws).
  destruct (feed_message d segs Hsplit) as (Hoks & rs1 & Hfeed1 & Hdel1).
  rewrite bind_cons. replace (segments_of d) with segs by (unfold segments_of; by rewrite Hsplit).
  split; [rewrite fmap_app; by eapply writes_app|]. split; [by apply list.Forall_app|].
  exists (rs1 ++ rs). rewrite full_app, feed_app, Hfeed1, Hfeed. split; [done|].
  unfold delivered in *. rewrite omap_app, Hdel, Hdel1. by rewrite <- List.filter_app.
Qed.

(** C2: The reliable channel is exact end to end, for any messages that were
    all sent successfully, one after the other: what is on the stream is the
    segments of each message in order, and any session that reads these payloads
    in order on its reliable stream, with its reassembly buffer idle, emits
    exactly the messages that are not empty, whole and in the order they were
    sent, and has its buffer idle again.  An empty message is sent and not
    delivered; it does not disturb the ones around it. *)
Theorem reliable_channel_exact (sid : StreamId) (now : Instant) (msgs : list bytes)
    (a a' : Association) :
  sends sid Reliable now msgs a a' ->
  writes sid now (reliable_payloads msgs) a a' /\
  forall sid' chunks (l : Links) b,
    reliable_stream_id (l_channels l) = Some sid' -> has_stream sid' (l_assoc l) = true ->
    reassembly (l_channels l) = message_new ->
    reads sid' chunks (l_assoc l) b -> Forall2 carries chunks (reliable_payloads msgs) ->
    exists l', read_channel Reliable l = (Ok tt, l') /\
      l_output l' = l_output l ++ (OMessage Reliable <$> List.filter nonempty msgs) /\
      reassembly (l_channels l') = message_new /\ l_assoc l' = b.
Proof.
  intros (Hw & Hok & rs & Hfeed & Hdel)%sends_reliable. split; [done|].
  intros sid' chunks [b0 chans out] b Hsid Hhas Hidle Hreads Hc. cbn in *.
  unfold read_channel. cbn [l_channels stream_id l_assoc]. rewrite Hsid, Hhas.
  eexists. rewrite (read_segments sid' (msgs ≫= segments_of) chunks b0 b _ chans out rs message_new); try done.
  - by rewrite Hdel.
  - exact (proj1 (Forall2_fmap_r segment_encode carries chunks _) Hc).
  - pose proof (reads_length _ _ _ _ Hreads). lia.
  - rewrite Hidle. apply message_new_inv.
  - by rewrite Hidle.
Qed.

(** The unreliable channel delivers each datagram whole or not at all: a
    message sent successfully is one payload, and a session that receives that
    payload on its unreliable channel emits the message and nothing else,
    whatever its reassembly buffer holds. *)
Theorem unreliable_channel_whole (sid : StreamId) (now : Instant) (d : bytes)
    (a a' : Association) :
  send_on sid Unreliable d now a = (Ok tt, a') -> d <> [] ->
  exists p, writes sid now [p] a a' /\
    forall c (l : Links), carries c p ->
      receive Unreliable c l =
        (Ok tt, {| l_assoc := l_assoc l; l_channels := l_channels l;
                   l_output := l_output l ++ [OMessage Unreliable d] |}).
Proof.
  intros (p & Hp & Hw)%send_on_unreliable Hne. exists p. split; [done|].
  intros c l [Hc Hppi]. unfold encode_unreliable in Hp.
  destruct (_ >? _); [done|]. apply Ok_inj in Hp as <-.
  unfold receive. rewrite Hc, Hppi, segment_decode_encode; [done| |done].
  unfold segment_ok, is_u8. cbn. lia.
Qed.

(** ** Opening the channels *)

(** The open message the controlling side writes for a channel, and where. *)
Definition open_of (ch : Channel) : DataChannelOpen :=
  match ch with Reliable => reliable_open | Unreliable => unreliable_open end.

Definition stream_of (ch : Channel) : StreamId :=
  match ch with Reliable => RELIABLE_STREAM_ID | Unreliable => UNRELIABLE_STREAM_ID end.

Lemma open_channel_opens now sid ch o l l' :
  open_channel now sid ch o l = (Ok tt, l') ->
  l_channels l' = set_open ch sid (l_channels l) /\ l_output l' = l_output l.
Proof.
  unfold open_channel. cbv [mbind se_bind on_assoc foreign lift_res].
  destruct (open_stream sid Binary (l_assoc l)) as [[[]| |] a1]; cbn; try done.
  destruct (encode_open o) as [p| |]; try done.
  destruct (stream_write sid now p Dcep a1) as [[[]| |] a2]; cbn; try done.
  by intros [= <-].
Qed.

(** Both sides agree on the channels: when the controlling side has opened
    its channels, the reliable one is stream 1 and the unreliable one stream 3,
    and a peer that accepts a stream whose first message is the open message
    written for a channel opens that same channel on that stream, once its
    acknowledgement is written. *)
Theorem channels_agree (now : Instant) (l l' : Links) :
  open_channels_if_controlling true now l = (Ok tt, l') ->
  (forall ch, stream_id (l_channels l') ch = Some (stream_of ch)) /\
  forall ch p sid c ack a1 a2 (peer : Links),
    encode_open (open_of ch) = Ok p ->
    stream_read sid (l_assoc peer) = (Ok (Some c), a1) -> chunks_to_payload c 4096 = Some p ->
    encode_ack = Ok ack -> stream_write sid now ack Dcep a1 = (Ok tt, a2) ->
    accept_one now sid peer =
      (Ok tt, {| l_assoc := a2; l_channels := set_open ch sid (l_channels peer);
                 l_output := l_output peer |}).
Proof.
  intros Hopen. split.
  - unfold open_channels_if_controlling in Hopen. cbn [negb] in Hopen. revert Hopen.
    cbv [mbind se_bind].
    destruct (open_channel now RELIABLE_STREAM_ID Reliable reliable_open l) as [[[]| |] l1] eqn:E1;
      try done.
    intros [E2 _]%open_channel_opens. apply open_channel_opens in E1 as [E1 _].
    rewrite E2, E1. by intros [].
  - intros ch p sid c ack a1 a2 peer Hp Hread Hc Hack Hw.
    assert (opened_channel c = Some ch) as Hch.
    { unfold opened_channel. rewrite Hc. cbn [mbind option_bind].
      unfold encode_open in Hp. destruct (dcep_marshal (MessageOpen (open_of ch))) as [q|] eqn:Eq;
        [|done]. apply Ok_inj in Hp as ->.
      unfold dcep_decode. rewrite (dcep_unmarshal_marshal _ _ Eq). cbn.
      destruct ch; reflexivity. }
    unfold accept_one. cbv [mbind se_bind on_assoc attempt]. rewrite Hread, Hch.
    cbv [lift_res]. rewrite Hack. cbn [l_assoc]. unfold foreign. rewrite Hw. reflexivity.
Qed.

End delivery.
