(* ===== verification/SessionInstance.v ===== *)
(** * SessionInstance: concrete transports for the session theorems

    An ICE agent that selects the first remote candidate, a DTLS endpoint that
    passes data through, an SCTP association with an inbox and an outbox, and a
    tagged form of the channel messages: the laws of the crates hold together,
    and the theorems apply to concrete sessions. *)
From S2P Require Import Prelude Text Errors Endpoint Discovery Identity Webrtc WebrtcInstance.
From S2P Require Import Framing Transports Sans Session SessionSafety SessionDelivery.

#[local] Existing Instance toy_crypto.

(** ** ICE *)

Record ToyAgent := {
  toy_credentials : Credentials;
  toy_locals : list positive;
  toy_writes : list (bytes * SocketAddr);
  toy_events : list IceEvent;
  toy_selected : option positive;
}.

Definition toy_addr (p : positive) : SocketAddr := socket_addr_new (Endpoint.V4 192 168 1 10) (Z.pos p).

#[global] Instance toy_ice : @IceOps toy_candidates toy_certificates := {|
  Agent := ToyAgent;
  agent_new _ c _ := Some {|
    toy_credentials := {| ufrag := config_ufrag c; pwd := config_pwd c |}; toy_locals := [];
    toy_writes := []; toy_events := []; toy_selected := None |};
  new_candidate_host c := Some (Z.to_pos (cfg_port c) : @Candidate toy_candidates);
  add_local_candidate c a := (Ok tt, {|
    toy_credentials := toy_credentials a; toy_locals := toy_locals a ++ [c];
    toy_writes := toy_writes a; toy_events := toy_events a; toy_selected := toy_selected a |});
  get_local_credentials := toy_credentials;
  get_local_candidates := toy_locals;
  agent_set_remote_credentials _ _ a := (Ok tt, a);
  agent_add_remote_candidate c a := (Ok true, {|
    toy_credentials := toy_credentials a; toy_locals := toy_locals a;
    toy_writes := toy_writes a ++ [(str "check", toy_addr c)];
    toy_events := toy_events a ++ [IceOtherEvent]; toy_selected := Some c |});
  is_stun_message d := starts_with (str "stun") d;
  agent_handle_read _ _ _ _ a := (Ok tt, {|
    toy_credentials := toy_credentials a; toy_locals := toy_locals a; toy_writes := toy_writes a;
    toy_events := toy_events a ++ [ConnectionStateChange IceFailed];
    toy_selected := toy_selected a |});
  agent_poll_write a :=
    match toy_writes a with
    | [] => (None, a)
    | w :: l => (Some w, {| toy_credentials := toy_credentials a; toy_locals := toy_locals a;
        toy_writes := l; toy_events := toy_events a; toy_selected := toy_selected a |})
    end;
  agent_poll_event a :=
    match toy_events a with
    | [] => (None, a)
    | e :: l => (Some e, {| toy_credentials := toy_credentials a; toy_locals := toy_locals a;
        toy_writes := toy_writes a; toy_events := l; toy_selected := toy_selected a |})
    end;
  agent_handle_timeout _ a := (Ok tt, a);
  agent_poll_timeout a := (None, a);
  get_selected_candidate_pair a := (fun c => (c, c)) <$> toy_selected a;
  candidate_addr := toy_addr;
  agent_writes a := length (toy_writes a);
  agent_events a := length (toy_events a);
|}.

#[global] Instance toy_ice_laws : IceLaws toy_ice.
Proof.
  split; intros a x a'; cbn.
  - destruct (toy_writes a) as [|w l]; [done|]. intros [= _ <-]. cbn. lia.
  - destruct (toy_events a) as [|w l]; [done|]. intros [= _ <-]. cbn. lia.
Qed.

(** ** DTLS *)

#[global] Instance toy_dtls : @DtlsOps toy_certificates := {|
  DtlsConfig := unit;
  DtlsEndpoint := list (bytes * SocketAddr);
  dtls_build _ _ _ := Some tt;
  dtls_endpoint_new _ _ := [];
  dtls_endpoint_connect _ to _ q := (Ok tt, q ++ [(str "hello", to)]);
  dtls_endpoint_read _ _ d q := (Ok [ApplicationData d], q);
  dtls_endpoint_write _ to d q := (Ok tt, q ++ [(d, to)]);
  dtls_endpoint_poll_transmit q := match q with [] => (None, []) | m :: q => (Some m, q) end;
  dtls_endpoint_handle_timeout _ _ q := (Ok tt, q);
  dtls_endpoint_poll_timeout _ _ := None;
  dtls_transmits := length;
|}.

#[global] Instance toy_dtls_laws : DtlsLaws toy_dtls.
Proof. split. intros [|m q] x q'; cbn; [done|]. intros [= _ <-]. lia. Qed.

(** ** SCTP *)

Abbreviation parcel := (Z * (bytes * PayloadProtocolIdentifier))%type.

Record ToyAssoc := {
  toy_accepts : list Z;
  toy_inbox : list parcel;
  toy_outbox : list parcel;
  toy_sctp_events : list SctpEvent;
}.

Definition idle_assoc : ToyAssoc :=
  {| toy_accepts := []; toy_inbox := []; toy_outbox := []; toy_sctp_events := [SctpConnected] |}.

(** The first parcel of a stream, and the rest. *)
Fixpoint take_parcel (sid : Z) (l : list parcel)
    : option (bytes * PayloadProtocolIdentifier) * list parcel :=
  match l with
  | [] => (None, [])
  | (i, p) :: l =>
      if i =? sid then (Some p, l)
      else let '(o, rest) := take_parcel sid l in (o, (i, p) :: rest)
  end.

Lemma take_parcel_length sid l p rest :
  take_parcel sid l = (Some p, rest) -> (length rest < length l)%nat.
Proof.
  revert p rest. induction l as [|[i q] l IH]; intros p rest; cbn; [done|].
  destruct (i =? sid); [intros [= _ <-]; lia|].
  destruct (take_parcel sid l) as [o r]. intros [= -> <-].
  specialize (IH _ _ eq_refl). cbn. lia.
Qed.

#[global] Instance toy_sctp : SctpOps := {|
  SctpEndpoint := unit;
  AssociationHandle := unit;
  Association := ToyAssoc;
  AssocEvent := unit;
  SctpEndpointEvent := unit;
  Chunks := bytes * PayloadProtocolIdentifier;
  sctp_endpoint_new _ _ := tt;
  sctp_endpoint_connect _ _ _ e := (Ok (tt, idle_assoc), e);
  sctp_endpoint_handle _ _ _ e := (None, e);
  sctp_endpoint_handle_event _ _ e := e;
  assoc_handle_event _ a := a;
  assoc_rtt _ := 0;
  assoc_poll_transmit _ a :=
    match toy_outbox a with
    | [] => (None, a)
    | (_, (d, _)) :: l => (Some (RawEncode [d]), {| toy_accepts := toy_accepts a;
        toy_inbox := toy_inbox a; toy_outbox := l; toy_sctp_events := toy_sctp_events a |})
    end;
  assoc_poll a :=
    match toy_sctp_events a with
    | [] => (None, a)
    | e :: l => (Some e, {| toy_accepts := toy_accepts a; toy_inbox := toy_inbox a;
        toy_outbox := toy_outbox a; toy_sctp_events := l |})
    end;
  assoc_handle_timeout _ a := a;
  assoc_poll_endpoint_event a := (None, a);
  assoc_poll_timeout _ := None;
  open_stream _ _ a := (Ok tt, a);
  has_stream _ _ := true;
  accept_stream a :=
    match toy_accepts a with
    | [] => (None, a)
    | i :: l => (Some i, {| toy_accepts := l; toy_inbox := toy_inbox a; toy_outbox := toy_outbox a;
        toy_sctp_events := toy_sctp_events a |})
    end;
  stream_read sid a :=
    let '(o, l) := take_parcel sid (toy_inbox a) in
    (Ok o, {| toy_accepts := toy_accepts a; toy_inbox := l; toy_outbox := toy_outbox a;
              toy_sctp_events := toy_sctp_events a |});
  stream_write sid _ d p a :=
    (Ok tt, {| toy_accepts := toy_accepts a; toy_inbox := toy_inbox a;
               toy_outbox := toy_outbox a ++ [(sid, (d, p))];
               toy_sctp_events := toy_sctp_events a |});
  chunks_ppi := snd;
  chunks_to_payload c _ := Some (fst c);
  assoc_transmits a := length (toy_outbox a);
  assoc_events a := length (toy_sctp_events a);
  assoc_endpoint_events _ := 0%nat;
  assoc_accepts a := length (toy_accepts a);
  assoc_reads a := length (toy_inbox a);
|}.

#[global] Instance toy_sctp_laws : SctpLaws toy_sctp.
Proof.
  split; cbn.
  - intros a x a'. by cbn.
  - intros a x a'. cbn. destruct (toy_sctp_events a); [done|]. intros [= _ <-]. cbn. lia.
  - intros a x a'. cbn. destruct (toy_accepts a); [done|]. intros [= _ <-]. cbn. lia.
  - intros now a packets a'. destruct (toy_outbox a) as [|[i [d p]] l]; [done|].
    intros [= <- <-]. cbn. lia.
  - intros sid a c a'. destruct (take_parcel sid (toy_inbox a)) as [o l] eqn:E.
    intros [= -> <-]. by apply take_parcel_length in E.
  - intros sid a. by destruct (take_parcel sid (toy_inbox a)).
  - done.
  - done.
  - done.
Qed.

(** ** Channel messages *)

#[local] Instance ChannelType_eq_dec : EqDecision ChannelType.
Proof. solve_decision. Defined.

#[global] Instance toy_dcep : DcepOps := {|
  CHANNEL_PRIORITY_NORMAL := 256;
  dcep_marshal m :=
    match m with
    | MessageOpen o =>
        if bool_decide (channel_type o = ChannelReliable /\ priority o = 256
                        /\ reliability_parameter o = 0 /\ open_protocol o = [])
        then Some (x03 :: x00 :: label o)
        else if bool_decide (channel_type o = PartialReliableRexmitUnordered /\ priority o = 256
                        /\ reliability_parameter o = 0 /\ open_protocol o = [])
        then Some (x03 :: x82 :: label o)
        else None
    | MessageAck => Some [x02]
    | OtherDcepMessage => None
    end;
  dcep_unmarshal d :=
    match d with
    | x03 :: x00 :: l => Some (MessageOpen {| channel_type := ChannelReliable; priority := 256;
        reliability_parameter := 0; label := l; open_protocol := [] |})
    | x03 :: x82 :: l => Some (MessageOpen {| channel_type := PartialReliableRexmitUnordered;
        priority := 256; reliability_parameter := 0; label := l; open_protocol := [] |})
    | [x02] => Some MessageAck
    | _ => None
    end;
|}.

#[global] Instance toy_dcep_laws : DcepLaws toy_dcep.
Proof.
  split. intros [[ty pr re la po]| |] d; cbn; [|by intros [= <-]|done].
  destruct (bool_decide _) eqn:E1; to_props.
  { destruct E1 as (-> & -> & -> & ->). by intros [= <-]. }
  destruct (bool_decide _) eqn:E2; to_props; [|done].
  destruct E2 as (-> & -> & -> & ->). by intros [= <-].
Qed.

(** ** A session that becomes ready *)

Definition sample_addr : SocketAddr := socket_addr_new LOCALHOST 40000.

Definition sample_result : Res ProtocolError (Session * Description) :=
  session_new sample_addr true (str "abcd") (str "secret") (str "r") 0.

Definition sample_session : Session :=
  match sample_result with
  | Ok (s, _) => s
  | _ => {| is_controlling := true; local_addr := sample_addr;
            s_ice := {| agent := {| toy_credentials := {| ufrag := []; pwd := [] |};
              toy_locals := []; toy_writes := []; toy_events := []; toy_selected := None |};
              ice_local_addr := sample_addr |};
            certificate := None; pending_role_fingerprint := None; remote_max_message_size := 0;
            early_packets := []; remote := None; s_dtls := None; s_sctp := None;
            channels := Channels_default; output := []; establish_within := 0;
            establish_started := None |}
  end.

Definition sample_remote : Description := {|
  ice := {| ufrag := str "wxyz"; pwd := str "other" |};
  dtls_role := RoleServer;
  desc_fingerprint := (str "sha-256", str "AB");
  sctp_max_message_size := 0;
  desc_identity := None |}.

Definition sample_local : Description :=
  match sample_result with Ok (_, d) => d | _ => sample_remote end.

Lemma sample_new :
  session_with_advertised sample_addr [] true (str "abcd") (str "secret") (str "r") 0
  = Ok (sample_session, sample_local).
Proof. vm_compute. reflexivity. Qed.

(** The remote description arrives without a candidate. *)
Definition described : Session :=
  (handle (IRemoteDescription sample_remote [] 5) sample_session).2.

(** A candidate follows, which starts the transports and opens the channels. *)
Definition started : Session :=
  (handle (IRemoteCandidate (7%positive : @Candidate toy_candidates) 6) described).2.

Lemma started_ready : occurrences Ready ([] ++ output started) = 1%nat.
Proof. vm_compute. reflexivity. Qed.

Lemma started_trace : trace sample_session [] started.
Proof.
  apply (trace_handle (IRemoteCandidate (7%positive : @Candidate toy_candidates) 6)),
    (trace_handle (IRemoteDescription sample_remote [] 5)), trace_start.
Qed.

Lemma started_reachable : reachable sample_session started.
Proof.
  apply (rtc_r _ described); [apply (rtc_r _ sample_session); [apply rtc_refl|]|].
  - apply (step_handle (IRemoteDescription sample_remote [] 5)).
  - apply (step_handle (IRemoteCandidate (7%positive : @Candidate toy_candidates) 6)).
Qed.

Lemma session_events_once_witness :
  (0 < occurrences Ready ([] ++ output started))%nat /\
  is_Some (reliable_stream_id (channels started)) /\
  is_Some (unreliable_stream_id (channels started)).
Proof.
  assert (0 < occurrences Ready ([] ++ output started))%nat as H by (rewrite started_ready; lia).
  split; [exact H|].
  exact (proj2 (proj2 (session_events_once sample_addr [] true (str "abcd") (str "secret") (str "r") 0
           sample_session started sample_local [] sample_new started_trace)) H).
Defined.

Lemma started_transports : exists d, s_dtls started = Some d.
Proof. vm_compute. eauto. Qed.

Lemma session_reachable_invariant_witness :
  is_Some (s_sctp started) /\ is_Some (remote started) /\ certificate started = None /\
  early_packets started = [].
Proof.
  pose proof (session_reachable_invariant sample_addr [] true (str "abcd") (str "secret") (str "r") 0
    sample_session started sample_local sample_new started_reachable) as [H _].
  destruct started_transports as [d E]. rewrite E in H. exact H.
Defined.

(** A timeout on the way, and twenty seconds later, without a candidate. *)
Definition waiting : Session := (handle (ITimeout (secs 1)) described).2.
Definition expired : Session := (handle (ITimeout (secs 20)) waiting).2.

Lemma expired_handled : handle (ITimeout (secs 20)) waiting = (Ok tt, expired).
Proof. vm_compute. reflexivity. Qed.

Lemma waiting_neither : ready_emitted (channels waiting) || failed_emitted (channels waiting) = false.
Proof. vm_compute. reflexivity. Qed.

Lemma described_started : establish_started described = Some 5.
Proof. vm_compute. reflexivity. Qed.

Lemma described_overdue : 5 + establish_within described <= secs 20.
Proof. vm_compute. discriminate. Qed.

Lemma waiting_reachable : reachable described waiting.
Proof. apply rtc_once, (step_handle (ITimeout (secs 1))). Qed.

Lemma session_deadline_enforced_witness :
  ready_emitted (channels waiting) || failed_emitted (channels waiting) = false /\
  ready_emitted (channels expired) || failed_emitted (channels expired) = true.
Proof.
  split; [exact waiting_neither|].
  exact (proj1 (session_deadline_enforced described waiting expired (secs 20) 5
           described_started waiting_reachable expired_handled) described_overdue).
Defined.

(** ** Messages through the channels *)

Definition sample_assoc : @Association toy_sctp := idle_assoc.

(** Three messages, the second of them empty, sent on stream 1 ... *)
Definition sample_messages : list bytes := [str "hello"; []; str "world"].

Definition after_sends : @Association toy_sctp :=
  (send_on 1 Reliable (str "world") 0
     (send_on 1 Reliable [] 0 (send_on 1 Reliable (str "hello") 0 sample_assoc).2).2).2.

(** ... and what arrives from them on the reliable stream of a peer. *)
Definition arrived : list (@Chunks toy_sctp) :=
  (fun '(_, c) => c) <$> toy_outbox after_sends.

Lemma arrived_segments :
  arrived = (fun d => (segment_encode (segment_new 0 d), Binary)) <$> sample_messages.
Proof. vm_compute. reflexivity. Qed.

Definition reading_links : Links :=
  {| l_assoc := {| toy_accepts := []; toy_inbox := (fun c => (1, c)) <$> arrived; toy_outbox := [];
                   toy_sctp_events := [] |} : @Association toy_sctp;
     l_channels := set_open Reliable 1 Channels_default; l_output := [] |}.

Definition read_assoc : @Association toy_sctp :=
  {| toy_accepts := []; toy_inbox := []; toy_outbox := []; toy_sctp_events := [] |}.

Lemma reliable_channel_exact_witness :
  writes 1 0 (reliable_payloads sample_messages) sample_assoc after_sends /\
  exists l', read_channel Reliable reading_links = (Ok tt, l') /\
    l_output l' = [OMessage Reliable (str "hello"); OMessage Reliable (str "world")] /\
    reassembly (l_channels l') = message_new /\ l_assoc l' = read_assoc.
Proof.
  destruct (reliable_channel_exact 1 0 sample_messages sample_assoc after_sends) as [Hw Hread].
  - do 3 (eapply sends_cons; [by vm_compute|]). apply sends_nil.
  - split; [exact Hw|]. apply (Hread 1 arrived reading_links read_assoc); [reflexivity..| |].
    + rewrite arrived_segments at 1. cbn [fmap list_fmap sample_messages]. do 3 (eapply (@reads_cons toy_sctp); [vm_compute; reflexivity|]).
      eapply (@reads_end toy_sctp _ (Ok None)); [vm_compute; reflexivity|discriminate|intros c; discriminate].
    + vm_compute. repeat constructor.
Defined.

Lemma unreliable_channel_whole_witness :
  exists p, writes 3 0 [p] sample_assoc (send_on 3 Unreliable (str "hello") 0 sample_assoc).2 /\
    forall c (l : Links), carries c p ->
      receive Unreliable c l =
        (Ok tt, {| l_assoc := l_assoc l; l_channels := l_channels l;
                   l_output := l_output l ++ [OMessage Unreliable (str "hello")] |}).
Proof.
  apply (unreliable_channel_whole 3 0 (str "hello") sample_assoc); by vm_compute.
Defined.

Definition sample_links : Links :=
  {| l_assoc := sample_assoc; l_channels := Channels_default; l_output := [] |}.

Definition opened_links : Links := (open_channels_if_controlling true 0 sample_links).2.

Lemma opened : open_channels_if_controlling true 0 sample_links = (Ok tt, opened_links).
Proof. vm_compute. reflexivity. Qed.

Lemma channels_agree_witness : stream_id (l_channels opened_links) Unreliable = Some 3.
Proof. exact (proj1 (channels_agree 0 sample_links opened_links opened) Unreliable). Defined.
