(* ===== verification/Connection.v ===== *)
(** * Connection: a session with offer, answer and candidate signals
    ([connection.rs])

    The wall clock that a session description is stamped with is an argument
    ([wall]) of the operations that write one. *)
From S2P Require Import Prelude Text Errors SignalMsg Endpoint Discovery Identity Webrtc.
From S2P Require Import Framing Transports Sans Session.

Inductive IceMode := Full | Trickle.
#[global] Instance IceMode_eq_dec : EqDecision IceMode.
Proof. solve_decision. Defined.

Inductive SignalKind := KOffer | KAnswer.

Section connection.
Context {crypto : CryptoOps} {sdp : Sdp} {cand : IceCandidate} {cert : CertificateOps}
  {iceops : IceOps} {dtlsops : DtlsOps} {sctpops : SctpOps} {dcepops : DcepOps}.

Record Connection := {
  c_session : Session;
  c_connection_id : Z;
  remote_network_id : bytes;
  remote_identity : option bytes;
}.

Inductive ConnectionInput :=
| CPacket (data : bytes) (from : SocketAddr) (now : Instant)
| CTimeout (now : Instant)
| CSignal (signal : Signal) (now : Instant)
| CSend (channel : Channel) (data : bytes) (now : Instant).

Definition describe (session : Session) (d : Description) (ice_mode : IceMode) (cid : Z)
    (nid : bytes) (kind : SignalKind) (wall : SystemTime) : list Signal :=
  let text := match ice_mode with
              | Full => encode_full d (local_candidates session) wall
              | Trickle => encode_trickle d wall
              end in
  match kind with
  | KOffer => signal_offer cid text nid
  | KAnswer => signal_answer cid text nid
  end ::
  match ice_mode with
  | Full => []
  | Trickle =>
      (fun c => signal_candidate cid (format_ice_candidate 0 c (ufrag (ice d))) nid)
        <$> local_candidates session
  end.

Definition connect (session : Session) (d : Description) (cid : Z) (nid : bytes)
    (ice_mode : IceMode) (wall : SystemTime) : Connection * list Signal :=
  let signals := describe session d ice_mode cid nid KOffer wall in
  ({| c_session := session; c_connection_id := cid; remote_network_id := nid;
      remote_identity := None |}, signals).

Definition expect_offer (offer : Signal) : Res ProtocolError unit :=
  if negb (bool_decide (signal_type offer = Offer))
  then Err (Other (str "expected an offer signal")) else Ok tt.

Definition parse_offer (offer : Signal) : Res ProtocolError (Description * list Webrtc.Candidate) :=
  _ ← expect_offer offer;
  parse_description (signal_data offer).

Definition accept (session : Session) (d : Description) (offer : Signal)
    (remote_description : Description) (remote_candidates : list Webrtc.Candidate)
    (ice_mode : IceMode) (now : Instant) (wall : SystemTime)
    : Res ProtocolError (Connection * list Signal) :=
  _ ← expect_offer offer;
  match handle (IRemoteDescription remote_description remote_candidates now) session with
  | (Ok _, session) =>
      let signals := describe session d ice_mode (connection_id offer) (network_id offer)
                       KAnswer wall in
      Ok ({| c_session := session; c_connection_id := connection_id offer;
             remote_network_id := network_id offer;
             remote_identity := desc_identity remote_description |}, signals)
  | (Err e, _) => Err e
  | (Panic, _) => Panic
  end.

Definition on_session {A} (m : SE Session ProtocolError A) : SE Connection ProtocolError A := fun c =>
  let '(r, s) := m (c_session c) in
  (r, {| c_session := s; c_connection_id := c_connection_id c;
         remote_network_id := remote_network_id c; remote_identity := remote_identity c |}).

Definition set_remote_identity (i : option bytes) (c : Connection) : Connection :=
  {| c_session := c_session c; c_connection_id := c_connection_id c;
     remote_network_id := remote_network_id c; remote_identity := i |}.

(** Whether a signal is for this connection. *)
Definition addressed (signal : Signal) (c : Connection) : bool :=
  (connection_id signal =? c_connection_id c) && bytes_eqb (network_id signal) (remote_network_id c).

Definition handle_signal (signal : Signal) (now : Instant) : SE Connection ProtocolError unit := fun c =>
  if negb (addressed signal c) then (Ok tt, c)
  else
    match signal_type signal with
    | Answer =>
        ('(d, candidates) ← lift_res (parse_description (signal_data signal));
         _ ← modify (set_remote_identity (desc_identity d));
         on_session (handle (IRemoteDescription d candidates now))) c
    | SignalMsg.Candidate =>
        (candidate ← lift_res (parse_ice_candidate (signal_data signal));
         on_session (handle (IRemoteCandidate candidate now))) c
    | Error => (Err (Other (str "remote signaled a connection error: " ++ signal_data signal)), c)
    | Offer => (Ok tt, c)
    end.

Definition connection_remote_addr (c : Connection) : option SocketAddr := remote_addr (c_session c).
Definition connection_rtt (c : Connection) : option Duration := rtt (c_session c).

Definition connection_handle (msg : ConnectionInput) : SE Connection ProtocolError unit :=
  match msg with
  | CPacket data from now => on_session (handle (IPacket data from now))
  | CTimeout now => on_session (handle (ITimeout now))
  | CSignal signal now => handle_signal signal now
  | CSend channel data now => on_session (handle (ISend channel data now))
  end.

Definition connection_poll (c : Connection) : option SessionOutput * Connection :=
  let '(o, s) := poll (c_session c) in
  (o, {| c_session := s; c_connection_id := c_connection_id c;
         remote_network_id := remote_network_id c; remote_identity := remote_identity c |}).

#[global] Instance connection_sans : Sans Connection ConnectionInput SessionOutput ProtocolError :=
  {| handle := connection_handle; poll := connection_poll |}.

(** Polling takes the first of the session's outputs. *)
Lemma poll_cons (c : Connection) o rest :
  output (c_session c) = o :: rest ->
  exists c', poll c = (Some o, c') /\ output (c_session c') = rest /\
    connection_remote_addr c' = connection_remote_addr c /\ connection_rtt c' = connection_rtt c.
Proof.
  intros E. cbn [poll connection_sans connection_poll session_sans session_poll].
  unfold connection_poll. cbn [poll session_sans]. unfold session_poll. rewrite E. by eexists.
Qed.

Lemma poll_nil (c : Connection) : output (c_session c) = [] -> poll c = (None, c).
Proof.
  intros E. cbn [poll connection_sans]. unfold connection_poll. cbn [poll session_sans].
  unfold session_poll. rewrite E. by destruct c.
Qed.

(** Feeding a connection feeds its session at most once. *)
Lemma connection_handle_session i (c : Connection) :
  c_session (handle i c).2 = c_session c \/ exists j, c_session (handle i c).2 = (handle j (c_session c)).2.
Proof.
  cbn [handle connection_sans]. destruct i as [data from now|now|g now|ch data now]; cbn [connection_handle].
  - right. exists (IPacket data from now). unfold on_session. by destruct (handle _ _).
  - right. exists (ITimeout now). unfold on_session. by destruct (handle _ _).
  - unfold handle_signal. destruct (negb _); [by left|].
    destruct (signal_type g); [by left| | |by left]; cbv [mbind se_bind lift_res modify on_session].
    + destruct (parse_description _) as [[d cs]| |]; [|by left..]. right.
      exists (IRemoteDescription d cs now). by destruct (handle _ _).
    + destruct (parse_ice_candidate _) as [x| |]; [|by left..]. right.
      exists (IRemoteCandidate x now). by destruct (handle _ _).
  - right. exists (ISend ch data now). unfold on_session. by destruct (handle _ _).
Qed.

(** A run of the connection is a run of its session, with the same outputs. *)
Lemma connection_trace_session (c0 c : Connection) outs :
  trace c0 outs c -> trace (c_session c0) outs (c_session c).
Proof.
  induction 1 as [|i c0 outs c _ IH|c0 outs c _ IH]; [constructor| |].
  - destruct (connection_handle_session i c) as [->|[j ->]]; [done|by constructor].
  - pose proof (trace_poll _ _ _ IH) as Ht. cbn [poll connection_sans]. unfold connection_poll.
    by destruct (poll (c_session c)) as [o s].
Qed.

End connection.

(** ** [Timeouts] *)

Record Timeouts := { negotiation : Duration; start : Duration; channel : Duration }.

Definition establish (t : Timeouts) : Duration := start t + channel t.

Definition Timeouts_default : Timeouts :=
  {| negotiation := secs 15; start := secs 5; channel := secs 5 |}.

Section laws.
Context {crypto : CryptoOps} {sdp : Sdp} {sdp_laws : SdpLaws sdp} {cand : IceCandidate}
  {cand_laws : IceCandidateLaws cand} {cert : CertificateOps}
  {iceops : IceOps} {dtlsops : DtlsOps} {sctpops : SctpOps} {dcepops : DcepOps}.

Definition kind_type (kind : SignalKind) : SignalType :=
  match kind with KOffer => Offer | KAnswer => Answer end.

(** What a list of signals tells the peer about a session: the description
    first, the candidates in it or after it. *)
Definition conveys (signals : list Signal) (kind : SignalKind) (cid : Z) (nid : bytes)
    (d : Description) (locals : list Webrtc.Candidate) : Prop :=
  exists first rest cs cs',
    signals = first :: rest /\ signal_type first = kind_type kind /\
    Forall (fun g => connection_id g = cid /\ network_id g = nid) signals /\
    parse_description (signal_data first) = Ok (announced d, cs) /\
    Forall2 (fun g c => signal_type g = SignalMsg.Candidate /\
                        parse_ice_candidate (signal_data g) = Ok c) rest cs' /\
    endpoint_of <$> (cs ++ cs') = endpoint_of <$> locals.

Lemma candidate_signals cid nid u locals :
  word u -> exists cs,
    Forall2 (fun g c => signal_type g = SignalMsg.Candidate /\
                        parse_ice_candidate (signal_data g) = Ok c)
      ((fun c => signal_candidate cid (format_ice_candidate 0 c u) nid) <$> locals) cs /\
    endpoint_of <$> cs = endpoint_of <$> locals.
Proof.
  intros Hu. induction locals as [|c locals (cs & Hcs & He)]; [by exists []|].
  destruct (parse_ice_candidate_attribute 0 c u Hu) as (c' & _ & Hc & Hend).
  exists (c' :: cs). split; [by constructor|]. cbn [fmap list_fmap]. congruence.
Qed.

Lemma describe_conveys session d mode cid nid kind wall :
  description_ok d ->
  conveys (describe session d mode cid nid kind wall) kind cid nid d (local_candidates session).
Proof.
  intros Hd. destruct (parse_encoded d (local_candidates session) wall Hd) as [(cs & Hfull & He) Htr].
  pose proof Hd as (Hu & _).
  destruct (candidate_signals cid nid (ufrag (ice d)) (local_candidates session) Hu) as (cs' & Hcs & He').
  assert (forall rest, Forall (fun g => connection_id g = cid /\ network_id g = nid) rest ->
    forall text, Forall (fun g => connection_id g = cid /\ network_id g = nid)
      (match kind with KOffer => signal_offer cid text nid | KAnswer => signal_answer cid text nid end
         :: rest)) as Hids.
  { intros rest Hrest text. constructor; [by destruct kind|done]. }
  destruct mode; unfold describe, conveys.
  - eexists _, [], cs, []. rewrite app_nil_r. split; [done|]. split; [by destruct kind|].
    split; [apply Hids; constructor|]. split; [by destruct kind|]. by split; [constructor|].
  - eexists _, _, [], cs'. split; [done|]. split; [by destruct kind|]. split.
    { apply Hids. apply Forall_fmap, Forall_true. done. }
    split; [by destruct kind|]. done.
Qed.

(** The signals a connecting side produces tell its peer all it needs: the
    first is an offer whose SDP parses to the description as announced, all
    carry the connection and network id, and the candidates, embedded in the
    SDP or following as signals, are the session's local candidates in order. *)
Theorem connect_conveys (session : Session) (d : Description) (cid : Z) (nid : bytes)
    (mode : IceMode) (wall : SystemTime) :
  description_ok d ->
  conveys (connect session d cid nid mode wall).2 KOffer cid nid d (local_candidates session) /\
  exists offer rest cs, (connect session d cid nid mode wall).2 = offer :: rest /\
    parse_offer offer = Ok (announced d, cs).
Proof.
  intros Hd. pose proof (describe_conveys session d mode cid nid KOffer wall Hd) as H.
  split; [done|]. destruct H as (first & rest & cs & cs' & E & Ht & _ & Hp & _).
  exists first, rest, cs. split; [done|]. unfold parse_offer, expect_offer.
  rewrite Ht. cbn [kind_type]. rewrite bool_decide_eq_true_2 by done. done.
Qed.

(** The signal as the peer's signaler hands it over, with the sender's network id. *)
Definition from_network (nid : bytes) (g : Signal) : Signal :=
  signal_new (signal_type g) (connection_id g) (signal_data g) nid.

(** An accepted offer is answered and the answer takes effect.  Accepting
    needs an offer, adopts its ids and records its identity; the answer signals
    convey the answering description and candidates, and the answer, handed to a
    connection with the offer's connection id under the network id it talks to,
    records the identity and feeds the session the announced description. *)
Theorem answer_takes_effect (s : Session) (d : Description) (offer : Signal) (rd : Description)
    (rcs : list Webrtc.Candidate) (mode : IceMode) (now : Instant) (wall : SystemTime)
    (conn : Connection) (signals : list Signal) :
  description_ok d -> accept s d offer rd rcs mode now wall = Ok (conn, signals) ->
  signal_type offer = Offer /\
  c_connection_id conn = connection_id offer /\ remote_network_id conn = network_id offer /\
  remote_identity conn = desc_identity rd /\
  conveys signals KAnswer (connection_id offer) (network_id offer) d
    (local_candidates (c_session conn)) /\
  exists answer rest cs, signals = answer :: rest /\
    forall (c : Connection) (later : Instant), c_connection_id c = connection_id offer ->
      handle (CSignal (from_network (remote_network_id c) answer) later) c =
        on_session (handle (IRemoteDescription (announced d) cs later))
          (set_remote_identity (desc_identity d) c).
Proof.
  intros Hd. unfold accept, expect_offer.
  destruct (bool_decide (signal_type offer = Offer)) eqn:Eo; [|done]. to_props. cbn [negb].
  rewrite res_bind_Ok.
  destruct (handle (IRemoteDescription rd rcs now) s) as [[[]| |] s']; try done.
  intros Heq. apply Ok_inj in Heq. injection Heq as <- <-.
  pose proof (describe_conveys s' d mode (connection_id offer) (network_id offer) KAnswer wall Hd) as Hc.
  split; [done|]. split; [done|]. split; [done|]. split; [done|]. split; [done|].
  destruct Hc as (first & rest & cs & cs' & E & Ht & Hids & Hp & _).
  exists first, rest, cs. split; [done|]. intros c later Hcid.
  rewrite E in Hids. inversion Hids as [|? ? [Hid _] _]; subst.
  cbn [handle connection_sans connection_handle]. unfold handle_signal, addressed.
  cbn [from_network signal_new connection_id network_id signal_type signal_data].
  rewrite Hid, Hcid, Z.eqb_refl, Ht. unfold bytes_eqb. rewrite bool_decide_eq_true_2 by done.
  cbn [andb negb kind_type]. cbv [mbind se_bind lift_res modify]. by rewrite Hp.
Qed.

(** A connection is bound to its ids for life, and nothing addressed to
    another pair of connection and network id touches it; an offer for the
    connection itself is ignored too, and a reported error is returned without
    a change. *)
Theorem connection_isolated (c0 c : Connection) (g : Signal) (now : Instant) :
  reachable c0 c ->
  c_connection_id c = c_connection_id c0 /\ remote_network_id c = remote_network_id c0 /\
  (connection_id g <> c_connection_id c0 \/ network_id g <> remote_network_id c0 \/
   signal_type g = Offer -> handle (CSignal g now) c = (Ok tt, c)) /\
  (connection_id g = c_connection_id c0 -> network_id g = remote_network_id c0 ->
   signal_type g = Error -> exists e, handle (CSignal g now) c = (Err e, c)).
Proof.
  intros Hr.
  assert (c_connection_id c = c_connection_id c0 /\ remote_network_id c = remote_network_id c0)
    as [Hid Hnid].
  { apply (reachable_invariant (fun c => c_connection_id c = c_connection_id c0 /\
      remote_network_id c = remote_network_id c0) c0); [..|done|done].
    - intros i c1 H1. cbn [handle connection_sans].
      destruct i; cbn [connection_handle]; unfold on_session; try (by destruct (handle _ _)).
      unfold handle_signal. destruct (negb _); [done|].
      destruct (signal_type signal); try done; cbv [mbind se_bind lift_res modify on_session].
      + destruct (parse_description _) as [[d cs]| |]; try done. by destruct (handle _ _).
      + destruct (parse_ice_candidate _); try done. by destruct (handle _ _).
    - intros c1 H1. cbn [poll connection_sans]. unfold connection_poll. by destruct (poll _). }
  split; [done|]. split; [done|]. cbn [handle connection_sans connection_handle].
  unfold handle_signal, addressed. rewrite Hid, Hnid. split.
  - destruct (connection_id g =? c_connection_id c0) eqn:E1; to_props; [|done].
    destruct (bytes_eqb (network_id g) (remote_network_id c0)) eqn:E2; [|done].
    unfold bytes_eqb in E2. to_props. intros [?|[?|Ht]]; try done. by rewrite Ht.
  - intros -> -> ->. rewrite Z.eqb_refl. unfold bytes_eqb. rewrite bool_decide_eq_true_2 by done.
    cbn. eauto.
Qed.

End laws.
