(* ===== verification/Admission.v ===== *)
(** * Admission: server-side admission of an offer ([admission.rs])

    A policy refers to a token trust whose key set may note that a key was
    missing, so [policy_admit] threads the policy as state.  The randomness a new
    session draws and the wall clock are arguments. *)
From S2P Require Import Prelude Text Errors SignalMsg Endpoint Candidate Discovery Identity ServerIdentity.
From S2P Require Import Webrtc Framing Transports Sans Session Connection.

Inductive AdmissionError :=
| ADescription (e : ProtocolError)
| AUntrusted (e : IdentityError)
| ASession (e : ProtocolError)
| AAnswer (e : ProtocolError)
| ASigning (e : IdentityError).

Definition code (e : AdmissionError) : SignalErrorCode :=
  match e with
  | ADescription _ => FailedToSetRemoteDescription
  | AUntrusted _ => NotLoggedIn
  | ASession _ => FailedToCreatePeerConnection
  | AAnswer _ | ASigning _ => FailedToCreateAnswer
  end.

Section admission.
Context `{b64 : Base64} `{serde : Serde} `{p384 : P384} `{rsa : Rsa}.
Context {crypto : CryptoOps} {sdp : Sdp} {cand : IceCandidate} {cert : CertificateOps}
  {iceops : IceOps} {dtlsops : DtlsOps} {sctpops : SctpOps} {dcepops : DcepOps}.

Record OfferPolicy := {
  policy_identity : option ServerIdentity;
  token_trust : option TokenTrust;
  infer_peer_candidates : bool;
  policy_ice_mode : IceMode;
  policy_deadline : option Duration;
}.

Definition policy_new (mode : IceMode) : OfferPolicy := {|
  policy_identity := None; token_trust := None; infer_peer_candidates := false;
  policy_ice_mode := mode; policy_deadline := None |}.

Definition with_establish_deadline (within : Duration) (p : OfferPolicy) : OfferPolicy := {|
  policy_identity := policy_identity p; token_trust := token_trust p;
  infer_peer_candidates := infer_peer_candidates p; policy_ice_mode := policy_ice_mode p;
  policy_deadline := Some within |}.
Definition with_identity (i : ServerIdentity) (p : OfferPolicy) : OfferPolicy := {|
  policy_identity := Some i; token_trust := token_trust p;
  infer_peer_candidates := infer_peer_candidates p; policy_ice_mode := policy_ice_mode p;
  policy_deadline := policy_deadline p |}.
Definition set_token_trust (t : option TokenTrust) (p : OfferPolicy) : OfferPolicy := {|
  policy_identity := policy_identity p; token_trust := t;
  infer_peer_candidates := infer_peer_candidates p; policy_ice_mode := policy_ice_mode p;
  policy_deadline := policy_deadline p |}.
Definition with_token_trust (t : TokenTrust) (p : OfferPolicy) : OfferPolicy :=
  set_token_trust (Some t) p.
Definition with_inferred_peer_candidates (infer : bool) (p : OfferPolicy) : OfferPolicy := {|
  policy_identity := policy_identity p; token_trust := token_trust p;
  infer_peer_candidates := infer; policy_ice_mode := policy_ice_mode p;
  policy_deadline := policy_deadline p |}.

Record Admitted_ := {
  a_policy : OfferPolicy;
  a_offer : Signal;
  signaled_from : option SocketAddr;
  remote_description : Description;
  remote_candidates : list Webrtc.Candidate;
  player : option PlayerInfo;
  a_wall : SystemTime;
}.

Definition policy_admit (offer : Signal) (from : option SocketAddr) (wall : SystemTime)
    : SE OfferPolicy AdmissionError Admitted_ := fun p =>
  match map_err ADescription (parse_offer offer) with
  | Err e => (Err e, p)
  | Panic => (Panic, p)
  | Ok (description, candidates) =>
      let admitted player p := {|
        a_policy := p; a_offer := offer; signaled_from := from;
        remote_description := description; remote_candidates := candidates; player := player;
        a_wall := wall |} in
      match token_trust p with
      | None => (Ok (admitted None p), p)
      | Some trust =>
          let '(r, trust) := validate_sdp (signal_data offer) wall trust in
          let p := set_token_trust (Some trust) p in
          match map_err AUntrusted r with
          | Ok claims => (Ok (admitted (Some (player_info_new claims (network_id offer) from)) p), p)
          | Err e => (Err e, p)
          | Panic => (Panic, p)
          end
      end
  end.

Record Answered := {
  connection : Connection;
  signals : list Signal;
  answered_player : option PlayerInfo;
  local_ufrag : bytes;
  answered_inferred : list bytes;
}.

(** The loop over inferred candidates: a line the connection refuses is dropped. *)
Fixpoint infer_loop (cid : Z) (nid : bytes) (now : Instant) (lines : list bytes)
    : SE Connection AdmissionError (list bytes) :=
  match lines with
  | [] => mret []
  | line :: lines =>
      r ← attempt (handle (CSignal (signal_candidate cid line nid) now));
      rest ← infer_loop cid nid now lines;
      mret (match r with Some _ => line :: rest | None => rest end)
  end.

(** Signing the first signal. *)
Definition sign_answer (identity : option ServerIdentity) (l : list Signal) (wall : SystemTime)
    : Res AdmissionError (list Signal) :=
  match identity, l with
  | Some i, answer :: rest =>
      text ← map_err ASigning (augment i (signal_data answer) wall);
      Ok (signal_new (signal_type answer) (connection_id answer) text (network_id answer) :: rest)
  | _, _ => Ok l
  end.

(** [ufrag], [pwd] and [random] are what the new session draws, [clock] the wall
    clock when the answer is written. *)
Definition answer_advertising (a : Admitted_) (local_addr : SocketAddr) (advertised : list IpAddr)
    (ufrag pwd random : bytes) (clock : SystemTime) (now : Instant) : Res AdmissionError Answered :=
  '(session, description) ←
    map_err ASession (session_with_advertised local_addr advertised false ufrag pwd random now);
  let session := match policy_deadline (a_policy a) with
                 | Some within => set_establish_deadline within session
                 | None => session
                 end in
  let local := Webrtc.ufrag (Webrtc.ice description) in
  '(conn, l) ← map_err AAnswer
    (accept session description (a_offer a) (remote_description a) (remote_candidates a)
       (policy_ice_mode (a_policy a)) now clock);
  l ← sign_answer (policy_identity (a_policy a)) l (a_wall a);
  let lines :=
    if infer_peer_candidates (a_policy a)
       && negb (has_routable_host_candidate (signal_data (a_offer a)))
    then inferred_peer_candidates (signal_data (a_offer a)) (signaled_from a) else [] in
  match infer_loop (connection_id (a_offer a)) (network_id (a_offer a)) now lines conn with
  | (Ok inferred, conn) =>
      Ok {| connection := conn; signals := l; answered_player := player a; local_ufrag := local;
            answered_inferred := inferred |}
  | (Err e, _) => Err e
  | (Panic, _) => Panic
  end.

Definition answer (a : Admitted_) (local_addr : SocketAddr) (ufrag pwd random : bytes)
    (clock : SystemTime) (now : Instant) : Res AdmissionError Answered :=
  answer_advertising a local_addr [] ufrag pwd random clock now.

End admission.

Section laws.
Context {b64 : Base64} {blaws : Base64Laws b64} {serde : Serde} {slaws : SerdeLaws serde}
  {p384 : P384} {rsa : Rsa}.
Context {crypto : CryptoOps} {sdp : Sdp} {cand : IceCandidate} {cert : CertificateOps}
  {iceops : IceOps} {dtlsops : DtlsOps} {sctpops : SctpOps} {dcepops : DcepOps}.

Lemma parse_offer_type offer d cs : parse_offer offer = Ok (d, cs) -> signal_type offer = Offer.
Proof.
  unfold parse_offer, expect_offer. destruct (bool_decide _) eqn:E; [|done]. by to_props.
Qed.

Lemma policy_admit_no_trust (p p' : OfferPolicy) (offer : Signal) (from : option SocketAddr)
    (wall : SystemTime) (a : Admitted_) :
  token_trust p = None -> policy_admit offer from wall p = (Ok a, p') -> player a = None.
Proof.
  unfold policy_admit. intros ->. destruct (parse_offer offer) as [[d cs]| |]; cbn [map_err]; [|done..].
  by intros [= <- _].
Qed.

(** What a successful admission returns. *)
Lemma policy_admit_inv (p p' : OfferPolicy) (offer : Signal) (from : option SocketAddr)
    (wall : SystemTime) (a : Admitted_) :
  policy_admit offer from wall p = (Ok a, p') ->
  p' = p /\ a_policy a = p /\ a_offer a = offer /\ signal_type offer = Offer /\
  parse_offer offer = Ok (remote_description a, remote_candidates a) /\
  match token_trust p with
  | None => player a = None
  | Some t => exists claims,
      player a = Some (player_info_new claims (network_id offer) from) /\
      authentic t (signal_data offer) wall claims
  end.
Proof.
  unfold policy_admit. destruct (parse_offer offer) as [[d cs]| |] eqn:Ep; cbn [map_err]; [|done..].
  pose proof (parse_offer_type _ _ _ Ep) as Ht.
  destruct (token_trust p) as [t|] eqn:Et.
  - destruct (validate_sdp (signal_data offer) wall t) as [r t'] eqn:Ev.
    destruct r as [claims| |]; cbn [map_err]; [|done..]. intros [= <- <-].
    apply validate_sdp_authentic in Ev as [-> Ha].
    assert (set_token_trust (Some t) p = p) as Hp.
    { destruct p. cbn in Et. subst. reflexivity. }
    rewrite Hp. split_and!; try done. eauto.
  - intros [= <- <-]. by split_and!.
Qed.

(** C4: Admission is authenticated.  What is admitted is an offer that parses;
    without a token trust it has no player, and with one its player carries
    claims that are authentic for this very offer (a token trusted by the policy
    and unexpired, whose key signed the fingerprints the offer lists), the
    network id of the signal and the address it came from.  A successful
    admission leaves the policy as it was. *)
Theorem admission_authentic (p p' : OfferPolicy) (offer : Signal) (from : option SocketAddr)
    (wall : SystemTime) (a : Admitted_) :
  policy_admit offer from wall p = (Ok a, p') ->
  p' = p /\ a_policy a = p /\ a_offer a = offer /\ signal_type offer = Offer /\
  parse_offer offer = Ok (remote_description a, remote_candidates a) /\
  match token_trust p with
  | None => player a = None
  | Some t => exists claims,
      player a = Some (player_info_new claims (network_id offer) from) /\
      authentic t (signal_data offer) wall claims
  end.
Proof. apply policy_admit_inv. Qed.

(** What admission does to the policy: the token trust may have noted something
    while it validated the offer. *)
Lemma policy_admit_trust (p : OfferPolicy) offer from wall :
  token_trust (policy_admit offer from wall p).2 = token_trust p \/
  exists t, token_trust p = Some t /\
    token_trust (policy_admit offer from wall p).2 = Some (validate_sdp (signal_data offer) wall t).2.
Proof.
  unfold policy_admit. destruct (map_err _ _) as [[d cs]| |]; [|by left..].
  destruct (token_trust p) as [t|] eqn:E; [|left; cbn; by rewrite E].
  right. exists t. split; [done|]. destruct (validate_sdp _ _ _) as [r t']. by destruct (map_err _ r).
Qed.

Lemma answer_advertising_player a local adv u pw rnd clock now answered :
  answer_advertising a local adv u pw rnd clock now = Ok answered -> answered_player answered = player a.
Proof.
  unfold answer_advertising. intros ([s d] & _ & H1)%res_bind_inv.
  apply res_bind_inv in H1 as ([c l] & _ & H1). apply res_bind_inv in H1 as (l' & _ & H1).
  destruct (infer_loop _ _ _ _ _) as [[]]; try done. by apply Ok_inj in H1 as <-.
Qed.

(** Candidate signals leave everything but the session alone. *)
Lemma candidate_signal_keeps cid line nid now c :
  let c' := (handle (CSignal (signal_candidate cid line nid) now) c).2 in
  c_connection_id c' = c_connection_id c /\ remote_network_id c' = remote_network_id c /\
  remote_identity c' = remote_identity c.
Proof.
  cbn [handle connection_sans connection_handle]. unfold handle_signal.
  destruct (negb _); [done|]. cbn [signal_candidate signal_new signal_type].
  cbv [mbind se_bind lift_res on_session].
  destruct (parse_ice_candidate _); try done. by destruct (handle _ _).
Qed.

Lemma infer_loop_spec cid nid now lines : forall c inferred c',
  infer_loop cid nid now lines c = (Ok inferred, c') ->
  sublist inferred lines /\ c_connection_id c' = c_connection_id c /\
  remote_network_id c' = remote_network_id c /\ remote_identity c' = remote_identity c.
Proof.
  induction lines as [|line lines IH]; intros c inferred c'; cbn [infer_loop].
  { intros [= <- <-]. by split_and!. }
  cbv [mbind se_bind attempt]. pose proof (candidate_signal_keeps cid line nid now c) as Hk.
  destruct (handle _ c) as [r c1]. cbn in Hk.
  destruct r as [[]|e|]; [..|done];
    (destruct (infer_loop cid nid now lines c1) as [[rest| |] c2] eqn:E; [|done..]);
    intros [= <- <-]; apply IH in E as (Hs & H1 & H2 & H3);
    (split_and!; [by constructor|naive_solver congruence..]).
Qed.

Lemma sign_answer_ids i l wall l' :
  sign_answer i l wall = Ok l' ->
  (fun g => (signal_type g, connection_id g, network_id g)) <$> l'
  = (fun g => (signal_type g, connection_id g, network_id g)) <$> l.
Proof.
  unfold sign_answer. destruct i as [i|]; [|by intros <-%Ok_inj].
  destruct l as [|g l]; [by intros <-%Ok_inj|].
  intros (text & _ & H)%res_bind_inv. by apply Ok_inj in H as <-.
Qed.

Lemma describe_ids s d mode cid nid wall :
  Forall (fun '(_, i, n) => i = cid /\ n = nid)
    ((fun g => (signal_type g, connection_id g, network_id g))
       <$> describe s d mode cid nid KAnswer wall).
Proof.
  unfold describe. rewrite fmap_cons. apply list.Forall_cons. split; [done|].
  destruct mode; [constructor|].
  rewrite <- list_fmap_compose. apply Forall_fmap, Forall_true. done.
Qed.

Lemma infer_loop_no_error cid nid now lines : forall c e c',
  infer_loop cid nid now lines c <> (Err e, c').
Proof.
  induction lines as [|line lines IH]; intros c e c'; cbn [infer_loop]; [done|].
  cbv [mbind se_bind attempt]. destruct (handle _ c) as [[[]|?|] c1]; [..|done];
    (destruct (infer_loop cid nid now lines c1) as [[rest|e1|] c2] eqn:E; [done| |done]);
    by apply IH in E.
Qed.

Lemma sign_answer_error i l wall e : sign_answer i l wall = Err e -> exists ie, e = ASigning ie.
Proof.
  unfold sign_answer. destruct i as [i|]; [|done]. destruct l as [|g l]; [done|].
  destruct (augment i _ _); cbn; try done. intros [= <-]. eauto.
Qed.

(** A refused offer is refused for its own reason: [policy_admit] fails with the
    remote-description code when the signal is not an offer that parses, and
    with the not-logged-in code when the policy's trust refuses its identity;
    answering fails with the peer-connection code when the session cannot be
    created and with the answer code otherwise. *)
Theorem admission_error_codes :
  (forall (p : OfferPolicy) offer from wall e, (policy_admit offer from wall p).1 = Err e ->
     (code e = FailedToSetRemoteDescription /\ (exists pe, parse_offer offer = Err pe)) \/
     (code e = NotLoggedIn /\ exists t ie, token_trust p = Some t /\
        (validate_sdp (signal_data offer) wall t).1 = Err ie)) /\
  (forall a addr advertised u p random clock now e,
     answer_advertising a addr advertised u p random clock now = Err e ->
     (code e = FailedToCreatePeerConnection /\
        exists pe, session_with_advertised addr advertised false u p random now = Err pe) \/
     code e = FailedToCreateAnswer).
Proof.
  split.
  - intros p offer from wall e. unfold policy_admit.
    destruct (parse_offer offer) as [[d cs]|pe|]; cbn [map_err]; [|intros [= <-]; left; eauto|done].
    destruct (token_trust p) as [t|]; [|done].
    destruct (validate_sdp (signal_data offer) wall t) as [[claims|ie|] t'] eqn:Ev; cbn; try done.
    intros [= <-]. right. split; [done|]. exists t, ie. by rewrite Ev.
  - intros a addr advertised u p random clock now e. unfold answer_advertising.
    destruct (session_with_advertised _ _ _ _ _ _ _) as [[s d]|pe|]; cbn [map_err];
      [rewrite res_bind_Ok|intros [= <-]; left; eauto|done].
    destruct (accept _ _ _ _ _ _ _ _) as [[conn l]|pe|]; cbn [map_err];
      [rewrite res_bind_Ok|intros [= <-]; by right|done].
    destruct (sign_answer _ l _) as [l'|e'|] eqn:Es; [rewrite res_bind_Ok| |done].
    + destruct (infer_loop _ _ _ _ conn) as [[inferred|e'|] conn'] eqn:El; try done.
      by apply infer_loop_no_error in El.
    + intros [= <-]. right. by apply sign_answer_error in Es as [ie ->].
Qed.

(** An answer is bound to the offer it answers: the connection takes the
    offer's ids and identity, the player is the admitted one, the first signal
    is an answer (signed or not), every signal carries the offer's ids, and
    candidates are inferred only when the policy asks for it and the offer lists
    no routable host, and then only among those derived from the offer and the
    address it was signaled from. *)
Theorem answer_bound_to_offer (a : Admitted_) (addr : SocketAddr) (advertised : list IpAddr)
    (u p random : bytes) (clock : SystemTime) (now : Instant) (ans : Answered) :
  answer_advertising a addr advertised u p random clock now = Ok ans ->
  c_connection_id (connection ans) = connection_id (a_offer a) /\
  remote_network_id (connection ans) = network_id (a_offer a) /\
  remote_identity (connection ans) = desc_identity (remote_description a) /\
  answered_player ans = player a /\
  (exists first rest, signals ans = first :: rest /\ signal_type first = Answer) /\
  Forall (fun g => connection_id g = connection_id (a_offer a) /\
                   network_id g = network_id (a_offer a)) (signals ans) /\
  sublist (answered_inferred ans)
    (inferred_peer_candidates (signal_data (a_offer a)) (signaled_from a)) /\
  (answered_inferred ans <> [] -> infer_peer_candidates (a_policy a) = true /\
     has_routable_host_candidate (signal_data (a_offer a)) = false).
Proof.
  unfold answer_advertising. intros ([s d] & _ & ([conn l] & Hacc & (l' & Hsign & H)%res_bind_inv)%res_bind_inv)%res_bind_inv.
  set (s' := match policy_deadline _ with Some within => _ | None => _ end) in Hacc.
  destruct (infer_loop _ _ _ _ conn) as [[inferred| |] conn'] eqn:Eloop; try done.
  apply Ok_inj in H as <-. cbn [connection answered_player signals answered_inferred].
  apply infer_loop_spec in Eloop as (Hsub & Hc & Hn & Hi).
  unfold accept in Hacc. destruct (expect_offer (a_offer a)); try done. rewrite res_bind_Ok in Hacc.
  destruct (handle _ s') as [[[]| |] s1]; try done.
  cbn [map_err] in Hacc. apply Ok_inj in Hacc. injection Hacc as <- <-.
  apply sign_answer_ids in Hsign.
  pose proof (describe_ids s1 d (policy_ice_mode (a_policy a)) (connection_id (a_offer a))
    (network_id (a_offer a)) clock) as Hids.
  rewrite <- Hsign in Hids. apply Forall_fmap in Hids.
  rewrite Hc, Hn, Hi. split_and!; try done.
  - unfold describe in Hsign. destruct l' as [|first rest]; [done|].
    exists first, rest. split; [done|]. cbn in Hsign. by injection Hsign.
  - destruct (_ && _); [done|]. inversion Hsub; subst. apply sublist_nil_l.
  - destruct (_ && _) eqn:E; [by to_props|]. by inversion Hsub.
Qed.

End laws.
