(* ===== verification/AdmissionInstance.v ===== *)
(** * AdmissionInstance: concrete connections and admissions

    The theorems of [Connection.v] and [Admission.v] on concrete signals, over
    the transports of [SessionInstance.v] and the identity code of
    [IdentityInstance.v]. *)
From S2P Require Import Prelude Text Errors SignalMsg Endpoint Candidate Discovery Identity ServerIdentity.
From S2P Require Import IdentityInstance Webrtc WebrtcInstance Framing Transports Sans Session.
From S2P Require Import SessionInstance Connection Admission.

#[local] Existing Instances toy_crypto toy_base64 toy_base64_laws toy_serde toy_serde_laws
  toy_p384 toy_rsa.

(** ** Connections *)

Lemma connect_conveys_witness :
  conveys (connect sample_session sample_description 42 (str "peer") Trickle 12).2
    KOffer 42 (str "peer") sample_description (local_candidates sample_session).
Proof.
  exact (proj1 (connect_conveys sample_session sample_description 42 (str "peer") Trickle 12
                  sample_description_ok)).
Defined.

Definition sample_offer : Signal := signal_offer 42 (str "0") (str "peer").

Definition sample_connection : Connection := {|
  c_session := described; c_connection_id := 42; remote_network_id := str "peer";
  remote_identity := None |}.

Definition sample_signals : list Signal :=
  describe described sample_description Full 42 (str "peer") KAnswer 12.

Lemma sample_handled : handle (IRemoteDescription sample_remote [] 5) sample_session = (Ok tt, described).
Proof. vm_compute. reflexivity. Qed.

Lemma sample_accepts :
  accept sample_session sample_description sample_offer sample_remote [] Full 5 12
  = Ok (sample_connection, sample_signals).
Proof. unfold accept. rewrite sample_handled. reflexivity. Qed.

Lemma answer_takes_effect_witness :
  c_connection_id sample_connection = 42 /\ remote_network_id sample_connection = str "peer".
Proof.
  destruct (answer_takes_effect sample_session sample_description sample_offer sample_remote [] Full
    5 12 sample_connection sample_signals sample_description_ok sample_accepts) as (_ & H1 & H2 & _).
  split; [exact H1|exact H2].
Defined.

Lemma connection_isolated_witness :
  handle (CSignal (signal_answer 999 (str "irrelevant") (str "peer")) 9) sample_connection
  = (Ok tt, sample_connection).
Proof.
  apply (connection_isolated sample_connection sample_connection
           (signal_answer 999 (str "irrelevant") (str "peer")) 9 (rtc_refl _ _)).
  left. vm_compute. discriminate.
Defined.

(** ** Admission *)

Definition sample_admitted : Admitted_ := {|
  a_policy := with_inferred_peer_candidates true (policy_new Full);
  a_offer := sample_offer;
  signaled_from := None;
  remote_description := sample_remote;
  remote_candidates := [];
  player := None;
  a_wall := 0;
|}.

(** The session and description the answer creates, and the session once it has the offer. *)
Definition answering : Session * Description :=
  match session_with_advertised sample_addr [] false (str "abcd") (str "secret") (str "r") 5 with
  | Ok x => x
  | _ => (sample_session, sample_remote)
  end.

Definition answering_described : Session :=
  (handle (IRemoteDescription sample_remote [] 5) answering.1).2.

Definition sample_answered : Answered := {|
  connection := {| c_session := answering_described; c_connection_id := 42;
                   remote_network_id := str "peer"; remote_identity := None |};
  signals := describe answering_described answering.2 Full 42 (str "peer") KAnswer 12;
  answered_player := None;
  local_ufrag := ufrag (ice answering.2);
  answered_inferred := [] |}.

Lemma answering_new :
  session_with_advertised sample_addr [] false (str "abcd") (str "secret") (str "r") 5
  = Ok (answering.1, answering.2).
Proof. vm_compute. reflexivity. Qed.

Lemma answering_handled :
  handle (IRemoteDescription sample_remote [] 5) answering.1 = (Ok tt, answering_described).
Proof. vm_compute. reflexivity. Qed.

Lemma sample_answers :
  answer_advertising sample_admitted sample_addr [] (str "abcd") (str "secret") (str "r") 12 5
  = Ok sample_answered.
Proof.
  unfold answer_advertising. rewrite answering_new. cbn [map_err]. rewrite res_bind_Ok. unfold accept.
  cbn [sample_admitted a_policy policy_deadline with_inferred_peer_candidates policy_new
       a_offer remote_description remote_candidates policy_ice_mode].
  change (expect_offer sample_offer) with (@Ok ProtocolError unit tt). rewrite res_bind_Ok.
  rewrite answering_handled. reflexivity.
Qed.

Lemma answer_bound_to_offer_witness :
  c_connection_id (connection sample_answered) = 42 /\
  remote_network_id (connection sample_answered) = str "peer".
Proof.
  destruct (answer_bound_to_offer sample_admitted sample_addr [] (str "abcd") (str "secret") (str "r")
    12 5 sample_answered sample_answers) as (H1 & H2 & _).
  split; [exact H1|exact H2].
Defined.

(** A decoder that reads every text as one session, so that the identity of the
    concrete answer of [IdentityInstance.v] can be admitted. *)
Definition constant_sdp : Sdp := {|
  ATTR_KEY_CONNECTION_SETUP := str "setup";
  ATTR_KEY_END_OF_CANDIDATES := str "end-of-candidates";
  ATTR_KEY_EXTMAP_ALLOW_MIXED := str "extmap-allow-mixed";
  ATTR_KEY_GROUP := str "group";
  ATTR_KEY_IDENTITY := str "identity";
  ATTR_KEY_MAX_MESSAGE_SIZE := str "max-message-size";
  ATTR_KEY_MID := str "mid";
  ATTR_KEY_MSID_SEMANTIC := str "msid-semantic";
  role_to_string := @role_to_string toy_sdp;
  with_value_attribute := @with_value_attribute toy_sdp;
  with_ice_credentials := @with_ice_credentials toy_sdp;
  with_fingerprint := @with_fingerprint toy_sdp;
  with_candidate := @with_candidate toy_sdp;
  with_media := @with_media toy_sdp;
  media_attribute := @media_attribute toy_sdp;
  session_attribute := @session_attribute toy_sdp;
  marshal := @marshal toy_sdp;
  unmarshal _ := Some (session (base_media sample_description) None 0);
|}.

Definition trusting : OfferPolicy := with_token_trust AnyToken (policy_new Full).

Lemma admission_authentic_witness :
  exists text a claims,
    policy_admit (sdp := constant_sdp) (signal_offer 42 text (str "peer")) None 0 trusting = (Ok a, trusting) /\
    player a = Some (player_info_new claims (str "peer") None) /\
    authentic AnyToken text 0 claims.
Proof.
  destruct sample_accepted as (text & claims & Hv).
  assert (exists a, policy_admit (sdp := constant_sdp) (signal_offer 42 text (str "peer")) None 0 trusting
                    = (Ok a, trusting)) as [a Ha].
  { unfold policy_admit. cbn [signal_offer signal_new signal_data network_id].
    change (parse_offer _) with (parse_offer (sdp := constant_sdp) (signal_offer 0 [] [])).
    destruct (parse_offer _) as [[d cs]|e|] eqn:E; [|by vm_compute in E..].
    cbn [map_err trusting with_token_trust set_token_trust token_trust]. rewrite Hv.
    eexists. reflexivity. }
  destruct (admission_authentic (sdp := constant_sdp) trusting trusting
    (signal_offer 42 text (str "peer")) None 0 a Ha) as (_ & _ & _ & _ & _ & claims' & H1 & H2).
  exists text, a, claims'. split; [exact Ha|]. split; [exact H1|exact H2].
Defined.
