(* ===== verification/Pending.v ===== *)
(** * Pending: limits on offers that are answered but not yet established
    ([nethernet-tokio/src/transport/pending.rs], [bevy-nethernet/src/pending.rs])

    The Tokio server keeps a counter per network id behind a mutex and a slot
    that gives its count back when dropped; the Bevy server scans the network
    ids of its unestablished sessions.  Both implement the same rule: the first
    is shown to refine the list of held slots that the second scans. *)
From S2P Require Import Prelude Text Errors.

(** ** [transport/pending.rs] *)

Abbreviation Counts := (gmap bytes Z).

Definition counts_total (counts : Counts) : Z := map_fold (fun _ c acc => c + acc) 0 counts.

(** [PendingOffers::try_admit], inside the lock; the slot is its network id. *)
Definition try_admit (network_id : bytes) (max_pending max_per_network_id : Z) (counts : Counts)
    : option bytes * Counts :=
  let total := counts_total counts in
  let from_network_id := default 0 (counts !! network_id) in
  if (total >=? max_pending) || (from_network_id >=? max_per_network_id) then (None, counts)
  else (Some network_id, <[network_id := from_network_id + 1]> counts).

(** [Drop for PendingSlot], inside the lock: the subtraction is checked. *)
Definition release (network_id : bytes) (counts : Counts) : Res unit Counts :=
  match counts !! network_id with
  | None => Ok counts
  | Some count =>
      if count <? 1 then Panic
      else if count - 1 =? 0 then Ok (delete network_id counts)
      else Ok (<[network_id := count - 1]> counts)
  end.

(** ** [bevy-nethernet/src/pending.rs] *)

Record PendingLimits := { max_pending : Z; max_pending_per_network_id : Z }.

Definition PendingLimits_default : PendingLimits :=
  {| max_pending := DEFAULT_MAX_PENDING;
     max_pending_per_network_id := DEFAULT_MAX_PENDING_PER_NETWORK_ID |}.

Definition admits_offer (pending : list bytes) (network_id : bytes) (limits : PendingLimits) : bool :=
  let '(total, from_network_id) :=
    fold_left (fun '(total, from) id => (total + 1, from + if bytes_eqb id network_id then 1 else 0))
      pending (0, 0) in
  (total <? max_pending limits) && (from_network_id <? max_pending_per_network_id limits).

(** ** The held slots *)

(** How many slots a network id holds. *)
Fixpoint held_by (id : bytes) (held : list bytes) : Z :=
  match held with
  | [] => 0
  | h :: held => (if bytes_eqb h id then 1 else 0) + held_by id held
  end.

(** The counters of the list of held slots: no counter is zero. *)
Definition represents (counts : Counts) (held : list bytes) : Prop :=
  forall id, counts !! id = if held_by id held =? 0 then None else Some (held_by id held).

Lemma held_count_nonneg id held : 0 <= held_by id held.
Proof. induction held; cbn; [lia|]. destruct (bytes_eqb _ _); lia. Qed.

Lemma represents_empty : represents ∅ [].
Proof. intros id. apply lookup_empty. Qed.

Lemma represents_default counts held id :
  represents counts held -> default 0 (counts !! id) = held_by id held.
Proof. intros H. rewrite H. destruct (held_by id held =? 0) eqn:E; to_props; cbn; lia. Qed.

Lemma represents_cons counts held id :
  represents counts held -> represents (<[id := held_by id held + 1]> counts) (id :: held).
Proof.
  intros H x. cbn [held_by]. pose proof (held_count_nonneg x held). unfold bytes_eqb.
  destruct (decide (id = x)) as [->|Hne].
  - rewrite lookup_insert_eq, bool_decide_eq_true_2 by done.
    destruct (_ =? 0) eqn:E; to_props; [lia|]. f_equal. lia.
  - rewrite lookup_insert_ne, H, bool_decide_eq_false_2 by done. done.
Qed.

Lemma represents_permutation counts held held' :
  held ≡ₚ held' -> represents counts held -> represents counts held'.
Proof.
  intros Hp H id. rewrite H.
  assert (held_by id held = held_by id held') as ->; [|done].
  clear H. induction Hp; cbn; lia.
Qed.

(** Giving one slot back. *)
Lemma represents_uncons counts held id :
  represents counts (id :: held) ->
  represents (if held_by id held =? 0 then delete id counts
              else <[id := held_by id held]> counts) held.
Proof.
  intros H x. specialize (H x). cbn [held_by] in H. unfold bytes_eqb in H.
  destruct (decide (id = x)) as [->|Hne].
  - destruct (held_by x held =? 0) eqn:E; [by rewrite lookup_delete_eq|by rewrite lookup_insert_eq].
  - rewrite bool_decide_eq_false_2 in H by done.
    destruct (held_by id held =? 0); [rewrite lookup_delete_ne by done|rewrite lookup_insert_ne by done];
      by rewrite H.
Qed.

Lemma counts_total_insert counts id c :
  counts_total (<[id := c]> counts) = counts_total counts - default 0 (counts !! id) + c.
Proof.
  assert (forall m x, m !! id = None -> counts_total (<[id := x]> m) = x + counts_total m) as Hins.
  { intros m x Hm. unfold counts_total. rewrite map_fold_insert_L; [done| |done].
    intros. lia. }
  rewrite <- insert_delete_eq, Hins by apply lookup_delete_eq.
  destruct (counts !! id) as [c0|] eqn:E; cbn.
  - rewrite <- (insert_id _ _ _ E) at 2. rewrite <- insert_delete_eq, Hins by apply lookup_delete_eq. lia.
  - rewrite delete_id by done. lia.
Qed.

Lemma represents_total counts held : represents counts held -> counts_total counts = blen held.
Proof.
  revert counts. induction held as [|id held IH]; intros counts H.
  - assert (counts = ∅) as -> by (apply map_empty; intros id; apply H). done.
  - pose proof (represents_uncons _ _ _ H) as Hu. apply IH in Hu.
    pose proof (H id) as Hid. cbn [held_by] in Hid. unfold bytes_eqb in Hid.
    rewrite bool_decide_eq_true_2 in Hid by done. pose proof (held_count_nonneg id held).
    destruct (1 + held_by id held =? 0) eqn:E; to_props; [lia|]. rewrite blen_cons.
    destruct (held_by id held =? 0) eqn:E0; to_props.
    + assert (counts = <[id := 1]> (delete id counts)) as ->.
      { rewrite insert_delete_eq, insert_id; [done|]. rewrite Hid. f_equal. lia. }
      rewrite counts_total_insert, lookup_delete_eq. cbn. lia.
    + rewrite counts_total_insert, Hid in Hu. cbn in Hu. lia.
Qed.

Lemma admits_offer_spec held id limits :
  admits_offer held id limits
  = (blen held <? max_pending limits) && (held_by id held <? max_pending_per_network_id limits).
Proof.
  unfold admits_offer.
  assert (forall t f, fold_left (fun '(total, from) x =>
    (total + 1, from + if bytes_eqb x id then 1 else 0)) held (t, f)
    = (t + blen held, f + held_by id held)) as ->; [|done].
  induction held as [|h held IH]; intros t f; cbn [fold_left held_by].
  - rewrite blen_nil. f_equal; lia.
  - rewrite IH, blen_cons. f_equal; lia.
Qed.

(** The counters admit what the scan admits. *)
Lemma try_admit_represents (counts : Counts) (held : list bytes) (id : bytes) (limits : PendingLimits) :
  represents counts held ->
  if admits_offer held id limits
  then exists counts',
    try_admit id (max_pending limits) (max_pending_per_network_id limits) counts = (Some id, counts') /\
    represents counts' (id :: held)
  else try_admit id (max_pending limits) (max_pending_per_network_id limits) counts = (None, counts).
Proof.
  intros H. rewrite admits_offer_spec. unfold try_admit.
  rewrite (represents_total _ _ H), (represents_default _ _ _ H), !Z.geb_leb.
  destruct (blen held <? max_pending limits) eqn:E1, (held_by id held <? _) eqn:E2; to_props;
    cbn [andb].
  - replace (max_pending limits <=? blen held) with false by (symmetry; apply Z.leb_gt; lia).
    replace (max_pending_per_network_id limits <=? held_by id held) with false
      by (symmetry; apply Z.leb_gt; lia). cbn [orb].
    eexists. split; [done|]. by apply represents_cons.
  - rewrite (proj2 (Z.leb_le (max_pending_per_network_id limits) (held_by id held))) by lia.
    by rewrite orb_true_r.
  - by rewrite (proj2 (Z.leb_le (max_pending limits) (blen held))) by lia.
  - by rewrite (proj2 (Z.leb_le (max_pending limits) (blen held))) by lia.
Qed.

(** A held slot is given back without underflow. *)
Lemma release_represents (counts : Counts) (rest : list bytes) (id : bytes) :
  represents counts (id :: rest) -> exists counts', release id counts = Ok counts' /\ represents counts' rest.
Proof.
  intros H. pose proof (H id) as Hid. cbn [held_by] in Hid. unfold bytes_eqb in Hid.
  rewrite bool_decide_eq_true_2 in Hid by done. pose proof (held_count_nonneg id rest).
  apply represents_uncons in H. unfold release. rewrite Hid.
  destruct (1 + held_by id rest =? 0) eqn:E; to_props; [lia|].
  destruct (1 + held_by id rest <? 1) eqn:E1; to_props; [lia|].
  replace (1 + held_by id rest - 1) with (held_by id rest) by lia.
  destruct (held_by id rest =? 0); eauto.
Qed.

(** C37: The counters implement the list of held slots.  From counters that
    represent it, an offer is admitted exactly when the scan over the list
    admits it, and then the counters represent the list with the new slot, which
    is within both limits; a refused offer changes nothing.  Dropping a held
    slot never underflows and the counters then represent the list without it. *)
Theorem pending_refines (counts : Counts) (held : list bytes) (id : bytes) (limits : PendingLimits) :
  represents counts held ->
  (if admits_offer held id limits
   then exists counts',
     try_admit id (max_pending limits) (max_pending_per_network_id limits) counts
       = (Some id, counts') /\
     represents counts' (id :: held) /\
     blen (id :: held) <= max_pending limits /\
     held_by id (id :: held) <= max_pending_per_network_id limits
   else try_admit id (max_pending limits) (max_pending_per_network_id limits) counts
       = (None, counts)) /\
  (forall rest, held ≡ₚ id :: rest ->
     exists counts', release id counts = Ok counts' /\ represents counts' rest).
Proof.
  intros H. split.
  - pose proof (try_admit_represents counts held id limits H) as Ht. rewrite admits_offer_spec in *.
    destruct (_ && _) eqn:E; [|done]. destruct Ht as (c & Ht & Hr). exists c. split; [done|]. split; [done|].
    apply andb_true_iff in E as [E1 E2]. to_props.
    rewrite blen_cons. cbn [held_by]. unfold bytes_eqb. rewrite bool_decide_eq_true_2 by done. lia.
  - intros rest Hp. apply release_represents. by eapply represents_permutation.
Qed.

Lemma pending_refines_witness :
  exists counts', try_admit (str "1") 64 4 ∅ = (Some (str "1"), counts') /\
    represents counts' [str "1"].
Proof.
  destruct (pending_refines ∅ [] (str "1") PendingLimits_default represents_empty) as [H _].
  destruct H as (counts' & H1 & H2 & _). exists counts'. split; [exact H1|exact H2].
Defined.
