(* ===== verification/HttpWire.v ===== *)
(** * HttpWire: HTTP messages on a byte stream ([bevy-nethernet/src/http_wire.rs])

    The [httparse] tokenizer and the validity checks of the [http] crate are
    classes; body framing, chunked decoding, the two readers and the writers are
    modelled.  Slices are checked ([slice_from], [slice] panic out of range), so
    that the theorems also show that no input makes a reader panic. *)
From S2P Require Import Prelude Text Errors Endpoint.

Definition MAX_HEADERS : nat := 100.
Definition MAX_BODY : Z := 2 ^ 20.

Inductive FramingError := HeaderCountExceeded | Malformed | SizeExceeded.

Inductive RequestError :=
| RequestHeaderCountExceeded | RequestMalformed | RequestSizeExceeded | LengthRequired.

Inductive ResponseError :=
| ResponseHeaderCountExceeded | ResponseMalformed | ResponseSizeExceeded | UnboundedBody.

Definition RequestError_from (e : FramingError) : RequestError :=
  match e with
  | HeaderCountExceeded => RequestHeaderCountExceeded
  | Malformed => RequestMalformed
  | SizeExceeded => RequestSizeExceeded
  end.

Definition ResponseError_from (e : FramingError) : ResponseError :=
  match e with
  | HeaderCountExceeded => ResponseHeaderCountExceeded
  | Malformed => ResponseMalformed
  | SizeExceeded => ResponseSizeExceeded
  end.

(** ** The tokenizer *)

Record Header := { header_name : bytes; header_value : bytes }.

Inductive Status (A : Type) := Complete (a : A) | Partial.
Arguments Complete {A} a.
Arguments Partial {A}.

Inductive HttparseError := TooManyHeaders | OtherHttparseError.

Class Httparse := {
  (** The bytes read and the chunk size. *)
  parse_chunk_size : bytes -> Res unit (Status (Z * Z));
  (** The bytes read and the headers, at most as many as there is room for. *)
  parse_headers : nat -> bytes -> Res HttparseError (Status (Z * list Header));
  (** The bytes read; method, path and headers as far as they were parsed. *)
  parse_request : nat -> bytes
    -> Res HttparseError (Status Z) * (option bytes * option bytes * list Header);
  parse_response : nat -> bytes -> Res HttparseError (Status Z) * (option Z * list Header);
}.

(** What the builders of the [http] crate make of a head, when it is valid. *)
Class HttpTypes := {
  RequestHead : Type;
  ResponseHead : Type;
  request_head : bytes -> bytes -> list Header -> option RequestHead;
  response_head : Z -> list Header -> option ResponseHead;
  (** Whether [HeaderValue::from_str] accepts the text. *)
  valid_header_value : bytes -> bool;
  (** What [PathAndQuery::from_str] makes of the text, as it is displayed. *)
  parse_target : bytes -> option bytes;
  canonical_reason : Z -> option bytes;
}.

(** ** Slices *)

(** [&buf[at..]]. *)
Definition slice_from {E} (at_ : Z) (buf : bytes) : Res E bytes :=
  if (at_ <? 0) || (blen buf <? at_) then Panic else Ok (drop (Z.to_nat at_) buf).

(** [&buf[from..to]]. *)
Definition slice {E} (from to : Z) (buf : bytes) : Res E bytes :=
  if (from <? 0) || (to <? from) || (blen buf <? to) then Panic
  else Ok (take (Z.to_nat (to - from)) (drop (Z.to_nat from) buf)).

(** ** Body framing *)

Definition CONTENT_LENGTH : bytes := str "content-length".
Definition TRANSFER_ENCODING : bytes := str "transfer-encoding".
Definition CONNECTION : bytes := str "connection".
Definition CONTENT_TYPE : bytes := str "content-type".
Definition HOST : bytes := str "host".
Definition USER_AGENT : bytes := str "user-agent".

Inductive BodyFraming := Length (n : Z) | Chunked.

(** [Iterator::find] on the name, ASCII case ignored. *)
Definition find_header (name : bytes) (headers : list Header) : option Header :=
  List.find (fun h => eq_ignore_ascii_case (header_name h) name) headers.

Definition is_ascii_whitespace (b : byte) : bool :=
  byte_eqb b x20 || byte_eqb b x09 || byte_eqb b x0a || byte_eqb b x0c || byte_eqb b x0d.

Fixpoint drop_while (f : byte -> bool) (s : bytes) : bytes :=
  match s with
  | [] => []
  | b :: s' => if f b then drop_while f s' else s
  end.

Definition trim_ascii (s : bytes) : bytes :=
  rev (drop_while is_ascii_whitespace (rev (drop_while is_ascii_whitespace s))).

Definition content_length (value : bytes) : option Z :=
  if utf8_valid value then parse_uint u64_max (trim value) else None.

Definition framing_of (headers : list Header) : Res FramingError (option BodyFraming) :=
  match find_header CONTENT_LENGTH headers, find_header TRANSFER_ENCODING headers with
  | Some _, Some _ => Err Malformed
  | None, Some encoding =>
      if eq_ignore_ascii_case (trim_ascii (header_value encoding)) (str "chunked")
      then Ok (Some Chunked) else Err Malformed
  | Some length, None =>
      n ← ok_or Malformed (content_length (header_value length));
      if n >? MAX_BODY then Err SizeExceeded else Ok (Some (Length n))
  | None, None => Ok None
  end.

Inductive ChunkedBody := ChunkedComplete (body : bytes) (consumed : Z) | ChunkedIncomplete.

Section wire.
Context `{Httparse}.

Definition trailer_len (rest : bytes) : Res FramingError (option Z) :=
  match parse_headers MAX_HEADERS rest with
  | Ok (Complete (len, _)) => Ok (Some len)
  | Ok Partial => Ok None
  | Err TooManyHeaders => Err HeaderCountExceeded
  | Err _ => Err Malformed
  | Panic => Panic
  end.

(** The loop of [ChunkedBody::decode]: [at_] bytes are behind, [body] is decoded. *)
Fixpoint chunked_loop (fuel : nat) (buf : bytes) (at_ : Z) (body : bytes)
    : Res FramingError ChunkedBody :=
  match fuel with
  | O => Panic
  | S fuel =>
      rest ← slice_from at_ buf;
      match parse_chunk_size rest with
      | Ok Partial => Ok ChunkedIncomplete
      | Err _ => Err Malformed
      | Panic => Panic
      | Ok (Complete (line_len, size)) =>
          let at_ := at_ + line_len in
          if size =? 0 then
            rest ← slice_from at_ buf;
            t ← trailer_len rest;
            Ok (match t with
                | Some len => ChunkedComplete body (at_ + len)
                | None => ChunkedIncomplete
                end)
          else if MAX_BODY - blen body <? 0 then Panic
          else if size >? MAX_BODY - blen body then Err SizeExceeded
          else
            let chunk_end := at_ + (size + 2) in
            if blen buf <? chunk_end then Ok ChunkedIncomplete
            else
              crlf_ ← slice (chunk_end - 2) chunk_end buf;
              if negb (bytes_eqb crlf_ crlf) then Err Malformed
              else
                chunk ← slice at_ (chunk_end - 2) buf;
                chunked_loop fuel buf chunk_end (body ++ chunk)
      end
  end.

Definition chunked_decode (buf : bytes) : Res FramingError ChunkedBody :=
  chunked_loop (S (length buf)) buf 0 [].

Definition framing_read (f : BodyFraming) (buf : bytes) : Res FramingError (option (bytes * Z)) :=
  match f with
  | Length n =>
      Ok (if blen buf >=? n then Some (take (Z.to_nat n) buf, n) else None)
  | Chunked =>
      c ← chunked_decode buf;
      Ok (match c with
          | ChunkedComplete body consumed => Some (body, consumed)
          | ChunkedIncomplete => None
          end)
  end.

(** ** The readers *)

Context `{HttpTypes}.

Definition has_header (name : bytes) (headers : list Header) : bool :=
  existsb (fun h => eq_ignore_ascii_case (header_name h) name) headers.

Definition request_parse (buf : bytes) : Res RequestError (Status (RequestHead * bytes)) :=
  let '(status, (method, path, headers)) := parse_request MAX_HEADERS buf in
  status ← map_err (fun e => match e with
                             | TooManyHeaders => RequestHeaderCountExceeded
                             | _ => RequestMalformed
                             end) status;
  match status with
  | Partial => Ok Partial
  | Complete header_len =>
      if has_header TRANSFER_ENCODING headers
      then Err (if has_header CONTENT_LENGTH headers then RequestMalformed else LengthRequired)
      else
        framing ← map_err RequestError_from (framing_of headers);
        rest ← slice_from header_len buf;
        body ← map_err RequestError_from (framing_read (default (Length 0) framing) rest);
        match body with
        | None => Ok Partial
        | Some (body, _) =>
            method ← ok_or RequestMalformed method;
            path ← ok_or RequestMalformed path;
            head ← ok_or RequestMalformed (request_head method path headers);
            Ok (Complete (head, body))
        end
  end.

Definition response_parse (buf : bytes) : Res ResponseError (Status (ResponseHead * bytes)) :=
  let '(status, (code, headers)) := parse_response MAX_HEADERS buf in
  status ← map_err (fun e => match e with
                             | TooManyHeaders => ResponseHeaderCountExceeded
                             | _ => ResponseMalformed
                             end) status;
  match status with
  | Partial => Ok Partial
  | Complete header_len =>
      framing ← map_err ResponseError_from (framing_of headers);
      framing ← ok_or UnboundedBody framing;
      rest ← slice_from header_len buf;
      body ← map_err ResponseError_from (framing_read framing rest);
      match body with
      | None => Ok Partial
      | Some (body, _) =>
          code ← ok_or ResponseMalformed code;
          head ← ok_or ResponseMalformed (response_head code headers);
          Ok (Complete (head, body))
      end
  end.

(** [TextBody::decode]. *)
Definition text_body (body : bytes) : Res unit bytes :=
  if utf8_valid body then Ok body else Err tt.

(** ** The writers *)

Inductive WireError := InvalidHeaderValue | InvalidTarget.

Definition HTTP_VERSION : bytes := str "HTTP/1.1".

Definition push_header (name value : bytes) : bytes :=
  name ++ str ": " ++ from_utf8_lossy value ++ crlf.

(** [StatusCode::as_str]: three digits. *)
Definition status_line (code : Z) : bytes :=
  HTTP_VERSION ++ [space] ++ dec code ++ [space] ++ default [] (canonical_reason code) ++ crlf.

Definition request_line (method target : bytes) : bytes :=
  method ++ [space] ++ target ++ [space] ++ HTTP_VERSION ++ crlf.

(** Names in a header map are lower case. *)
Definition keeps_header (h : Header) : bool :=
  negb (bytes_eqb (header_name h) CONTENT_LENGTH || bytes_eqb (header_name h) CONNECTION).

Definition serialize (start_line : bytes) (headers : list Header) (body : bytes) : bytes :=
  start_line
  ++ concat ((fun h => push_header (header_name h) (header_value h))
               <$> List.filter keeps_header headers)
  ++ push_header CONTENT_LENGTH (dec (blen body))
  ++ push_header CONNECTION (str "close") ++ crlf ++ body.

Definition response_encode (code : Z) (headers : list Header) (body : bytes) : bytes :=
  serialize (status_line code) headers body.

Definition header_value_from_str (s : bytes) : Res WireError bytes :=
  if valid_header_value s then Ok s else Err InvalidHeaderValue.

Definition CLIENT_USER_AGENT : bytes := str "libhttpclient/1.0.0.0".

Definition common_headers (host : bytes) : Res WireError (list Header) :=
  host ← header_value_from_str host;
  agent ← header_value_from_str CLIENT_USER_AGENT;
  Ok [{| header_name := HOST; header_value := host |};
      {| header_name := USER_AGENT; header_value := agent |}].

Definition request_encode (method path : bytes) (headers : list Header) (body : bytes)
    : Res WireError bytes :=
  target ← ok_or InvalidTarget (parse_target path);
  Ok (serialize (request_line method target) headers body).

Definition request_post (host path content_type body : bytes) : Res WireError bytes :=
  headers ← common_headers host;
  ct ← header_value_from_str content_type;
  request_encode (str "POST") path
    (headers ++ [{| header_name := CONTENT_TYPE; header_value := ct |}]) body.

Definition request_get (host path : bytes) : Res WireError bytes :=
  headers ← common_headers host;
  request_encode (str "GET") path headers [].

End wire.

(** ** Documented behaviour of the tokenizer *)

(** The value of a text of hexadecimal digits. *)
Fixpoint hex_number_from (acc : Z) (s : bytes) : option Z :=
  match s with
  | [] => Some acc
  | b :: s => d ← digit_of_radix 16 b; hex_number_from (16 * acc + d) s
  end.

Definition hex_number (s : bytes) : option Z :=
  match s with [] => None | _ => hex_number_from 0 s end.

(** Nothing panics, what is reported as read is there and not empty, and a line
    of at most fifteen hexadecimal digits is read as its value. *)
Class HttparseLaws (ops : Httparse) := {
  parse_chunk_size_no_panic buf : parse_chunk_size buf <> Panic;
  parse_headers_no_panic n buf : parse_headers n buf <> Panic;
  parse_request_no_panic n buf : (parse_request n buf).1 <> Panic;
  parse_response_no_panic n buf : (parse_response n buf).1 <> Panic;
  parse_chunk_size_bounds buf n size :
    parse_chunk_size buf = Ok (Complete (n, size)) -> 0 < n <= blen buf /\ 0 <= size < 2 ^ 64;
  parse_headers_bounds m buf n hs :
    parse_headers m buf = Ok (Complete (n, hs)) -> 0 < n <= blen buf;
  parse_request_bounds m buf n r :
    parse_request m buf = (Ok (Complete n), r) -> 0 < n <= blen buf;
  parse_response_bounds m buf n r :
    parse_response m buf = (Ok (Complete n), r) -> 0 < n <= blen buf;
  parse_chunk_size_line s n rest :
    hex_number s = Some n -> (length s <= 15)%nat ->
    parse_chunk_size (s ++ crlf ++ rest) = Ok (Complete (blen s + 2, n));
}.

(** ** Slices *)

Lemma slice_from_app {E} (p s : bytes) : @slice_from E (blen p) (p ++ s) = Ok s.
Proof.
  unfold slice_from. rewrite blen_app. pose proof (blen_nonneg p). pose proof (blen_nonneg s).
  destruct (_ || _) eqn:Eo; [apply orb_true_iff in Eo as [?|?]; to_props; lia|].
  unfold blen. rewrite Nat2Z.id, drop_app_length. done.
Qed.

Lemma slice_app {E} (p m s : bytes) : @slice E (blen p) (blen p + blen m) (p ++ m ++ s) = Ok m.
Proof.
  unfold slice. rewrite !blen_app.
  pose proof (blen_nonneg p). pose proof (blen_nonneg m). pose proof (blen_nonneg s).
  destruct (_ || _) eqn:Eo; [apply orb_true_iff in Eo as [Eo|?]; [apply orb_true_iff in Eo as [?|?]|]; to_props; lia|].
  replace (blen p + blen m - blen p) with (blen m) by lia.
  unfold blen. rewrite !Nat2Z.id, drop_app_length, take_app_length. done.
Qed.

Lemma slice_from_total {E} at_ buf :
  0 <= at_ <= blen buf ->
  exists rest, @slice_from E at_ buf = Ok rest /\ rest = drop (Z.to_nat at_) buf /\
    blen rest = blen buf - at_.
Proof.
  intros Ha. unfold slice_from.
  destruct (_ || _) eqn:Eo; [apply orb_true_iff in Eo as [?|?]; to_props; lia|].
  eexists. split; [done|]. split; [done|]. unfold blen in *. rewrite length_drop. lia.
Qed.

Lemma slice_total {E} from to buf :
  0 <= from <= to -> to <= blen buf ->
  exists s, @slice E from to buf = Ok s /\ blen s = to - from.
Proof.
  intros Hf Ht. unfold slice.
  destruct (_ || _) eqn:Eo; [apply orb_true_iff in Eo as [Eo|?]; [apply orb_true_iff in Eo as [?|?]|]; to_props; lia|].
  eexists. split; [done|]. unfold blen in *. rewrite length_take, length_drop. lia.
Qed.

Section laws.
Context {ops : Httparse} {laws : HttparseLaws ops}.

(** ** Decoding is safe on every input *)

(** What a decoder may return for [buf] from [at_] on. *)
Definition chunked_safe (buf : bytes) (at_ : Z) (r : Res FramingError ChunkedBody) : Prop :=
  match r with
  | Panic => False
  | Ok (ChunkedComplete body consumed) => at_ < consumed <= blen buf /\ blen body <= MAX_BODY
  | _ => True
  end.

Lemma chunked_safe_weaken buf a b r : b <= a -> chunked_safe buf a r -> chunked_safe buf b r.
Proof. unfold chunked_safe. intros Hab. repeat case_match; try done. lia. Qed.

Lemma trailer_len_safe rest :
  match trailer_len rest with
  | Panic => False
  | Ok (Some n) => 0 < n <= blen rest
  | _ => True
  end.
Proof.
  unfold trailer_len. pose proof (parse_headers_no_panic MAX_HEADERS rest) as Hp.
  destruct (parse_headers MAX_HEADERS rest) as [[[n hs]|]|[]|] eqn:E; try done.
  by apply parse_headers_bounds in E.
Qed.

Lemma chunked_loop_safe buf : forall fuel at_ body,
  0 <= at_ <= blen buf -> blen body <= MAX_BODY -> blen buf - at_ < Z.of_nat fuel ->
  chunked_safe buf at_ (chunked_loop fuel buf at_ body).
Proof.
  induction fuel as [|fuel IH]; intros at_ body Hat Hbody Hfuel; [lia|]. cbn [chunked_loop].
  destruct (slice_from_total (E := FramingError) at_ buf Hat) as (rest & -> & _ & Hrest).
  rewrite res_bind_Ok. pose proof (parse_chunk_size_no_panic rest).
  destruct (parse_chunk_size rest) as [[[line size]|]|e|] eqn:Ec; try done.
  apply parse_chunk_size_bounds in Ec as [Hline Hsize].
  destruct (size =? 0) eqn:Es; to_props.
  { destruct (slice_from_total (E := FramingError) (at_ + line) buf) as (rest' & -> & _ & Hrest'); [lia|].
    rewrite res_bind_Ok. pose proof (trailer_len_safe rest') as Ht.
    destruct (trailer_len rest') as [[n|]|e|]; cbn; try done. lia. }
  destruct (_ <? 0) eqn:E1; to_props; [lia|].
  destruct (size >? _) eqn:E2; to_props; [done|].
  destruct (blen buf <? _) eqn:E3; to_props; [done|].
  destruct (slice_total (E := FramingError) (at_ + line + (size + 2) - 2) (at_ + line + (size + 2)) buf)
    as (c & -> & _); [lia..|]. rewrite res_bind_Ok. destruct (negb _); [done|].
  destruct (slice_total (E := FramingError) (at_ + line) (at_ + line + (size + 2) - 2) buf)
    as (chunk & -> & Hchunk); [lia..|]. rewrite res_bind_Ok.
  eapply chunked_safe_weaken; [|apply IH]; [lia|lia| |lia]. rewrite blen_app. lia.
Qed.

Lemma chunked_decode_safe buf : chunked_safe buf 0 (chunked_decode buf).
Proof.
  apply chunked_loop_safe; [pose proof (blen_nonneg buf); lia|vm_compute; done|unfold blen; lia].
Qed.

(** ** Decoding inverts encoding *)

(** A chunk: the text of its size and its data. *)
Definition chunk_ok (c : bytes * bytes) : Prop :=
  hex_number c.1 = Some (blen c.2) /\ (length c.1 <= 15)%nat /\ c.2 <> [].

Definition chunk_text (c : bytes * bytes) : bytes := c.1 ++ crlf ++ c.2 ++ crlf.

(** One turn of the loop takes one chunk. *)
Lemma chunked_loop_chunk fuel p s d tail body :
  chunk_ok (s, d) -> blen body + blen d <= MAX_BODY ->
  chunked_loop (S fuel) (p ++ chunk_text (s, d) ++ tail) (blen p) body
  = chunked_loop fuel ((p ++ chunk_text (s, d)) ++ tail) (blen (p ++ chunk_text (s, d))) (body ++ d).
Proof.
  intros (Hs & Hl & Hd) Hsize. cbn [fst snd] in *. cbn [chunked_loop]. pose proof (blen_nonneg tail).
  assert (chunk_text (s, d) ++ tail = s ++ crlf ++ d ++ crlf ++ tail) as ->
    by (unfold chunk_text; cbn [fst snd]; by rewrite <- !(assoc_L (++))).
  rewrite slice_from_app, res_bind_Ok, parse_chunk_size_line with (n := blen d) by done.
  assert (0 < blen d) by (destruct d; [done|rewrite blen_cons; pose proof (blen_nonneg d); lia]).
  destruct (blen d =? 0) eqn:E0; to_props; [lia|].
  destruct (_ <? 0) eqn:E1; to_props; [lia|]. destruct (blen d >? _) eqn:E2; to_props; [lia|].
  destruct (_ <? _) eqn:E3; to_props.
  { rewrite !blen_app in E3. change (blen crlf) with 2 in E3. lia. }
  replace (blen p + (blen s + 2) + (blen d + 2) - 2) with (blen (p ++ s ++ crlf ++ d))
    by (rewrite !blen_app; change (blen crlf) with 2; lia).
  replace (blen p + (blen s + 2) + (blen d + 2)) with (blen (p ++ s ++ crlf ++ d) + blen crlf)
    by (rewrite !blen_app; change (blen crlf) with 2; lia).
  replace (p ++ s ++ crlf ++ d ++ crlf ++ tail) with ((p ++ s ++ crlf ++ d) ++ crlf ++ tail)
    by (by rewrite <- !(assoc_L (++))).
  rewrite slice_app, res_bind_Ok. unfold bytes_eqb at 1. rewrite bool_decide_eq_true_2 by done.
  cbn [negb]. replace (blen p + (blen s + 2)) with (blen (p ++ s ++ crlf))
    by (rewrite !blen_app; change (blen crlf) with 2; lia).
  replace ((p ++ s ++ crlf ++ d) ++ crlf ++ tail) with ((p ++ s ++ crlf) ++ d ++ crlf ++ tail)
    by (by rewrite <- !(assoc_L (++))).
  replace (blen (p ++ s ++ crlf ++ d)) with (blen (p ++ s ++ crlf) + blen d)
    by (rewrite !blen_app; lia).
  rewrite slice_app, res_bind_Ok. unfold chunk_text. cbn [fst snd].
  f_equal; [by rewrite <- !(assoc_L (++))|rewrite !blen_app; lia].
Qed.

Lemma chunked_loop_text chunks z t rest hs : forall fuel p body,
  Forall chunk_ok chunks -> blen body + blen (concat (snd <$> chunks)) <= MAX_BODY ->
  hex_number z = Some 0 -> (length z <= 15)%nat ->
  parse_headers MAX_HEADERS (t ++ rest) = Ok (Complete (blen t, hs)) ->
  (length chunks < fuel)%nat ->
  chunked_loop fuel (p ++ concat (chunk_text <$> chunks) ++ z ++ crlf ++ t ++ rest) (blen p) body
  = Ok (ChunkedComplete (body ++ concat (snd <$> chunks))
          (blen (p ++ concat (chunk_text <$> chunks) ++ z ++ crlf ++ t))).
Proof.
  induction chunks as [|[s d] chunks IH]; intros fuel p body Hok Hsize Hz Hzl Ht Hfuel;
    (destruct fuel as [|fuel]; [lia|]).
  - cbn [chunked_loop fmap list_fmap concat app]. rewrite slice_from_app, res_bind_Ok.
    rewrite parse_chunk_size_line with (n := 0) by done. cbn [Z.eqb].
    replace (blen p + (blen z + 2)) with (blen (p ++ z ++ crlf))
      by (rewrite !blen_app; change (blen crlf) with 2; lia).
    replace (p ++ z ++ crlf ++ t ++ rest) with ((p ++ z ++ crlf) ++ t ++ rest)
      by (by rewrite <- !(assoc_L (++))).
    rewrite slice_from_app, res_bind_Ok. unfold trailer_len. rewrite Ht, res_bind_Ok.
    rewrite app_nil_r. do 2 f_equal. rewrite !blen_app. lia.
  - inversion Hok as [|? ? Hc Hok']; subst.
    cbn [fmap list_fmap concat snd] in Hsize |- *. rewrite blen_app in Hsize.
    pose proof (blen_nonneg (concat (snd <$> chunks))).
    rewrite <- (assoc_L (++) (chunk_text (s, d))), chunked_loop_chunk by (done || lia).
    rewrite IH; [|done|rewrite blen_app; unfold fmap in *; lia|done|done|done|cbn in Hfuel; lia].
    by rewrite <- !(assoc_L (++)).
Qed.

(** C36: Chunked decoding is exact.  A body sent as chunks of at most a megabyte
    in all, each announced by its size in hexadecimal, ended by a zero size and
    a trailer section, decodes to the concatenation of the chunks and consumes
    the message up to the end of the trailer, whatever follows; and on any input
    at all the decoder ends without a panic, with a body within the limit and
    within the input. *)
Theorem chunked_roundtrip (chunks : list (bytes * bytes)) (z t rest : bytes) (hs : list Header)
    (any : bytes) :
  Forall chunk_ok chunks -> blen (concat (snd <$> chunks)) <= MAX_BODY ->
  hex_number z = Some 0 -> (length z <= 15)%nat ->
  parse_headers MAX_HEADERS (t ++ rest) = Ok (Complete (blen t, hs)) ->
  chunked_decode (concat (chunk_text <$> chunks) ++ z ++ crlf ++ t ++ rest)
    = Ok (ChunkedComplete (concat (snd <$> chunks))
            (blen (concat (chunk_text <$> chunks) ++ z ++ crlf ++ t))) /\
  chunked_safe any 0 (chunked_decode any).
Proof.
  intros Hok Hsize Hz Hzl Ht. split; [|apply chunked_decode_safe]. unfold chunked_decode.
  apply (chunked_loop_text chunks z t rest hs _ [] []); try done.
  rewrite length_app. assert (length chunks <= length (concat (chunk_text <$> chunks)))%nat; [|lia].
  clear -Hok. induction Hok as [|[s d] chunks _ _ IH]; [done|].
  change (concat (chunk_text <$> (s, d) :: chunks)) with (chunk_text (s, d) ++ concat (chunk_text <$> chunks)).
  rewrite length_app. unfold chunk_text at 1. rewrite !length_app. cbn [length fst snd crlf]. lia.
Qed.

(** ** The readers *)

Context {types : HttpTypes}.

Lemma framing_of_no_panic headers : framing_of headers <> Panic.
Proof.
  unfold framing_of. repeat case_match; try done.
  all: destruct (content_length _); cbn; repeat case_match; done.
Qed.

Lemma framing_read_no_panic f buf : framing_read f buf <> Panic.
Proof.
  unfold framing_read. destruct f; [done|]. pose proof (chunked_decode_safe buf) as Hs.
  destruct (chunked_decode buf) as [[]|e|]; cbn in *; done.
Qed.

(** The declared length of a body, absent meaning none. *)
Definition declared_length (headers : list Header) : option Z :=
  match find_header CONTENT_LENGTH headers with
  | Some h => content_length (header_value h)
  | None => Some 0
  end.

Lemma has_header_find name headers :
  has_header name headers = bool_decide (is_Some (find_header name headers)).
Proof.
  unfold has_header, find_header. induction headers as [|h headers IH]; [done|].
  cbn [existsb List.find]. destruct (eq_ignore_ascii_case _ _); [done|]. by rewrite IH.
Qed.

Lemma framing_of_without_encoding headers f :
  find_header TRANSFER_ENCODING headers = None -> framing_of headers = Ok f ->
  exists n, default (Length 0) f = Length n /\ declared_length headers = Some n /\ n <= MAX_BODY.
Proof.
  unfold framing_of, declared_length. intros ->.
  destruct (find_header CONTENT_LENGTH headers) as [h|].
  - destruct (content_length (header_value h)) as [n|]; cbn; [|done].
    destruct (n >? MAX_BODY) eqn:E; [done|]. to_props. intros <-%Ok_inj. cbn. eauto.
  - intros <-%Ok_inj. exists 0. split; [done|]. split; [done|]. by vm_compute.
Qed.

Lemma parse_uint_nonneg max s n : parse_uint max s = Some n -> 0 <= n.
Proof.
  unfold parse_uint, parse_digits. intros E.
  assert (forall acc l m, 0 <= acc -> digits_value acc l = Some m -> 0 <= m) as Hd.
  { intros acc l. revert acc. induction l as [|b l IH]; intros acc m Ha; cbn; [by intros [= <-]|].
    destruct (digit_val b) as [d|] eqn:Ed; [|done]. apply IH.
    unfold digit_val in Ed. pose proof (Z_of_byte_range b). unfold is_ascii_digit, in_range in Ed.
    case_match; [|done]. to_props. simplify_eq. lia. }
  repeat case_match; simplify_eq; try done; eapply Hd; try eassumption; lia.
Qed.

Lemma declared_length_nonneg headers n : declared_length headers = Some n -> 0 <= n.
Proof.
  unfold declared_length, content_length. destruct (find_header _ _); [|by intros [= <-]].
  case_match; [|done]. apply parse_uint_nonneg.
Qed.

(** What a completely parsed request is made of. *)
Definition framed (buf : bytes) (body : bytes) : Prop :=
  exists header_len n method path headers,
    parse_request MAX_HEADERS buf = (Ok (Complete header_len), (Some method, Some path, headers)) /\
    find_header TRANSFER_ENCODING headers = None /\
    declared_length headers = Some n /\ 0 <= n <= MAX_BODY /\ header_len + n <= blen buf /\
    body = take (Z.to_nat n) (drop (Z.to_nat header_len) buf).

(** A request cannot smuggle its framing.  For any bytes at all: the reader
    does not panic; a request that parses has no transfer encoding, and its body
    is the bytes after its head, of exactly the declared length (none when it
    declares none), all present and at most a megabyte; and a complete head with
    a transfer encoding is refused, whether or not it also declares a length. *)
Theorem request_framing_safe (buf : bytes) :
  request_parse buf <> Panic /\
  (forall head body, request_parse buf = Ok (Complete (head, body)) -> framed buf body) /\
  (forall header_len mp headers,
     parse_request MAX_HEADERS buf = (Ok (Complete header_len), (mp, headers)) ->
     has_header TRANSFER_ENCODING headers = true ->
     request_parse buf = Err (if has_header CONTENT_LENGTH headers then RequestMalformed
                              else LengthRequired)).
Proof.
  unfold request_parse. pose proof (parse_request_no_panic MAX_HEADERS buf) as Hnp.
  destruct (parse_request MAX_HEADERS buf) as [status [[method path] headers]] eqn:Ep.
  split; [|split].
  - destruct status as [[header_len|]|[]|]; cbn [map_err]; try done. rewrite res_bind_Ok.
    apply parse_request_bounds in Ep. destruct (has_header _ _); [by destruct (has_header _ _)|].
    pose proof (framing_of_no_panic headers).
    destruct (framing_of headers) as [f|[]|]; cbn [map_err]; try done. rewrite res_bind_Ok.
    destruct (slice_from_total (E := RequestError) header_len buf) as (rest & -> & _); [lia|].
    rewrite res_bind_Ok. pose proof (framing_read_no_panic (default (Length 0) f) rest).
    destruct (framing_read _ rest) as [[[body c]|]|[]|]; cbn; try done.
    destruct method; cbn; [|done]. destruct path; cbn; [|done]. by destruct (request_head _ _ _).
  - intros head body. destruct status as [[header_len|]|[]|]; cbn [map_err]; try done.
    rewrite res_bind_Ok. pose proof (parse_request_bounds _ _ _ _ Ep) as Hh.
    rewrite has_header_find. destruct (find_header TRANSFER_ENCODING headers) eqn:Ete; [done|].
    destruct (framing_of headers) as [f|[]|] eqn:Ef; cbn [map_err]; try done. rewrite res_bind_Ok.
    destruct (framing_of_without_encoding _ _ Ete Ef) as (n & -> & Hn & Hmax).
    pose proof (declared_length_nonneg _ _ Hn).
    destruct (slice_from_total (E := RequestError) header_len buf) as (rest & -> & Hrest & Hlen); [lia|].
    rewrite res_bind_Ok. cbn [framing_read]. rewrite Z.geb_leb.
    destruct (n <=? blen rest) eqn:El; cbn [map_err]; rewrite res_bind_Ok; [|done]. to_props.
    destruct method as [method|]; [|done]. destruct path as [path|]; [|done].
    cbn [ok_or]. rewrite !res_bind_Ok. destruct (request_head _ _ _); [|done]. cbn [ok_or].
    rewrite res_bind_Ok. intros Heq. apply Ok_inj in Heq. injection Heq as _ <-.
    exists header_len, n, method, path, headers. subst rest. split_and!; try done; lia.
  - intros header_len mp headers' [= -> <- <-] Hte. cbn [map_err]. rewrite res_bind_Ok.
    by rewrite Hte.
Qed.

(** A response without a length and without chunks is refused, never read to the
    end of the stream. *)
Lemma response_needs_framing buf header_len code headers :
  parse_response MAX_HEADERS buf = (Ok (Complete header_len), (code, headers)) ->
  find_header CONTENT_LENGTH headers = None -> find_header TRANSFER_ENCODING headers = None ->
  response_parse buf = Err UnboundedBody.
Proof.
  intros Hp Hc Ht. unfold response_parse. rewrite Hp. cbn [map_err]. rewrite res_bind_Ok.
  unfold framing_of. rewrite Hc, Ht. reflexivity.
Qed.

End laws.

(** ** A concrete tokenizer *)

Fixpoint toy_chunk_size (acc seen : Z) (s : bytes) : Res unit (Status (Z * Z)) :=
  match s with
  | [] => Ok Partial
  | b :: s' =>
      match digit_of_radix 16 b with
      | Some d => if seen <? 15 then toy_chunk_size (16 * acc + d) (seen + 1) s' else Err tt
      | None =>
          if (0 <? seen) && byte_eqb b x0d then
            match s' with
            | [] => Ok Partial
            | c :: _ => if byte_eqb c x0a then Ok (Complete (seen + 2, acc)) else Err tt
            end
          else Err tt
      end
  end.

Definition sample_request : bytes := str "GO" ++ crlf ++ crlf ++ str "hello".

#[local] Instance toy_httparse : Httparse := {|
  parse_chunk_size := toy_chunk_size 0 0;
  parse_headers _ buf := if starts_with crlf buf then Ok (Complete (2, [])) else Err OtherHttparseError;
  parse_request _ buf :=
    if starts_with (str "GO" ++ crlf ++ crlf) buf
    then (Ok (Complete 6), (Some (str "POST"), Some (str "/"),
            [{| header_name := str "Content-Length"; header_value := str "5" |}]))
    else (Ok Partial, (None, None, []));
  parse_response _ _ := (Ok Partial, (None, []));
|}.

Lemma toy_chunk_size_no_panic s : forall acc seen, toy_chunk_size acc seen s <> Panic.
Proof. induction s as [|b s IH]; intros acc seen; cbn; [done|]. repeat case_match; try done; apply IH. Qed.

Lemma digit_of_radix_range b d : digit_of_radix 16 b = Some d -> 0 <= d < 16.
Proof. destruct b; vm_compute; intros [= <-]; by split. Qed.

Lemma toy_chunk_size_bounds s : forall acc seen n size,
  0 <= seen <= 15 -> 0 <= acc < 16 ^ seen ->
  toy_chunk_size acc seen s = Ok (Complete (n, size)) ->
  0 < n <= seen + blen s /\ 0 <= size < 2 ^ 64.
Proof.
  assert (16 ^ 15 < 2 ^ 64) as Hpow by by vm_compute.
  induction s as [|b s IH]; intros acc seen n size Hs Ha; cbn [toy_chunk_size]; [done|].
  rewrite blen_cons. destruct (digit_of_radix 16 b) as [d|] eqn:Ed.
  - apply digit_of_radix_range in Ed. destruct (seen <? 15) eqn:E; [|done]. to_props. intros H.
    apply IH in H as [H1 H2]; [lia|lia|]. rewrite Z.pow_add_r by lia. change (16 ^ 1) with 16. lia.
  - destruct (_ && _) eqn:E; [|done]. destruct s as [|c s]; [done|].
    destruct (byte_eqb c x0a); [|done]. to_props. intros [= <- <-].
    rewrite blen_cons. pose proof (blen_nonneg s). split; [lia|].
    assert (16 ^ seen <= 16 ^ 15) by (apply Z.pow_le_mono_r; lia). lia.
Qed.

Lemma toy_chunk_size_line s rest : forall acc seen n,
  0 <= seen -> seen + blen s <= 15 -> (0 < seen \/ s <> []) ->
  hex_number_from acc s = Some n ->
  toy_chunk_size acc seen (s ++ crlf ++ rest) = Ok (Complete (seen + blen s + 2, n)).
Proof.
  induction s as [|b s IH]; intros acc seen n Hs Hl Hne; cbn [hex_number_from app toy_chunk_size].
  - intros [= ->]. cbn [crlf app toy_chunk_size]. change (digit_of_radix 16 x0d) with (@None Z).
    destruct (0 <? seen) eqn:E; [|to_props; by destruct Hne; [lia|]].
    cbn. rewrite blen_nil. do 3 f_equal. lia.
  - rewrite blen_cons in Hl |- *. pose proof (blen_nonneg s).
    destruct (digit_of_radix 16 b) as [d|]; cbn; [|done]. intros Hn.
    destruct (seen <? 15) eqn:E; [|to_props; lia].
    rewrite (IH _ _ n) by (try done; lia). do 3 f_equal. lia.
Qed.

Lemma starts_with_blen p s : starts_with p s = true -> blen p <= blen s.
Proof. intros [r ->]%starts_with_true. rewrite blen_app. pose proof (blen_nonneg r). lia. Qed.

#[local] Instance toy_httparse_laws : HttparseLaws toy_httparse.
Proof.
  split; cbn -[starts_with toy_chunk_size].
  - intros. apply toy_chunk_size_no_panic.
  - intros. by case_match.
  - intros. by case_match.
  - done.
  - intros buf n size Hc. apply toy_chunk_size_bounds in Hc; [done|lia|by split].
  - intros _ buf n hs. destruct (starts_with crlf buf) eqn:E; [|done]. intros [= <- _].
    apply starts_with_blen in E. change (blen crlf) with 2 in E. lia.
  - intros _ buf n r. destruct (starts_with _ buf) eqn:E; [|done]. intros [= <- _].
    apply starts_with_blen in E. split; [done|]. etrans; [|exact E]. done.
  - done.
  - intros s n rest Hn Hl. destruct s as [|b s]; [done|].
    refine (toy_chunk_size_line (b :: s) rest 0 0 n _ _ _ _); try done; [unfold blen; lia|by right].
Qed.

#[local] Instance toy_http_types : HttpTypes := {|
  RequestHead := bytes; ResponseHead := Z;
  request_head m _ _ := Some m; response_head c _ := Some c;
  valid_header_value s := forallb visible s; parse_target s := Some s;
  canonical_reason _ := None;
|}.

Lemma chunked_roundtrip_witness :
  chunked_decode (str "5" ++ crlf ++ str "hello" ++ crlf ++ str "0" ++ crlf ++ crlf ++ str "more")
  = Ok (ChunkedComplete (str "hello") 15).
Proof.
  exact (proj1 (chunked_roundtrip [(str "5", str "hello")] (str "0") crlf (str "more") [] []
    ltac:(repeat constructor; discriminate) ltac:(vm_compute; discriminate) eq_refl
    ltac:(vm_compute; lia) eq_refl)).
Defined.

Lemma request_framing_safe_witness : framed sample_request (str "hello").
Proof.
  refine (proj1 (proj2 (request_framing_safe sample_request)) (str "POST") (str "hello") _).
  vm_compute. reflexivity.
Defined.
