(* ===== verification/HttpStream.v ===== *)
(** * HttpStream: buffered streams over TCP and TLS
    ([bevy-nethernet/src/tcp_wire.rs], [bevy-nethernet/src/http_stream.rs])

    A non-blocking socket is a pair of scripts: what each further [read] finds and
    what each further [write] takes, with an exhausted script standing for a
    socket that would block.  Theorems quantify over the scripts.  The TLS engine
    is a class of operations with a class of laws; [read_tls] and [write_tls],
    which call the reader or writer they are given once, are split into what the
    engine asks of it and what it does with the result. *)
From S2P Require Import Prelude.

Definition READ_CHUNK : nat := 4096.
Definition MAX_READS_PER_TICK : nat := 16.

Inductive IoError := WouldBlock | OtherIo.

Inductive WireError := Io (e : IoError) | Tls | TlsNotStarted | WriteZero.

Inductive Inbound := Received | Idle | InboundClosed.

(** ** Sockets *)

(** [Arrives []] is the end of the stream. *)
Inductive ReadTurn := Arrives (d : bytes) | ReadFails (e : IoError).
Inductive WriteTurn := Takes (n : nat) | WriteFails (e : IoError).

Record TcpStream := { reads : list ReadTurn; writes : list WriteTurn; sent : bytes }.

(** [Read::read] into a buffer of [room] bytes. *)
Definition tcp_read (room : nat) (s : TcpStream) : Res IoError bytes * TcpStream :=
  match reads s with
  | [] => (Err WouldBlock, s)
  | ReadFails e :: rest => (Err e, {| reads := rest; writes := writes s; sent := sent s |})
  | Arrives d :: rest =>
      let rest := match drop room d with [] => rest | d' => Arrives d' :: rest end in
      (Ok (take room d), {| reads := rest; writes := writes s; sent := sent s |})
  end.

(** [Write::write]; the number of bytes taken. *)
Definition tcp_write (d : bytes) (s : TcpStream) : Res IoError nat * TcpStream :=
  match writes s with
  | [] => (Err WouldBlock, s)
  | WriteFails e :: rest => (Err e, {| reads := reads s; writes := rest; sent := sent s |})
  | Takes n :: rest =>
      let n := Nat.min n (length d) in
      (Ok n, {| reads := reads s; writes := rest; sent := sent s ++ take n d |})
  end.

(** ** The TLS engine ([rustls::Connection]) *)

Class TlsOps := {
  TlsSession : Type;
  TlsServerConfig : Type;
  TlsClientConfig : Type;
  tls_server_new : TlsServerConfig -> Res unit TlsSession;
  tls_client_new : TlsClientConfig -> bytes -> Res unit TlsSession;
  tls_wants_read : TlsSession -> bool;
  tls_wants_write : TlsSession -> bool;
  (** What [read_tls] has room for, or its error when it has none. *)
  tls_room : TlsSession -> Res IoError nat;
  tls_feed : bytes -> TlsSession -> TlsSession;
  tls_process : TlsSession -> Res unit unit * TlsSession;
  (** [reader().read] into a buffer of the given size. *)
  tls_reader : nat -> TlsSession -> Res IoError bytes * TlsSession;
  (** The plaintext bytes that wait for the reader. *)
  tls_plain : TlsSession -> nat;
  tls_writer : bytes -> TlsSession -> Res IoError nat * TlsSession;
  (** What [write_tls] hands to its writer, and what follows when that takes some. *)
  tls_outgoing : TlsSession -> bytes;
  tls_taken : nat -> TlsSession -> TlsSession;
  tls_close_notify : TlsSession -> TlsSession;
}.

Inductive Drain := DEmpty | DBlocked | DPartial | DComplete.
Inductive Shutdown := ShutdownPending | ShutdownDone.

Section wire.
Context `{TlsOps}.

Record TlsWire := {
  tls_stream : TcpStream;
  tls_config : option TlsServerConfig;
  tls_session : option TlsSession;
  staged : bytes;
  closing : bool;
}.

Inductive Wire := Plain (s : TcpStream) | TlsW (w : TlsWire).

Definition wire_tls (s : TcpStream) (c : TlsServerConfig) : Wire :=
  TlsW {| tls_stream := s; tls_config := Some c; tls_session := None; staged := []; closing := false |}.

Definition wire_tls_client (s : TcpStream) (c : TlsClientConfig) (name : bytes) : Res unit Wire :=
  session ← tls_client_new c name;
  Ok (TlsW {| tls_stream := s; tls_config := None; tls_session := Some session; staged := [];
              closing := false |}).

Definition awaiting_session (w : Wire) : bool :=
  match w with
  | TlsW t => match tls_session t with None => true | Some _ => false end
  | Plain _ => false
  end.

Definition begin_session (leftover : bytes) (w : Wire) : Res WireError Wire :=
  match w with
  | TlsW t =>
      match tls_config t with
      | Some c =>
          session ← map_err (fun _ => Tls) (tls_server_new c);
          Ok (TlsW {| tls_stream := tls_stream t; tls_config := tls_config t;
                      tls_session := Some session; staged := leftover; closing := closing t |})
      | None => Ok w
      end
  | Plain _ => Ok w
  end.

Definition read_raw (s : TcpStream) (into : bytes) : Res WireError Inbound * TcpStream * bytes :=
  match tcp_read READ_CHUNK s with
  | (Ok [], s) => (Ok InboundClosed, s, into)
  | (Ok d, s) => (Ok Received, s, into ++ d)
  | (Err WouldBlock, s) => (Ok Idle, s, into)
  | (Err e, s) => (Err (Io e), s, into)
  | (Panic, s) => (Panic, s, into)
  end.

(** [while session.wants_write()]; each turn uses one turn of the socket, which
    would block when it has none left. *)
Fixpoint flush_loop (fuel : nat) (session : TlsSession) (s : TcpStream)
    : Res WireError unit * TlsSession * TcpStream :=
  if tls_wants_write session then
    match fuel with
    | O => (Panic, session, s)
    | S fuel =>
        match tcp_write (tls_outgoing session) s with
        | (Ok O, s) => (Ok tt, session, s)
        | (Ok n, s) => flush_loop fuel (tls_taken n session) s
        | (Err WouldBlock, s) => (Ok tt, session, s)
        | (Err e, s) => (Err (Io e), session, s)
        | (Panic, s) => (Panic, session, s)
        end
    end
  else (Ok tt, session, s).

Definition flush_session (session : TlsSession) (s : TcpStream) :=
  flush_loop (S (length (writes s))) session s.

(** [loop { match session.reader().read(&mut chunk) .. }]: what was read, whether
    something was, and whether the end was seen. *)
Fixpoint reader_loop (fuel : nat) (session : TlsSession) (into : bytes) (received : bool)
    : Res WireError (bool * bool) * TlsSession * bytes :=
  match tls_reader READ_CHUNK session with
  | (Ok [], session) => (Ok (received, true), session, into)
  | (Ok d, session) =>
      match fuel with
      | O => (Panic, session, into)
      | S fuel => reader_loop fuel session (into ++ d) true
      end
  | (Err WouldBlock, session) => (Ok (received, false), session, into)
  | (Err e, session) => (Err (Io e), session, into)
  | (Panic, session) => (Panic, session, into)
  end.

(** One turn's [read_tls], from the staged bytes or from the socket: whether the
    socket has ended and whether nothing is left to read. *)
Definition read_tls (session : TlsSession) (t : TlsWire)
    : Res WireError (bool * bool) * TlsSession * TlsWire :=
  match staged t with
  | _ :: _ =>
      match tls_room session with
      | Ok room =>
          (Ok (false, false), tls_feed (take room (staged t)) session,
           {| tls_stream := tls_stream t; tls_config := tls_config t; tls_session := tls_session t;
              staged := drop room (staged t); closing := closing t |})
      | Err e => (Err (Io e), session, t)
      | Panic => (Panic, session, t)
      end
  | [] =>
      if tls_wants_read session then
        match tls_room session with
        | Ok room =>
            let '(r, s) := tcp_read room (tls_stream t) in
            let t := {| tls_stream := s; tls_config := tls_config t; tls_session := tls_session t;
                        staged := staged t; closing := closing t |} in
            match r with
            | Ok [] => (Ok (true, false), tls_feed [] session, t)
            | Ok d => (Ok (false, false), tls_feed d session, t)
            | Err WouldBlock => (Ok (false, true), session, t)
            | Err e => (Err (Io e), session, t)
            | Panic => (Panic, session, t)
            end
        | Err WouldBlock => (Ok (false, true), session, t)
        | Err e => (Err (Io e), session, t)
        | Panic => (Panic, session, t)
        end
      else (Ok (false, true), session, t)
  end.

Definition with_session (session : TlsSession) (t : TlsWire) : TlsWire :=
  {| tls_stream := tls_stream t; tls_config := tls_config t; tls_session := Some session;
     staged := staged t; closing := closing t |}.

Definition with_stream (s : TcpStream) (t : TlsWire) : TlsWire :=
  {| tls_stream := s; tls_config := tls_config t; tls_session := tls_session t; staged := staged t;
     closing := closing t |}.

(** [for _ in 0..MAX_READS_PER_TICK]; early returns keep what has been read. *)
Fixpoint tls_turns (turns : nat) (session : TlsSession) (t : TlsWire) (into : bytes)
    (received eof : bool) : Res WireError (bool * bool) * TlsSession * TlsWire * bytes :=
  match turns with
  | O => (Ok (received, eof), session, t, into)
  | S turns =>
      match read_tls session t with
      | (Ok (ended, starved), session, t) =>
          let eof := eof || ended in
          match tls_process session with
          | (Ok _, session) =>
              match reader_loop (tls_plain session) session into received with
              | (Ok (received, ended), session, into) =>
                  let eof := eof || ended in
                  if eof || (starved && match staged t with [] => true | _ => false end)
                  then (Ok (received, eof), session, t, into)
                  else tls_turns turns session t into received eof
              | (Err e, session, into) => (Err e, session, t, into)
              | (Panic, session, into) => (Panic, session, t, into)
              end
          | (Err _, session) =>
              match flush_session session (tls_stream t) with
              | (Panic, session, s) => (Panic, session, with_stream s t, into)
              | (_, session, s) => (Err Tls, session, with_stream s t, into)
              end
          | (Panic, session) => (Panic, session, t, into)
          end
      | (Err e, session, t) => (Err e, session, t, into)
      | (Panic, session, t) => (Panic, session, t, into)
      end
  end.

Definition tls_read (t : TlsWire) (into : bytes) : Res WireError Inbound * TlsWire * bytes :=
  match tls_session t with
  | None =>
      let '(r, s, into) := read_raw (tls_stream t) into in (r, with_stream s t, into)
  | Some session =>
      match tls_turns MAX_READS_PER_TICK session t into false false with
      | (Ok (received, eof), session, t, into) =>
          let '(r, session, s) := flush_session session (tls_stream t) in
          (r ≫= fun _ => Ok (if received then Received else if eof then InboundClosed else Idle),
           with_session session (with_stream s t), into)
      | (Err e, session, t, into) => (Err e, with_session session t, into)
      | (Panic, session, t, into) => (Panic, with_session session t, into)
      end
  end.

Definition wire_read (w : Wire) (into : bytes) : Res WireError Inbound * Wire * bytes :=
  match w with
  | Plain s => let '(r, s, into) := read_raw s into in (r, Plain s, into)
  | TlsW t => let '(r, t, into) := tls_read t into in (r, TlsW t, into)
  end.

Definition tls_write (t : TlsWire) (d : bytes) : Res WireError nat * TlsWire :=
  match tls_session t with
  | None => (Err TlsNotStarted, t)
  | Some session =>
      match tls_writer d session with
      | (Ok n, session) =>
          let '(r, session, s) := flush_session session (tls_stream t) in
          (r ≫= fun _ => Ok n, with_session session (with_stream s t))
      | (Err e, session) => (Err (Io e), with_session session t)
      | (Panic, session) => (Panic, with_session session t)
      end
  end.

Definition wire_write (w : Wire) (d : bytes) : Res WireError nat * Wire :=
  match w with
  | Plain s => let '(r, s) := tcp_write d s in (map_err Io r, Plain s)
  | TlsW t => let '(r, t) := tls_write t d in (r, TlsW t)
  end.

Definition tls_flush (t : TlsWire) : Res WireError unit * TlsWire :=
  match tls_session t with
  | None => (Ok tt, t)
  | Some session =>
      let '(r, session, s) := flush_session session (tls_stream t) in
      (r, with_session session (with_stream s t))
  end.

Definition wire_flush (w : Wire) : Res WireError unit * Wire :=
  match w with
  | Plain s => (Ok tt, w)
  | TlsW t => let '(r, t) := tls_flush t in (r, TlsW t)
  end.

Definition tls_finish (t : TlsWire) : Res WireError unit * TlsWire :=
  match tls_session t with
  | None => (Ok tt, t)
  | Some session =>
      let session := if closing t then session else tls_close_notify session in
      let '(r, session, s) := flush_session session (tls_stream t) in
      (r, {| tls_stream := s; tls_config := tls_config t; tls_session := Some session;
             staged := staged t; closing := true |})
  end.

Definition wire_finish (w : Wire) : Res WireError unit * Wire :=
  match w with
  | Plain s => (Ok tt, w)
  | TlsW t => let '(r, t) := tls_finish t in (r, TlsW t)
  end.

Definition has_pending_output (w : Wire) : bool :=
  match w with
  | Plain _ => false
  | TlsW t => match tls_session t with Some session => tls_wants_write session | None => false end
  end.

(** ** [http_stream.rs] *)

Record HttpStream := { wire : Wire; inbound : bytes; outbound : bytes; written : nat }.

Definition stream_new (w : Wire) : HttpStream :=
  {| wire := w; inbound := []; outbound := []; written := 0 |}.

Definition set_wire (w : Wire) (s : HttpStream) : HttpStream :=
  {| wire := w; inbound := inbound s; outbound := outbound s; written := written s |}.
Definition set_inbound (d : bytes) (s : HttpStream) : HttpStream :=
  {| wire := wire s; inbound := d; outbound := outbound s; written := written s |}.

Definition queue (d : bytes) (s : HttpStream) : HttpStream :=
  {| wire := wire s; inbound := inbound s; outbound := outbound s ++ d; written := written s |}.

Definition has_outbound (s : HttpStream) : bool :=
  match outbound s with [] => false | _ => true end.

Definition fill (s : HttpStream) : Res WireError Inbound * HttpStream :=
  let '(r, w, into) := wire_read (wire s) (inbound s) in (r, set_inbound into (set_wire w s)).

(** The slice panics when [written] is past the end. *)
Definition drain (s : HttpStream) : Res WireError Drain * HttpStream :=
  match outbound s with
  | [] => (Ok DEmpty, s)
  | _ =>
      if (length (outbound s) <? written s)%nat then (Panic, s)
      else
        let '(r, w) := wire_write (wire s) (drop (written s) (outbound s)) in
        let s := set_wire w s in
        match r with
        | Ok O => (Err WriteZero, s)
        | Ok accepted =>
            let n := (written s + accepted)%nat in
            if (n =? length (outbound s))%nat
            then (Ok DComplete, {| wire := wire s; inbound := inbound s; outbound := []; written := 0 |})
            else (Ok DPartial,
                  {| wire := wire s; inbound := inbound s; outbound := outbound s; written := n |})
        | Err (Io WouldBlock) => (Ok DBlocked, s)
        | Err e => (Err e, s)
        | Panic => (Panic, s)
        end
  end.

Definition flush (s : HttpStream) : Res WireError unit * HttpStream :=
  let '(r, w) := wire_flush (wire s) in (r, set_wire w s).

Definition close (s : HttpStream) : Res WireError Shutdown * HttpStream :=
  let '(r, w) := wire_finish (wire s) in
  (match r with
   | Panic => Panic
   | Err _ => Ok ShutdownDone
   | Ok _ => Ok (if has_pending_output w then ShutdownPending else ShutdownDone)
   end, set_wire w s).

Definition establish (s : HttpStream) : Res WireError Inbound * HttpStream :=
  if negb (awaiting_session (wire s)) then (Ok Idle, s)
  else
    match begin_session (inbound s) (wire s) with
    | Ok w =>
        let '(r, w, into) := wire_read w [] in (r, set_inbound into (set_wire w s))
    | Err e => (Err e, set_inbound [] s)
    | Panic => (Panic, set_inbound [] s)
    end.

(** [ServerTls::accept]. *)
Definition server_accept (tls : option TlsServerConfig) (s : TcpStream) : HttpStream :=
  stream_new (match tls with Some c => wire_tls s c | None => Plain s end).
End wire.

(** ** What the engine documents *)

(** The bytes an engine has made for the socket since it was created, and those of
    them that [write_tls] has yet to hand over; the plaintext its writer has taken,
    and what of it is not yet in those bytes because the handshake is not over;
    and what a peer that holds the keys reads in bytes of the socket. *)
Class TlsGhost (ops : TlsOps) := {
  tls_produced : TlsSession -> bytes;
  tls_pending : TlsSession -> bytes;
  tls_written : TlsSession -> bytes;
  tls_held : TlsSession -> bytes;
  tls_opened : TlsSession -> bytes -> bytes;
}.

(** Something more is to be sent, after what is there. *)
Definition extends {ops : TlsOps} {ghost : TlsGhost ops} (s s' : TlsSession) : Prop :=
  exists more, tls_produced s' = tls_produced s ++ more /\ tls_pending s' = tls_pending s ++ more.

(** Bytes for the socket are only ever added at the end and leave only as
    [write_tls] hands them over, some of the first at a time; [wants_write] says
    whether there are any.  Only the writer takes plaintext, and the peer reads in
    the bytes what the writer has taken, but for what is held.  No operation
    panics. *)
Class TlsLaws (ops : TlsOps) (ghost : TlsGhost ops) := {
  law_server_new c : match tls_server_new c with
    | Ok s => tls_written s = [] /\ tls_pending s = tls_produced s | Err _ => True | Panic => False end;
  law_client_new c name : match tls_client_new c name with
    | Ok s => tls_written s = [] /\ tls_pending s = tls_produced s | Err _ => True | Panic => False end;
  law_room s : tls_room s <> Panic;
  law_outgoing s : tls_outgoing s `prefix_of` tls_pending s;
  law_wants_write s : tls_wants_write s = false -> tls_pending s = [];
  law_taken n s : (n <= length (tls_outgoing s))%nat ->
    tls_written (tls_taken n s) = tls_written s /\ tls_produced (tls_taken n s) = tls_produced s /\
    tls_pending (tls_taken n s) = drop n (tls_pending s);
  law_feed d s : tls_written (tls_feed d s) = tls_written s /\ extends s (tls_feed d s);
  law_close s : tls_written (tls_close_notify s) = tls_written s /\ extends s (tls_close_notify s);
  law_process s : (tls_process s).1 <> Panic /\ tls_written (tls_process s).2 = tls_written s /\
    extends s (tls_process s).2;
  law_reader n s : tls_written (tls_reader n s).2 = tls_written s /\ extends s (tls_reader n s).2 /\
    match (tls_reader n s).1 with
    | Ok d => d <> [] -> (tls_plain (tls_reader n s).2 < tls_plain s)%nat
    | Err _ => True | Panic => False end;
  law_writer d s : extends s (tls_writer d s).2 /\
    match tls_writer d s with
    | (Ok n, s') => (n <= length d)%nat /\ tls_written s' = tls_written s ++ take n d
    | (Err _, s') => tls_written s' = tls_written s
    | (Panic, _) => False end;
  law_sealed s : tls_written s = tls_opened s (tls_produced s) ++ tls_held s;
  law_opened s a b : tls_opened s a `prefix_of` tls_opened s (a ++ b);
}.

(** ** What a stream does *)

Inductive StreamOp :=
| OpQueue (d : bytes) | OpDrain | OpFill | OpFlush | OpClose | OpEstablish | OpClear.

Definition queued (op : StreamOp) : bytes := match op with OpQueue d => d | _ => [] end.

Section props.
Context {ops : TlsOps} {ghost : TlsGhost ops} {laws : TlsLaws ops ghost}.

Definition stream_op (op : StreamOp) (s : HttpStream) : Res WireError HttpStream :=
  match op with
  | OpQueue d => Ok (queue d s)
  | OpDrain => let '(r, s) := drain s in (fun _ => s) <$> r
  | OpFill => let '(r, s) := fill s in (fun _ => s) <$> r
  | OpFlush => let '(r, s) := flush s in (fun _ => s) <$> r
  | OpClose => let '(r, s) := close s in (fun _ => s) <$> r
  | OpEstablish => let '(r, s) := establish s in (fun _ => s) <$> r
  | OpClear => Ok (set_inbound [] s)
  end.

(** A stream is dropped when an operation on it fails. *)
Fixpoint stream_run (l : list StreamOp) (s : HttpStream) : Res WireError HttpStream :=
  match l with
  | [] => Ok s
  | op :: l => s ← stream_op op s; stream_run l s
  end.

(** What the wire has taken: bytes on the socket, or plaintext of the TLS session. *)
Definition accepted (w : Wire) : bytes :=
  match w with
  | Plain s => sent s
  | TlsW t => match tls_session t with Some session => tls_written session | None => [] end
  end.

(** What the peer can read of it in the bytes that are on the socket. *)
Definition delivered (w : Wire) : bytes :=
  match w with
  | Plain s => sent s
  | TlsW t => match tls_session t with
              | Some session => tls_opened session (sent (tls_stream t))
              | None => []
              end
  end.

(** Nothing is left on this side of the socket. *)
Definition all_sent (w : Wire) : Prop :=
  has_pending_output w = false /\
  match w with
  | TlsW t => match tls_session t with Some session => tls_held session = [] | None => True end
  | Plain _ => True
  end.

(** The socket has what the engine has made, but for what is yet to be handed over. *)
Definition linked (session : TlsSession) (s : TcpStream) : Prop :=
  sent s ++ tls_pending session = tls_produced session.

Definition wire_ok (w : Wire) : Prop :=
  match w with
  | Plain _ => True
  | TlsW t => match tls_session t with
              | Some session => linked session (tls_stream t)
              | None => sent (tls_stream t) = []
              end
  end.

Lemma linked_extends session session' s : extends session session' -> linked session s -> linked session' s.
Proof. unfold linked. intros (more & -> & ->) <-. by rewrite app_assoc. Qed.

Lemma extends_trans (a b c : TlsSession) : extends a b -> extends b c -> extends a c.
Proof. intros (x & P1 & Q1) (y & P2 & Q2). exists (x ++ y). by rewrite P2, Q2, P1, Q1, !app_assoc. Qed.

Lemma extends_refl (a : TlsSession) : extends a a.
Proof. exists []. by rewrite !app_nil_r. Qed.

(** ** The wire *)

Lemma tcp_read_sent room s : sent (tcp_read room s).2 = sent s.
Proof. unfold tcp_read. by destruct (reads s) as [|[] ?]. Qed.

Lemma tcp_read_no_panic room s : (tcp_read room s).1 <> Panic.
Proof. unfold tcp_read. by destruct (reads s) as [|[] ?]. Qed.

(** What the socket takes is what comes first of what is to be sent. *)
Lemma linked_taken session s n s' :
  (n <= length (tls_outgoing session))%nat -> sent s' = sent s ++ take n (tls_outgoing session) ->
  linked session s -> linked (tls_taken n session) s'.
Proof.
  unfold linked. intros Hn -> Hlk. destruct (law_taken n session Hn) as (_ & -> & ->). rewrite <- Hlk.
  destruct (law_outgoing session) as [rest E]. rewrite E in *.
  by rewrite <- app_assoc, (drop_app_le _ _ n), (app_assoc (take n _)), take_drop by lia.
Qed.

Lemma flush_loop_spec fuel : forall session s,
  (length (writes s) < fuel)%nat ->
  let '(r, session', s') := flush_loop fuel session s in
  r <> Panic /\ tls_written session' = tls_written session /\ (linked session s -> linked session' s').
Proof.
  induction fuel as [|fuel IH]; intros session s Hf; cbn [flush_loop]; [lia|].
  destruct (tls_wants_write session); [|done].
  unfold tcp_write. destruct (writes s) as [|[n|[]] rest] eqn:E; [done| |done|done].
  cbn [length] in Hf. destruct (Nat.min n _) as [|m] eqn:Em.
  { split; [done|]. split; [done|]. unfold linked. cbn. by rewrite app_nil_r. }
  assert (S m <= length (tls_outgoing session))%nat as Hm by lia.
  set (s1 := {| reads := reads s; writes := rest; sent := sent s ++ take (S m) (tls_outgoing session) |}).
  specialize (IH (tls_taken (S m) session) s1).
  destruct (flush_loop fuel _ _) as [[r session'] s']. destruct IH as (? & -> & Hl); [cbn; lia|].
  destruct (law_taken _ _ Hm) as (-> & _). split; [done|]. split; [done|]. intros Hs. apply Hl.
  by eapply linked_taken.
Qed.

Lemma flush_session_spec session s :
  let '(r, session', s') := flush_session session s in
  r <> Panic /\ tls_written session' = tls_written session /\ (linked session s -> linked session' s').
Proof. apply flush_loop_spec. lia. Qed.

(** A socket that would block is no error of the flush. *)
Lemma flush_session_not_blocked session s : (flush_session session s).1.1 <> Err (Io WouldBlock).
Proof.
  unfold flush_session. generalize (S (length (writes s))) as fuel. intros fuel. revert session s.
  induction fuel as [|fuel IH]; intros session s; cbn [flush_loop];
    (destruct (tls_wants_write session); [|done]); [done|].
  destruct (tcp_write _ s) as [[[|n]|[]|] s']; try done.
Qed.

(** What a read reports and what it has added to the buffer. *)
Definition read_reports (into : bytes) (received : bool) (r : Res WireError (bool * bool))
    (into' : bytes) : Prop :=
  exists d, into' = into ++ d /\ forall b e, r = Ok (b, e) -> b = received || bool_decide (d <> []).

Lemma nothing_read into received r :
  (forall b e, r = Ok (b, e) -> b = received) -> read_reports into received r into.
Proof.
  intros Hr. exists []. rewrite app_nil_r. split; [done|]. intros b e Hb%Hr. by rewrite orb_false_r.
Qed.

Lemma read_reports_trans into received r1 into1 b1 e1 r into2 :
  r1 = Ok (b1, e1) -> read_reports into received r1 into1 -> read_reports into1 b1 r into2 ->
  read_reports into received r into2.
Proof.
  intros -> (d1 & -> & H1) (d2 & -> & H2). exists (d1 ++ d2). rewrite <- app_assoc. split; [done|].
  intros b e ->%H2. rewrite (H1 _ _ eq_refl), <- orb_assoc. f_equal.
  destruct d1, d2; done.
Qed.

Lemma reader_loop_spec fuel : forall session into received,
  (tls_plain session <= fuel)%nat ->
  let '(r, session', into') := reader_loop fuel session into received in
  r <> Panic /\ tls_written session' = tls_written session /\ extends session session' /\
  read_reports into received r into'.
Proof.
  induction fuel as [|fuel IH]; intros session into received Hf; cbn [reader_loop];
    destruct (law_reader READ_CHUNK session) as (Hw & He & Hr);
    destruct (tls_reader READ_CHUNK session) as [[[|x d]|[]|] session']; cbn [fst snd] in Hw, He, Hr; try done.
  all: try (split; [done|]; split; [done|]; split; [done|]; apply nothing_read; congruence).
  - specialize (Hr ltac:(done)). lia.
  - specialize (Hr ltac:(done)). specialize (IH session' (into ++ x :: d) true ltac:(lia)).
    destruct (reader_loop fuel session' _ true) as [[r s1] into1]. destruct IH as (Hp & -> & He1 & Hb).
    split; [done|]. split; [done|]. split; [by eapply extends_trans|].
    eapply (read_reports_trans _ _ (Ok (true, false)) _ true false); [done| |exact Hb].
    exists (x :: d). split; [done|]. intros b e [= <- _]. by rewrite orb_true_r.
Qed.

Lemma read_tls_spec session t :
  let '(r, session', t') := read_tls session t in
  r <> Panic /\ tls_written session' = tls_written session /\
  (linked session (tls_stream t) -> linked session' (tls_stream t')).
Proof.
  unfold read_tls. pose proof (law_room session) as Hroom.
  assert (forall d, tls_written (tls_feed d session) = tls_written session) as Hw by (intros d; apply law_feed).
  assert (forall d s, sent s = sent (tls_stream t) -> linked session (tls_stream t) -> linked (tls_feed d session) s) as Hl.
  { intros d s Hs Hlk. apply (linked_extends session); [apply law_feed|]. unfold linked. by rewrite Hs. }
  destruct (staged t) as [|x l]; [destruct (tls_wants_read session); [|done]|];
    destruct (tls_room session) as [room|[]|]; try done.
  - pose proof (tcp_read_no_panic room (tls_stream t)) as Hp. pose proof (tcp_read_sent room (tls_stream t)) as Hs.
    destruct (tcp_read room (tls_stream t)) as [[[|y d]|[]|] s]; cbn [fst snd] in Hp, Hs; try done;
      (split; [done|]; split; [done|]); cbn [tls_stream]; auto; unfold linked; by rewrite Hs.
  - split; [done|]. split; [done|]. cbn [tls_stream]. by apply Hl.
Qed.

Lemma tls_turns_spec turns : forall session t into received eof,
  let '(r, session', t', into') := tls_turns turns session t into received eof in
  r <> Panic /\ tls_written session' = tls_written session /\
  (linked session (tls_stream t) -> linked session' (tls_stream t')) /\ read_reports into received r into'.
Proof.
  induction turns as [|turns IH]; intros session t into received eof; cbn [tls_turns].
  { split; [done|]. split; [done|]. split; [done|]. apply nothing_read. congruence. }
  pose proof (read_tls_spec session t) as Hr.
  destruct (read_tls session t) as [[[[ended starved]|e|] s1] t1]; destruct Hr as (Hp & Hw & Hk); try done.
  2:{ split; [done|]. split; [done|]. split; [done|]. by apply nothing_read. }
  destruct (law_process s1) as (Hp1 & Hw1 & He1).
  destruct (tls_process s1) as [[u|e|] s2]; cbn [fst snd] in Hp1, Hw1, He1; try done.
  - pose proof (reader_loop_spec (tls_plain s2) s2 into received ltac:(lia)) as Hl.
    destruct (reader_loop _ s2 into received) as [[[[b e]|e|] s3] into3]; destruct Hl as (Hp3 & Hw3 & He3 & Hb); try done.
    all: assert (linked session (tls_stream t) -> linked s3 (tls_stream t1)) as Hk3
      by (intros Hlk; apply (linked_extends s1); [exact (extends_trans _ _ _ He1 He3)|by apply Hk]).
    2:{ split; [done|]. split; [congruence|]. by split. }
    destruct (_ || _).
    + split; [done|]. split; [congruence|]. split; [done|]. destruct Hb as (d & -> & Hb). exists d. split; [done|].
      intros b' e' [= <- _]. by eapply Hb.
    + specialize (IH s3 t1 into3 b ((eof || ended) || e)).
      destruct (tls_turns turns s3 t1 into3 b _) as [[[r s4] t4] into4]. destruct IH as (? & ? & Hk4 & Hb').
      split; [done|]. split; [congruence|]. split; [auto|]. by eapply read_reports_trans.
  - pose proof (flush_session_spec s2 (tls_stream t1)) as Hf.
    destruct (flush_session s2 (tls_stream t1)) as [[[u|e'|] s3] st]; destruct Hf as (? & Hw3 & Hk3); try done;
      (split; [done|]; split; [congruence|]; split; [|by apply nothing_read]);
      (intros Hlk; apply Hk3; eapply linked_extends; [exact He1|by apply Hk]).
Qed.

(** ** Reading *)

(** A read says [Received] exactly when it has added bytes, keeps what was there,
    and leaves what was written alone. *)
Definition reads_well (into : bytes) (w : Wire) (x : Res WireError Inbound * Wire * bytes) : Prop :=
  let '(r, w', into') := x in
  r <> Panic /\ accepted w' = accepted w /\ (wire_ok w -> wire_ok w') /\
  awaiting_session w' = awaiting_session w /\
  exists d, into' = into ++ d /\ forall i, r = Ok i -> (i = Received <-> d <> []).

Lemma read_raw_spec s into :
  let '(r, s', into') := read_raw s into in
  r <> Panic /\ sent s' = sent s /\
  exists d, into' = into ++ d /\ forall i, r = Ok i -> (i = Received <-> d <> []).
Proof.
  unfold read_raw. pose proof (tcp_read_no_panic READ_CHUNK s) as Hp.
  pose proof (tcp_read_sent READ_CHUNK s) as Hs.
  destruct (tcp_read READ_CHUNK s) as [[[|x d]|[]|] s']; cbn [fst snd] in Hp, Hs; try done.
  all: split; [done|]; split; [done|].
  all: first [exists (x :: d); split; [done|]; by intros i [= <-]
             |exists []; rewrite app_nil_r; split; [done|]; by intros i [= <-]].
Qed.

Lemma wire_read_spec w into : reads_well into w (wire_read w into).
Proof.
  unfold reads_well, wire_read. destruct w as [s|t].
  { pose proof (read_raw_spec s into) as Hr. destruct (read_raw s into) as [[r s'] into'].
    destruct Hr as (? & ? & ?). by split_and!. }
  unfold tls_read. cbn [accepted awaiting_session wire_ok]. destruct (tls_session t) as [session|] eqn:Es.
  - pose proof (tls_turns_spec MAX_READS_PER_TICK session t into false false) as Ht.
    destruct (tls_turns _ session t into false false) as [[[[[b e]|e|] s1] t1] into1];
      destruct Ht as (? & Hw & Hk & d & -> & Hb); try done; cbn [accepted awaiting_session wire_ok].
    + pose proof (flush_session_spec s1 (tls_stream t1)) as Hf.
      destruct (flush_session s1 (tls_stream t1)) as [[r s2] st]. destruct Hf as (? & Hw2 & Hk2).
      split_and!; [by destruct r|cbn; congruence|cbn; auto|done|]. exists d. split; [done|].
      intros i Hi. destruct r as [u| |]; [|done..]. apply Ok_inj in Hi as <-.
      rewrite (Hb _ _ eq_refl). cbn [orb]. case_bool_decide as Hd; [done|]. by destruct e.
    + split; [done|]. split; [exact Hw|]. split; [exact Hk|]. split; [done|]. by exists d.
  - pose proof (read_raw_spec (tls_stream t) into) as Hr.
    destruct (read_raw (tls_stream t) into) as [[r s'] into']. destruct Hr as (? & Hs & ?).
    cbn [accepted awaiting_session wire_ok tls_session tls_stream with_stream]. rewrite Es, Hs. by split_and!.
Qed.

(** ** Writing *)

Lemma wire_write_spec w d :
  let '(r, w') := wire_write w d in
  (wire_ok w -> wire_ok w') /\
  match r with
  | Ok n => (n <= length d)%nat /\ accepted w' = accepted w ++ take n d
  | Err (Io WouldBlock) => accepted w' = accepted w
  | Err _ => True
  | Panic => False
  end.
Proof.
  unfold wire_write. destruct w as [s|t]; cbn [accepted wire_ok].
  - unfold tcp_write. destruct (writes s) as [|[n|[]] rest]; cbn; try done. split; [done|]. split; [lia|done].
  - unfold tls_write. destruct (tls_session t) as [session|] eqn:Es; [|cbn; by rewrite Es].
    destruct (law_writer d session) as [He Hl].
    destruct (tls_writer d session) as [[n|e|] s1]; cbn [snd] in He; try done.
    2:{ split; [cbn; by apply linked_extends|cbn; by destruct e]. }
    pose proof (flush_session_spec s1 (tls_stream t)) as Hf.
    pose proof (flush_session_not_blocked s1 (tls_stream t)) as Hb.
    destruct (flush_session s1 (tls_stream t)) as [[[u|e|] s2] st]; destruct Hf as (? & Hw & Hk); try done; cbn.
    + split; [|by rewrite Hw]. intros Hlk. apply Hk. by eapply linked_extends.
    + split; [|by destruct e as [[]| | |]]. intros Hlk. apply Hk. by eapply linked_extends.
Qed.

(** ** The stream *)

(** What has been queued is what the wire has taken and what is left, in order. *)
Definition stream_ok (q : bytes) (s : HttpStream) : Prop :=
  wire_ok (wire s) /\
  accepted (wire s) ++ drop (written s) (outbound s) = q /\ (written s <= length (outbound s))%nat.

Lemma stream_ok_wire q s w :
  accepted w = accepted (wire s) -> (wire_ok (wire s) -> wire_ok w) -> stream_ok q s -> stream_ok q (set_wire w s).
Proof. unfold stream_ok. intros E Hw (H1 & H2 & H3). cbn. rewrite E. auto. Qed.

Lemma queue_ok q d s : stream_ok q s -> stream_ok (q ++ d) (queue d s).
Proof.
  intros (Hw & <- & Hl). split; [done|]. split; cbn; [|rewrite length_app; lia].
  by rewrite drop_app_le, app_assoc.
Qed.

Lemma drain_ok q s :
  stream_ok q s ->
  match (drain s).1 with
  | Ok i => stream_ok q (drain s).2 /\ (i = DComplete -> accepted (wire (drain s).2) = q)
  | Err _ => True
  | Panic => False
  end.
Proof.
  intros Hs. pose proof Hs as (Hk & Hq & Hl). unfold drain.
  destruct (outbound s) as [|x out] eqn:Eo; [by split|]. rewrite <- Eo in *.
  destruct (_ <? _)%nat eqn:E; [apply Nat.ltb_lt in E; lia|].
  pose proof (wire_write_spec (wire s) (drop (written s) (outbound s))) as Hw.
  destruct (wire_write _ _) as [[[|n]|[[]| | |]|] w]; cbn [fst snd]; destruct Hw as [Hkw Hw]; try done.
  - rewrite length_drop in Hw. destruct Hw as [Hn Hw].
    assert (accepted w ++ drop (written s + S n) (outbound s) = q) as Hq'.
    { rewrite Hw, <- app_assoc, <- Hq. f_equal. rewrite <- drop_drop. apply take_drop. }
    destruct (_ =? _)%nat eqn:Ec; cbn [fst snd wire set_wire].
    + apply Nat.eqb_eq in Ec. cbn in Ec. rewrite drop_ge, app_nil_r in Hq' by lia.
      split; [|done]. split; [by apply Hkw|]. split; cbn; [by rewrite app_nil_r|lia].
    + apply Nat.eqb_neq in Ec. cbn in Ec. split; [|done]. split; [by apply Hkw|]. split; cbn; [done|lia].
  - split; [|done]. by apply stream_ok_wire.
Qed.

Lemma fill_ok q s :
  stream_ok q s -> (fill s).1 <> Panic /\ stream_ok q (fill s).2.
Proof.
  intros Hs. unfold fill. pose proof (wire_read_spec (wire s) (inbound s)) as Hr.
  destruct (wire_read _ _) as [[r w] into]. destruct Hr as (? & Hw & Hk & _). split; [done|].
  by apply (stream_ok_wire q s w).
Qed.

Lemma finish_spec w :
  (wire_finish w).1 <> Panic /\ accepted (wire_finish w).2 = accepted w /\ (wire_ok w -> wire_ok (wire_finish w).2).
Proof.
  unfold wire_finish. destruct w as [s|t]; [done|]. unfold tls_finish. cbn [accepted wire_ok].
  destruct (tls_session t) as [session|] eqn:E; [|by cbn; rewrite E].
  pose proof (flush_session_spec (if closing t then session else tls_close_notify session) (tls_stream t)) as Hf.
  destruct (flush_session _ _) as [[r s2] st]. destruct Hf as (? & Hw & Hk). split; [done|]. cbn. rewrite Hw.
  destruct (law_close session) as [Hc He]. split; [by destruct (closing t)|]. intros Hlk. apply Hk.
  destruct (closing t); [done|by eapply linked_extends].
Qed.

Lemma wire_flush_spec w :
  (wire_flush w).1 <> Panic /\ accepted (wire_flush w).2 = accepted w /\ (wire_ok w -> wire_ok (wire_flush w).2).
Proof.
  unfold wire_flush. destruct w as [s|t]; [done|]. unfold tls_flush. cbn [accepted wire_ok].
  destruct (tls_session t) as [session|] eqn:E; [|by cbn; rewrite E].
  pose proof (flush_session_spec session (tls_stream t)) as Hf.
  destruct (flush_session _ _) as [[r s2] st]. by destruct Hf as (? & Hw & Hk).
Qed.

Lemma begin_session_spec d w :
  awaiting_session w = true ->
  match begin_session d w with
  | Ok w' => accepted w' = accepted w /\ (wire_ok w -> wire_ok w') | Err _ => True | Panic => False end.
Proof.
  unfold awaiting_session, begin_session. destruct w as [s|t]; [done|].
  destruct (tls_session t) as [session|] eqn:E; [done|]. intros _. cbn [accepted wire_ok]. rewrite E.
  destruct (tls_config t) as [c|]; [|by cbn; rewrite E]. pose proof (law_server_new c) as Hn.
  destruct (tls_server_new c) as [s| |]; [|done..]. destruct Hn as [Hw Hp]. split; [done|]. cbn. unfold linked.
  by intros ->.
Qed.

Lemma establish_ok q s :
  stream_ok q s ->
  match (establish s).1 with Ok _ => stream_ok q (establish s).2 | Err _ => True | Panic => False end.
Proof.
  intros Hs. unfold establish. destruct (awaiting_session (wire s)) eqn:Ea; [|done]. cbn [negb].
  pose proof (begin_session_spec (inbound s) _ Ea) as Hb.
  destruct (begin_session _ _) as [w|e|]; [|done..]. destruct Hb as [Hb Hkb].
  pose proof (wire_read_spec w []) as Hr. destruct (wire_read w []) as [[r w'] into].
  destruct Hr as (? & Hw & Hk & _). cbn [fst snd]. destruct r; try done.
  apply (stream_ok_wire q s w'); [congruence|auto|done].
Qed.

Lemma stream_op_ok q op s :
  stream_ok q s ->
  match stream_op op s with
  | Ok s' => stream_ok (q ++ queued op) s' | Err _ => True | Panic => False
  end.
Proof.
  intros Hs. destruct op as [d| | | | | |]; cbn [stream_op queued]; rewrite ?app_nil_r.
  - by apply queue_ok.
  - pose proof (drain_ok q s Hs) as Hd. destruct (drain s) as [[] s']; [by destruct Hd|done|done].
  - pose proof (fill_ok q s Hs) as [Hp Hf]. destruct (fill s) as [[] s']; [exact Hf|done|by destruct Hp].
  - destruct (wire_flush_spec (wire s)) as (Hp & Hw & Hk). unfold flush.
    destruct (wire_flush (wire s)) as [[] w]; try done. by apply stream_ok_wire.
  - destruct (finish_spec (wire s)) as (Hp & Hw & Hk). unfold close.
    destruct (wire_finish (wire s)) as [[] w]; try done; by apply stream_ok_wire.
  - pose proof (establish_ok q s Hs) as He. by destruct (establish s) as [[] s'].
  - done.
Qed.

(** A wire that has sent nothing. *)
Definition fresh_wire (w : Wire) : Prop := accepted w = [] /\ wire_ok w.

Lemma server_accept_fresh tls s : sent s = [] -> fresh_wire (wire (server_accept tls s)).
Proof. by destruct tls. Qed.

Lemma tls_client_fresh s c name w : wire_tls_client s c name = Ok w -> sent s = [] -> fresh_wire w.
Proof.
  unfold wire_tls_client. pose proof (law_client_new c name) as Hn.
  destruct (tls_client_new c name) as [session| |]; [|done..]. intros <-%Ok_inj Hs. destruct Hn as [H1 H2].
  split; [exact H1|]. cbn. unfold linked. by rewrite Hs, H2.
Qed.

(** The peer reads a beginning of what was taken, and all of it once nothing is
    left on this side. *)
Lemma delivered_accepted w :
  wire_ok w -> delivered w `prefix_of` accepted w /\ (all_sent w -> delivered w = accepted w).
Proof.
  unfold all_sent. destruct w as [s|t]; cbn [delivered accepted wire_ok has_pending_output]; [done|].
  destruct (tls_session t) as [session|]; [|done]. unfold linked. intros Hlk. rewrite (law_sealed session), <- Hlk. split.
  - etrans; [apply law_opened|]. by apply prefix_app_r.
  - intros [->%law_wants_write ->]. by rewrite !app_nil_r.
Qed.

(** C33: However the socket behaves, a stream over TCP or TLS sends exactly what
    was queued on it, in order and once, as long as no operation has failed.  What
    the wire has taken followed by what is still buffered is everything queued, so
    that an empty buffer means that all of it has been taken.  Over TLS, what is on
    the socket followed by what the engine has yet to hand over is all that the
    engine has made, nothing lost or repeated; so the peer reads on the socket a
    beginning of what was queued, and all of it when the buffer is empty and
    nothing is left to be sent.  Nothing panics. *)
Theorem stream_sends_exactly w l :
  fresh_wire w ->
  stream_run l (stream_new w) <> Panic /\
  forall s, stream_run l (stream_new w) = Ok s ->
    accepted (wire s) ++ drop (written s) (outbound s) = concat (queued <$> l) /\
    (has_outbound s = false -> accepted (wire s) = concat (queued <$> l)) /\
    wire_ok (wire s) /\ delivered (wire s) `prefix_of` concat (queued <$> l) /\
    (has_outbound s = false -> all_sent (wire s) -> delivered (wire s) = concat (queued <$> l)).
Proof.
  intros [Hw Hok]. assert (forall q s0, stream_ok q s0 -> stream_run l s0 <> Panic /\
    forall s, stream_run l s0 = Ok s -> stream_ok (q ++ concat (queued <$> l)) s) as Hrun.
  { clear -laws. induction l as [|op l IH]; intros q s0 H0; cbn.
    - split; [done|]. intros s <-%Ok_inj. by rewrite app_nil_r.
    - pose proof (stream_op_ok q op s0 H0) as Hop. destruct (stream_op op s0) as [s1| |]; try done.
      rewrite res_bind_Ok, app_assoc. by apply IH. }
  destruct (Hrun [] (stream_new w)) as [Hp Hs]; [by split; [|split; cbn; [rewrite Hw|]]|].
  split; [done|]. intros s (Hk & Hq & Hl)%Hs. cbn in Hq.
  assert (has_outbound s = false -> accepted (wire s) = concat (queued <$> l)) as Hall.
  { intros Ho. rewrite <- Hq. unfold has_outbound in Ho. destruct (outbound s); [|done]. by rewrite drop_nil, app_nil_r. }
  destruct (delivered_accepted _ Hk) as [Hd1 Hd2]. split_and!; [done|done|done| |].
  - rewrite <- Hq. by apply prefix_app_r.
  - intros Ho Ha. rewrite Hd2 by done. by apply Hall.
Qed.
End props.

(** ** Concrete streams *)

(** An engine without encryption, that hands over three bytes at a time. *)
Record ToySession := { toy_in : bytes; toy_out : bytes; toy_gone : bytes }.

#[local] Instance toy_tls : TlsOps := {|
  TlsSession := ToySession; TlsServerConfig := unit; TlsClientConfig := unit;
  tls_server_new _ := Ok {| toy_in := []; toy_out := []; toy_gone := [] |};
  tls_client_new _ _ := Ok {| toy_in := []; toy_out := []; toy_gone := [] |};
  tls_wants_read _ := true;
  tls_wants_write s := match toy_out s with [] => false | _ => true end;
  tls_room _ := Ok 4096%nat;
  tls_feed d s := {| toy_in := toy_in s ++ d; toy_out := toy_out s; toy_gone := toy_gone s |};
  tls_process s := (Ok tt, s);
  tls_reader n s :=
    match toy_in s, n with
    | [], _ | _, O => (Err WouldBlock, s)
    | d, _ => (Ok (take n d), {| toy_in := drop n d; toy_out := toy_out s; toy_gone := toy_gone s |})
    end;
  tls_plain s := length (toy_in s);
  tls_writer d s :=
    (Ok (length d), {| toy_in := toy_in s; toy_out := toy_out s ++ d; toy_gone := toy_gone s |});
  tls_outgoing s := take 3 (toy_out s);
  tls_taken n s := {| toy_in := toy_in s; toy_out := drop n (toy_out s); toy_gone := toy_gone s ++ take n (toy_out s) |};
  tls_close_notify s := s;
|}.

#[local] Instance toy_tls_ghost : TlsGhost toy_tls := {|
  tls_produced s := toy_gone s ++ toy_out s; tls_pending := toy_out;
  tls_written s := toy_gone s ++ toy_out s; tls_held _ := []; tls_opened _ d := d;
|}.

#[local] Instance toy_tls_laws : TlsLaws toy_tls toy_tls_ghost.
Proof.
  assert (forall s : ToySession, @extends toy_tls toy_tls_ghost s s) as Hsame by (intros; apply extends_refl).
  split; cbn; try done.
  - intros s. apply prefix_take.
  - intros s. by destruct (toy_out s).
  - intros n s _. by rewrite <- app_assoc, take_drop.
  - intros d s. split; [done|]. exists []. cbn. by rewrite !app_nil_r.
  - intros n s. destruct (toy_in s) as [|x d] eqn:E, n as [|n]; cbn; try done.
    split; [done|]. split; [exists []; cbn; by rewrite !app_nil_r|]. intros _. rewrite length_drop. lia.
  - intros d s. split; [exists d; cbn; by rewrite app_assoc|]. split; [lia|]. by rewrite take_ge, app_assoc.
  - intros s. by rewrite app_nil_r.
  - intros _ a b. by apply prefix_app_r.
Qed.

(** A request arrives on a TLS server in two reads while the answer goes out in two writes. *)
Definition slow_socket : TcpStream :=
  {| reads := [Arrives (str "GE"); ReadFails WouldBlock; Arrives (str "T")];
     writes := [Takes 2; WriteFails WouldBlock; Takes 5]; sent := [] |}.

Definition answer_ops : list StreamOp :=
  [OpFill; OpEstablish; OpQueue (str "abc"); OpDrain; OpQueue (str "d"); OpDrain; OpFlush; OpClose].

Lemma stream_sends_exactly_witness :
  exists s, stream_run answer_ops (@server_accept toy_tls (Some tt) slow_socket) = Ok s /\
    has_outbound s = false /\ accepted (wire s) = str "abcd" /\ delivered (wire s) = str "abcd".
Proof.
  destruct (stream_run answer_ops (@server_accept toy_tls (Some tt) slow_socket)) as [s| |] eqn:E;
    [|by vm_compute in E..].
  exists s. split; [reflexivity|].
  assert (has_outbound s = false /\ all_sent (wire s)) as [Ho Ha]
    by (vm_compute in E; injection E as <-; repeat split).
  split; [exact Ho|].
  destruct (proj2 (stream_sends_exactly (@wire_tls toy_tls slow_socket tt) answer_ops
    (server_accept_fresh (ops := toy_tls) (Some tt) slow_socket eq_refl)) s E) as (_ & H2 & _ & _ & H5).
  split; [exact (H2 Ho)|exact (H5 Ho Ha)].
Defined.
