(* ===== verification/Router.v ===== *)
(** * Router: which session a datagram on a shared socket belongs to
    ([util/stun.rs] and the router of [bevy-nethernet/src/connection.rs])

    One UDP socket serves many sessions.  A datagram belongs to the session that
    has claimed its source address; before any has, a STUN binding request names
    its session by user name fragment, and a STUN reply goes to every session
    that has sent to its source.  The STUN parser belongs to the [rtc] crate. *)
From S2P Require Import Prelude Text Errors Endpoint.

#[global] Program Instance SocketAddr_countable : Countable SocketAddr :=
  inj_countable' (fun a => (ip a, port a)) (fun p => {| ip := p.1; port := p.2 |}) _.
Next Obligation. by intros []. Qed.

(** [IpAddr::to_canonical]. *)
Definition to_canonical (i : IpAddr) : IpAddr :=
  match to_ipv4_mapped i with Some v4 => v4 | None => i end.

(** ** [util/stun.rs] *)

Class Stun := {
  is_stun_message : bytes -> bool;
  (** The text of the [USERNAME] attribute of a message that unmarshals and has one. *)
  stun_username : bytes -> option bytes;
}.

Section stun.
Context `{Stun}.

Definition is_stun (datagram : bytes) : bool := is_stun_message datagram.

Definition local_ufrag (datagram : bytes) : option bytes :=
  if negb (is_stun_message datagram) then None
  else
    username ← stun_username datagram;
    '(local, _) ← split_once (is_byte x3a) username;
    Some local.
End stun.

(** ** The routing table *)

Record Router (K : Type) `{Countable K} := {
  by_addr : gmap SocketAddr K;
  provisional : gmap SocketAddr (gset K);
  by_ufrag : gmap bytes K;
}.
Arguments by_addr {K _ _} r.
Arguments provisional {K _ _} r.
Arguments by_ufrag {K _ _} r.

Section router.
Context {K : Type} `{Countable K} `{Stun}.
Implicit Types (r : Router K) (id : K) (addr from : SocketAddr) (u : bytes).

Definition router_default : Router K := {| by_addr := ∅; provisional := ∅; by_ufrag := ∅ |}.

(** The order in which a hash set yields its members is not specified. *)
Definition route (from : SocketAddr) (datagram : bytes) (r : Router K) : list K :=
  match by_addr r !! from with
  | Some id => [id]
  | None =>
      if negb (is_stun datagram) then []
      else
        match (u ← local_ufrag datagram; by_ufrag r !! u) with
        | Some id => [id]
        | None => elements (default ∅ (provisional r !! from))
        end
  end.

Definition register_ufrag (u : bytes) (id : K) (r : Router K) : Router K :=
  {| by_addr := by_addr r; provisional := provisional r; by_ufrag := <[u := id]> (by_ufrag r) |}.

Definition claim_addr (addr : SocketAddr) (id : K) (r : Router K) : Router K :=
  match by_addr r !! addr with
  | Some _ => r
  | None =>
      {| by_addr := <[addr := id]> (by_addr r); provisional := provisional r; by_ufrag := by_ufrag r |}
  end.

Definition note_sent (addr : SocketAddr) (id : K) (r : Router K) : Router K :=
  {| by_addr := by_addr r;
     provisional := <[addr := {[id]} ∪ default ∅ (provisional r !! addr)]> (provisional r);
     by_ufrag := by_ufrag r |}.

(** [retain], with the closure that takes the session out of each set. *)
Definition retain_provisional (id : K) (p : gmap SocketAddr (gset K)) : gmap SocketAddr (gset K) :=
  omap (fun ids => let ids := ids ∖ {[id]} in if decide (ids = ∅) then None else Some ids) p.

Definition release_addr (id : K) (addr : option SocketAddr) (m : gmap SocketAddr K)
    : gmap SocketAddr K :=
  match addr with
  | Some a => if decide (m !! a = Some id) then delete a m else m
  | None => m
  end.

Definition release (id : K) (u : bytes) (addr : option SocketAddr) (r : Router K) : Router K :=
  {| by_addr := release_addr id addr (by_addr r);
     provisional := retain_provisional id (provisional r);
     by_ufrag := delete u (by_ufrag r) |}.

(** ** The table against the sessions it serves *)

(** What a session that is served has registered: its fragment, and the address
    it takes for its own. *)
Record Owner := { owner_ufrag : bytes; owner_addr : option SocketAddr }.

(** Every entry is of a session that is served and holds what the entry says. *)
Record router_ok (owners : gmap K Owner) (r : Router K) : Prop := {
  ok_addr a id : by_addr r !! a = Some id ->
    exists o, owners !! id = Some o /\ owner_addr o = Some a;
  ok_ufrag u id : by_ufrag r !! u = Some id ->
    exists o, owners !! id = Some o /\ owner_ufrag o = u;
  ok_provisional a ids : provisional r !! a = Some ids ->
    ids <> ∅ /\ forall id, id ∈ ids -> is_Some (owners !! id);
}.

(** Every session that is served is found by its fragment. *)
Definition ufrags_found (owners : gmap K Owner) (r : Router K) : Prop :=
  forall id o, owners !! id = Some o -> by_ufrag r !! owner_ufrag o = Some id.

Lemma router_default_ok : router_ok ∅ router_default.
Proof. split; intros *; cbn; by rewrite lookup_empty. Qed.

Lemma retain_provisional_Some id p a ids :
  retain_provisional id p !! a = Some ids <->
  exists ids', p !! a = Some ids' /\ ids = ids' ∖ {[id]} /\ ids <> ∅.
Proof.
  unfold retain_provisional. rewrite lookup_omap_Some. split.
  - intros (ids' & Hd & Hp). cbn in Hd. case_decide as E; [done|]. simplify_eq. eauto.
  - intros (ids' & Hp & -> & Hne). exists ids'. cbn. by rewrite decide_False.
Qed.

Lemma release_addr_Some id held m a id' :
  release_addr id held m !! a = Some id' <-> m !! a = Some id' /\ ~ (held = Some a /\ id' = id).
Proof.
  unfold release_addr. destruct held as [b|]; [|naive_solver].
  case_decide as E; [rewrite lookup_delete_Some|]; destruct (decide (b = a)) as [->|]; naive_solver.
Qed.

(** Registering a session that was not served. *)
Lemma router_ok_register owners r u id :
  owners !! id = None -> router_ok owners r ->
  router_ok (<[id := {| owner_ufrag := u; owner_addr := None |}]> owners) (register_ufrag u id r).
Proof.
  intros Hid [Ha Hu Hp]. split; cbn.
  - intros a id' (o & Ho & ?)%Ha. exists o. rewrite lookup_insert_ne by congruence. done.
  - intros u' id' [[<- <-]|[Hne (o & Ho & ?)%Hu]]%lookup_insert_Some.
    + rewrite lookup_insert_eq. by eexists.
    + exists o. rewrite lookup_insert_ne by congruence. done.
  - intros a ids [Hne Hids]%Hp. split; [done|]. intros id' Hin%Hids.
    destruct (decide (id = id')) as [->|]; [by rewrite lookup_insert_eq|by rewrite lookup_insert_ne].
Qed.

(** A session that takes an address for its own, whether or not it gets it. *)
Lemma router_ok_claim owners r addr id o :
  owners !! id = Some o -> owner_addr o = None -> router_ok owners r ->
  router_ok (<[id := {| owner_ufrag := owner_ufrag o; owner_addr := Some addr |}]> owners)
    (claim_addr addr id r).
Proof.
  intros Ho Hnone [Ha Hu Hp].
  assert (forall a, by_addr r !! a <> Some id) as Hfree.
  { intros a (o' & Ho' & Ea)%Ha. congruence. }
  assert (forall a id', by_addr r !! a = Some id' -> exists o',
    <[id := {| owner_ufrag := owner_ufrag o; owner_addr := Some addr |}]> owners !! id' = Some o' /\
    owner_addr o' = Some a) as Ha'.
  { intros a id' H'. destruct (decide (id = id')) as [->|]; [by apply Hfree in H'|].
    rewrite lookup_insert_ne by done. eauto. }
  split.
  - unfold claim_addr. destruct (by_addr r !! addr) eqn:E; [exact Ha'|]. cbn.
    intros a id' [[<- <-]|[Hne H']]%lookup_insert_Some; [|by apply Ha'].
    rewrite lookup_insert_eq. by eexists.
  - intros u id' H'. assert (by_ufrag r !! u = Some id') as (o' & Ho' & <-)%Hu
      by (unfold claim_addr in H'; by destruct (by_addr r !! addr)).
    destruct (decide (id = id')) as [->|].
    + simplify_eq. rewrite lookup_insert_eq. by eexists.
    + rewrite lookup_insert_ne by done. eauto.
  - intros a ids H'. assert (provisional r !! a = Some ids) as [Hne Hids]%Hp
      by (unfold claim_addr in H'; by destruct (by_addr r !! addr)).
    split; [done|]. intros id' Hin%Hids. destruct (decide (id = id')) as [->|];
      [by rewrite lookup_insert_eq|by rewrite lookup_insert_ne].
Qed.

Lemma router_ok_note_sent owners r addr id :
  is_Some (owners !! id) -> router_ok owners r -> router_ok owners (note_sent addr id r).
Proof.
  intros Hid [Ha Hu Hp]. split; [done|done|]. cbn.
  intros a ids [[<- <-]|[Hne H']]%lookup_insert_Some; [|exact (Hp _ _ H')].
  split; [set_solver|]. intros id' [->%elem_of_singleton|Hin]%elem_of_union; [done|].
  destruct (provisional r !! addr) as [ids|] eqn:E; [|by apply elem_of_empty in Hin].
  by eapply (Hp _ _ E).
Qed.

(** Releasing a session with what it holds takes it out of the table. *)
Lemma router_ok_release owners r id o :
  owners !! id = Some o -> router_ok owners r ->
  router_ok (delete id owners) (release id (owner_ufrag o) (owner_addr o) r).
Proof.
  intros Ho [Ha Hu Hp]. split; cbn.
  - intros a id' [H' Hn]%release_addr_Some. destruct (Ha a id' H') as (o' & Ho' & ?).
    exists o'. rewrite lookup_delete_ne; [done|]. intros <-. naive_solver.
  - intros u id' [Hne H']%lookup_delete_Some. destruct (Hu u id' H') as (o' & Ho' & ?).
    exists o'. rewrite lookup_delete_ne; [done|]. intros <-. naive_solver.
  - intros a ids (ids' & H' & -> & Hne)%retain_provisional_Some. split; [done|].
    intros id' [Hin Hn]%elem_of_difference. rewrite lookup_delete_ne by set_solver.
    by apply (Hp _ _ H').
Qed.

(** ** What the table promises *)

Lemma elem_of_route from d r id :
  id ∈ route from d r <->
  match by_addr r !! from with
  | Some id' => id = id'
  | None =>
      is_stun d = true /\
      match (u ← local_ufrag d; by_ufrag r !! u) with
      | Some id' => id = id'
      | None => exists ids, provisional r !! from = Some ids /\ id ∈ ids
      end
  end.
Proof.
  unfold route. destruct (by_addr r !! from); [by rewrite list_elem_of_singleton|].
  destruct (is_stun d); cbn [negb]; [|rewrite elem_of_nil; naive_solver].
  destruct (_ ≫= _) as [id'|]; [rewrite list_elem_of_singleton; naive_solver|].
  rewrite elem_of_elements. split.
  - intros Hin. split; [done|].
    destruct (provisional r !! from) as [ids|]; [eauto|by apply elem_of_empty in Hin].
  - by intros (_ & ids & -> & Hin).
Qed.

(** A datagram goes to sessions that are served: to the one that has the source
    address, or, being STUN, to the one it names or those that have sent there. *)
Lemma route_sound owners r from d id :
  router_ok owners r -> id ∈ route from d r ->
  exists o, owners !! id = Some o /\
    (owner_addr o = Some from \/
     by_addr r !! from = None /\ is_stun d = true /\
     (local_ufrag d = Some (owner_ufrag o) \/
      exists ids, provisional r !! from = Some ids /\ id ∈ ids)).
Proof.
  intros [Ha Hu Hp]. rewrite elem_of_route. destruct (by_addr r !! from) as [id'|] eqn:Ea.
  { intros ->. destruct (Ha _ _ Ea) as (o & ? & ?). eauto. }
  intros [Hs H']. destruct (local_ufrag d) as [u|] eqn:El; cbn in H'.
  - destruct (by_ufrag r !! u) as [id'|] eqn:Eu.
    + subst. destruct (Hu _ _ Eu) as (o & ? & <-). eexists. split; [done|]. auto.
    + destruct H' as (ids & Hi & Hin). destruct (proj2 (Hp _ _ Hi) id Hin) as [o Ho].
      exists o. split; [done|]. right. eauto 6.
  - destruct H' as (ids & Hi & Hin). destruct (proj2 (Hp _ _ Hi) id Hin) as [o Ho].
    exists o. split; [done|]. right. eauto 6.
Qed.

(** ** The table against what the sessions have sent *)

(** What happened, as far as provisional routes go: sessions that started to be
    served and the addresses they have sent datagrams to, in order. *)
Inductive Happened := Added (id : K) | SentTo (id : K) (addr : SocketAddr).

(** The session that is served as [id] now has sent to [a]. *)
Definition has_sent (log : list Happened) (id : K) (a : SocketAddr) : Prop :=
  exists pre post, log = pre ++ SentTo id a :: post /\ Added id ∉ post.

Lemma has_sent_nil id a : ~ has_sent [] id a.
Proof. intros (pre & post & E & _). by destruct pre. Qed.

Lemma has_sent_snoc log x id a :
  has_sent (log ++ [x]) id a <-> x = SentTo id a \/ has_sent log id a /\ x <> Added id.
Proof.
  split.
  - intros (pre & post & E & Hn). destruct post as [|y post _] using rev_ind.
    + apply app_inj_tail in E as [_ ->]. by left.
    + rewrite app_comm_cons, app_assoc in E. apply app_inj_tail in E as [-> ->]. right.
      split; [|set_solver]. exists pre, post. split; [done|set_solver].
  - intros [->|[(pre & post & -> & Hn) Hx]].
    + exists log, []. split; [done|apply not_elem_of_nil].
    + exists pre, (post ++ [x]). split; [by rewrite <- app_assoc|set_solver].
Qed.

Definition noted (r : Router K) (a : SocketAddr) (id : K) : Prop :=
  id ∈ default ∅ (provisional r !! a).

(** The provisional routes are of sessions that have sent there, and all of those
    of a session that has no address of its own. *)
Record sent_ok (owners : gmap K Owner) (log : list Happened) (r : Router K) : Prop := {
  sent_noted a id : noted r a id -> has_sent log id a;
  sent_complete a id o : owners !! id = Some o -> owner_addr o = None -> has_sent log id a -> noted r a id;
}.

Lemma sent_ok_default : sent_ok ∅ [] router_default.
Proof. split; [|done]. intros a id. unfold noted. cbn. rewrite lookup_empty. by intros ?%elem_of_empty. Qed.

Lemma noted_served owners r a id : router_ok owners r -> noted r a id -> is_Some (owners !! id).
Proof.
  intros [_ _ Hp]. unfold noted. destruct (provisional r !! a) as [ids|] eqn:E; cbn; [|by intros ?%elem_of_empty].
  apply (Hp _ _ E).
Qed.

Lemma sent_ok_register owners log r u id o :
  owners !! id = None -> router_ok owners r -> sent_ok owners log r ->
  sent_ok (<[id := o]> owners) (log ++ [Added id]) (register_ufrag u id r).
Proof.
  intros Hid Hok [H1 H2]. split.
  - intros a i Hn. apply has_sent_snoc. right. split; [by apply H1|].
    intros [= <-]. destruct (noted_served _ _ _ _ Hok Hn). congruence.
  - intros a i o' Ho Ha [?|[Hs Hne]]%has_sent_snoc; [done|].
    rewrite lookup_insert_ne in Ho by congruence. by eapply H2.
Qed.

(** Owners that take addresses need no provisional routes, and claims leave
    those there are alone. *)
Lemma sent_ok_claim owners owners' log r r' :
  (forall id o, owners' !! id = Some o -> owner_addr o = None ->
     exists o', owners !! id = Some o' /\ owner_addr o' = None) ->
  provisional r' = provisional r -> sent_ok owners log r -> sent_ok owners' log r'.
Proof.
  intros Ho Hr [H1 H2]. unfold noted in *.
  split; unfold noted; rewrite Hr; [done|]. intros a id o Ho' Ha. destruct (Ho _ _ Ho' Ha) as (o1 & ? & ?). by eapply H2.
Qed.

Lemma noted_note_sent r addr id a i :
  noted (note_sent addr id r) a i <-> noted r a i \/ a = addr /\ i = id.
Proof.
  unfold noted, note_sent. cbn. destruct (decide (addr = a)) as [->|Hne].
  - rewrite lookup_insert_eq. cbn. rewrite elem_of_union, elem_of_singleton. naive_solver.
  - rewrite lookup_insert_ne by done. naive_solver.
Qed.

Lemma sent_ok_note_sent owners log r addr id :
  sent_ok owners log r -> sent_ok owners (log ++ [SentTo id addr]) (note_sent addr id r).
Proof.
  intros [H1 H2]. split.
  - intros a i [Hn|[-> ->]]%noted_note_sent; apply has_sent_snoc; [right; split; [by apply H1|done]|by left].
  - intros a i o Ho Ha [[= <- <-]|[Hs _]]%has_sent_snoc; apply noted_note_sent; [by right|].
    left. by eapply H2.
Qed.

(** What a session sends that has an address of its own is not noted. *)
Lemma sent_ok_sent owners log r addr id o :
  owners !! id = Some o -> owner_addr o <> None -> sent_ok owners log r ->
  sent_ok owners (log ++ [SentTo id addr]) r.
Proof.
  intros Ho Ha [H1 H2]. split.
  - intros a i Hn. apply has_sent_snoc. right. split; [by apply H1|done].
  - intros a i o' Ho' Ha' [[= <- <-]|[Hs _]]%has_sent_snoc; [congruence|by eapply H2].
Qed.

Lemma sent_ok_release owners log r id u (held : option SocketAddr) :
  sent_ok owners log r -> sent_ok (delete id owners) log (release id u held r).
Proof.
  intros [H1 H2].
  assert (forall a i, noted (release id u held r) a i <-> noted r a i /\ i <> id) as Hn.
  { intros a i. unfold noted, release. cbn.
    destruct (retain_provisional id (provisional r) !! a) as [ids|] eqn:E; cbn.
    - apply retain_provisional_Some in E as (ids' & -> & -> & _). cbn. set_solver.
    - split; [by intros ?%elem_of_empty|]. intros [Hin Hne].
      destruct (provisional r !! a) as [ids'|] eqn:Ea; [|by apply elem_of_empty in Hin]. cbn in Hin.
      assert (retain_provisional id (provisional r) !! a = Some (ids' ∖ {[id]})) as E'; [|congruence].
      apply retain_provisional_Some. exists ids'. split; [done|]. split; [done|set_solver]. }
  split.
  - intros a i [Hi _]%Hn. by apply H1.
  - intros a i o [Hne Ho]%lookup_delete_Some Ha Hs. apply Hn. split; [by eapply H2|done].
Qed.
End router.
Arguments Owner : clear implicits.
Arguments Happened : clear implicits.
