(* ===== verification/SharedSocket.v ===== *)
(** * SharedSocket: one UDP socket for every session of a server
    ([nethernet-tokio/src/transport/shared.rs])

    The routing table, the queue of each session and the routes that sessions
    hold.  The state behind the mutex and the routes together are one state
    machine: every method runs under the lock, so an interleaving of tasks is a
    sequence of inputs.  A session's channel is kept as its queue. *)
From S2P Require Import Prelude Text Errors Endpoint Router.

Definition ROUTE_CHANNEL_CAPACITY : nat := 1024.

Definition canonical (addr : SocketAddr) : SocketAddr :=
  socket_addr_new (to_canonical (ip addr)) (port addr).

Abbreviation Datagram := (bytes * SocketAddr)%type.

Section shared.
Context `{Stun}.

(** ** The router of this crate: addresses are canonical, a claim says whether it
    succeeded, and a fragment is released only by the session that holds it *)

Definition router_route (from : SocketAddr) (datagram : bytes) (r : Router Z) : list Z :=
  route (canonical from) datagram r.

Definition router_claim_addr (addr : SocketAddr) (id : Z) (r : Router Z) : bool * Router Z :=
  (default id (by_addr r !! canonical addr) =? id, claim_addr (canonical addr) id r).

Definition router_note_sent (addr : SocketAddr) (id : Z) (r : Router Z) : Router Z :=
  note_sent (canonical addr) id r.

Definition router_release (id : Z) (u : bytes) (addr : option SocketAddr) (r : Router Z) : Router Z :=
  {| by_addr := release_addr id (canonical <$> addr) (by_addr r);
     provisional := retain_provisional id (provisional r);
     by_ufrag := if decide (by_ufrag r !! u = Some id) then delete u (by_ufrag r) else by_ufrag r |}.

(** ** The shared state and the routes *)

Record State := { next_id : Z; sessions : gmap Z (list Datagram); router : Router Z }.

Record SharedRoute := { route_ufrag : bytes; route_remote_addr : option SocketAddr }.

Record Shared := { state : State; routes : gmap Z SharedRoute }.

Definition shared_new : Shared :=
  {| state := {| next_id := 0; sessions := ∅; router := router_default |}; routes := ∅ |}.

Definition set_router (r : Router Z) (w : Shared) : Shared :=
  {| state := {| next_id := next_id (state w); sessions := sessions (state w); router := r |};
     routes := routes w |}.

Definition set_sessions (m : gmap Z (list Datagram)) (w : Shared) : Shared :=
  {| state := {| next_id := next_id (state w); sessions := m; router := router (state w) |};
     routes := routes w |}.

(** [SharedSocket::route]; incrementing past [u64::MAX] panics. *)
Definition open_route (u : bytes) (w : Shared) : Res unit Shared :=
  let st := state w in
  let id := next_id st in
  if u64_max <=? id then Panic
  else Ok {| state := {| next_id := id + 1; sessions := <[id := []]> (sessions st);
                         router := register_ufrag u id (router st) |};
             routes := <[id := {| route_ufrag := u; route_remote_addr := None |}]> (routes w) |}.

(** [Sender::try_send] on a channel of the capacity. *)
Definition try_send (m : Datagram) (queue : list Datagram) : list Datagram :=
  if (length queue <? ROUTE_CHANNEL_CAPACITY)%nat then queue ++ [m] else queue.

Definition send_each (m : Datagram) (ids : list Z) (s : gmap Z (list Datagram))
    : gmap Z (list Datagram) :=
  fold_left (fun s id => match s !! id with
                         | Some queue => <[id := try_send m queue]> s
                         | None => s
                         end) ids s.

(** One datagram in the loop of [SharedSocket::dispatch]. *)
Definition dispatch (d : bytes) (from : SocketAddr) (w : Shared) : Shared :=
  set_sessions (send_each (d, from) (router_route from d (router (state w))) (sessions (state w))) w.

(** [SharedRoute::recv_from], when there is something to receive. *)
Definition recv_from (id : Z) (w : Shared) : option Datagram * Shared :=
  match sessions (state w) !! id with
  | Some (m :: queue) => (Some m, set_sessions (<[id := queue]> (sessions (state w))) w)
  | _ => (None, w)
  end.

(** [SharedRoute::send_to], up to the socket. *)
Definition send_to (id : Z) (to : SocketAddr) (w : Shared) : Shared :=
  match routes w !! id with
  | Some {| route_remote_addr := None |} => set_router (router_note_sent to id (router (state w))) w
  | _ => w
  end.

Definition claim (id : Z) (addr : SocketAddr) (w : Shared) : Shared :=
  match routes w !! id with
  | Some {| route_ufrag := u; route_remote_addr := None |} =>
      let '(owned, r) := router_claim_addr addr id (router (state w)) in
      let w := set_router r w in
      if owned
      then {| state := state w;
              routes := <[id := {| route_ufrag := u; route_remote_addr := Some addr |}]> (routes w) |}
      else w
  | _ => w
  end.

(** [Drop for SharedRoute]. *)
Definition drop_route (id : Z) (w : Shared) : Shared :=
  match routes w !! id with
  | Some rt =>
      let st := state w in
      {| state := {| next_id := next_id st; sessions := delete id (sessions st);
                     router := router_release id (route_ufrag rt) (route_remote_addr rt) (router st) |};
         routes := delete id (routes w) |}
  | None => w
  end.

(** What the tasks of a server do to the socket, in the order of the lock. *)
Inductive SharedInput :=
| Opened (u : bytes)
| Received (d : bytes) (from : SocketAddr)
| Taken (id : Z)
| Sent (id : Z) (to : SocketAddr)
| Claimed (id : Z) (addr : SocketAddr)
| Dropped (id : Z).

Definition shared_step (w : Shared) (i : SharedInput) : Shared :=
  match i with
  | Opened u => match open_route u w with Ok w' => w' | _ => w end
  | Received d from => dispatch d from w
  | Taken id => (recv_from id w).2
  | Sent id to => send_to id to w
  | Claimed id addr => claim id addr w
  | Dropped id => drop_route id w
  end.

Definition shared_after (inputs : list SharedInput) : Shared := fold_left shared_step inputs shared_new.

(** ** The invariant *)

Definition owner_of (rt : SharedRoute) : Owner :=
  {| owner_ufrag := route_ufrag rt; owner_addr := canonical <$> route_remote_addr rt |}.

Record shared_inv (inputs : list SharedInput) (w : Shared) : Prop := {
  inv_router : router_ok (owner_of <$> routes w) (router (state w));
  inv_sessions id : is_Some (sessions (state w) !! id) <-> is_Some (routes w !! id);
  inv_next id : is_Some (routes w !! id) -> id < next_id (state w);
  inv_claimed id rt a : routes w !! id = Some rt -> route_remote_addr rt = Some a ->
    by_addr (router (state w)) !! canonical a = Some id;
  inv_sent a ids id : provisional (router (state w)) !! a = Some ids -> id ∈ ids ->
    exists to, Sent id to ∈ inputs /\ canonical to = a;
}.

Lemma lookup_owner id (m : gmap Z SharedRoute) rt :
  m !! id = Some rt -> (owner_of <$> m) !! id = Some (owner_of rt).
Proof. intros E. by rewrite lookup_fmap, E. Qed.

Lemma lookup_owner_inv id (m : gmap Z SharedRoute) o :
  (owner_of <$> m) !! id = Some o -> exists rt, m !! id = Some rt /\ o = owner_of rt.
Proof. rewrite lookup_fmap. destruct (m !! id); cbn; [|done]. intros [= <-]. eauto. Qed.

Lemma send_each_cons m i ids s :
  send_each m (i :: ids) s
  = send_each m ids (match s !! i with Some q => <[i := try_send m q]> s | None => s end).
Proof. done. Qed.

Lemma send_each_lookup m ids s id : NoDup ids ->
  send_each m ids s !! id = if decide (id ∈ ids) then try_send m <$> s !! id else s !! id.
Proof.
  revert s. induction ids as [|i ids IH]; intros s; [done|]. intros [Hi Hn]%list.NoDup_cons.
  rewrite send_each_cons, (IH _ Hn).
  destruct (decide (id = i)) as [->|Hne].
  - rewrite decide_False by done. rewrite decide_True by by left.
    destruct (s !! i) eqn:E; cbn; [by rewrite lookup_insert_eq|by rewrite E].
  - assert (match s !! i with Some q => <[i := try_send m q]> s | None => s end !! id = s !! id) as ->
      by (destruct (s !! i); [by rewrite lookup_insert_ne|done]).
    destruct (decide (id ∈ ids)); [rewrite decide_True by by right|
      rewrite decide_False by (intros [?|?]%elem_of_cons; done)]; done.
Qed.

Lemma route_NoDup from d (r : Router Z) : NoDup (route from d r).
Proof.
  unfold route. repeat case_match; try apply NoDup_singleton; [apply NoDup_nil_2|apply NoDup_elements].
Qed.

Lemma dispatch_lookup d from w id :
  sessions (state (dispatch d from w)) !! id
  = if decide (id ∈ router_route from d (router (state w)))
    then try_send (d, from) <$> sessions (state w) !! id else sessions (state w) !! id.
Proof. apply send_each_lookup, route_NoDup. Qed.

(** ** Every input keeps it *)

Lemma shared_inv_new : shared_inv [] shared_new.
Proof.
  split; cbn; [rewrite fmap_empty; apply router_default_ok|..];
    intros *; rewrite ?lookup_empty; done.
Qed.

(** What was done before stays true of a longer run. *)
Lemma shared_inv_app inputs l w : shared_inv inputs w -> shared_inv (inputs ++ l) w.
Proof.
  intros [Hr Hs Hn Hc Ht]. split; try done.
  intros a ids id Hp Hin. destruct (Ht a ids id Hp Hin) as (to & ? & ?).
  exists to. rewrite elem_of_app. auto.
Qed.

Lemma claim_addr_provisional addr id (r : Router Z) : provisional (claim_addr addr id r) = provisional r.
Proof. unfold claim_addr. by destruct (by_addr r !! addr). Qed.

Lemma open_route_inv u w w' inputs :
  open_route u w = Ok w' -> shared_inv inputs w -> shared_inv inputs w'.
Proof.
  unfold open_route. case_match; [done|]. intros <-%Ok_inj [Hr Hs Hn Hc Ht].
  assert (routes w !! next_id (state w) = None) as Hfree.
  { apply eq_None_not_Some. intros ?%Hn. lia. }
  split; cbn.
  - rewrite fmap_insert. apply (router_ok_register _ _ u); [by rewrite lookup_fmap, Hfree|done].
  - intros id. rewrite !lookup_insert_is_Some'. by rewrite Hs.
  - intros id [<-|?%Hn]%lookup_insert_is_Some'; lia.
  - intros id rt a [[<- <-]|[Hne E]]%lookup_insert_Some Ea; [done|]. by eapply Hc.
  - done.
Qed.

Lemma dispatch_inv d from w inputs :
  shared_inv inputs w -> shared_inv inputs (dispatch d from w).
Proof.
  intros [Hr Hs Hn Hc Ht]. split; try done.
  intros id. rewrite dispatch_lookup, <- Hs. case_decide; [apply fmap_is_Some|done].
Qed.

Lemma recv_from_inv id w inputs :
  shared_inv inputs w -> shared_inv inputs (recv_from id w).2.
Proof.
  intros [Hr Hs Hn Hc Ht].
  unfold recv_from. destruct (sessions (state w) !! id) as [[|m q]|] eqn:E; split; try done.
  intros i. cbn. rewrite <- Hs. rewrite lookup_insert_is_Some'. split; [|auto].
  intros [<-|?]; [by rewrite E|done].
Qed.

Lemma send_to_inv id to w inputs :
  Sent id to ∈ inputs -> shared_inv inputs w -> shared_inv inputs (send_to id to w).
Proof.
  intros Hsent [Hr Hs Hn Hc Ht].
  unfold send_to. destruct (routes w !! id) as [[u [a|]]|] eqn:E; split; try done; cbn.
  - apply router_ok_note_sent; [|done]. rewrite lookup_fmap, E. by eexists.
  - intros a ids i [[<- <-]|[Hne Hp]]%lookup_insert_Some Hin; [|by eapply Ht].
    apply elem_of_union in Hin as [->%elem_of_singleton|Hin].
    + eauto.
    + destruct (provisional _ !! _) as [ids|] eqn:Ep; [by eapply Ht|by apply elem_of_empty in Hin].
Qed.

Lemma claim_inv id addr w inputs :
  shared_inv inputs w -> shared_inv inputs (claim id addr w).
Proof.
  intros [Hr Hs Hn Hc Ht].
  unfold claim. destruct (routes w !! id) as [[u [b|]]|] eqn:E; [by split| |by split].
  unfold router_claim_addr. destruct (by_addr (router (state w)) !! canonical addr) as [i|] eqn:Ea;
    cbn [default from_option Datatypes.id].
  - assert (claim_addr (canonical addr) id (router (state w)) = router (state w)) as ->
      by (unfold claim_addr; by rewrite Ea).
    destruct (i =? id) eqn:Ei; [|by split]. apply Z.eqb_eq in Ei as ->.
    destruct (ok_addr _ _ Hr _ _ Ea) as (o & Ho & Hoa). rewrite (lookup_owner _ _ _ E) in Ho.
    by simplify_eq.
  - rewrite Z.eqb_refl. split; cbn.
    + rewrite fmap_insert. apply (router_ok_claim _ _ _ _ (owner_of {| route_ufrag := u; route_remote_addr := None |}));
        [by apply lookup_owner|done|done].
    + intros i. rewrite lookup_insert_is_Some', Hs. split; [auto|]. intros [<-|?]; [by rewrite E|done].
    + intros i [<-|?]%lookup_insert_is_Some'; apply Hn; [by rewrite E|done].
    + unfold claim_addr. rewrite Ea. cbn. intros i rt a [[<- <-]|[Hne Hi]]%lookup_insert_Some Hrt.
      * cbn in Hrt. simplify_eq. by rewrite lookup_insert_eq.
      * rewrite lookup_insert_ne; [by eapply Hc|]. intros Heq.
        rewrite Heq, (Hc _ _ _ Hi Hrt) in Ea. done.
    + by rewrite claim_addr_provisional.
Qed.

Lemma drop_route_inv id w inputs : shared_inv inputs w -> shared_inv inputs (drop_route id w).
Proof.
  intros [Hr Hs Hn Hc Ht]. unfold drop_route. destruct (routes w !! id) as [rt|] eqn:E; [|by split].
  split; cbn.
  - rewrite fmap_delete.
    destruct (router_ok_release _ _ id (owner_of rt) (lookup_owner _ _ _ E) Hr) as [Ha Hu Hp].
    split; [exact Ha| |exact Hp]. cbn. intros u i Hi.
    assert (by_ufrag (router (state w)) !! u = Some i) as Hi'
      by (case_decide; [apply lookup_delete_Some in Hi as [_ Hi]|]; exact Hi).
    destruct (ok_ufrag _ _ Hr _ _ Hi') as (o & Ho & <-). exists o. rewrite lookup_delete_ne; [done|].
    intros <-. rewrite (lookup_owner _ _ _ E) in Ho. injection Ho as <-. cbn [owner_of owner_ufrag] in *.
    rewrite decide_True in Hi by exact Hi'. by rewrite lookup_delete_eq in Hi.
  - intros i. rewrite !lookup_delete_is_Some. by rewrite Hs.
  - intros i [_ ?%Hn]%lookup_delete_is_Some. done.
  - intros i rt' a [Hne Hi]%lookup_delete_Some Ha. apply release_addr_Some.
    split; [by eapply Hc|]. intros [_ ->]. done.
  - intros a ids i (ids' & Hp & -> & _)%retain_provisional_Some [Hin _]%elem_of_difference.
    by eapply Ht.
Qed.

Lemma shared_inv_after inputs : shared_inv inputs (shared_after inputs).
Proof.
  induction inputs as [|i inputs IH] using rev_ind; [apply shared_inv_new|].
  unfold shared_after. rewrite fold_left_app. cbn [fold_left]. fold (shared_after inputs).
  apply (shared_inv_app _ [i]) in IH. destruct i as [u|d from|id|id to|id addr|id]; cbn [shared_step].
  - destruct (open_route u (shared_after inputs)) eqn:E; [by eapply open_route_inv|done|done].
  - by apply dispatch_inv.
  - by apply recv_from_inv.
  - apply send_to_inv; [|done]. rewrite elem_of_app, list_elem_of_singleton. auto.
  - by apply claim_inv.
  - by apply drop_route_inv.
Qed.

Lemma try_send_cases m q : try_send m q = q ++ [m] \/ try_send m q = q.
Proof. unfold try_send. case_match; auto. Qed.

(** C18: Whatever the tasks of a server have done to the shared socket, a datagram
    enters only queues of open routes, once and at the end; the route that has
    claimed the source address gets it alone; when none has, only a STUN datagram
    gets through, to the route whose fragment it names or to one that has itself
    sent to that address. *)
Theorem shared_routing_exclusive inputs d from id q q' :
  let w := shared_after inputs in
  sessions (state w) !! id = Some q -> sessions (state (dispatch d from w)) !! id = Some q' -> q' <> q ->
  q' = q ++ [(d, from)] /\
  exists rt, routes w !! id = Some rt /\
    (canonical <$> route_remote_addr rt = Some (canonical from) \/
     (forall i r, routes w !! i = Some r -> canonical <$> route_remote_addr r <> Some (canonical from)) /\
     is_stun d = true /\
     (local_ufrag d = Some (route_ufrag rt) \/
      exists to, Sent id to ∈ inputs /\ canonical to = canonical from)).
Proof.
  intros w Hq Hq' Hne. pose proof (shared_inv_after inputs) as [Hr Hs Hn Hc Ht]. fold w in Hr, Hs, Hn, Hc, Ht.
  rewrite dispatch_lookup, Hq in Hq'. case_decide as Hin; [|congruence]. cbn in Hq'. simplify_eq.
  split; [by destruct (try_send_cases (d, from) q) as [|?]|].
  destruct (route_sound _ _ _ _ _ Hr Hin) as (o & (rt & Hrt & ->)%lookup_owner_inv & Hcase).
  exists rt. split; [done|]. destruct Hcase as [?|(Hnone & Hst & Hcase)]; [by left|right]. split; [|split; [done|]].
  - intros i r Hi. destruct (route_remote_addr r) as [a|] eqn:Ea; cbn; [|done]. intros Heq%(inj Some).
    rewrite <- Heq, (Hc _ _ _ Hi Ea) in Hnone. done.
  - destruct Hcase as [?|(ids & Hp & Hi)]; [by left|right]. by eapply Ht.
Qed.

(** The state after a route is closed or claims an address. *)
Lemma claim_succeeds id addr w rt :
  routes w !! id = Some rt -> route_remote_addr rt = None ->
  by_addr (router (state w)) !! canonical addr = None ->
  routes (claim id addr w) !! id = Some {| route_ufrag := route_ufrag rt; route_remote_addr := Some addr |}.
Proof.
  intros Hrt Hnone Ha. unfold claim. rewrite Hrt. destruct rt as [u [b|]]; [done|].
  unfold router_claim_addr. rewrite Ha. cbn -[claim_addr]. rewrite Z.eqb_refl.
  cbn -[claim_addr lookup insert]. by rewrite lookup_insert_eq.
Qed.

(** An address has one owner.  The owner of an address gets every datagram
    from it, up to the capacity of its queue, and no other route gets any.  A
    claim by another route leaves it unclaimed, so that it can try again, and it
    succeeds once the owner is gone. *)
Theorem shared_claim_retried inputs owner rt addr d from id rt' :
  let w := shared_after inputs in
  routes w !! owner = Some rt -> canonical <$> route_remote_addr rt = Some (canonical addr) ->
  canonical from = canonical addr ->
  routes w !! id = Some rt' -> route_remote_addr rt' = None ->
  sessions (state (dispatch d from w)) = alter (try_send (d, from)) owner (sessions (state w)) /\
  routes (claim id addr w) = routes w /\
  routes (claim id addr (drop_route owner (claim id addr w))) !! id
  = Some {| route_ufrag := route_ufrag rt'; route_remote_addr := Some addr |}.
Proof.
  intros w Hrt Ha Hfrom Hrt' Hnone.
  pose proof (shared_inv_after inputs) as Hinv. fold w in Hinv. pose proof Hinv as [Hr Hs Hn Hc Ht].
  destruct (route_remote_addr rt) as [a|] eqn:Ea; [|done]. apply (inj Some) in Ha.
  pose proof (Hc _ _ _ Hrt Ea) as Hb. rewrite Ha in Hb.
  assert (owner <> id) as Hne by congruence.
  assert (claim id addr w = set_router (router (state w)) w) as Hcl.
  { unfold claim. rewrite Hrt'. destruct rt' as [u [b|]]; [done|]. unfold router_claim_addr, claim_addr.
    rewrite Hb. cbn. by rewrite (proj2 (Z.eqb_neq owner id)). }
  split_and!.
  - apply map_eq. intros i. rewrite dispatch_lookup. unfold router_route, route. rewrite Hfrom, Hb.
    destruct (decide (i = owner)) as [->|]; [rewrite lookup_alter_eq, decide_True by (by left); reflexivity|].
    rewrite lookup_alter_ne by done. rewrite decide_False; [done|]. by rewrite list_elem_of_singleton.
  - by rewrite Hcl.
  - rewrite Hcl. apply claim_succeeds; [|done|].
    + unfold drop_route. cbn. rewrite Hrt. cbn. by rewrite lookup_delete_ne.
    + unfold drop_route. cbn. rewrite Hrt, Ea. cbn. rewrite decide_True by by rewrite Ha.
      rewrite Ha. by rewrite lookup_delete_eq.
Qed.
End shared.

(** ** A concrete socket *)

#[local] Instance toy_stun : Stun := {|
  is_stun_message d := match d with x00 :: _ => true | _ => false end;
  stun_username d := match d with x00 :: u => Some u | _ => None end;
|}.

Definition peer : SocketAddr := socket_addr_new (V4 10 0 0 1) 1.
Definition mapped_peer : SocketAddr := socket_addr_new (V6 0 0 0 0 0 0xffff 0x0a00 1) 1.

Definition sample_run : list SharedInput :=
  [Opened (str "first"); Opened (str "second"); Sent 1 peer; Claimed 0 peer; Claimed 1 mapped_peer].

Lemma shared_claim_retried_witness :
  routes (claim 1 peer (drop_route 0 (claim 1 peer (shared_after sample_run)))) !! 1
  = Some {| route_ufrag := str "second"; route_remote_addr := Some peer |}.
Proof.
  refine (proj2 (proj2 (shared_claim_retried sample_run 0
    {| route_ufrag := str "first"; route_remote_addr := Some peer |} peer [] mapped_peer 1
    {| route_ufrag := str "second"; route_remote_addr := None |} _ _ _ _ _)));
    vm_compute; reflexivity.
Defined.

(** A STUN reply reaches the second route, which sent to the peer and has no
    address yet, when the first has not claimed the peer. *)
Lemma shared_routing_exclusive_witness :
  exists rt, routes (shared_after [Opened (str "a"); Opened (str "b"); Sent 1 mapped_peer]) !! 1 = Some rt.
Proof.
  destruct (shared_routing_exclusive [Opened (str "a"); Opened (str "b"); Sent 1 mapped_peer]
    [x00; x01] peer 1 [] [([x00; x01], peer)]) as (_ & rt & Hrt & _);
    [vm_compute; reflexivity|vm_compute; reflexivity|done|]. by exists rt.
Defined.
