(* ===== verification/Pool.v ===== *)
(** * Pool: the sessions behind one socket, driven by a thread
    ([bevy-nethernet/src/connection.rs])

    The body of the thread's loop in its parts: one datagram, one command, one
    pass over the sessions.  The clock readings of the loop, the datagram that
    arrived, the commands that were waiting and the order in which the hash map
    is traversed are arguments.  A panic of a connection ends the thread
    ([Panic]); so do a closed command queue and a closed event queue, which are
    not modelled. *)
From S2P Require Import Prelude Text Errors SignalMsg Endpoint Router Discovery Identity Webrtc.
From S2P Require Import Framing Transports Sans Session Connection.

Definition COMMAND_POLL_INTERVAL : Duration := millis 10.
Definition MAX_IDLE : Duration := secs 1.
Definition RTT_REPORT_INTERVAL : Duration := secs 1.

Inductive ConnectionEvent :=
| EvReady (addr : option SocketAddr)
| EvRtt (rtt : Duration)
| EvMessage (channel : Channel) (data : bytes)
| EvFailed.

#[global] Instance ConnectionEvent_eq_dec : EqDecision ConnectionEvent.
Proof. solve_decision. Defined.

Section pool.
Context {K : Type} `{Countable K} `{Stun}.
Context {crypto : CryptoOps} {sdp : Sdp} {cand : IceCandidate} {cert : CertificateOps}
  {iceops : IceOps} {dtlsops : DtlsOps} {sctpops : SctpOps} {dcepops : DcepOps}.

Inductive Command :=
| Add (id : K) (connection : Connection) (ufrag : bytes)
| CmdSignal (id : K) (signal : Signal)
| CmdSend (id : K) (channel : Channel) (data : bytes)
| Remove (id : K).

Record Entry := {
  connection : Connection;
  entry_ufrag : bytes;
  entry_addr : option SocketAddr;
  wait : Instant;
  reported_rtt : option Duration;
  rtt_reported_at : option Instant;
}.

Definition set_connection (c : Connection) (e : Entry) : Entry :=
  {| connection := c; entry_ufrag := entry_ufrag e; entry_addr := entry_addr e; wait := wait e;
     reported_rtt := reported_rtt e; rtt_reported_at := rtt_reported_at e |}.
Definition set_entry_addr (a : option SocketAddr) (e : Entry) : Entry :=
  {| connection := connection e; entry_ufrag := entry_ufrag e; entry_addr := a; wait := wait e;
     reported_rtt := reported_rtt e; rtt_reported_at := rtt_reported_at e |}.
Definition set_wait (t : Instant) (e : Entry) : Entry :=
  {| connection := connection e; entry_ufrag := entry_ufrag e; entry_addr := entry_addr e; wait := t;
     reported_rtt := reported_rtt e; rtt_reported_at := rtt_reported_at e |}.
Definition set_reported (rtt : Duration) (at_ : Instant) (e : Entry) : Entry :=
  {| connection := connection e; entry_ufrag := entry_ufrag e; entry_addr := entry_addr e;
     wait := wait e; reported_rtt := Some rtt; rtt_reported_at := Some at_ |}.

Record Pool := { entries : gmap K Entry; router : Router K }.

Definition pool_new : Pool := {| entries := ∅; router := router_default |}.

Definition set_entry (id : K) (e : Entry) (p : Pool) : Pool :=
  {| entries := <[id := e]> (entries p); router := router p |}.
Definition set_router (r : Router K) (p : Pool) : Pool := {| entries := entries p; router := r |}.

(** How long the thread waits for a datagram. *)
Definition next_timeout (now : Instant) (p : Pool) : Duration :=
  let next_wait :=
    match (fun e => saturating_duration_since (wait e) now) <$> (map_to_list (entries p)).*2 with
    | [] => MAX_IDLE
    | w :: ws => fold_left Z.min ws w
    end in
  Z.max (Z.min next_wait COMMAND_POLL_INTERVAL) (millis 1).

(** [connection.handle], an error only logged. *)
Definition feed (i : ConnectionInput) (e : Entry) : Res unit Entry :=
  match handle i (connection e) with
  | (Panic, _) => Panic
  | (_, c) => Ok (set_connection c e)
  end.

Definition feed_at (id : K) (i : ConnectionInput) (p : Pool) : Res unit Pool :=
  match entries p !! id with
  | Some e => e ← feed i e; Ok (set_entry id e p)
  | None => Ok p
  end.

(** A datagram; the clock is read for each session it is routed to. *)
Fixpoint deliver (d : bytes) (from : SocketAddr) (now : K -> Instant) (ids : list K) (p : Pool)
    : Res unit Pool :=
  match ids with
  | [] => Ok p
  | id :: ids => p ← feed_at id (CPacket d from (now id)) p; deliver d from now ids p
  end.

Definition receive (d : bytes) (from : SocketAddr) (now : K -> Instant) (p : Pool) : Res unit Pool :=
  deliver d from now (route from d (router p)) p.

Definition remove (id : K) (p : Pool) : Pool :=
  match entries p !! id with
  | Some e => {| entries := delete id (entries p);
                 router := release id (entry_ufrag e) (entry_addr e) (router p) |}
  | None => p
  end.

(** A command; [clock] is read when a session is added. *)
Definition command (now clock : Instant) (c : Command) (p : Pool) : Res unit Pool :=
  match c with
  | Add id conn u =>
      Ok {| entries := <[id := {| connection := conn; entry_ufrag := u; entry_addr := None;
                                  wait := clock; reported_rtt := None; rtt_reported_at := None |}]>
                         (entries p);
            router := register_ufrag u id (router p) |}
  | Remove id => Ok (remove id p)
  | CmdSignal id signal => feed_at id (CSignal signal now) p
  | CmdSend id channel data => feed_at id (CSend channel data now) p
  end.

(** What a pass over the sessions does to the world; each datagram is listed with
    the session it is sent for. *)
Record Effects := {
  sent : list (K * (bytes * SocketAddr));
  reported : list (K * ConnectionEvent);
  failed : list K;
}.

Definition no_effects : Effects := {| sent := []; reported := []; failed := [] |}.
Definition push_sent (id : K) (m : bytes * SocketAddr) (fx : Effects) : Effects :=
  {| sent := sent fx ++ [(id, m)]; reported := reported fx; failed := failed fx |}.
Definition push_event (id : K) (ev : ConnectionEvent) (fx : Effects) : Effects :=
  {| sent := sent fx; reported := reported fx ++ [(id, ev)]; failed := failed fx |}.
Definition push_failed (id : K) (fx : Effects) : Effects :=
  {| sent := sent fx; reported := reported fx; failed := failed fx ++ [id] |}.

(** The address of the selected pair, once there is one. *)
Definition claim_selected (id : K) (e : Entry) (r : Router K) : Entry * Router K :=
  match entry_addr e, connection_remote_addr (connection e) with
  | None, Some addr => (set_entry_addr (Some addr) e, claim_addr addr id r)
  | _, _ => (e, r)
  end.

Definition handle_output (id : K) (now : Instant) (o : SessionOutput) (e : Entry) (r : Router K)
    (fx : Effects) : Entry * Router K * Effects :=
  match o with
  | OSend data to =>
      (e, if decide (entry_addr e = None) then note_sent to id r else r, push_sent id (data, to) fx)
  | OEvent Ready => (e, r, push_event id (EvReady (connection_remote_addr (connection e))) fx)
  | OEvent Failed => (e, r, push_failed id fx)
  | OMessage channel data => (e, r, push_event id (EvMessage channel data) fx)
  | OWait d => (set_wait (now + d) e, r, fx)
  end.

(** [while let Some(output) = entry.connection.poll()]. *)
Fixpoint poll_loop (fuel : nat) (id : K) (now : Instant) (e : Entry) (r : Router K) (fx : Effects)
    : Res unit (Entry * Router K * Effects) :=
  match fuel with
  | O => Panic
  | S fuel =>
      match poll (connection e) with
      | (None, c) => Ok (set_connection c e, r, fx)
      | (Some o, c) =>
          let '(e, r, fx) := handle_output id now o (set_connection c e) r fx in
          poll_loop fuel id now e r fx
      end
  end.

Definition rtt_due (now : Instant) (e : Entry) (rtt : Duration) : bool :=
  negb (bool_decide (reported_rtt e = Some rtt))
  && match rtt_reported_at e with
     | None => true
     | Some at_ => RTT_REPORT_INTERVAL <=? saturating_duration_since now at_
     end.

Definition report_rtt (id : K) (now : Instant) (e : Entry) (fx : Effects) : Entry * Effects :=
  match connection_rtt (connection e) with
  | Some rtt =>
      if rtt_due now e rtt
      then (set_reported rtt now e, push_event id (EvRtt rtt) fx)
      else (e, fx)
  | None => (e, fx)
  end.

Definition tick_one (id : K) (now : Instant) (p : Pool) (fx : Effects) : Res unit (Pool * Effects) :=
  match entries p !! id with
  | None => Ok (p, fx)
  | Some e =>
      e ← feed (CTimeout now) e;
      let '(e, r) := claim_selected id e (router p) in
      '(e, r, fx) ← poll_loop (S (length (output (c_session (connection e))))) id now e r fx;
      let '(e, fx) := report_rtt id now e fx in
      Ok ({| entries := <[id := e]> (entries p); router := r |}, fx)
  end.

(** The pass over the sessions in the order the map yields them. *)
Fixpoint tick_each (order : list K) (now : Instant) (p : Pool) (fx : Effects)
    : Res unit (Pool * Effects) :=
  match order with
  | [] => Ok (p, fx)
  | id :: order => '(p, fx) ← tick_one id now p fx; tick_each order now p fx
  end.

Fixpoint remove_failed (ids : list K) (p : Pool) (fx : Effects) : Pool * Effects :=
  match ids with
  | [] => (p, fx)
  | id :: ids => remove_failed ids (remove id p) (push_event id EvFailed fx)
  end.

Definition tick (order : list K) (now : Instant) (p : Pool) : Res unit (Pool * Effects) :=
  '(p, fx) ← tick_each order now p no_effects;
  Ok (remove_failed (failed fx) p fx).

Fixpoint run_commands (start : Instant) (commands : list (Command * Instant)) (p : Pool)
    : Res unit Pool :=
  match commands with
  | [] => Ok p
  | (c, clock) :: commands => p ← command start clock c p; run_commands start commands p
  end.

(** One round of the thread's loop. *)
Definition drive_round (datagram : option (bytes * SocketAddr)) (rx_now : K -> Instant)
    (start : Instant) (commands : list (Command * Instant)) (now : Instant) (order : list K) (p : Pool)
    : Res unit (Pool * Effects) :=
  p ← match datagram with Some (d, from) => receive d from rx_now p | None => Ok p end;
  p ← run_commands start commands p;
  tick order now p.

(** ** The routing table and the sessions *)

Definition owner_of (e : Entry) : Owner := {| owner_ufrag := entry_ufrag e; owner_addr := entry_addr e |}.

Definition pool_ok (p : Pool) : Prop := router_ok (owner_of <$> entries p) (router p).

(** A command the front ends send: a session is added under a new id. *)
Definition fresh (c : Command) (p : Pool) : Prop :=
  match c with Add id _ _ => entries p !! id = None | _ => True end.

(** The parts of a round, in any order. *)
Inductive pool_step : Pool -> Pool -> Prop :=
| step_receive d from now p p' : receive d from now p = Ok p' -> pool_step p p'
| step_command now clock c p p' : fresh c p -> command now clock c p = Ok p' -> pool_step p p'
| step_tick order now p p' fx : tick order now p = Ok (p', fx) -> pool_step p p'.

Definition pool_reachable : Pool -> Prop := rtc pool_step pool_new.

(** The same with the record of the sessions added and the datagrams sent. *)
Definition added (c : Command) : list (Happened K) :=
  match c with Add id _ _ => [Added id] | _ => [] end.

Definition sends (fx : Effects) : list (Happened K) :=
  (fun '(id, (_, to)) => SentTo id to) <$> sent fx.

Inductive pool_history : list (Happened K) -> Pool -> Prop :=
| history_new : pool_history [] pool_new
| history_receive log d from now p p' :
    pool_history log p -> receive d from now p = Ok p' -> pool_history log p'
| history_command log now clock c p p' :
    pool_history log p -> fresh c p -> command now clock c p = Ok p' -> pool_history (log ++ added c) p'
| history_tick log order now p p' fx :
    pool_history log p -> tick order now p = Ok (p', fx) -> pool_history (log ++ sends fx) p'.

Lemma pool_history_reachable p : pool_reachable p <-> exists log, pool_history log p.
Proof.
  split.
  - intros Hr. unfold pool_reachable in Hr.
    eapply (rtc_ind_r (fun p => exists log, pool_history log p) pool_new); [exists []; constructor| |exact Hr].
    intros p1 p2 _ [d from now q q' Hr'|now clock c q q' Hf Hc|order now q q' fx Ht] [log Hh]; eexists.
    + by eapply history_receive.
    + by eapply history_command.
    + by eapply history_tick.
  - intros [log Hh]. induction Hh as [|log d from now q q' _ IH Hr|log now clock c q q' _ IH Hf Hc|
      log order now q q' fx _ IH Ht]; [constructor|..]; (eapply rtc_r; [exact IH|]).
    + by eapply step_receive.
    + by eapply step_command.
    + by eapply step_tick.
Qed.

Lemma feed_owner i e e' : feed i e = Ok e' -> owner_of e' = owner_of e.
Proof. unfold feed. destruct (handle i (connection e)) as [[] c]; intros [= <-]; done. Qed.

Lemma owners_insert_same (m : gmap K Entry) id e e' :
  m !! id = Some e -> owner_of e' = owner_of e -> owner_of <$> <[id := e']> m = owner_of <$> m.
Proof. intros E Ho. rewrite fmap_insert, Ho. apply insert_id. by rewrite lookup_fmap, E. Qed.

Lemma feed_at_router id i p p' :
  feed_at id i p = Ok p' ->
  router p' = router p /\ owner_of <$> entries p' = owner_of <$> entries p.
Proof.
  unfold feed_at. destruct (entries p !! id) as [e|] eqn:E; [|by intros <-%Ok_inj].
  intros (e' & He & <-%Ok_inj)%res_bind_inv. split; [done|].
  eapply owners_insert_same; [done|by eapply feed_owner].
Qed.

Lemma deliver_router d from now ids : forall p p',
  deliver d from now ids p = Ok p' ->
  router p' = router p /\ owner_of <$> entries p' = owner_of <$> entries p.
Proof.
  induction ids as [|id ids IH]; intros p p'; cbn; [by intros <-%Ok_inj|].
  intros (p1 & H1 & H2)%res_bind_inv. apply IH in H2 as [-> ->]. by eapply feed_at_router.
Qed.

Lemma remove_ok id p : pool_ok p -> pool_ok (remove id p).
Proof.
  unfold pool_ok, remove. intros Hok. destruct (entries p !! id) as [e|] eqn:E; [|done]. cbn.
  rewrite fmap_delete. apply (router_ok_release _ _ id (owner_of e)); [|done].
  by rewrite lookup_fmap, E.
Qed.

(** ** One session in a pass *)

(** The table while the session [id] is out of the map as [e]. *)
Definition held_ok (p : Pool) (id : K) (e : Entry) (r : Router K) : Prop :=
  router_ok (<[id := owner_of e]> (owner_of <$> entries p)) r.

Lemma claim_selected_ok p id e r :
  held_ok p id e r ->
  held_ok p id (claim_selected id e r).1 (claim_selected id e r).2 /\
  by_addr r ⊆ by_addr (claim_selected id e r).2.
Proof.
  intros Hok. unfold claim_selected. destruct (entry_addr e) as [a|] eqn:Ea; [done|].
  destruct (connection_remote_addr (connection e)) as [addr|]; [|done]. split; cbn.
  - unfold held_ok in *.
    pose proof (router_ok_claim _ _ addr id (owner_of e) (lookup_insert_eq _ _ _) Ea Hok) as H'.
    by rewrite insert_insert_eq in H'.
  - unfold claim_addr. destruct (by_addr r !! addr) eqn:E; [done|]. by apply insert_subseteq.
Qed.

Lemma handle_output_ok p id now o e r fx e' r' fx' :
  handle_output id now o e r fx = (e', r', fx') -> held_ok p id e r ->
  held_ok p id e' r' /\ by_addr r' = by_addr r.
Proof.
  intros Hh Hok. destruct o as [data to|[]|ch data|d]; cbn in Hh; simplify_eq; try done.
  case_decide; [|done]. split; [|done]. apply router_ok_note_sent; [|done].
  rewrite lookup_insert_eq. by eexists.
Qed.

Lemma poll_loop_ok p fuel : forall id now e r fx e' r' fx',
  poll_loop fuel id now e r fx = Ok (e', r', fx') -> held_ok p id e r ->
  held_ok p id e' r' /\ by_addr r' = by_addr r.
Proof.
  induction fuel as [|fuel IH]; intros id now e r fx e' r' fx'; cbn [poll_loop]; [done|].
  destruct (poll (connection e)) as [[o|] c]; [|by intros [= <- <- <-]].
  destruct (handle_output id now o (set_connection c e) r fx) as [[e1 r1] fx1] eqn:E.
  intros Hl Hok. eapply (handle_output_ok p) in E as [Hok1 <-]; [|done]. by eapply IH.
Qed.

Lemma report_rtt_owner id now e fx : owner_of (report_rtt id now e fx).1 = owner_of e.
Proof. unfold report_rtt. destruct (connection_rtt _); [|done]. by case_match. Qed.

Lemma tick_one_ok id now p fx p' fx' :
  tick_one id now p fx = Ok (p', fx') ->
  (pool_ok p -> pool_ok p') /\ (pool_ok p -> by_addr (router p) ⊆ by_addr (router p')) /\
  dom (entries p') = dom (entries p).
Proof.
  unfold tick_one. destruct (entries p !! id) as [e|] eqn:E; [|by intros [= <- <-]].
  intros (e1 & H1 & Hb)%res_bind_inv.
  assert (pool_ok p -> held_ok p id e1 (router p)) as Hheld.
  { unfold held_ok, pool_ok. rewrite (feed_owner _ _ _ H1), insert_id; [done|]. by rewrite lookup_fmap, E. }
  pose proof (claim_selected_ok p id e1 (router p)) as Hc.
  destruct (claim_selected id e1 (router p)) as [e2 r2]. cbn in Hc.
  apply res_bind_inv in Hb as ([[e3 r3] fx3] & H3 & Hb).
  pose proof (report_rtt_owner id now e3 fx3) as Ho.
  destruct (report_rtt id now e3 fx3) as [e4 fx4]. injection Hb as <- <-. cbn [fst snd entries router] in *.
  split_and!.
  - intros [Hok _]%Hheld%Hc. apply (poll_loop_ok p) in H3 as [Hok3 _]; [|done].
    unfold pool_ok. cbn [entries router]. by rewrite fmap_insert, Ho.
  - intros [Hok Hsub]%Hheld%Hc. apply (poll_loop_ok p) in H3 as [_ ->]; done.
  - rewrite dom_insert_L. apply elem_of_dom_2 in E. set_solver.
Qed.

Lemma tick_each_ok order : forall now p fx p' fx',
  tick_each order now p fx = Ok (p', fx') ->
  (pool_ok p -> pool_ok p') /\ (pool_ok p -> by_addr (router p) ⊆ by_addr (router p')) /\
  dom (entries p') = dom (entries p).
Proof.
  induction order as [|id order IH]; intros now p fx p' fx'; cbn; [by intros [= <- <-]|].
  intros ([p1 fx1] & (H1 & H2 & H3)%tick_one_ok & (H4 & H5 & H6)%IH)%res_bind_inv.
  split_and!; [auto| |congruence]. intros Hok. etrans; [by apply H2|by apply H5, H1].
Qed.

Lemma remove_failed_ok ids : forall p fx,
  (pool_ok p -> pool_ok (remove_failed ids p fx).1).
Proof. induction ids as [|id ids IH]; intros p fx Hok; cbn; [done|]. by apply IH, remove_ok. Qed.

Lemma pool_step_ok p p' : pool_step p p' -> pool_ok p -> pool_ok p'.
Proof.
  intros [d from now p1 p2 [Hr Ho]%deliver_router|now clock c p1 p2 Hf Hc|order now p1 p2 fx Ht] Hok.
  - unfold pool_ok. by rewrite Hr, Ho.
  - destruct c as [id conn u|id g|id ch d|id]; cbn in Hc.
    + apply Ok_inj in Hc as <-. unfold pool_ok. cbn. rewrite fmap_insert.
      apply (router_ok_register _ _ u); [|done]. cbn in Hf. by rewrite lookup_fmap, Hf.
    + apply feed_at_router in Hc as [Hr Ho]. unfold pool_ok. by rewrite Hr, Ho.
    + apply feed_at_router in Hc as [Hr Ho]. unfold pool_ok. by rewrite Hr, Ho.
    + apply Ok_inj in Hc as <-. by apply remove_ok.
  - apply res_bind_inv in Ht as ([p3 fx3] & (H1 & _ & _)%tick_each_ok & Hr).
    apply Ok_inj in Hr. replace p2 with (remove_failed (failed fx3) p3 fx3).1 by (by rewrite Hr).
    by apply remove_failed_ok, H1.
Qed.

Lemma pool_reachable_ok p : pool_reachable p -> pool_ok p.
Proof.
  unfold pool_reachable. intros Hr. cut (pool_ok pool_new).
  - induction Hr as [|p1 p2 p3 Hstep _ IH]; [done|]. intros ?%(pool_step_ok _ _ Hstep). auto.
  - unfold pool_ok. cbn. rewrite fmap_empty. apply router_default_ok.
Qed.

Lemma remove_by_addr id p a i :
  pool_ok p -> by_addr (router p) !! a = Some i -> is_Some (entries (remove id p) !! i) ->
  by_addr (router (remove id p)) !! a = Some i.
Proof.
  intros Hok Ha. unfold remove. destruct (entries p !! id) as [e|] eqn:E; [|done]. cbn.
  intros [Hne _]%lookup_delete_is_Some. apply release_addr_Some. split; [done|]. intros [_ ?]. congruence.
Qed.

Lemma remove_dom id p i : is_Some (entries (remove id p) !! i) -> is_Some (entries p !! i).
Proof.
  unfold remove. destruct (entries p !! id); [|done]. cbn. by intros [_ ?]%lookup_delete_is_Some.
Qed.

Lemma remove_failed_dom ids : forall p fx i,
  is_Some (entries (remove_failed ids p fx).1 !! i) -> is_Some (entries p !! i).
Proof. induction ids as [|id ids IH]; intros p fx i; cbn; [done|]. intros ?%IH. by eapply remove_dom. Qed.

Lemma remove_failed_by_addr ids : forall p fx a i,
  pool_ok p -> by_addr (router p) !! a = Some i ->
  is_Some (entries (remove_failed ids p fx).1 !! i) ->
  by_addr (router (remove_failed ids p fx).1) !! a = Some i.
Proof.
  induction ids as [|id ids IH]; intros p fx a i Hok Ha; cbn; [done|]. intros Hi.
  apply IH; [by apply remove_ok| |done]. apply remove_by_addr; [done..|].
  by eapply remove_failed_dom.
Qed.

Lemma tick_keeps_addr order now p p' fx a id :
  tick order now p = Ok (p', fx) -> pool_ok p -> by_addr (router p) !! a = Some id ->
  is_Some (entries p' !! id) -> by_addr (router p') !! a = Some id.
Proof.
  intros Ht Hok Ha. apply res_bind_inv in Ht as ([p1 fx1] & (H1 & H2 & _)%tick_each_ok & Hr).
  apply Ok_inj in Hr. replace p' with (remove_failed (failed fx1) p1 fx1).1 by (by rewrite Hr).
  apply remove_failed_by_addr; [by apply H1|]. by eapply lookup_weaken, H2.
Qed.

(** ** The sends of a pass *)

Definition owners (p : Pool) : gmap K Owner := owner_of <$> entries p.

Lemma sends_push id m fx : sends (push_sent id m fx) = sends fx ++ [SentTo id m.2].
Proof. unfold sends. cbn. rewrite fmap_app. cbn. by destruct m. Qed.

Lemma claim_selected_sent m id e r log :
  sent_ok (<[id := owner_of e]> m) log r ->
  sent_ok (<[id := owner_of (claim_selected id e r).1]> m) log (claim_selected id e r).2.
Proof.
  unfold claim_selected. destruct (entry_addr e) as [a|] eqn:Ea; [done|].
  destruct (connection_remote_addr (connection e)) as [addr|]; [|done].
  apply sent_ok_claim; [|unfold claim_addr; cbn; by destruct (by_addr r !! addr)].
  intros i o [[<- <-]|[Hne Ho]]%lookup_insert_Some; [done|]. exists o. by rewrite lookup_insert_ne.
Qed.

Lemma handle_output_sent m id now o e r fx e' r' fx' log :
  handle_output id now o e r fx = (e', r', fx') ->
  sent_ok (<[id := owner_of e]> m) (log ++ sends fx) r ->
  sent_ok (<[id := owner_of e']> m) (log ++ sends fx') r'.
Proof.
  intros Hh Hs. destruct o as [data to|[]|ch data|d]; cbn in Hh; simplify_eq; try done.
  rewrite sends_push, app_assoc. cbn. case_decide as Ed; [by apply sent_ok_note_sent|].
  eapply sent_ok_sent; [apply lookup_insert_eq|done|done].
Qed.

Lemma poll_loop_sent m log fuel : forall id now e r fx e' r' fx',
  poll_loop fuel id now e r fx = Ok (e', r', fx') ->
  sent_ok (<[id := owner_of e]> m) (log ++ sends fx) r ->
  sent_ok (<[id := owner_of e']> m) (log ++ sends fx') r'.
Proof.
  induction fuel as [|fuel IH]; intros id now e r fx e' r' fx'; cbn [poll_loop]; [done|].
  destruct (poll (connection e)) as [[o|] c]; [|by intros [= <- <- <-]].
  destruct (handle_output id now o (set_connection c e) r fx) as [[e1 r1] fx1] eqn:E.
  intros Hl Hs. eapply IH; [exact Hl|]. by eapply handle_output_sent.
Qed.

Lemma report_rtt_sends id now e fx : sends (report_rtt id now e fx).2 = sends fx.
Proof. unfold report_rtt. destruct (connection_rtt _); [|done]. by case_match. Qed.

Lemma tick_one_sent log id now p fx p' fx' :
  tick_one id now p fx = Ok (p', fx') ->
  sent_ok (owners p) (log ++ sends fx) (router p) -> sent_ok (owners p') (log ++ sends fx') (router p').
Proof.
  unfold tick_one. destruct (entries p !! id) as [e|] eqn:E; [|by intros [= <- <-]].
  intros (e1 & H1%feed_owner & Hb)%res_bind_inv Hs.
  assert (sent_ok (<[id := owner_of e1]> (owners p)) (log ++ sends fx) (router p)) as Hs1.
  { rewrite H1, insert_id; [done|]. unfold owners. by rewrite lookup_fmap, E. }
  apply claim_selected_sent in Hs1. destruct (claim_selected id e1 (router p)) as [e2 r2]. cbn [fst snd] in Hs1.
  apply res_bind_inv in Hb as ([[e3 r3] fx3] & H3 & Hb). eapply poll_loop_sent in Hs1; [|exact H3].
  pose proof (report_rtt_owner id now e3 fx3) as Ho. pose proof (report_rtt_sends id now e3 fx3) as Hf.
  destruct (report_rtt id now e3 fx3) as [e4 fx4]. injection Hb as <- <-. cbn [fst snd] in *.
  unfold owners. cbn [entries router]. by rewrite fmap_insert, Ho, Hf.
Qed.

Lemma tick_each_sent log order : forall now p fx p' fx',
  tick_each order now p fx = Ok (p', fx') ->
  sent_ok (owners p) (log ++ sends fx) (router p) -> sent_ok (owners p') (log ++ sends fx') (router p').
Proof.
  induction order as [|id order IH]; intros now p fx p' fx'; cbn; [by intros [= <- <-]|].
  intros ([p1 fx1] & H1 & H2)%res_bind_inv Hs. eapply IH; [exact H2|]. by eapply tick_one_sent.
Qed.

Lemma remove_sent id p log :
  sent_ok (owners p) log (router p) -> sent_ok (owners (remove id p)) log (router (remove id p)).
Proof.
  unfold remove, owners. destruct (entries p !! id) as [e|] eqn:E; [|done]. cbn.
  rewrite fmap_delete. apply sent_ok_release.
Qed.

Lemma remove_failed_sent ids : forall p fx log,
  sent_ok (owners p) log (router p) ->
  sent_ok (owners (remove_failed ids p fx).1) log (router (remove_failed ids p fx).1) /\
  sends (remove_failed ids p fx).2 = sends fx.
Proof.
  induction ids as [|id ids IH]; intros p fx log Hs; cbn; [done|].
  destruct (IH (remove id p) (push_event id EvFailed fx) log) as [H1 H2]; [by apply remove_sent|]. by split.
Qed.

(** The routing table against the record of what happened. *)
Lemma pool_history_ok log p :
  pool_history log p -> pool_ok p /\ sent_ok (owners p) log (router p).
Proof.
  induction 1 as [|log d from now p p' _ [Hok Hs] Hr|log now clock c p p' Hh [Hok Hs] Hf Hc|
    log order now p p' fx _ [Hok Hs] Ht].
  - split; unfold pool_ok, owners; cbn; rewrite fmap_empty; [apply router_default_ok|apply sent_ok_default].
  - split; [eapply pool_step_ok; [by eapply step_receive|done]|].
    apply deliver_router in Hr as [Hr Ho]. unfold owners in *. by rewrite Hr, Ho.
  - split; [eapply pool_step_ok; [by eapply step_command|done]|].
    destruct c as [id conn u|id g|id ch d|id]; cbn in Hc; cbn [added]; rewrite ?app_nil_r.
    + apply Ok_inj in Hc as <-. unfold owners. cbn. rewrite fmap_insert.
      apply sent_ok_register; [|done..]. cbn in Hf. by rewrite lookup_fmap, Hf.
    + apply feed_at_router in Hc as [Hr Ho]. unfold owners in *. by rewrite Hr, Ho.
    + apply feed_at_router in Hc as [Hr Ho]. unfold owners in *. by rewrite Hr, Ho.
    + apply Ok_inj in Hc as <-. by apply remove_sent.
  - split; [eapply pool_step_ok; [by eapply step_tick|done]|].
    apply res_bind_inv in Ht as ([p1 fx1] & H1 & Hr%Ok_inj).
    eapply (tick_each_sent log) in H1; [|unfold sends; cbn; by rewrite app_nil_r].
    destruct (remove_failed_sent (failed fx1) p1 fx1 _ H1) as [H2 H3]. rewrite Hr in H2, H3.
    cbn in H2, H3. by rewrite H3.
Qed.

(** C17: In every state the session thread can reach, with sessions added only
    under ids the pool does not hold, and given the record of what its sessions
    have sent: a datagram is routed only to sessions of the pool, to the one that
    has its source address, or, being STUN, to the one whose fragment it names or
    to those that have sent a datagram to that address since they were added;
    conversely, when no session has the source address or the fragment it names,
    a STUN datagram reaches every session that has sent there and has no address
    of its own yet; and an address routed to a session stays with it for as long
    as the session is in the pool, whatever any other session does. *)
Theorem pool_routing_sound log p :
  pool_history log p ->
  (forall d from id, id ∈ route from d (router p) ->
     exists e, entries p !! id = Some e /\
       (entry_addr e = Some from \/
        is_stun d = true /\ (local_ufrag d = Some (entry_ufrag e) \/ has_sent log id from))) /\
  (forall d from id e, entries p !! id = Some e -> entry_addr e = None -> has_sent log id from ->
     is_stun d = true ->
     (forall i e', entries p !! i = Some e' ->
        entry_addr e' <> Some from /\ local_ufrag d <> Some (entry_ufrag e')) ->
     id ∈ route from d (router p)) /\
  (forall p' a id, pool_step p p' -> by_addr (router p) !! a = Some id ->
     is_Some (entries p' !! id) -> by_addr (router p') !! a = Some id).
Proof.
  intros [Hok [Hs1 Hs2]]%pool_history_ok. split; [|split].
  - intros d from id (o & Ho & Hcase)%(route_sound _ _ _ _ _ Hok). rewrite lookup_fmap in Ho.
    destruct (entries p !! id) as [e|]; [|done]. injection Ho as <-. exists e. split; [done|].
    destruct Hcase as [?|(_ & ? & [?|(ids & Hids & Hin)])]; [by left|by right; auto|].
    right. split; [done|]. right. apply Hs1. unfold noted. by rewrite Hids.
  - intros d from id e He Ha Hsent Hstun Hnone. apply elem_of_route.
    destruct Hok as [Hoa Hou _]. destruct (by_addr (router p) !! from) as [i|] eqn:Eb.
    { destruct (Hoa _ _ Eb) as (o & Ho & Hf). rewrite lookup_fmap in Ho.
      destruct (entries p !! i) as [e'|] eqn:Ei; [|done]. injection Ho as <-. by destruct (Hnone i e' Ei). }
    split; [done|]. destruct (_ ≫= _) as [i|] eqn:Eu.
    { destruct (local_ufrag d) as [u|] eqn:El; [|done]. cbn in Eu.
      destruct (Hou _ _ Eu) as (o & Ho & Hf). rewrite lookup_fmap in Ho.
      destruct (entries p !! i) as [e'|] eqn:Ei; [|done]. injection Ho as <-. cbn in Hf.
      destruct (Hnone i e' Ei). congruence. }
    assert (noted (router p) from id) as Hn.
    { apply (Hs2 from id (owner_of e)); [unfold owners; by rewrite lookup_fmap, He|done|done]. }
    unfold noted in Hn. destruct (provisional (router p) !! from) as [ids|]; [eauto|by apply elem_of_empty in Hn].
  - intros p' a id Hs Ha Hid.
    destruct Hs as [d from now p1 p2 [Hr _]%deliver_router|now clock c p1 p2 Hf Hc|order now p1 p2 fx Ht].
    + by rewrite Hr.
    + destruct c as [i conn u|i g|i ch d|i]; cbn in Hc.
      * by apply Ok_inj in Hc as <-.
      * by apply feed_at_router in Hc as [-> _].
      * by apply feed_at_router in Hc as [-> _].
      * apply Ok_inj in Hc as <-. by apply remove_by_addr.
    + by eapply tick_keeps_addr.
Qed.

(** ** What a pass reports *)

(** The event an output becomes; a failure is reported after the pass. *)
Definition reported_of (addr : option SocketAddr) (o : SessionOutput) : option ConnectionEvent :=
  match o with
  | OEvent Ready => Some (EvReady addr)
  | OMessage channel data => Some (EvMessage channel data)
  | _ => None
  end.

Definition failure_of (o : SessionOutput) : option ConnectionEvent :=
  match o with OEvent Failed => Some EvFailed | _ => None end.

Definition sent_of (o : SessionOutput) : option (bytes * SocketAddr) :=
  match o with OSend data to => Some (data, to) | _ => None end.

(** The events of a session whose connection is [c] after its timeout. *)
Definition session_report (now : Instant) (e : Entry) (c : Connection) : list ConnectionEvent :=
  omap (reported_of (connection_remote_addr c)) (output (c_session c))
  ++ match connection_rtt c with
     | Some rtt => if rtt_due now e rtt then [EvRtt rtt] else []
     | None => []
     end.

(** The values under a key. *)
Definition pick {A} (id : K) (l : list (K * A)) : list A :=
  omap (fun '(i, a) => if decide (i = id) then Some a else None) l.

Lemma pick_app {A} id (l1 l2 : list (K * A)) : pick id (l1 ++ l2) = pick id l1 ++ pick id l2.
Proof. apply omap_app. Qed.

Lemma pick_own {A} id (l : list A) : pick id ((id,.) <$> l) = l.
Proof.
  unfold pick. induction l as [|a l IH]; [done|]. cbn. rewrite decide_True by done. f_equal. exact IH.
Qed.

Lemma pick_other {A} i id (l : list A) : i <> id -> pick id ((i,.) <$> l) = [].
Proof.
  intros Hne. unfold pick. induction l as [|a l IH]; [done|]. cbn. rewrite decide_False by done. exact IH.
Qed.

(** What stays of an entry while its outputs are handled. *)
Definition same_rtt (e e' : Entry) : Prop :=
  connection_rtt (connection e') = connection_rtt (connection e) /\
  reported_rtt e' = reported_rtt e /\ rtt_reported_at e' = rtt_reported_at e.

Lemma poll_loop_spec outs : forall id now e r fx,
  output (c_session (connection e)) = outs ->
  exists e' r' fx', poll_loop (S (length outs)) id now e r fx = Ok (e', r', fx') /\
    output (c_session (connection e')) = [] /\ same_rtt e e' /\
    reported fx' = reported fx ++ ((id,.) <$> omap (reported_of (connection_remote_addr (connection e))) outs) /\
    failed fx' = failed fx ++ ((fun _ => id) <$> omap failure_of outs) /\
    sent fx' = sent fx ++ ((id,.) <$> omap sent_of outs).
Proof.
  induction outs as [|o outs IH]; intros id now e r fx Ho; cbn [length poll_loop].
  { rewrite (poll_nil _ Ho). eexists _, _, _. split; [done|]. cbn. by rewrite !app_nil_r. }
  destruct (poll_cons _ _ _ Ho) as (c' & -> & Ho' & Ha & Hr).
  destruct (handle_output id now o (set_connection c' e) r fx) as [[e1 r1] fx1] eqn:Eh.
  assert (connection e1 = c' /\ reported_rtt e1 = reported_rtt e /\
    rtt_reported_at e1 = rtt_reported_at e /\
    reported fx1 = reported fx ++ ((id,.) <$> option_list (reported_of (connection_remote_addr (connection e)) o)) /\
    failed fx1 = failed fx ++ ((fun _ => id) <$> option_list (failure_of o)) /\
    sent fx1 = sent fx ++ ((id,.) <$> option_list (sent_of o))) as (Hc & Hr1 & Hr2 & Hrep & Hf & Hs).
  { destruct o as [data to|[]|ch data|d]; cbn in Eh; simplify_eq; cbn; rewrite ?app_nil_r, ?Ha; done. }
  destruct (IH id now e1 r1 fx1) as (e' & r' & fx' & Hl & Hout & (Hq1 & Hq2 & Hq3) & H1 & H2 & H3).
  { by rewrite Hc. }
  exists e', r', fx'. split; [exact Hl|]. split; [done|]. split.
  { split; [congruence|]. split; congruence. }
  rewrite H1, H2, H3, Hrep, Hf, Hs, Hc, Ha, <- !app_assoc. cbn [omap list_omap].
  split_and!; f_equal; [destruct (reported_of _ o)|destruct (failure_of o)|destruct (sent_of o)]; done.
Qed.

Lemma tick_one_spec id now p fx p' fx' :
  tick_one id now p fx = Ok (p', fx') ->
  (forall i, i <> id -> entries p' !! i = entries p !! i) /\
  match entries p !! id with
  | None => p' = p /\ fx' = fx
  | Some e =>
      exists r c e', handle (CTimeout now) (connection e) = (r, c) /\
        entries p' !! id = Some e' /\ output (c_session (connection e')) = [] /\
        reported fx' = reported fx ++ ((id,.) <$> session_report now e c) /\
        failed fx' = failed fx ++ ((fun _ => id) <$> omap failure_of (output (c_session c))) /\
        sent fx' = sent fx ++ ((id,.) <$> omap sent_of (output (c_session c)))
  end.
Proof.
  unfold tick_one. destruct (entries p !! id) as [e|] eqn:E; [|by intros [= <- <-]].
  intros (e1 & H1 & Hb)%res_bind_inv.
  assert (exists r, handle (CTimeout now) (connection e) = (r, connection e1) /\
    reported_rtt e1 = reported_rtt e /\ rtt_reported_at e1 = rtt_reported_at e) as (r & Hh & Hr1 & Hr2).
  { unfold feed in H1. destruct (handle (CTimeout now) (connection e)) as [r c].
    exists r. destruct r; try done; by injection H1 as <-. }
  assert (connection (claim_selected id e1 (router p)).1 = connection e1 /\
    reported_rtt (claim_selected id e1 (router p)).1 = reported_rtt e1 /\
    rtt_reported_at (claim_selected id e1 (router p)).1 = rtt_reported_at e1) as (Hc & Hc1 & Hc2).
  { unfold claim_selected. by repeat case_match. }
  destruct (claim_selected id e1 (router p)) as [e2 r2]. cbn [fst] in *.
  apply res_bind_inv in Hb as ([[e3 r3] fx3] & H3 & Hb).
  destruct (poll_loop_spec _ id now e2 r2 fx eq_refl) as (e3' & r3' & fx3' & Hl & Hout & (Hq1 & Hq2 & Hq3) & Hrep & Hf & Hs).
  rewrite Hl in H3. injection H3 as -> -> ->.
  destruct (report_rtt id now e3 fx3) as [e4 fx4] eqn:E4. injection Hb as <- <-.
  split; [intros i Hi; cbn [entries]; by rewrite lookup_insert_ne|].
  exists r, (connection e1), e4. split; [done|]. cbn [entries]. rewrite lookup_insert_eq. split; [done|].
  unfold session_report. rewrite Hc in *.
  assert (rtt_due now e3 = rtt_due now e) as Hdue by (unfold rtt_due; by rewrite Hq2, Hq3, Hc1, Hc2, Hr1, Hr2).
  unfold report_rtt in E4. rewrite Hq1, Hdue in E4.
  destruct (connection_rtt (connection e1)) as [rtt|]; [destruct (rtt_due now e rtt)|]; simplify_eq; cbn;
    rewrite ?app_nil_r; (split; [done|]); rewrite ?Hrep, ?fmap_app, ?app_assoc; done.
Qed.
(** The failures of a pass as they will be reported. *)
Definition failures (ids : list K) : list (K * ConnectionEvent) := (fun i => (i, EvFailed)) <$> ids.

Lemma failures_app l1 l2 : failures (l1 ++ l2) = failures l1 ++ failures l2.
Proof. apply fmap_app. Qed.

Lemma failures_own id (outs : list SessionOutput) :
  pick id (failures ((fun _ => id) <$> omap failure_of outs)) = omap failure_of outs.
Proof.
  unfold failures. rewrite <- list_fmap_compose.
  transitivity (pick id ((id,.) <$> omap failure_of outs)); [|apply pick_own]. f_equal.
  apply list_fmap_ext. intros k ev (o & Ho & Hev)%list_elem_of_lookup_2%list_elem_of_omap.
  cbn. by destruct o as [| [] | |]; simplify_eq/=.
Qed.

Lemma failures_other i id (outs : list ConnectionEvent) :
  i <> id -> pick id (failures ((fun _ => i) <$> outs)) = [].
Proof.
  intros Hne. unfold failures. rewrite <- list_fmap_compose.
  induction outs as [|o outs IH]; [done|]. cbn. by rewrite decide_False.
Qed.

Lemma tick_each_other order id : forall now p fx p' fx',
  id ∉ order -> tick_each order now p fx = Ok (p', fx') ->
  entries p' !! id = entries p !! id /\ pick id (reported fx') = pick id (reported fx) /\
  pick id (failures (failed fx')) = pick id (failures (failed fx)).
Proof.
  induction order as [|i order IH]; intros now p fx p' fx' Hin; cbn; [by intros [= <- <-]|].
  apply not_elem_of_cons in Hin as [Hne Hin].
  intros ([p1 fx1] & [Hframe Hspec]%tick_one_spec & (-> & -> & ->)%(IH _ _ _ _ _ Hin))%res_bind_inv.
  split; [by apply Hframe|]. destruct (entries p !! i) as [e|]; [|by destruct Hspec as [_ ->]].
  destruct Hspec as (r & c & e' & _ & _ & _ & -> & -> & _).
  rewrite failures_app, !pick_app.
  rewrite pick_other by done. rewrite (failures_other i id) by done. by rewrite !app_nil_r.
Qed.

Lemma tick_each_own order id e : forall now p fx p' fx',
  NoDup order -> id ∈ order -> entries p !! id = Some e ->
  tick_each order now p fx = Ok (p', fx') ->
  exists r c e', handle (CTimeout now) (connection e) = (r, c) /\
    entries p' !! id = Some e' /\ output (c_session (connection e')) = [] /\
    pick id (reported fx') = pick id (reported fx) ++ session_report now e c /\
    pick id (failures (failed fx')) = pick id (failures (failed fx)) ++ omap failure_of (output (c_session c)).
Proof.
  induction order as [|i order IH]; intros now p fx p' fx'; cbn; [by intros _ ?%elem_of_nil|].
  intros [Hi Hnd]%list.NoDup_cons Hin He ([p1 fx1] & [Hframe Hspec]%tick_one_spec & Hrest)%res_bind_inv.
  destruct (decide (i = id)) as [->|Hne].
  - rewrite He in Hspec. destruct Hspec as (r & c & e' & Hh & He' & Hout & Hrep & Hf & _).
    apply (tick_each_other order id) in Hrest as (-> & -> & ->); [|done].
    exists r, c, e'. do 3 (split; [done|]). rewrite Hrep, Hf.
    rewrite failures_app, !pick_app, pick_own.
    by rewrite failures_own.
  - apply elem_of_cons in Hin as [?|Hin]; [done|].
    destruct (IH now p1 fx1 p' fx' Hnd Hin) as (r & c & e' & Hh & He' & Hout & -> & ->);
      [rewrite Hframe; done|done|].
    exists r, c, e'. do 3 (split; [done|]).
    destruct (entries p !! i) as [e1|]; [|by destruct Hspec as [_ ->]].
    destruct Hspec as (r1 & c1 & e1' & _ & _ & _ & -> & -> & _).
    rewrite failures_app, !pick_app.
    rewrite pick_other by done. rewrite (failures_other i id) by done. by rewrite !app_nil_r.
Qed.

Lemma remove_failed_spec ids : forall p fx id,
  reported (remove_failed ids p fx).2 = reported fx ++ failures ids /\
  entries (remove_failed ids p fx).1 !! id = if decide (id ∈ ids) then None else entries p !! id.
Proof.
  induction ids as [|i ids IH]; intros p fx id; cbn; [by rewrite app_nil_r|].
  destruct (IH (remove i p) (push_event i EvFailed fx) id) as [-> ->].
  split; [cbn; by rewrite <- app_assoc|].
  assert (entries (remove i p) !! id = if decide (id = i) then None else entries p !! id) as ->.
  { unfold remove. destruct (entries p !! i) eqn:E; cbn; case_decide as Ed; subst;
      rewrite ?lookup_delete_eq, ?lookup_delete_ne by done; done. }
  repeat case_decide; set_solver.
Qed.

Lemma pick_failures_nil id ids : pick id (failures ids) = [] <-> id ∉ ids.
Proof.
  unfold pick, failures. induction ids as [|i ids IH]; cbn; [split; [by intros _ ?%elem_of_nil|done]|].
  rewrite not_elem_of_cons, <- IH. case_decide as E; [naive_solver|]. naive_solver.
Qed.

Lemma failure_of_nil (outs : list SessionOutput) :
  omap failure_of outs = [] <-> OEvent Failed ∉ outs.
Proof.
  induction outs as [|o outs IH]; cbn; [split; [by intros _ ?%elem_of_nil|done]|].
  rewrite not_elem_of_cons, <- IH. destruct o as [| [] | |]; cbn; naive_solver.
Qed.

(** C19: A pass over the pool reports, for each of its sessions, exactly the
    outputs that the session produced up to this timeout, in order and under its
    own id: a ready event with the address of the selected pair, each message,
    the round-trip time when it is due, and last the failures; and the session
    leaves the pool exactly when it has failed, with nothing left to poll
    otherwise. *)
Theorem pool_reports_exactly order now p p' fx id e :
  NoDup order -> id ∈ order -> entries p !! id = Some e -> tick order now p = Ok (p', fx) ->
  exists r c, handle (CTimeout now) (connection e) = (r, c) /\
    pick id (reported fx) = session_report now e c ++ omap failure_of (output (c_session c)) /\
    match entries p' !! id with
    | None => OEvent Failed ∈ output (c_session c)
    | Some e' => (OEvent Failed ∉ output (c_session c)) /\ output (c_session (connection e')) = []
    end.
Proof.
  intros Hnd Hin He Ht. apply res_bind_inv in Ht as ([p1 fx1] & Hl & Hr%Ok_inj).
  destruct (tick_each_own order id e now p no_effects p1 fx1 Hnd Hin He Hl)
    as (r & c & e' & Hh & He' & Hout & Hrep & Hf).
  destruct (remove_failed_spec (failed fx1) p1 fx1 id) as [Hrep' Hent]. rewrite Hr in Hrep', Hent. cbn in *.
  exists r, c. split; [done|]. split; [by rewrite Hrep', pick_app, Hrep, Hf|].
  assert (id ∈ failed fx1 <-> OEvent Failed ∈ output (c_session c)) as Hfail.
  { pose proof (failure_of_nil (output (c_session c))) as Ho. rewrite <- Hf, pick_failures_nil in Ho.
    destruct (decide (id ∈ failed fx1)); destruct (decide (OEvent Failed ∈ output (c_session c)));
      naive_solver. }
  rewrite Hent, He'. case_decide as Ed; [by apply Hfail|]. by rewrite <- Hfail.
Qed.

(** ** A claim that comes too late *)

Lemma poll_loop_addr fuel : forall id now e r fx e' r' fx',
  poll_loop fuel id now e r fx = Ok (e', r', fx') -> entry_addr e' = entry_addr e /\ by_addr r' = by_addr r.
Proof.
  induction fuel as [|fuel IH]; intros id now e r fx e' r' fx'; cbn [poll_loop]; [done|].
  destruct (poll (connection e)) as [[o|] c]; [|by intros [= <- <- <-]].
  destruct (handle_output id now o (set_connection c e) r fx) as [[e1 r1] fx1] eqn:E.
  intros [-> ->]%IH. destruct o as [data to|[]|ch data|d]; cbn in E; simplify_eq; try done.
  by case_decide.
Qed.

(** The session takes [a] for its own, and the table gives it to another or to nobody. *)
Definition lost (id : K) (a : SocketAddr) (p : Pool) : Prop :=
  (exists e, entries p !! id = Some e /\ entry_addr e = Some a) /\ by_addr (router p) !! a <> Some id.

Lemma tick_one_lost i now p fx p' fx' id a :
  tick_one i now p fx = Ok (p', fx') -> lost id a p -> lost id a p'.
Proof.
  unfold tick_one. destruct (entries p !! i) as [e|] eqn:E; [|by intros [= <- <-]].
  intros (e1 & H1%feed_owner & Hb)%res_bind_inv ((e0 & He0 & Ha0) & Hn).
  destruct (claim_selected i e1 (router p)) as [e2 r2] eqn:Ec.
  apply res_bind_inv in Hb as ([[e3 r3] fx3] & [Ha3 Hr3]%poll_loop_addr & Hb).
  pose proof (report_rtt_owner i now e3 fx3) as Ho. destruct (report_rtt i now e3 fx3) as [e4 fx4].
  injection Hb as <- <-. cbn [fst] in Ho. injection Ho as _ Ho. injection H1 as _ H1.
  unfold lost. cbn [entries router]. rewrite Hr3. unfold claim_selected in Ec.
  destruct (decide (i = id)) as [->|Hne].
  - rewrite E in He0. injection He0 as <-. rewrite H1, Ha0 in Ec. injection Ec as <- <-.
    rewrite lookup_insert_eq. split; [|done]. exists e4. split; [done|congruence].
  - rewrite lookup_insert_ne by done. split; [eauto|].
    destruct (entry_addr e1); [by injection Ec as <- <-|].
    destruct (connection_remote_addr (connection e1)) as [b|]; [|by injection Ec as <- <-].
    injection Ec as <- <-. unfold claim_addr. destruct (by_addr (router p) !! b); [done|]. cbn.
    intros [[_ ?]|[_ ?]]%lookup_insert_Some; done.
Qed.

(** A session that has taken an address held by another does not try its claim
    again, in contrast to the other crate ([shared_claim_retried]): no later pass
    makes it the owner, so that datagrams other than STUN from that address reach
    nobody once the owner is gone. *)
Lemma lost_claim_is_final order now p p' fx id a :
  tick order now p = Ok (p', fx) -> lost id a p -> by_addr (router p') !! a <> Some id.
Proof.
  intros Ht Hl. apply res_bind_inv in Ht as ([p1 fx1] & H1 & Hr%Ok_inj).
  assert (lost id a p1) as [_ Hn].
  { revert H1 Hl. generalize no_effects. revert p. induction order as [|i order IH]; intros q f; cbn; [by intros [= <- <-]|].
    intros ([q' f'] & Hq & Hrest)%res_bind_inv Hl. by eapply IH, tick_one_lost. }
  replace p' with (remove_failed (failed fx1) p1 fx1).1 by (by rewrite Hr). clear Hr H1.
  revert p1 fx1 Hn. intros q f. generalize (failed f). intros ids. revert q f.
  induction ids as [|i ids IH]; intros q f Hn; cbn; [done|]. apply IH. unfold remove.
  destruct (entries q !! i); [|done]. cbn. by intros [? _]%release_addr_Some.
Qed.
End pool.
