(* ===== verification/PoolInstance.v ===== *)
(** * PoolInstance: a concrete pool

    The theorems of [Pool.v] on a pool with the session of [SessionInstance.v],
    which becomes ready. *)
From S2P Require Import Prelude Text Errors SignalMsg Endpoint Router Discovery Identity.
From S2P Require Import IdentityInstance Webrtc WebrtcInstance Framing Transports Sans Session.
From S2P Require Import SessionInstance Connection Pool.

#[local] Existing Instance toy_crypto.

#[local] Instance pool_stun : Stun := {|
  Router.is_stun_message d := match d with x00 :: _ => true | _ => false end;
  stun_username d := match d with x00 :: u => Some u | _ => None end;
|}.

Definition ready_connection : Connection := {|
  c_session := started; c_connection_id := 42; remote_network_id := str "peer";
  remote_identity := None |}.

Definition ready_entry : Entry := {|
  connection := ready_connection; entry_ufrag := str "abcd"; entry_addr := None; wait := 6;
  reported_rtt := None; rtt_reported_at := None |}.

Definition one_session : Pool (K := Z) :=
  {| entries := {[1 := ready_entry]}; router := register_ufrag (str "abcd") 1 router_default |}.

(** A session that has described itself and checks a candidate, with no pair
    selected yet, and the pool after a pass over it. *)
Definition checked_addr : SocketAddr := {| ip := V4 10 0 0 9; port := 1234 |}.

Definition checking_connection : Connection := {|
  c_session := set_output [OSend (str "check") checked_addr] described; c_connection_id := 42;
  remote_network_id := str "peer"; remote_identity := None |}.

Definition checking_pool : Pool (K := Z) :=
  match command 6 6 (Add 1 checking_connection (str "abcd")) pool_new with Ok p => p | _ => pool_new end.

Lemma checking_tick : is_ok (tick [1] 7 checking_pool) = true.
Proof. vm_compute. reflexivity. Qed.

Definition checked_pool : Pool (K := Z) :=
  match tick [1] 7 checking_pool with Ok (p, _) => p | _ => pool_new end.
Definition checked_sends : list (Happened Z) :=
  match tick [1] 7 checking_pool with Ok (_, fx) => sends fx | _ => [] end.

Lemma checked_history : pool_history ([Added 1] ++ checked_sends) checked_pool.
Proof.
  pose proof checking_tick as Ht. unfold checked_sends, checked_pool.
  destruct (tick [1] 7 checking_pool) as [[p fx]| |] eqn:E; [|done..].
  apply (history_tick _ [1] 7 checking_pool p fx); [|exact E].
  by apply (history_command [] 6 6 (Add 1 checking_connection (str "abcd")) pool_new); [constructor|..].
Qed.

Lemma checked_sends_eq : checked_sends = [SentTo 1 checked_addr].
Proof. vm_compute. reflexivity. Qed.

Lemma checked_sent : has_sent ([Added 1] ++ checked_sends) 1 checked_addr.
Proof. rewrite checked_sends_eq. exists [Added 1], []. split; [done|apply not_elem_of_nil]. Qed.

Lemma checked_entry : (entry_addr <$> entries checked_pool !! 1) = Some None.
Proof. vm_compute. reflexivity. Qed.

Lemma checked_only i e : entries checked_pool !! i = Some e -> i = 1.
Proof.
  intros He. assert (dom (entries checked_pool) = {[1]}) as Hd by (vm_compute; reflexivity).
  apply elem_of_dom_2 in He. rewrite Hd in He. by apply elem_of_singleton in He.
Qed.

(** A STUN reply from the checked address reaches the session, and whatever is
    routed there is for a session that has the address or has sent to it. *)
Lemma pool_routing_sound_witness :
  1 ∈ route checked_addr [x00] (router checked_pool) /\
  exists e, entries checked_pool !! 1 = Some e /\
    (entry_addr e = Some checked_addr \/
     is_stun [x00] = true /\ (local_ufrag [x00] = Some (entry_ufrag e) \/
       has_sent ([Added 1] ++ checked_sends) 1 checked_addr)).
Proof.
  destruct (pool_routing_sound _ _ checked_history) as (Hsound & Hcomplete & _).
  assert (1 ∈ route checked_addr [x00] (router checked_pool)) as Hin.
  { pose proof checked_entry as He. destruct (entries checked_pool !! 1) as [e|] eqn:E; [|discriminate].
    injection He as He. apply (Hcomplete [x00] checked_addr 1 e E He checked_sent); [reflexivity|].
    intros i e' Hi. pose proof (checked_only i e' Hi) as ->. rewrite E in Hi. injection Hi as <-.
    rewrite He. split; discriminate. }
  split; [exact Hin|]. exact (Hsound _ _ _ Hin).
Defined.

Lemma tick_returns : is_ok (tick [1] 7 one_session) = true.
Proof. vm_compute. reflexivity. Qed.

Lemma ticked : exists p' fx, tick [1] 7 one_session = Ok (p', fx).
Proof.
  pose proof tick_returns as Ht. destruct (tick [1] 7 one_session) as [[p' fx]| |]; [eauto|done..].
Qed.

Lemma pool_reports_exactly_witness :
  exists p' fx r c, tick [1] 7 one_session = Ok (p', fx) /\
    handle (CTimeout 7) ready_connection = (r, c) /\
    pick 1 (reported fx) = session_report 7 ready_entry c ++ omap failure_of (output (c_session c)).
Proof.
  destruct ticked as (p' & fx & Ht).
  destruct (pool_reports_exactly [1] 7 one_session p' fx 1 ready_entry) as (r & c & Hh & Hp & _);
    [apply NoDup_singleton|by left|reflexivity|exact Ht|].
  exists p', fx, r, c. exact (conj Ht (conj Hh Hp)).
Defined.
