(* ===== verification/ServerSessions.v ===== *)
(** * ServerSessions: the session table of a server and its pool
    (the session handling common to [bevy-nethernet/src/server.rs] and
    [bevy-nethernet/src/http_server.rs])

    Both servers keep a table of sessions, tell the pool's thread what to do by
    commands, and read its events back once per frame.  The table carries what
    the two servers differ in as [extra].  The queue of commands is kept whole,
    as the sequence of everything sent so far. *)
From S2P Require Import Prelude Text Errors SignalMsg Endpoint Router Discovery Identity Webrtc.
From S2P Require Import Framing Transports Sans Session Connection Pending Pool.

Record NetherSessionId := { sid_network : bytes; sid_connection : Z }.

#[global] Instance NetherSessionId_eq_dec : EqDecision NetherSessionId.
Proof. solve_decision. Defined.
#[global] Program Instance NetherSessionId_countable : Countable NetherSessionId :=
  inj_countable' (fun i => (sid_network i, sid_connection i))
    (fun p => {| sid_network := p.1; sid_connection := p.2 |}) _.
Next Obligation. by intros []. Qed.

Inductive ServerEvent :=
| SessionConnected (id : NetherSessionId)
| SessionDisconnected (id : NetherSessionId).

(** What a new session draws, and the wall clock at admission and at its answer. *)
Record Draw := {
  draw_ufrag : bytes; draw_pwd : bytes; draw_random : bytes;
  draw_wall : SystemTime; draw_clock : SystemTime;
}.

Section table.
Context {X : Type} `{b64 : Base64} `{serde : Serde} `{p384 : P384} `{Stun}.
Context {crypto : CryptoOps} {sdp : Sdp} {cand : IceCandidate} {cert : CertificateOps}
  {iceops : IceOps} {dtlsops : DtlsOps} {sctpops : SctpOps} {dcepops : DcepOps}.

Record SessionEntry := {
  ready : bool;
  created : Instant;
  session_addr : option SocketAddr;
  session_rtt : option Duration;
  session_player : option PlayerInfo;
  extra : X;
}.

Abbreviation Cmd := (Command (K := NetherSessionId)).

Record Table := {
  sessions : gmap NetherSessionId SessionEntry;
  received : list (NetherSessionId * bytes);
  received_unreliable : list (NetherSessionId * bytes);
  events : list ServerEvent;
  commands : list Cmd;
}.

Definition table_new : Table :=
  {| sessions := ∅; received := []; received_unreliable := []; events := []; commands := [] |}.

Definition set_sessions (m : gmap NetherSessionId SessionEntry) (t : Table) : Table :=
  {| sessions := m; received := received t; received_unreliable := received_unreliable t;
     events := events t; commands := commands t |}.
Definition push_command (c : Cmd) (t : Table) : Table :=
  {| sessions := sessions t; received := received t; received_unreliable := received_unreliable t;
     events := events t; commands := commands t ++ [c] |}.
Definition emit (ev : ServerEvent) (t : Table) : Table :=
  {| sessions := sessions t; received := received t; received_unreliable := received_unreliable t;
     events := events t ++ [ev]; commands := commands t |}.

(** ** The methods of a server that only touch the table *)

(** The sessions reported as connected. *)
Definition ready_sessions (t : Table) : list NetherSessionId :=
  (filter (fun '(_, e) => ready e = true) (map_to_list (sessions t))).*1.

Definition send_on (id : NetherSessionId) (channel : Channel) (data : bytes) (t : Table)
    : Res ProtocolError Table :=
  match sessions t !! id with
  | None => Err (Other (str "unknown session"))
  | Some _ => Ok (push_command (CmdSend id channel data) t)
  end.

Definition recv (t : Table) : option (NetherSessionId * bytes) * Table :=
  match received t with
  | [] => (None, t)
  | m :: rest => (Some m, {| sessions := sessions t; received := rest;
      received_unreliable := received_unreliable t; events := events t; commands := commands t |})
  end.

Definition recv_unreliable (t : Table) : option (NetherSessionId * bytes) * Table :=
  match received_unreliable t with
  | [] => (None, t)
  | m :: rest => (Some m, {| sessions := sessions t; received := received t;
      received_unreliable := rest; events := events t; commands := commands t |})
  end.

Definition disconnect (id : NetherSessionId) (t : Table) : Table :=
  match sessions t !! id with
  | Some _ =>
      emit (SessionDisconnected id)
        (push_command (Remove id) (set_sessions (delete id (sessions t)) t))
  | None => t
  end.

Definition next_event (t : Table) : option ServerEvent * Table :=
  match events t with
  | [] => (None, t)
  | ev :: rest => (Some ev, {| sessions := sessions t; received := received t;
      received_unreliable := received_unreliable t; events := rest; commands := commands t |})
  end.

(** One event of the pool; failed sessions are collected. *)
Definition apply_event (st : Table * list NetherSessionId) (msg : NetherSessionId * ConnectionEvent)
    : Table * list NetherSessionId :=
  let '(t, failed) := st in
  let '(id, event) := msg in
  match sessions t !! id with
  | None => (t, failed)
  | Some e =>
      match event with
      | EvReady addr =>
          if ready e then (t, failed)
          else (emit (SessionConnected id)
                  (set_sessions (<[id := {| ready := true; created := created e; session_addr := addr;
                     session_rtt := session_rtt e; session_player := session_player e;
                     extra := extra e |}]> (sessions t)) t), failed)
      | EvRtt rtt =>
          (set_sessions (<[id := {| ready := ready e; created := created e;
             session_addr := session_addr e; session_rtt := Some rtt;
             session_player := session_player e; extra := extra e |}]> (sessions t)) t, failed)
      | EvMessage Reliable data =>
          ({| sessions := sessions t; received := received t ++ [(id, data)];
              received_unreliable := received_unreliable t; events := events t;
              commands := commands t |}, failed)
      | EvMessage Unreliable data =>
          ({| sessions := sessions t; received := received t;
              received_unreliable := received_unreliable t ++ [(id, data)]; events := events t;
              commands := commands t |}, failed)
      | EvFailed => (t, failed ++ [id])
      end
  end.

Definition drive_sessions (msgs : list (NetherSessionId * ConnectionEvent)) (t : Table) : Table :=
  let '(t, failed) := fold_left apply_event msgs (t, []) in
  fold_left (fun t id => disconnect id t) failed t.

Definition established_in_time (establish : Duration) (now : Instant) (e : SessionEntry) : bool :=
  ready e || (saturating_duration_since now (created e) <? establish).

(** [retain], in the order the map is walked. *)
Definition expire_unestablished (establish : Duration) (now : Instant) (order : list NetherSessionId)
    (t : Table) : Table :=
  fold_left (fun t id =>
    match sessions t !! id with
    | Some e =>
        if established_in_time establish now e then t
        else push_command (Remove id) (set_sessions (delete id (sessions t)) t)
    | None => t
    end) order t.

(** [pool.add] and the insertion into the table. *)
Definition open_session (id : NetherSessionId) (e : SessionEntry) (conn : Connection) (u : bytes)
    (t : Table) : Table :=
  let t := push_command (Add id conn u) t in
  set_sessions (<[id := e]> (sessions t)) t.

(** The network ids of the sessions that are not established. *)
Definition pending_ids (t : Table) : list bytes :=
  (fun '(id, _) => sid_network id) <$> filter (fun '(_, e) => ready e = false) (map_to_list (sessions t)).

(** ** Runs of a table *)

(** What a server does to its table, with the event it takes out.  A session is
    opened under an id that is not in the table, and is not ready. *)
Inductive table_step : Table -> option ServerEvent -> Table -> Prop :=
| ts_open id e conn u t : sessions t !! id = None -> ready e = false ->
    table_step t None (open_session id e conn u t)
| ts_signal id g t : table_step t None (push_command (CmdSignal id g) t)
| ts_send id ch data t t' : send_on id ch data t = Ok t' -> table_step t None t'
| ts_recv t : table_step t None (recv t).2
| ts_recv_unreliable t : table_step t None (recv_unreliable t).2
| ts_disconnect id t : table_step t None (disconnect id t)
| ts_drive msgs t : table_step t None (drive_sessions msgs t)
| ts_expire establish now order t : table_step t None (expire_unestablished establish now order t)
| ts_event t : table_step t (next_event t).1 (next_event t).2.

Inductive table_run : Table -> list ServerEvent -> Table -> Prop :=
| run_nil t : table_run t [] t
| run_step t0 evs t ev t' : table_run t0 evs t -> table_step t ev t' ->
    table_run t0 (evs ++ option_list ev) t'.

Lemma table_run_app t0 evs t evs' t' :
  table_run t0 evs t -> table_run t evs' t' -> table_run t0 (evs ++ evs') t'.
Proof.
  intros H1 H2. induction H2 as [|t evs' t1 ev t2 _ IH Hs]; [by rewrite app_nil_r|].
  rewrite app_assoc. econstructor; [by apply IH|done].
Qed.

Lemma table_run_one t ev t' : table_step t ev t' -> table_run t (option_list ev) t'.
Proof. intros Hs. exact (run_step t [] t ev t' (run_nil t) Hs). Qed.

(** The sessions a sequence of commands leaves with the pool. *)
Definition live_step (live : gset NetherSessionId) (c : Cmd) : gset NetherSessionId :=
  match c with
  | Add id _ _ => {[id]} ∪ live
  | Remove id => live ∖ {[id]}
  | _ => live
  end.

Definition live (cs : list Cmd) : gset NetherSessionId := fold_left live_step cs ∅.

(** Each session is added while the pool does not have it. *)
Definition fresh_adds (cs : list Cmd) : Prop :=
  forall pre id conn u post, cs = pre ++ Add id conn u :: post -> id ∉ live pre.

(** The sessions a sequence of events says are connected. *)
Definition connected_step (s : gset NetherSessionId) (ev : ServerEvent) : gset NetherSessionId :=
  match ev with
  | SessionConnected id => {[id]} ∪ s
  | SessionDisconnected id => s ∖ {[id]}
  end.

Definition connected (evs : list ServerEvent) : gset NetherSessionId := fold_left connected_step evs ∅.

(** ** The invariant of a table *)

Ltac table := cbn [commands sessions events received received_unreliable
  push_command set_sessions emit open_session].

Record table_inv (evs : list ServerEvent) (t : Table) : Prop := {
  inv_live : live (commands t) = dom (sessions t);
  inv_fresh : fresh_adds (commands t);
  inv_connected id : id ∈ connected (evs ++ events t) <->
    exists e, sessions t !! id = Some e /\ ready e = true;
}.

Lemma live_snoc cs c : live (cs ++ [c]) = live_step (live cs) c.
Proof. unfold live. by rewrite fold_left_app. Qed.

Lemma connected_snoc evs ev : connected (evs ++ [ev]) = connected_step (connected evs) ev.
Proof. unfold connected. by rewrite fold_left_app. Qed.

(** A command that adds nothing, or a session the pool does not have. *)
Lemma fresh_adds_snoc cs c :
  fresh_adds cs -> (forall id conn u, c = Add id conn u -> id ∉ live cs) -> fresh_adds (cs ++ [c]).
Proof.
  intros Hf Hc pre id conn u post Heq.
  destruct post as [|x post _] using rev_ind.
  - apply app_inj_tail in Heq as [<- ->]. by eapply Hc.
  - rewrite app_comm_cons, app_assoc in Heq. apply app_inj_tail in Heq as [-> _]. by eapply Hf.
Qed.

Lemma table_inv_new : table_inv [] table_new.
Proof.
  split; unfold table_new; table.
  - by rewrite dom_empty_L.
  - intros [|] ? ? ? ?; done.
  - intros id. split; [by intros ?%elem_of_empty|]. intros (e & He & _). by rewrite lookup_empty in He.
Qed.

Lemma inv_open evs t id e conn u :
  sessions t !! id = None -> ready e = false -> table_inv evs t ->
  table_inv evs (open_session id e conn u t).
Proof.
  intros Hid Hr [Hl Hf Hc]. split; table.
  - rewrite live_snoc, Hl, dom_insert_L. done.
  - apply fresh_adds_snoc; [done|]. intros i c' u' [= <- _ _]. rewrite Hl. by apply not_elem_of_dom.
  - intros i. rewrite Hc. destruct (decide (id = i)) as [<-|Hne].
    + rewrite lookup_insert_eq, Hid. naive_solver congruence.
    + by rewrite lookup_insert_ne.
Qed.

(** A command that concerns no membership. *)
Lemma inv_command evs t c :
  live_step (live (commands t)) c = live (commands t) -> (forall id conn u, c <> Add id conn u) ->
  table_inv evs t -> table_inv evs (push_command c t).
Proof.
  intros Hs Hc [Hl Hf Hk]. split; table; [by rewrite live_snoc, Hs| |done].
  apply fresh_adds_snoc; [done|]. intros id conn u ->. by destruct (Hc id conn u).
Qed.

(** A session that is dropped from table and pool, when it was not connected. *)
Lemma inv_drop evs t id e :
  sessions t !! id = Some e -> ready e = false -> table_inv evs t ->
  table_inv evs (push_command (Remove id) (set_sessions (delete id (sessions t)) t)).
Proof.
  intros He Hr [Hl Hf Hc]. split; table.
  - by rewrite live_snoc, dom_delete_L, <- Hl.
  - by apply fresh_adds_snoc.
  - intros i. rewrite Hc. destruct (decide (id = i)) as [<-|Hne].
    + rewrite lookup_delete_eq, He. naive_solver congruence.
    + by rewrite lookup_delete_ne.
Qed.

Lemma inv_disconnect evs t id : table_inv evs t -> table_inv evs (disconnect id t).
Proof.
  intros [Hl Hf Hc]. unfold disconnect. destruct (sessions t !! id) as [e|] eqn:E; [|by split].
  split; table.
  - by rewrite live_snoc, dom_delete_L, <- Hl.
  - by apply fresh_adds_snoc.
  - intros i. rewrite app_assoc, connected_snoc. cbn [connected_step]. rewrite elem_of_difference, Hc, elem_of_singleton.
    destruct (decide (id = i)) as [<-|Hne].
    + rewrite lookup_delete_eq. naive_solver.
    + rewrite lookup_delete_ne by done. naive_solver.
Qed.

(** A session that is there is set again, with the same readiness. *)
Lemma inv_update evs t id e e' :
  sessions t !! id = Some e -> ready e' = ready e -> table_inv evs t ->
  table_inv evs (set_sessions (<[id := e']> (sessions t)) t).
Proof.
  intros He Hr [Hl Hf Hc]. split; table; [|done|].
  - rewrite Hl, dom_insert_L. apply elem_of_dom_2 in He. set_solver.
  - intros i. rewrite Hc. destruct (decide (id = i)) as [<-|Hne].
    + rewrite lookup_insert_eq, He. naive_solver congruence.
    + by rewrite lookup_insert_ne.
Qed.

Lemma inv_ready evs t id e e' :
  sessions t !! id = Some e -> ready e' = true -> table_inv evs t ->
  table_inv evs (emit (SessionConnected id) (set_sessions (<[id := e']> (sessions t)) t)).
Proof.
  intros He Hr [Hl Hf Hc]. split; table; [|done|].
  - rewrite Hl, dom_insert_L. apply elem_of_dom_2 in He. set_solver.
  - intros i. rewrite app_assoc, connected_snoc. cbn [connected_step]. rewrite elem_of_union, Hc, elem_of_singleton.
    destruct (decide (id = i)) as [<-|Hne].
    + rewrite lookup_insert_eq. naive_solver.
    + rewrite lookup_insert_ne by done. naive_solver.
Qed.

Lemma inv_messages evs t r u :
  table_inv evs t ->
  table_inv evs {| sessions := sessions t; received := r; received_unreliable := u;
                   events := events t; commands := commands t |}.
Proof. by intros [Hl Hf Hc]. Qed.

Lemma inv_apply_event evs t failed msg :
  table_inv evs t -> table_inv evs (apply_event (t, failed) msg).1.
Proof.
  intros Hi. destruct msg as [id ev]. unfold apply_event.
  destruct (sessions t !! id) as [e|] eqn:E; [|done].
  destruct ev as [addr|rtt|[] data|]; cbn [fst]; try by apply inv_messages.
  - destruct (ready e); [done|]. by eapply inv_ready.
  - by eapply inv_update.
  - done.
Qed.

Lemma inv_drive evs t msgs : table_inv evs t -> table_inv evs (drive_sessions msgs t).
Proof.
  intros Hi. unfold drive_sessions.
  assert (forall st, table_inv evs st.1 -> table_inv evs (fold_left apply_event msgs st).1) as Hm.
  { induction msgs as [|msg msgs IH]; intros [t' f] Ht; [done|]. by apply IH, inv_apply_event. }
  specialize (Hm (t, []) Hi). destruct (fold_left apply_event msgs (t, [])) as [t' failed].
  cbn [fst] in Hm. revert t' Hm. induction failed as [|id failed IH]; intros t' Ht; [done|].
  by apply IH, inv_disconnect.
Qed.

Lemma inv_expire evs establish now order t :
  table_inv evs t -> table_inv evs (expire_unestablished establish now order t).
Proof.
  unfold expire_unestablished. revert t. induction order as [|id order IH]; intros t Hi; [done|].
  cbn [fold_left]. apply IH. destruct (sessions t !! id) as [e|] eqn:E; [|done].
  destruct (established_in_time establish now e) eqn:Ee; [done|].
  apply orb_false_iff in Ee as [Hr _]. by eapply inv_drop.
Qed.

Lemma inv_step evs t ev t' :
  table_step t ev t' -> table_inv evs t -> table_inv (evs ++ option_list ev) t'.
Proof.
  intros Hs Hi. destruct Hs as [id e conn u t Hid Hr|id g t|id ch data t t' Hsend|t|t|id t|msgs t|est now order t|t];
    cbn [option_list]; rewrite ?app_nil_r.
  - by apply inv_open.
  - by apply inv_command.
  - unfold send_on in Hsend. destruct (sessions t !! id); [|done]. apply Ok_inj in Hsend as <-.
    by apply inv_command.
  - unfold recv. destruct (received t); [done|]. by apply inv_messages.
  - unfold recv_unreliable. destruct (received_unreliable t); [done|]. by apply inv_messages.
  - by apply inv_disconnect.
  - by apply inv_drive.
  - by apply inv_expire.
  - unfold next_event. destruct Hi as [Hl Hf Hc]. destruct (events t) as [|ev rest] eqn:E; cbn [fst snd option_list].
    + rewrite app_nil_r. split; [done|done|]. by rewrite E.
    + split; [done|done|]. table. by rewrite <- app_assoc.
Qed.

Lemma table_run_inv evs t : table_run table_new evs t -> table_inv evs t.
Proof.
  remember table_new as t0 eqn:Et. induction 1 as [|t0 evs t ev t' _ IH Hs]; subst; [apply table_inv_new|].
  eapply inv_step; [done|]. by apply IH.
Qed.

(** C10: The events a server hands out are a faithful account of its sessions:
    replayed from the start, those taken and those still queued, they give
    exactly the sessions that are in the table and ready. *)
Theorem events_account_for_sessions evs t id :
  table_run table_new evs t ->
  id ∈ connected (evs ++ events t) <-> exists e, sessions t !! id = Some e /\ ready e = true.
Proof. intros [_ _ Hc]%table_run_inv. apply Hc. Qed.

(** ** The server and its pool *)

(** What the pool's thread does with a sequence of commands, between datagrams
    and passes over its sessions; nothing is asked of the commands. *)
Inductive pool_runs : list Cmd -> Pool (K := NetherSessionId) -> Prop :=
| runs_new : pool_runs [] pool_new
| runs_receive cs d from now p p' : pool_runs cs p -> receive d from now p = Ok p' -> pool_runs cs p'
| runs_command cs now clock c p p' :
    pool_runs cs p -> command now clock c p = Ok p' -> pool_runs (cs ++ [c]) p'
| runs_tick cs order now p p' fx : pool_runs cs p -> tick order now p = Ok (p', fx) -> pool_runs cs p'.

Lemma owners_dom (p p' : Pool (K := NetherSessionId)) :
  owner_of <$> entries p' = owner_of <$> entries p -> dom (entries p') = dom (entries p).
Proof. intros E. by rewrite <- (dom_fmap_L owner_of (entries p')), E, dom_fmap_L. Qed.

Lemma remove_dom_L id (p : Pool (K := NetherSessionId)) : dom (entries (remove id p)) = dom (entries p) ∖ {[id]}.
Proof.
  unfold remove. destruct (entries p !! id) as [e|] eqn:E; cbn [entries]; [by rewrite dom_delete_L|].
  apply not_elem_of_dom in E. set_solver.
Qed.

Lemma pool_runs_live cs p : pool_runs cs p -> dom (entries p) ⊆ live cs.
Proof.
  induction 1 as [|cs d from now p p' _ IH Hr|cs now clock c p p' _ IH Hc|cs order now p p' fx _ IH Ht].
  - done.
  - unfold receive in Hr. apply deliver_router in Hr as [_ Ho]. by rewrite (owners_dom _ _ Ho).
  - rewrite live_snoc. destruct c as [id conn u|id g|id ch d|id]; cbn [command live_step] in *.
    + apply Ok_inj in Hc as <-. cbn [entries]. rewrite dom_insert_L. set_solver.
    + apply feed_at_router in Hc as [_ Ho]. by rewrite (owners_dom _ _ Ho).
    + apply feed_at_router in Hc as [_ Ho]. by rewrite (owners_dom _ _ Ho).
    + apply Ok_inj in Hc as <-. rewrite remove_dom_L. set_solver.
  - apply res_bind_inv in Ht as ([p1 fx1] & (_ & _ & Hd)%tick_each_ok & Hr%Ok_inj).
    etrans; [|done]. rewrite <- Hd. intros id. rewrite !elem_of_dom.
    replace p' with (remove_failed (Pool.failed fx1) p1 fx1).1 by (by rewrite Hr).
    apply remove_failed_dom.
Qed.

Lemma fresh_adds_reachable cs p : pool_runs cs p -> fresh_adds cs -> pool_reachable p.
Proof.
  induction 1 as [|cs d from now p p' _ IH Hr|cs now clock c p p' Hp IH Hc|cs order now p p' fx _ IH Ht]; intros Hf.
  - constructor.
  - eapply rtc_r; [by apply IH|]. by eapply step_receive.
  - assert (fresh_adds cs) as Hcs.
    { intros pre id conn u post ->. apply (Hf pre id conn u (post ++ [c])). by rewrite <- app_assoc. }
    eapply rtc_r; [by apply IH|]. eapply step_command; [|done].
    destruct c as [id conn u|id g|id ch d|id]; cbn [fresh]; try done.
    apply not_elem_of_dom. intros Hin%(pool_runs_live _ _ Hp). by apply (Hf cs id conn u []).
  - eapply rtc_r; [by apply IH|]. by eapply step_tick.
Qed.

(** Whatever a server does, its pool stays within the states in which routing
    is sound: however far the thread has got with the commands sent so far, and
    whatever datagrams and passes came between, it has only ever added sessions
    under ids it did not have. *)
Theorem server_pool_reachable evs t cs rest p :
  table_run table_new evs t -> commands t = cs ++ rest -> pool_runs cs p -> pool_reachable p.
Proof.
  intros [_ Hf _]%table_run_inv Hcs Hp. apply (fresh_adds_reachable cs p Hp).
  intros pre id conn u post ->. apply (Hf pre id conn u (post ++ rest)). by rewrite Hcs, <- app_assoc.
Qed.

(** ** The sessions that are not established *)

(** The network id of a session, when it is pending. *)
Definition pending_of (id : NetherSessionId) (e : SessionEntry) : list bytes :=
  if ready e then [] else [sid_network id].

Definition pending_in (m : gmap NetherSessionId SessionEntry) : list bytes :=
  (fun '(id, _) => sid_network id) <$> filter (fun '(_, e) => ready e = false) (map_to_list m).

Lemma pending_in_insert (m : gmap NetherSessionId SessionEntry) id e :
  m !! id = None -> pending_in (<[id := e]> m) ≡ₚ pending_of id e ++ pending_in m.
Proof.
  intros Hid. unfold pending_in, pending_of. rewrite map_to_list_insert by done.
  rewrite filter_cons. case_decide as E; cbn in E; destruct (ready e); done.
Qed.

Lemma pending_in_delete (m : gmap NetherSessionId SessionEntry) id e :
  m !! id = Some e -> pending_in m ≡ₚ pending_of id e ++ pending_in (delete id m).
Proof.
  intros Hid. rewrite <- pending_in_insert by apply lookup_delete_eq. by rewrite insert_delete_id.
Qed.

Lemma pending_in_update (m : gmap NetherSessionId SessionEntry) id e e' :
  m !! id = Some e -> (ready e = true -> ready e' = true) ->
  pending_in (<[id := e']> m) ⊆+ pending_in m.
Proof.
  intros Hid Hr. rewrite (pending_in_delete m id e Hid), <- insert_delete_eq.
  rewrite pending_in_insert by apply lookup_delete_eq. apply submseteq_skips_r.
  unfold pending_of. destruct (ready e), (ready e'); try done; [by discriminate Hr|].
  apply submseteq_nil_l.
Qed.

Lemma pending_drop (t : Table) id :
  pending_in (delete id (sessions t)) ⊆+ pending_ids t.
Proof.
  change (pending_ids t) with (pending_in (sessions t)).
  destruct (sessions t !! id) as [e|] eqn:E.
  - rewrite (pending_in_delete _ _ _ E). apply submseteq_inserts_l. done.
  - by rewrite delete_id.
Qed.

Lemma pending_disconnect (t : Table) id : pending_ids (disconnect id t) ⊆+ pending_ids t.
Proof. unfold disconnect. destruct (sessions t !! id); [apply pending_drop|done]. Qed.

Lemma pending_drive msgs (t : Table) : pending_ids (drive_sessions msgs t) ⊆+ pending_ids t.
Proof.
  unfold drive_sessions.
  assert (forall st, pending_ids (fold_left apply_event msgs st).1 ⊆+ pending_ids st.1) as Hm.
  { induction msgs as [|[id ev] msgs IH]; intros [t' f]; [done|]. cbn [fold_left].
    etrans; [apply IH|]. unfold apply_event. destruct (sessions t' !! id) as [e|] eqn:E; [|done].
    destruct ev as [addr|rtt|[] data|]; cbn [fst]; try done.
    - destruct (ready e) eqn:Er; [done|]. by eapply pending_in_update.
    - by eapply pending_in_update. }
  specialize (Hm (t, [])). destruct (fold_left apply_event msgs (t, [])) as [t' failed]. cbn [fst] in Hm.
  revert t' Hm. induction failed as [|id failed IH]; intros t' Ht; [done|]. cbn [fold_left].
  apply IH. etrans; [apply pending_disconnect|done].
Qed.

Lemma pending_expire establish now order (t : Table) :
  pending_ids (expire_unestablished establish now order t) ⊆+ pending_ids t.
Proof.
  unfold expire_unestablished. revert t. induction order as [|id order IH]; intros t; [done|].
  cbn [fold_left]. etrans; [apply IH|]. destruct (sessions t !! id) as [e|] eqn:E; [|done].
  destruct (established_in_time establish now e); [done|]. apply pending_drop.
Qed.

Lemma pending_open id e conn u (t : Table) :
  sessions t !! id = None -> ready e = false ->
  pending_ids (open_session id e conn u t) ≡ₚ sid_network id :: pending_ids t.
Proof.
  intros Hid Hr. change (pending_in (<[id := e]> (sessions t)) ≡ₚ sid_network id :: pending_in (sessions t)).
  rewrite pending_in_insert by done. unfold pending_of. by rewrite Hr.
Qed.

(** ** The players of the sessions *)

(** No session is new, and none has another player or another beginning. *)
Definition players_kept (t t' : Table) : Prop :=
  forall id e', sessions t' !! id = Some e' ->
  exists e, sessions t !! id = Some e /\ session_player e' = session_player e /\ created e' = created e.

#[global] Instance players_kept_preorder : PreOrder players_kept.
Proof.
  split; [intros t id e; eauto|]. intros t1 t2 t3 H1 H2 id e3 (e2 & He2 & -> & ->)%H2.
  by apply H1.
Qed.

Lemma players_kept_delete (t : Table) id t' :
  sessions t' = delete id (sessions t) -> players_kept t t'.
Proof. intros Hs i e. rewrite Hs. intros [_ ?]%lookup_delete_Some. eauto. Qed.

Lemma players_kept_insert (t : Table) id e e' t' :
  sessions t !! id = Some e -> session_player e' = session_player e -> created e' = created e ->
  sessions t' = <[id := e']> (sessions t) -> players_kept t t'.
Proof. intros He Hp Hc Hs i x. rewrite Hs. intros [[<- <-]|[_ ?]]%lookup_insert_Some; eauto. Qed.

Lemma players_disconnect (t : Table) id : players_kept t (disconnect id t).
Proof. unfold disconnect. destruct (sessions t !! id); [by eapply players_kept_delete|done]. Qed.

Lemma players_drive msgs (t : Table) : players_kept t (drive_sessions msgs t).
Proof.
  unfold drive_sessions.
  assert (forall st, players_kept st.1 (fold_left apply_event msgs st).1) as Hm.
  { induction msgs as [|[id ev] msgs IH]; intros [t' f]; [done|]. cbn [fold_left].
    etrans; [|apply IH]. unfold apply_event. destruct (sessions t' !! id) as [e|] eqn:E; [|done].
    destruct ev as [addr|rtt|[] data|]; cbn [fst]; try done.
    - destruct (ready e); [done|]. by eapply players_kept_insert; [exact E| | |reflexivity].
    - by eapply players_kept_insert; [exact E| | |reflexivity].
    - intros i x. eauto.
    - intros i x. eauto. }
  specialize (Hm (t, [])). destruct (fold_left apply_event msgs (t, [])) as [t' failed]. cbn [fst] in Hm.
  revert t' Hm. induction failed as [|id failed IH]; intros t' Ht; [done|]. cbn [fold_left].
  apply IH. etrans; [done|apply players_disconnect].
Qed.

Lemma players_expire establish now order (t : Table) :
  players_kept t (expire_unestablished establish now order t).
Proof.
  unfold expire_unestablished. revert t. induction order as [|id order IH]; intros t; [done|].
  cbn [fold_left]. etrans; [|apply IH]. destruct (sessions t !! id) as [e|] eqn:E; [|done].
  destruct (established_in_time establish now e); [done|]. by eapply players_kept_delete.
Qed.

(** Whatever id it is opened under. *)
Lemma pending_open_any id e conn u (t : Table) :
  ready e = false -> pending_ids (open_session id e conn u t) ⊆+ sid_network id :: pending_ids t.
Proof.
  intros Hr. destruct (sessions t !! id) as [e0|] eqn:E; [|by rewrite pending_open].
  change (pending_in (<[id := e]> (sessions t)) ⊆+ sid_network id :: pending_in (sessions t)).
  rewrite <- insert_delete_eq, pending_in_insert by apply lookup_delete_eq.
  unfold pending_of. rewrite Hr. apply submseteq_skip, pending_drop.
Qed.

End table.

(** ** Limits on the sessions that are not established *)

Definition pending_within (limits : PendingLimits) (l : list bytes) : Prop :=
  blen l <= max_pending limits /\ forall nid, held_by nid l <= max_pending_per_network_id limits.

Lemma held_by_app nid l1 l2 : held_by nid (l1 ++ l2) = held_by nid l1 + held_by nid l2.
Proof. induction l1 as [|x l1 IH]; cbn; [done|]. rewrite IH. lia. Qed.

Lemma held_by_Permutation nid l1 l2 : l1 ≡ₚ l2 -> held_by nid l1 = held_by nid l2.
Proof. induction 1; cbn; lia. Qed.

Lemma pending_within_submseteq limits l1 l2 :
  l1 ⊆+ l2 -> pending_within limits l2 -> pending_within limits l1.
Proof.
  intros Hs [H1 H2]. split.
  - apply submseteq_length in Hs. unfold blen in *. lia.
  - intros nid. destruct (submseteq_Permutation _ _ Hs) as [k Hk].
    specialize (H2 nid). rewrite (held_by_Permutation _ _ _ Hk), held_by_app in H2.
    pose proof (held_count_nonneg nid k). lia.
Qed.

(** An admitted offer leaves room for itself. *)
Lemma pending_within_admitted limits l nid l' :
  l' ≡ₚ nid :: l -> admits_offer l nid limits = true -> pending_within limits l -> pending_within limits l'.
Proof.
  rewrite admits_offer_spec. intros Hp [Ht Hn]%andb_true_iff [H1 H2]. to_props. split.
  - apply Permutation_length in Hp. unfold blen in *. cbn in Hp. lia.
  - intros x. rewrite (held_by_Permutation _ _ _ Hp). cbn. unfold bytes_eqb. specialize (H2 x).
    case_bool_decide; subst; lia.
Qed.

(** ** Token trusts *)

Section trust.
Context `{b64 : Base64} `{serde : Serde} `{p384 : P384} `{rsa : Rsa}.

(** A token trust as configured, or after it has noted something in validations. *)
Inductive derived (t0 : TokenTrust) : TokenTrust -> Prop :=
| derived_self : derived t0 t0
| derived_noted t sdp wall : derived t0 t -> derived t0 (validate_sdp sdp wall t).2.

(** A trust that may be missing, before and after verification. *)
Definition noted (o o' : option TokenTrust) : Prop :=
  o' = o \/ exists t text wall, o = Some t /\ o' = Some (validate_sdp text wall t).2.

Lemma verify_answer_noted text wall o : noted o (verify_answer text wall o).2.
Proof.
  unfold verify_answer. destruct o as [t|]; [|by left]. right. exists t, text, wall. split; [done|].
  by destruct (validate_sdp text wall t).
Qed.

Lemma verify_answer_authentic `{blaws : !Base64Laws b64} `{slaws : !SerdeLaws serde} text wall t :
  is_ok (verify_answer text wall (Some t)).1 = true -> exists claims, authentic t text wall claims.
Proof.
  cbn. destruct (validate_sdp text wall t) as [[claims| |] t'] eqn:E; [|done..]. intros _.
  apply validate_sdp_authentic in E as [_ Ha]. by exists claims.
Qed.

Lemma noted_trusted (trusted : TokenTrust -> Prop) o o' :
  (forall t text wall, trusted t -> trusted (validate_sdp text wall t).2) ->
  noted o o' -> (exists t, o = Some t /\ trusted t) -> exists t, o' = Some t /\ trusted t.
Proof. intros Hn [->|(t & text & wall & -> & ->)] (t1 & Ht & Htr); [by exists t1|]. simplify_eq. eauto. Qed.

End trust.
