(* ===== verification/LanServer.v ===== *)
(** * LanServer: the LAN server polled once per frame ([bevy-nethernet/src/server.rs])

    The server joins the LAN signaler, admission, the session table and the
    commands to the pool.  What the sockets and the pool's thread give a frame
    (datagrams, events), the random draws and clock readings of new sessions, and
    the order of the session map are arguments of [update]; the datagrams it
    sends are its result. *)
From S2P Require Import Prelude Text Errors Codec SignalMsg ServerDataModel Discovery Endpoint Router Sans.
From S2P Require Import LanSignaler Candidate Identity ServerIdentity Webrtc Framing Transports.
From S2P Require Import Session Connection Admission Pending Pool ServerSessions.

Definition MAX_DATAGRAMS_PER_TICK : nat := 1024.

Section server.
Context `{b64 : Base64} `{serde : Serde} `{p384 : P384} `{rsa : Rsa} `{Stun}.
Context {crypto : CryptoOps} {sdp : Sdp} {cand : IceCandidate} {cert : CertificateOps}
  {iceops : IceOps} {dtlsops : DtlsOps} {sctpops : SctpOps} {dcepops : DcepOps}.

Record NetherServer := {
  signaler : LanSignaler;
  session_local_addr : SocketAddr;
  advertised_addrs : list IpAddr;
  server_identity : option ServerIdentity;
  server_trust : option TokenTrust;
  infer_candidates : bool;
  timeouts : Timeouts;
  pending_limits : PendingLimits;
  table : Table (X := unit);
}.

Definition server_new (network_id : Z) (c : LanSignalerConfig) (local : SocketAddr)
    (advertised : list IpAddr) : NetherServer := {|
  signaler := lan_new network_id c; session_local_addr := local; advertised_addrs := advertised;
  server_identity := None; server_trust := None; infer_candidates := true;
  timeouts := Timeouts_default; pending_limits := PendingLimits_default; table := table_new |}.

Definition set_signaler (x : LanSignaler) (s : NetherServer) : NetherServer := {|
  signaler := x; session_local_addr := session_local_addr s; advertised_addrs := advertised_addrs s;
  server_identity := server_identity s; server_trust := server_trust s;
  infer_candidates := infer_candidates s; timeouts := timeouts s;
  pending_limits := pending_limits s; table := table s |}.
Definition set_table (x : Table) (s : NetherServer) : NetherServer := {|
  signaler := signaler s; session_local_addr := session_local_addr s;
  advertised_addrs := advertised_addrs s; server_identity := server_identity s;
  server_trust := server_trust s; infer_candidates := infer_candidates s; timeouts := timeouts s;
  pending_limits := pending_limits s; table := x |}.
Definition set_identity (x : ServerIdentity) (s : NetherServer) : NetherServer := {|
  signaler := signaler s; session_local_addr := session_local_addr s;
  advertised_addrs := advertised_addrs s; server_identity := Some x;
  server_trust := server_trust s; infer_candidates := infer_candidates s; timeouts := timeouts s;
  pending_limits := pending_limits s; table := table s |}.
Definition set_server_trust (x : option TokenTrust) (s : NetherServer) : NetherServer := {|
  signaler := signaler s; session_local_addr := session_local_addr s;
  advertised_addrs := advertised_addrs s; server_identity := server_identity s; server_trust := x;
  infer_candidates := infer_candidates s; timeouts := timeouts s;
  pending_limits := pending_limits s; table := table s |}.
Definition set_timeouts (x : Timeouts) (s : NetherServer) : NetherServer := {|
  signaler := signaler s; session_local_addr := session_local_addr s;
  advertised_addrs := advertised_addrs s; server_identity := server_identity s;
  server_trust := server_trust s; infer_candidates := infer_candidates s; timeouts := x;
  pending_limits := pending_limits s; table := table s |}.
Definition set_infer_peer_candidates (x : bool) (s : NetherServer) : NetherServer := {|
  signaler := signaler s; session_local_addr := session_local_addr s;
  advertised_addrs := advertised_addrs s; server_identity := server_identity s;
  server_trust := server_trust s; infer_candidates := x; timeouts := timeouts s;
  pending_limits := pending_limits s; table := table s |}.
Definition set_pending_limits (x : PendingLimits) (s : NetherServer) : NetherServer := {|
  signaler := signaler s; session_local_addr := session_local_addr s;
  advertised_addrs := advertised_addrs s; server_identity := server_identity s;
  server_trust := server_trust s; infer_candidates := infer_candidates s; timeouts := timeouts s;
  pending_limits := x; table := table s |}.

(** [let _ = self.signaler.handle(..)]. *)
Definition feed_signaler (i : LanSignalerInput) (s : NetherServer) : Res unit NetherServer :=
  match handle i (signaler s) with
  | (Panic, _) => Panic
  | (_, l) => Ok (set_signaler l s)
  end.

Fixpoint feed_signals (l : list Signal) (now : Instant) (s : NetherServer) : Res unit NetherServer :=
  match l with
  | [] => Ok s
  | sig :: l => s ← feed_signaler (ISignal sig now) s; feed_signals l now s
  end.

Definition set_server_data (data : ServerData) (s : NetherServer) : Res unit NetherServer :=
  feed_signaler (SetServerData data) s.

(** The policy an offer is admitted under. *)
Definition offer_policy (s : NetherServer) : OfferPolicy :=
  let policy := with_inferred_peer_candidates (infer_candidates s) (policy_new Trickle) in
  let policy := with_establish_deadline (establish (timeouts s)) policy in
  let policy := match server_identity s with
                | Some identity => with_identity identity policy
                | None => policy
                end in
  match server_trust s with
  | Some trust => with_token_trust trust policy
  | None => policy
  end.

(** A token trust is shared with the policy: what admission notes in it stays. *)
Definition handle_offer (offer : Signal) (now : Instant) (draw : Draw) (s : NetherServer)
    : Res unit NetherServer :=
  let id := {| sid_network := network_id offer; sid_connection := connection_id offer |} in
  match sessions (table s) !! id with
  | Some _ => Ok s
  | None =>
      if negb (admits_offer (pending_ids (table s)) (network_id offer) (pending_limits s))
      then feed_signaler (ISignal (signal_error (connection_id offer) IncomingConnectionIgnored
                                     (network_id offer)) now) s
      else
        let signaled_from := n ← parse_uint u64_max (network_id offer); LanSignaler.address (signaler s) n in
        let '(admitted, policy) :=
          policy_admit offer signaled_from (draw_wall draw) (offer_policy s) in
        let s := set_server_trust (token_trust policy) s in
        match (a ← admitted;
               answer_advertising a (session_local_addr s) (advertised_addrs s) (draw_ufrag draw)
                 (draw_pwd draw) (draw_random draw) (draw_clock draw) now) with
        | Panic => Panic
        | Err e =>
            feed_signaler (ISignal (signal_error (connection_id offer) (code e) (network_id offer)) now) s
        | Ok answered =>
            s ← feed_signals (signals answered) now s;
            Ok (set_table
                  (open_session id
                     {| ready := false; created := now; session_addr := None; session_rtt := None;
                        session_player := answered_player answered; extra := tt |}
                     (Admission.connection answered) (Admission.local_ufrag answered) (table s)) s)
        end
  end.

Definition handle_signal (sig : Signal) (now : Instant) (draw : Draw) (s : NetherServer)
    : Res unit NetherServer :=
  match signal_type sig with
  | Offer => handle_offer sig now draw s
  | _ =>
      let id := {| sid_network := network_id sig; sid_connection := connection_id sig |} in
      match sessions (table s) !! id with
      | Some _ => Ok (set_table (push_command (CmdSignal id sig) (table s)) s)
      | None => Ok s
      end
  end.

(** The datagrams of a frame; a dual-stack socket reports mapped addresses. *)
Fixpoint receive_datagrams (l : list (bytes * SocketAddr)) (now : Instant) (s : NetherServer)
    : Res unit NetherServer :=
  match l with
  | [] => Ok s
  | (d, addr) :: l =>
      s ← feed_signaler (IDatagram d (socket_addr_new (to_canonical (ip addr)) (port addr)) now) s;
      receive_datagrams l now s
  end.

(** One output of the signaler; [sent] is what went out on the socket. *)
Definition handle_output (o : LanSignalerOutput) (now : Instant) (draw : Draw) (s : NetherServer)
    (sent : list (bytes * SocketAddr)) : Res unit (NetherServer * list (bytes * SocketAddr)) :=
  match o with
  | Datagram buf addr => Ok (s, sent ++ [(buf, addr)])
  | OSignal sig => s ← handle_signal sig now draw s; Ok (s, sent)
  | ServerDiscovered _ _ | Wait _ => Ok (s, sent)
  end.

(** [while let Some(output) = self.signaler.poll()], the [i]-th output with the
    [i]-th draw. *)
Abbreviation Sending := (NetherServer * list (bytes * SocketAddr))%type.

Definition sending_signaler (t : Sending) : LanSignaler := signaler t.1.
Definition put_signaler (l : LanSignaler) (t : Sending) : Sending := (set_signaler l t.1, t.2).
Definition output_body (now : Instant) (draws : nat -> Draw) (i : nat) (o : LanSignalerOutput) (t : Sending)
    : Res unit Sending := handle_output o now (draws i) t.1 t.2.

Definition drain_outputs (rounds i : nat) (now : Instant) (draws : nat -> Draw) (t : Sending)
    : Res unit Sending :=
  drain_machine sending_signaler put_signaler LanSignaler.output (output_body now draws) rounds i t.

Definition update (datagrams : list (bytes * SocketAddr)) (now : Instant) (draws : nat -> Draw)
    (msgs : list (NetherSessionId * ConnectionEvent)) (order : list NetherSessionId) (s : NetherServer)
    : Res unit (NetherServer * list (bytes * SocketAddr)) :=
  s ← receive_datagrams (take MAX_DATAGRAMS_PER_TICK datagrams) now s;
  s ← feed_signaler (Update now) s;
  '(s, sent) ← drain_outputs 2 0 now draws (s, []);
  let s := set_table (drive_sessions msgs (table s)) s in
  Ok (set_table (expire_unestablished (establish (timeouts s)) now order (table s)) s, sent).

(** ** The server as a state machine *)

Inductive ServerInput :=
| SUpdate (datagrams : list (bytes * SocketAddr)) (now : Instant) (draws : nat -> Draw)
    (msgs : list (NetherSessionId * ConnectionEvent)) (order : list NetherSessionId)
| SSend (id : NetherSessionId) (channel : Channel) (data : bytes)
| SRecv | SRecvUnreliable
| SDisconnect (id : NetherSessionId)
| SNextEvent
| SSetIdentity (identity : ServerIdentity)
| SSetTokenTrust (trust : option TokenTrust)
| SSetTimeouts (t : Timeouts)
| SSetInfer (infer : bool)
| SSetPendingLimits (limits : PendingLimits)
| SSetServerData (data : ServerData).

(** The event taken out, and the next state; a refused send changes nothing. *)
Definition server_input (i : ServerInput) (s : NetherServer)
    : Res unit (option ServerEvent * NetherServer) :=
  match i with
  | SUpdate datagrams now draws msgs order =>
      '(s, _) ← update datagrams now draws msgs order s; Ok (None, s)
  | SSend id channel data =>
      match send_on id channel data (table s) with
      | Ok t => Ok (None, set_table t s)
      | Err _ => Ok (None, s)
      | Panic => Panic
      end
  | SRecv => Ok (None, set_table (recv (table s)).2 s)
  | SRecvUnreliable => Ok (None, set_table (recv_unreliable (table s)).2 s)
  | SDisconnect id => Ok (None, set_table (disconnect id (table s)) s)
  | SNextEvent => let '(ev, t) := next_event (table s) in Ok (ev, set_table t s)
  | SSetIdentity identity => Ok (None, set_identity identity s)
  | SSetTokenTrust trust => Ok (None, set_server_trust trust s)
  | SSetTimeouts t => Ok (None, set_timeouts t s)
  | SSetInfer infer => Ok (None, set_infer_peer_candidates infer s)
  | SSetPendingLimits limits => Ok (None, set_pending_limits limits s)
  | SSetServerData data => s ← set_server_data data s; Ok (None, s)
  end.

(** A run with the inputs it was given and the events taken from it. *)
Inductive server_run (s0 : NetherServer) : list ServerInput -> list ServerEvent -> NetherServer -> Prop :=
| srun_nil : server_run s0 [] [] s0
| srun_step inputs evs s i ev s' :
    server_run s0 inputs evs s -> server_input i s = Ok (ev, s') ->
    server_run s0 (inputs ++ [i]) (evs ++ option_list ev) s'.

(** ** What the parts of a frame leave alone *)

(** Only the signaler differs. *)
Definition same_but_signaler (s s' : NetherServer) : Prop :=
  table s' = table s /\ server_trust s' = server_trust s /\ pending_limits s' = pending_limits s.

#[local] Instance same_but_signaler_preorder : PreOrder same_but_signaler.
Proof.
  split; [by intros s|]. intros a b c (?&?&?) (?&?&?). unfold same_but_signaler. split_and!; congruence.
Qed.

Lemma feed_signaler_same i s s' : feed_signaler i s = Ok s' -> same_but_signaler s s'.
Proof. unfold feed_signaler. destruct (handle i (signaler s)) as [[] l]; intros [= <-]; done. Qed.

Lemma feed_signals_same l now : forall s s', feed_signals l now s = Ok s' -> same_but_signaler s s'.
Proof.
  induction l as [|g l IH]; intros s s'; cbn; [by intros <-%Ok_inj|].
  intros (s1 & H1%feed_signaler_same & H2%IH)%res_bind_inv. by etrans.
Qed.

Lemma receive_datagrams_same l now : forall s s',
  receive_datagrams l now s = Ok s' -> same_but_signaler s s'.
Proof.
  induction l as [|[d a] l IH]; intros s s'; cbn; [by intros <-%Ok_inj|].
  intros (s1 & H1%feed_signaler_same & H2%IH)%res_bind_inv. by etrans.
Qed.

(** The token trust of the server, after admission may have noted something in it. *)
Definition trust_noted (s s' : NetherServer) : Prop :=
  server_trust s' = server_trust s \/
  exists t sdp wall, server_trust s = Some t /\ server_trust s' = Some (validate_sdp sdp wall t).2.

Lemma offer_policy_trust s : token_trust (offer_policy s) = server_trust s.
Proof. unfold offer_policy. by destruct (server_identity s), (server_trust s). Qed.

(** The address the signaler has for the network id of a signal. *)
Definition known_address (sig : Signal) (s : NetherServer) : option SocketAddr :=
  n ← parse_uint u64_max (network_id sig); LanSignaler.address (signaler s) n.

(** What an offer can come to: nothing for the table, or a session under the
    offer's ids, which were not in use, within the limits, and whose player is
    the one the offer was admitted with. *)
Lemma handle_offer_cases offer now draw s s' :
  handle_offer offer now draw s = Ok s' ->
  pending_limits s' = pending_limits s /\ trust_noted s s' /\
  let id := {| sid_network := network_id offer; sid_connection := connection_id offer |} in
  (table s' = table s \/
   sessions (table s) !! id = None /\
   admits_offer (pending_ids (table s)) (network_id offer) (pending_limits s) = true /\
   exists p a e conn u,
     policy_admit offer (known_address offer s) (draw_wall draw) (offer_policy s) = (Ok a, p) /\
     ready e = false /\ session_player e = player a /\ created e = now /\
     table s' = open_session id e conn u (table s)).
Proof.
  unfold handle_offer, trust_noted. destruct (sessions (table s) !! _) eqn:Eid; [intros <-%Ok_inj; auto|].
  destruct (admits_offer _ _ _) eqn:Ea; cbn [negb].
  2:{ intros (-> & -> & ->)%feed_signaler_same. auto. }
  fold (known_address offer s). set (from := known_address offer s).
  pose proof (policy_admit_trust (offer_policy s) offer from (draw_wall draw)) as Ht.
  rewrite offer_policy_trust in Ht.
  destruct (policy_admit offer from (draw_wall draw) (offer_policy s)) as [admitted p] eqn:Ep. cbn [snd] in Ht.
  destruct (admitted ≫= _) as [answered|e|] eqn:Ew; [| |done].
  - intros (s1 & (Hs1 & Hs2 & Hs3)%feed_signals_same & <-%Ok_inj)%res_bind_inv.
    cbn [set_table set_server_trust table server_trust pending_limits] in Hs1, Hs2, Hs3 |- *.
    split; [done|]. split; [unfold trust_noted; rewrite Hs2; naive_solver|]. right. split; [done|]. split; [done|].
    apply res_bind_inv in Ew as (a & -> & Hans). apply answer_advertising_player in Hans.
    rewrite Hs1. eexists p, a, _, _, _. split; [done|].
    by refine (conj _ (conj _ (conj _ eq_refl))).
  - intros (Hs1 & Hs2 & Hs3)%feed_signaler_same.
    cbn [set_server_trust table server_trust pending_limits] in Hs1, Hs2, Hs3 |- *.
    unfold trust_noted. rewrite Hs1, Hs2, Hs3. naive_solver.
Qed.

(** A signal either keeps the table, is forwarded or, being an offer, opens a
    session. *)
Definition table_change (now : Instant) (sig : Signal) (draw : Draw) (s s' : NetherServer) : Prop :=
  pending_limits s' = pending_limits s /\ trust_noted s s' /\
  (table s' = table s \/
   (exists id g, table s' = push_command (CmdSignal id g) (table s)) \/
   (signal_type sig = Offer /\ exists p a e conn u,
      let id := {| sid_network := network_id sig; sid_connection := connection_id sig |} in
      sessions (table s) !! id = None /\
      admits_offer (pending_ids (table s)) (network_id sig) (pending_limits s) = true /\
      policy_admit sig (known_address sig s) (draw_wall draw) (offer_policy s) = (Ok a, p) /\
      ready e = false /\ session_player e = player a /\ created e = now /\
      table s' = open_session id e conn u (table s))).

Lemma handle_signal_change sig now draw s s' :
  handle_signal sig now draw s = Ok s' -> table_change now sig draw s s'.
Proof.
  unfold handle_signal, table_change. destruct (signal_type sig) eqn:Et.
  2-4: destruct (sessions (table s) !! _); intros <-%Ok_inj; unfold trust_noted; cbn; eauto 10.
  intros (Hl & Ht & [Heq|Hopen])%handle_offer_cases; [by auto|].
  split; [done|]. split; [done|]. right. right.
  destruct Hopen as (? & ? & p & a & e & conn & u & ? & ? & ? & ? & ?).
  split; [done|]. exists p, a, e, conn, u. by split_and!.
Qed.

(** The outputs of the signaler grow at the end, by datagrams, and it learns
    nothing. *)
Definition adds_datagrams (s s' : NetherServer) : Prop :=
  exists outs, LanSignaler.output (signaler s') = LanSignaler.output (signaler s) ++ outs /\
    Forall is_sent outs /\ addresses (signaler s') = addresses (signaler s) /\
    own_id (signaler s') = own_id (signaler s).

#[local] Instance adds_datagrams_preorder : PreOrder adds_datagrams.
Proof.
  split.
  - intros s. exists []. by rewrite app_nil_r.
  - intros s1 s2 s3 (o1 & E1 & H1 & A1 & W1) (o2 & E2 & H2 & A2 & W2). exists (o1 ++ o2).
    rewrite E2, E1, app_assoc. split; [done|]. split; [by apply list.Forall_app|]. split; congruence.
Qed.

Lemma adds_nothing s s' : signaler s' = signaler s -> adds_datagrams s s'.
Proof. intros E. exists []. by rewrite app_nil_r, E. Qed.

Lemma feed_signal_adds sig now s s' : feed_signaler (ISignal sig now) s = Ok s' -> adds_datagrams s s'.
Proof.
  unfold feed_signaler. cbn [handle LanSignaler_sans].
  destruct (signal_sends_datagrams sig now (signaler s)) as (outs & Ho & Hf).
  pose proof (handle_signal_addresses sig now (signaler s)) as Ha. cbn [lan_handle] in *.
  pose proof (proj2 (handle_config (ISignal sig now) (signaler s))) as Hw. cbn [lan_handle] in Hw.
  destruct (LanSignaler.handle_signal sig now (signaler s)) as [[] l]; intros [= <-]; by exists outs.
Qed.

Lemma feed_signals_adds l now : forall s s', feed_signals l now s = Ok s' -> adds_datagrams s s'.
Proof.
  induction l as [|g l IH]; intros s s'; cbn; [by intros <-%Ok_inj|].
  intros (s1 & H1%feed_signal_adds & H2%IH)%res_bind_inv. by etrans.
Qed.

Lemma handle_signal_adds sig now draw s s' : handle_signal sig now draw s = Ok s' -> adds_datagrams s s'.
Proof.
  unfold handle_signal. destruct (signal_type sig).
  2-4: destruct (sessions (table s) !! _); intros <-%Ok_inj; by apply adds_nothing.
  unfold handle_offer. destruct (sessions (table s) !! _); [by intros <-%Ok_inj|].
  destruct (negb _); [by apply feed_signal_adds|].
  destruct (policy_admit _ _ _ _) as [admitted p]. destruct (admitted ≫= _) as [answered|e|]; [| |done].
  - intros (s1 & (outs & H1 & H2 & H3)%feed_signals_adds & <-%Ok_inj)%res_bind_inv. by exists outs.
  - intros (outs & H1 & H2 & H3)%feed_signal_adds. by exists outs.
Qed.

(** *** What the signaler of a server reports and knows *)

Record signaler_ok (own : Z) (good : Signal -> Prop) (seen : Z -> SocketAddr -> Prop) (s : NetherServer)
    : Prop := {
  so_own : own_id (signaler s) = own;
  so_signals sig : OSignal sig ∈ LanSignaler.output (signaler s) -> good sig;
  so_addresses n a : LanSignaler.address (signaler s) n = Some a -> seen n a;
}.

Lemma signaler_ok_same own good seen s s' :
  signaler s' = signaler s -> signaler_ok own good seen s -> signaler_ok own good seen s'.
Proof. intros E [H1 H2 H3]. split; by rewrite E. Qed.

Lemma signaler_ok_adds own good seen s s' :
  adds_datagrams s s' -> signaler_ok own good seen s -> signaler_ok own good seen s'.
Proof.
  intros (outs & Ho & Hf & Ha & Hw) [H1 H2 H3]. split; [congruence| |].
  - intros sig. rewrite Ho, elem_of_app. intros [?|Hin]; [by apply H2|].
    rewrite list.Forall_forall in Hf. by destruct (Hf _ Hin) as (? & ? & ?).
  - intros n a. unfold LanSignaler.address. rewrite Ha. apply H3.
Qed.

Lemma signaler_ok_feed own good seen i s s' :
  feed_signaler i s = Ok s' ->
  (forall buf addr now, i = IDatagram buf addr now ->
     (forall sig, carries_signal own buf sig -> good sig) /\
     forall packet n, decode buf = Ok (packet, n) -> seen n addr) ->
  signaler_ok own good seen s -> signaler_ok own good seen s'.
Proof.
  intros Hf Hi [H1 H2 H3].
  assert (signaler s' = (lan_handle i (signaler s)).2) as E.
  { unfold feed_signaler in Hf. cbn [handle LanSignaler_sans] in Hf.
    destruct (lan_handle i (signaler s)) as [[] l]; by simplify_eq. }
  split; rewrite E.
  - by rewrite (proj2 (handle_config i (signaler s))).
  - intros sig [?|(buf & addr & now & -> & Hc)]%handle_reports; [by apply H2|].
    rewrite H1 in Hc. by apply (Hi _ _ _ eq_refl).
  - intros n a [?|(buf & now & packet & -> & Hd)]%handle_learns; [by apply H3|].
    by eapply (Hi _ _ _ eq_refl).
Qed.

(** Invariants that the outputs of the signaler preserve: each signal is good,
    and met with what the signaler has seen. *)
Lemma outputs_invariant (P : NetherServer -> Prop) own good seen now draws :
  (forall l x, P x -> P (set_signaler l x)) ->
  (forall sig k s s', good sig -> signaler_ok own good seen s -> table_change now sig (draws k) s s' ->
     P s -> P s') ->
  forall rounds i s sent s' sent',
    drain_outputs rounds i now draws (s, sent) = Ok (s', sent') ->
    signaler_ok own good seen s -> P s -> signaler_ok own good seen s' /\ P s'.
Proof.
  intros Hsig Hch rounds i s sent s' sent' Hd Hs HP.
  apply (drain_machine_invariant _ _ _ _ (fun t => signaler_ok own good seen t.1 /\ P t.1)) in Hd; [done| | |done].
  - intros [x y] l Hp [[H1 H2 H3] HPx]. cbn in Hp |- *. unfold sending_signaler, lan_poll in Hp. cbn in Hp.
    destruct (LanSignaler.output (signaler x)) eqn:Eo; [|done]. injection Hp as <-.
    split; [|by apply Hsig]. split; cbn; [exact H1|exact H2|exact H3].
  - intros j [x sent1] o l [x' sent2] Hp Ho [[H1 H2 H3] HPx]. cbn in Hp. unfold sending_signaler, lan_poll in Hp.
    cbn [fst] in Hp. destruct (LanSignaler.output (signaler x)) as [|o1 rest] eqn:Eo; [done|].
    injection Hp as -> <-. apply (Hsig (LanSignaler.set_output rest (signaler x))) in HPx.
    assert (signaler_ok own good seen (set_signaler (LanSignaler.set_output rest (signaler x)) x)) as Hx.
    { split; cbn; [done| |done]. intros g Hg. apply H2. cbn [fst]. rewrite Eo. by right. }
    destruct o as [buf a|sig|id data|d]; cbn in Ho; try (injection Ho as <- _; done).
    apply res_bind_inv in Ho as (x2 & Hh & [= <- _]). cbn [fst].
    split; [eapply signaler_ok_adds; [by eapply handle_signal_adds|done]|].
    apply handle_signal_change in Hh. eapply Hch; [|exact Hx|exact Hh|exact HPx]. apply H2. cbn [fst]. rewrite Eo. by left.
Qed.

(** ... when nothing is asked of the signals. *)
Lemma outputs_invariant_any (P : NetherServer -> Prop) :
  (forall l x, P x -> P (set_signaler l x)) ->
  (forall now sig draw s s', table_change now sig draw s s' -> P s -> P s') ->
  forall rounds i now draws s sent s' sent',
    drain_outputs rounds i now draws (s, sent) = Ok (s', sent') -> P s -> P s'.
Proof.
  intros Hsig Hch rounds i now draws s sent s' sent' Hd Hs.
  eapply (outputs_invariant P (own_id (signaler s)) (fun _ => True) (fun _ _ => True)) in Hd; [by destruct Hd|done| | |done].
  - intros sig k x x' _ _. apply Hch.
  - by split.
Qed.

(** ** The server is a session table *)

Lemma table_change_run t0 now sig draw s s' :
  table_change now sig draw s s' -> table_run t0 [] (table s) -> table_run t0 [] (table s').
Proof.
  intros (_ & _ & [->|[(id & g & ->)|(_ & p & a & e & conn & u & Hid & _ & _ & Hr & _ & _ & ->)]]) Hrun;
    [done| |]; eapply (table_run_app _ [] _ []); [exact Hrun| |exact Hrun|].
  - apply (table_run_one _ None), ts_signal.
  - by apply (table_run_one _ None), ts_open.
Qed.

Lemma update_run datagrams now draws msgs order s s' sent :
  update datagrams now draws msgs order s = Ok (s', sent) -> table_run (table s) [] (table s').
Proof.
  unfold update. intros (s1 & (H1 & _)%receive_datagrams_same & Hu)%res_bind_inv.
  apply res_bind_inv in Hu as (s2 & (H2 & _)%feed_signaler_same & Hu).
  apply res_bind_inv in Hu as ([s3 sent3] & H3 & [= <- _]). cbn [table set_table].
  apply (outputs_invariant_any (fun x => table_run (table s2) [] (table x)) (fun _ _ Hx => Hx)
    (table_change_run (table s2))) in H3; [|constructor].
  rewrite <- H1, <- H2. eapply (table_run_app _ [] _ []); [exact H3|].
  eapply (table_run_app _ [] _ []); [apply (table_run_one _ None), ts_drive|].
  apply (table_run_one _ None), ts_expire.
Qed.

Lemma server_input_run i s ev s' :
  server_input i s = Ok (ev, s') -> table_run (table s) (option_list ev) (table s').
Proof.
  destruct i; cbn [server_input].
  - intros ([s1 sent] & Hu%update_run & [= <- <-])%res_bind_inv. exact Hu.
  - destruct (send_on _ _ _ (table s)) eqn:E; intros [= <- <-]; [|constructor].
    apply (table_run_one _ None). by eapply ts_send.
  - intros [= <- <-]. apply (table_run_one _ None), ts_recv.
  - intros [= <- <-]. apply (table_run_one _ None), ts_recv_unreliable.
  - intros [= <- <-]. apply (table_run_one _ None), ts_disconnect.
  - intros Hn. pose proof (table_run_one _ _ _ (ts_event (table s))) as Hrun.
    destruct (next_event (table s)) as [ev0 t]. by injection Hn as <- <-.
  - intros [= <- <-]. constructor.
  - intros [= <- <-]. constructor.
  - intros [= <- <-]. constructor.
  - intros [= <- <-]. constructor.
  - intros [= <- <-]. constructor.
  - intros (s1 & (Ht & _)%feed_signaler_same & [= <- <-])%res_bind_inv. rewrite Ht. constructor.
Qed.

(** The LAN server implements the session table: every run of it from no
    sessions, whatever datagrams, pool events and calls it is given, is a run of the table with the
    same events, so that its events account for its sessions and its commands
    keep the pool sound. *)
Theorem lan_server_refines s0 inputs evs s :
  table s0 = table_new -> server_run s0 inputs evs s -> table_run table_new evs (table s).
Proof.
  intros H0. induction 1 as [|inputs evs s i ev s' _ IH Hi]; [rewrite H0; constructor|].
  eapply table_run_app; [exact IH|]. by eapply server_input_run.
Qed.

(** ** Limits on pending sessions *)

(** The limits hold and are those the run began with. *)
Definition limited (limits : PendingLimits) (s : NetherServer) : Prop :=
  pending_limits s = limits /\ pending_within limits (pending_ids (table s)).

Lemma table_change_limited limits now sig draw s s' :
  table_change now sig draw s s' -> limited limits s -> limited limits s'.
Proof.
  intros (Hl & _ & Hcase) [<- Hw]. split; [done|].
  destruct Hcase as [->|[(id & g & ->)|(_ & p & a & e & conn & u & Hid & Ha & _ & Hr & _ & _ & ->)]];
    [done|done|].
  eapply pending_within_admitted; [by apply pending_open|exact Ha|exact Hw].
Qed.

Lemma limited_table limits s t :
  pending_ids t ⊆+ pending_ids (table s) -> limited limits s -> limited limits (set_table t s).
Proof. intros Hs [H1 H2]. split; [done|]. by eapply pending_within_submseteq. Qed.

Lemma limited_same limits s s' : same_but_signaler s s' -> limited limits s -> limited limits s'.
Proof. intros (Ht & _ & Hl) [H1 H2]. split; [congruence|by rewrite Ht]. Qed.

Lemma update_limited limits datagrams now draws msgs order s s' sent :
  update datagrams now draws msgs order s = Ok (s', sent) -> limited limits s -> limited limits s'.
Proof.
  unfold update. intros (s1 & H1%receive_datagrams_same & Hu)%res_bind_inv Hs.
  apply res_bind_inv in Hu as (s2 & H2%feed_signaler_same & Hu).
  apply res_bind_inv in Hu as ([s3 sent3] & H3 & [= <- _]).
  apply (outputs_invariant_any (limited limits) (fun _ _ Hx => Hx) (table_change_limited limits)) in H3;
    [|by eapply limited_same, limited_same].
  apply (limited_table _ (set_table (drive_sessions msgs (table s3)) s3)); [apply pending_expire|].
  by apply limited_table; [apply pending_drive|].
Qed.

Lemma server_input_limited limits i s ev s' :
  (forall l, i <> SSetPendingLimits l) -> server_input i s = Ok (ev, s') ->
  limited limits s -> limited limits s'.
Proof.
  intros Hi Hin Hs. destruct i; cbn [server_input] in Hin.
  - apply res_bind_inv in Hin as ([s1 sent] & Hu & [= _ <-]). by eapply update_limited.
  - unfold send_on in Hin. destruct (sessions (table s) !! id); injection Hin as _ <-; done.
  - injection Hin as _ <-. unfold recv. by destruct (received (table s)).
  - injection Hin as _ <-. unfold recv_unreliable. by destruct (received_unreliable (table s)).
  - injection Hin as _ <-. by apply limited_table; [apply pending_disconnect|].
  - unfold next_event in Hin. destruct (events (table s)); by injection Hin as _ <-.
  - by injection Hin as _ <-.
  - by injection Hin as _ <-.
  - by injection Hin as _ <-.
  - by injection Hin as _ <-.
  - by destruct (Hi _ eq_refl).
  - apply res_bind_inv in Hin as (s1 & H1%feed_signaler_same & [= _ <-]). by eapply limited_same.
Qed.

(** However many offers arrive, a LAN server whose limits are left alone never
    has more unestablished sessions than its limit, in all and from one network id. *)
Theorem lan_pending_limits s0 inputs evs s :
  0 <= max_pending (pending_limits s0) -> 0 <= max_pending_per_network_id (pending_limits s0) ->
  table s0 = table_new -> (forall l, SSetPendingLimits l ∉ inputs) ->
  server_run s0 inputs evs s -> pending_within (pending_limits s0) (pending_ids (table s)).
Proof.
  intros H1 H2 H0 Hi Hrun. apply (proj2 (A := pending_limits s = pending_limits s0)).
  induction Hrun as [|inputs evs s i ev s' _ IH Hin].
  - split; [done|]. rewrite H0. split; [done|]. intros nid. done.
  - eapply (server_input_limited _ i s ev); [| exact Hin|apply IH].
    + intros l ->. apply (Hi l). rewrite elem_of_app, list_elem_of_singleton. auto.
    + intros l Hl. apply (Hi l). rewrite elem_of_app. auto.
Qed.
(** ** The loop over the signaler's outputs ends *)

(** When the outputs that are there are handled without a panic, the loop of a
    frame ends within the two rounds [update] gives it, with nothing left to poll. *)
Lemma lan_outputs_end i now draws s sent t1 :
  drain_turns sending_signaler put_signaler (output_body now draws)
    (length (LanSignaler.output (signaler s))) i (s, sent) = Ok t1 ->
  exists t2, drain_outputs 2 i now draws (s, sent) = Ok t2 /\ LanSignaler.output (signaler t2.1) = [].
Proof.
  intros Hr. refine (drain_machine_ends sending_signaler put_signaler LanSignaler.output (output_body now draws)
    is_sent _ _ _ _ i (s, sent) t1 Hr); [done| | |].
  - intros l o rest Ho. cbn. unfold lan_poll. rewrite Ho. by eexists.
  - intros j o [x sent1] [x' sent2] Ho. cbn in Ho.
    enough (adds_datagrams x x') as (outs & H1 & H2 & _) by by exists outs.
    destruct o as [buf a|sig|id data|d]; cbn in Ho; try (injection Ho as <- _; by apply adds_nothing).
    by apply res_bind_inv in Ho as (x2 & H2%handle_signal_adds & [= <- _]).
  - intros j o [x sent1] (buf & a & ->). by eexists.
Qed.

(** ** Who the sessions are *)

Context {blaws : Base64Laws b64} {slaws : SerdeLaws serde}.

(** A trust the server has been given, in the beginning or since. *)
Definition configured (s0 : NetherServer) (inputs : list ServerInput) (t : TokenTrust) : Prop :=
  exists t0, (server_trust s0 = Some t0 \/ SSetTokenTrust (Some t0) ∈ inputs) /\ derived t0 t.

(** The frame of the run at [now] read a datagram that carries the signal, and its
    clock showed [wall] when it handled one of its signals. *)
Definition offer_received (own : Z) (inputs : list ServerInput) (sig : Signal) (now : Instant)
    (wall : SystemTime) : Prop :=
  exists ds draws msgs order k buf addr,
    SUpdate ds now draws msgs order ∈ inputs /\ (buf, addr) ∈ take MAX_DATAGRAMS_PER_TICK ds /\
    carries_signal own buf sig /\ wall = draw_wall (draws k).

(** A frame of the run read a datagram of the peer [n] from the address [a]. *)
Definition heard_from (inputs : list ServerInput) (n : Z) (a : SocketAddr) : Prop :=
  exists ds now draws msgs order buf from packet,
    SUpdate ds now draws msgs order ∈ inputs /\ (buf, from) ∈ take MAX_DATAGRAMS_PER_TICK ds /\
    decode buf = Ok (packet, n) /\ a = socket_addr_new (to_canonical (ip from)) (port from).

(** The player of the session has claims that are authentic, under such a trust,
    for the description of an offer for this very session that was received by the
    frame that opened it, and an address this peer was heard from. *)
Definition session_authentic (trusted : TokenTrust -> Prop) (own : Z) (inputs : list ServerInput)
    (id : NetherSessionId) (e : SessionEntry (X := unit)) : Prop :=
  exists t offer wall claims from,
    trusted t /\ offer_received own inputs offer (created e) wall /\ signal_type offer = Offer /\
    network_id offer = sid_network id /\ connection_id offer = sid_connection id /\
    session_player e = Some (player_info_new claims (sid_network id) from) /\
    authentic t (signal_data offer) wall claims /\
    (forall a, from = Some a ->
       exists n, parse_uint u64_max (sid_network id) = Some n /\ heard_from inputs n a).

Section trusted.
Context (trusted : TokenTrust -> Prop) (own : Z) (all : list ServerInput).
Context (trusted_noted : forall t sdp wall, trusted t -> trusted (validate_sdp sdp wall t).2).

Definition players_ok (s : NetherServer) : Prop :=
  (exists t, server_trust s = Some t /\ trusted t) /\
  forall id e, sessions (table s) !! id = Some e -> session_authentic trusted own all id e.

Lemma table_change_players good now sig draw s s' :
  (good sig -> offer_received own all sig now (draw_wall draw)) -> good sig ->
  signaler_ok own good (heard_from all) s -> table_change now sig draw s s' -> players_ok s -> players_ok s'.
Proof.
  intros Hgood Hg [_ _ Hseen] (_ & Hnote & Hcase) [(t & Ht & Htr) Hs]. split.
  { destruct Hnote as [->|(t1 & sdp1 & wall & Ht1 & ->)]; [eauto|]. simplify_eq. eauto. }
  destruct Hcase as [->|[(id & g & ->)|(Hoff & p & a & e & conn & u & Hid & _ & Ha & _ & Hp & Hcr & ->)]];
    [done|done|]. cbn. intros i x [[<- <-]|[_ Hx]]%lookup_insert_Some; [|by apply Hs].
  apply policy_admit_inv in Ha as (_ & _ & _ & _ & _ & Hpl). rewrite offer_policy_trust, Ht in Hpl.
  destruct Hpl as (claims & Hpl & Hauth). exists t, sig, (draw_wall draw), claims, (known_address sig s).
  rewrite Hp, Hcr. split_and!; try done; [by apply Hgood|]. intros a' Hk. unfold known_address in Hk. cbn [sid_network].
  destruct (parse_uint _ _) as [n|]; [|done]. exists n. split; [done|]. by apply Hseen.
Qed.

Lemma players_ok_table s t : players_kept (table s) t -> players_ok s -> players_ok (set_table t s).
Proof.
  intros Hk [Ht Hs]. split; [done|]. intros id e' (e & He & Hp & Hc)%Hk.
  destruct (Hs id e He) as (tr & offer & wall & claims & from & ?&?&?&?&?&Heq&?).
  exists tr, offer, wall, claims, from. by rewrite Hp, Hc.
Qed.

Lemma players_ok_same s s' : same_but_signaler s s' -> players_ok s -> players_ok s'.
Proof. intros (Ht & Hr & _) [H1 H2]. split; [by rewrite Hr|by rewrite Ht]. Qed.

(** Between two inputs no signal is left in the signaler. *)
Abbreviation idle := (signaler_ok own (fun _ => False) (heard_from all)).

(** The signals of a frame. *)
Definition in_frame (ds : list (bytes * SocketAddr)) (sig : Signal) : Prop :=
  exists buf addr, (buf, addr) ∈ ds /\ carries_signal own buf sig.

Lemma receive_datagrams_ok ds now l : forall s s',
  l ⊆ ds ->
  (forall buf from packet n, (buf, from) ∈ ds -> decode buf = Ok (packet, n) ->
     heard_from all n (socket_addr_new (to_canonical (ip from)) (port from))) ->
  receive_datagrams l now s = Ok s' ->
  signaler_ok own (in_frame ds) (heard_from all) s -> signaler_ok own (in_frame ds) (heard_from all) s'.
Proof.
  induction l as [|[d a] l IH]; intros s s' Hl Hh; cbn; [by intros <-%Ok_inj|].
  intros (s1 & H1 & H2)%res_bind_inv Hs. eapply (IH s1); [set_solver|exact Hh|exact H2|].
  eapply signaler_ok_feed; [exact H1| |exact Hs]. intros buf addr now' [= <- <- _]. split.
  - intros sig Hc. exists d, a. split; [apply Hl; by left|done].
  - intros packet n Hd. eapply Hh; [|exact Hd]. apply Hl. by left.
Qed.

Lemma feed_quiet good seen i s s' :
  (forall buf addr now, i <> IDatagram buf addr now) -> feed_signaler i s = Ok s' ->
  signaler_ok own good seen s -> signaler_ok own good seen s'.
Proof. intros Hi Hf. eapply signaler_ok_feed; [exact Hf|]. intros buf addr now ->. by destruct (Hi buf addr now). Qed.

Lemma update_players ds now draws msgs order s s' sent :
  SUpdate ds now draws msgs order ∈ all ->
  update ds now draws msgs order s = Ok (s', sent) ->
  idle s -> players_ok s -> idle s' /\ players_ok s'.
Proof.
  intros Hall. unfold update. intros (s1 & H1 & Hu)%res_bind_inv Hidle Hs.
  apply res_bind_inv in Hu as (s2 & H2 & Hu). apply res_bind_inv in Hu as ([s3 sent3] & H3 & [= <- _]).
  set (fr := take MAX_DATAGRAMS_PER_TICK ds) in *.
  assert (signaler_ok own (in_frame fr) (heard_from all) s2) as Hok.
  { eapply feed_quiet; [|exact H2|]; [done|]. eapply (receive_datagrams_ok fr); [| |exact H1|].
    - done.
    - intros buf from packet n Hin Hd. by exists ds, now, draws, msgs, order, buf, from, packet.
    - destruct Hidle as [I1 I2 I3]. split; [done| |done]. by intros sig ?%I2. }
  assert (players_ok s2) as Hs2.
  { eapply players_ok_same; [by eapply feed_signaler_same|]. eapply players_ok_same; [by eapply receive_datagrams_same|done]. }
  pose proof (drain_machine_empty _ _ _ _ _ _ _ _ H3) as Hempty. cbn in Hempty.
  eapply (outputs_invariant players_ok own (in_frame fr) (heard_from all)) in H3 as [[O1 O2 O3] Hs3];
    [|done| |exact Hok|exact Hs2].
  - split; [split; cbn; [done| |done]|].
    + intros sig. unfold sending_signaler in Hempty. cbn in Hempty. rewrite Hempty. by intros ?%elem_of_nil.
    + apply (players_ok_table (set_table (drive_sessions msgs (table s3)) s3)); [apply players_expire|].
      by apply players_ok_table; [apply players_drive|].
  - intros sig k x x'. apply table_change_players. intros (buf & addr & Hin & Hc).
    by exists ds, draws, msgs, order, k, buf, addr.
Qed.

Lemma server_input_players i s ev s' :
  i ∈ all -> (forall x, i = SSetTokenTrust x -> exists t, x = Some t /\ trusted t) ->
  server_input i s = Ok (ev, s') -> idle s -> players_ok s -> idle s' /\ players_ok s'.
Proof.
  intros Hall Hi Hin Hid Hs.
  assert (forall t, idle (set_table t s)) as Hsame by (intros t; by apply (signaler_ok_same _ _ _ s)).
  destruct i; cbn [server_input] in Hin.
  - apply res_bind_inv in Hin as ([s1 sent] & Hu & [= _ <-]). by eapply update_players.
  - unfold send_on in Hin. destruct (sessions (table s) !! id); injection Hin as _ <-; [|done].
    split; [apply Hsame|exact Hs].
  - injection Hin as _ <-. split; [apply Hsame|]. unfold recv. by destruct (received (table s)).
  - injection Hin as _ <-. split; [apply Hsame|]. unfold recv_unreliable. by destruct (received_unreliable (table s)).
  - injection Hin as _ <-. split; [apply Hsame|]. by apply players_ok_table; [apply players_disconnect|].
  - unfold next_event in Hin. destruct (events (table s)); injection Hin as _ <-; (split; [apply Hsame|exact Hs]).
  - injection Hin as _ <-. split; [by apply (signaler_ok_same _ _ _ s)|exact Hs].
  - injection Hin as _ <-. destruct (Hi _ eq_refl) as (t & -> & Ht). destruct Hs as [_ Hs].
    split; [by apply (signaler_ok_same _ _ _ s)|]. split; [by exists t|done].
  - injection Hin as _ <-. split; [by apply (signaler_ok_same _ _ _ s)|exact Hs].
  - injection Hin as _ <-. split; [by apply (signaler_ok_same _ _ _ s)|exact Hs].
  - injection Hin as _ <-. split; [by apply (signaler_ok_same _ _ _ s)|exact Hs].
  - apply res_bind_inv in Hin as (s1 & H1 & [= _ <-]). split; [by eapply (feed_quiet _ _ (SetServerData data)); [intros|exact H1|]|].
    by eapply players_ok_same; [eapply feed_signaler_same|].
Qed.

Lemma server_run_players s0 inputs evs s :
  server_run s0 inputs evs s -> idle s0 -> players_ok s0 -> inputs ⊆ all ->
  (forall x, SSetTokenTrust x ∈ inputs -> exists t, x = Some t /\ trusted t) -> idle s /\ players_ok s.
Proof.
  intros Hrun Hi0 Hs0. induction Hrun as [|inputs evs s i ev s' _ IH Hin]; intros Hall Hset; [done|].
  destruct IH as [Hi Hs]; [set_solver| |].
  - intros x Hx. apply Hset. rewrite elem_of_app. auto.
  - eapply (server_input_players i s ev); [set_solver| |exact Hin|done|done].
    intros x ->. apply Hset. rewrite elem_of_app, list_elem_of_singleton. auto.
Qed.
End trusted.

(** C12: On a LAN server that starts with no sessions and with a token trust and
    is never told to skip validation, every session in the table, established or
    not, was opened for an offer that the server read from a datagram of its run
    in the frame that opened the session, and that names exactly this session, by
    network id and connection id; the claims of the session's player are authentic
    for the description of that offer, under a trust the server was given, at a
    clock reading of that frame; and the player's address, if it has one, is one
    that this peer was heard from in the run. *)
Theorem lan_sessions_authentic s0 own c inputs evs s id e :
  signaler s0 = lan_new own c -> table s0 = table_new -> is_Some (server_trust s0) ->
  SSetTokenTrust None ∉ inputs -> server_run s0 inputs evs s -> sessions (table s) !! id = Some e ->
  session_authentic (configured s0 inputs) own inputs id e.
Proof.
  intros Hsig H0 [t0 Ht0] Hnone Hrun.
  refine (proj2 (proj2 (server_run_players (configured s0 inputs) own inputs _ s0 inputs evs s Hrun _ _ _ _)) id e).
  - intros t sdp1 wall (t1 & Ht1 & Hd). exists t1. split; [done|]. by constructor.
  - split; rewrite Hsig; [done|by intros sig ?%elem_of_nil|done].
  - split; [|by rewrite H0]. exists t0. split; [done|]. exists t0. split; [by left|constructor].
  - done.
  - intros [t|] Hx; [|done]. exists t. split; [done|]. exists t. split; [by right|constructor].
Qed.
End server.
