(* ===== verification/LanClient.v ===== *)
(** * LanClient: the LAN client polled once per frame ([bevy-nethernet/src/client.rs])

    The client joins the LAN signaler, a connection and the commands to a pool of
    one session.  What the socket and the pool's thread give a frame, the random
    draws and the clock readings are arguments; the datagrams it sends are its
    result.  The commands to the pool are kept whole. *)
From S2P Require Import Prelude Text Errors Codec SignalMsg ServerDataModel Discovery Endpoint Router Sans.
From S2P Require Import LanSignaler Identity ServerIdentity Webrtc Framing Transports.
From S2P Require Import Session Connection Pool ServerSessions.

Definition MAX_DATAGRAMS_PER_TICK : nat := 1024.
Definition DEFAULT_ATTEMPTS : Z := 3.

Inductive NetherClientEvent :=
| EvServerDiscovered (id : Z) (data : ServerData)
| EvConnected
| EvDisconnected.

(** What an attempt draws and the clocks it reads. *)
Record AttemptDraw := {
  at_session : Instant; at_ufrag : bytes; at_pwd : bytes; at_random : bytes; at_connection_id : Z;
  at_describe : SystemTime; at_now : Instant; at_wall : SystemTime;
}.

Section client.
Context `{b64 : Base64} `{serde : Serde} `{p384 : P384} `{rsa : Rsa} `{Stun}.
Context {crypto : CryptoOps} {sdp : Sdp} {cand : IceCandidate} {cert : CertificateOps}
  {iceops : IceOps} {dtlsops : DtlsOps} {sctpops : SctpOps} {dcepops : DcepOps}.

Abbreviation Cmd := (Command (K := unit)).

(** The state of the one connection. *)
Record Link := {
  connected : bool;
  connecting_deadline : option Instant;
  answered : bool;
  attempts_left : Z;
  target : Z;
  ready : bool;
  remote_addr : option SocketAddr;
  rtt : option Duration;
}.

Record NetherClient := {
  signaler : LanSignaler;
  session_local_addr : SocketAddr;
  advertised_addrs : list IpAddr;
  timeouts : Timeouts;
  attempts : Z;
  identity : option ServerIdentity;
  server_trust : option TokenTrust;
  link : Link;
  received : list bytes;
  received_unreliable : list bytes;
  events : list NetherClientEvent;
  commands : list Cmd;
}.

Definition client_new (network_id : Z) (c : LanSignalerConfig) (local : SocketAddr)
    (advertised : list IpAddr) : NetherClient := {|
  signaler := lan_new network_id c; session_local_addr := local; advertised_addrs := advertised;
  timeouts := Timeouts_default; attempts := DEFAULT_ATTEMPTS; identity := None; server_trust := None;
  link := {| connected := false; connecting_deadline := None; answered := false; attempts_left := 0;
             target := 0; ready := false; remote_addr := None; rtt := None |};
  received := []; received_unreliable := []; events := []; commands := [] |}.

Definition set_link (x : Link) (s : NetherClient) : NetherClient := {|
  signaler := signaler s; session_local_addr := session_local_addr s;
  advertised_addrs := advertised_addrs s; timeouts := timeouts s; attempts := attempts s;
  identity := identity s; server_trust := server_trust s; link := x; received := received s;
  received_unreliable := received_unreliable s; events := events s; commands := commands s |}.
Definition set_signaler (x : LanSignaler) (s : NetherClient) : NetherClient := {|
  signaler := x; session_local_addr := session_local_addr s;
  advertised_addrs := advertised_addrs s; timeouts := timeouts s; attempts := attempts s;
  identity := identity s; server_trust := server_trust s; link := link s; received := received s;
  received_unreliable := received_unreliable s; events := events s; commands := commands s |}.
Definition set_queues (r u : list bytes) (ev : list NetherClientEvent) (s : NetherClient) : NetherClient := {|
  signaler := signaler s; session_local_addr := session_local_addr s;
  advertised_addrs := advertised_addrs s; timeouts := timeouts s; attempts := attempts s;
  identity := identity s; server_trust := server_trust s; link := link s; received := r;
  received_unreliable := u; events := ev; commands := commands s |}.
Definition push_command (c : Cmd) (s : NetherClient) : NetherClient := {|
  signaler := signaler s; session_local_addr := session_local_addr s;
  advertised_addrs := advertised_addrs s; timeouts := timeouts s; attempts := attempts s;
  identity := identity s; server_trust := server_trust s; link := link s; received := received s;
  received_unreliable := received_unreliable s; events := events s; commands := commands s ++ [c] |}.
Definition push_event (e : NetherClientEvent) (s : NetherClient) : NetherClient :=
  set_queues (received s) (received_unreliable s) (events s ++ [e]) s.

(** The settings. *)
Definition set_settings (t : Timeouts) (n : Z) (i : option ServerIdentity) (trust : option TokenTrust)
    (s : NetherClient) : NetherClient := {|
  signaler := signaler s; session_local_addr := session_local_addr s;
  advertised_addrs := advertised_addrs s; timeouts := t; attempts := n; identity := i;
  server_trust := trust; link := link s; received := received s;
  received_unreliable := received_unreliable s; events := events s; commands := commands s |}.
Definition set_identity (i : ServerIdentity) (s : NetherClient) : NetherClient :=
  set_settings (timeouts s) (attempts s) (Some i) (server_trust s) s.
Definition set_server_trust (t : option TokenTrust) (s : NetherClient) : NetherClient :=
  set_settings (timeouts s) (attempts s) (identity s) t s.
Definition set_timeouts (t : Timeouts) (s : NetherClient) : NetherClient :=
  set_settings t (attempts s) (identity s) (server_trust s) s.
Definition set_attempts (n : Z) (s : NetherClient) : NetherClient :=
  set_settings (timeouts s) n (identity s) (server_trust s) s.

Definition is_connected (s : NetherClient) : bool := ready (link s).

(** Changes of the link. *)
Definition with_attempts_left (n : Z) (l : Link) : Link := {|
  connected := connected l; connecting_deadline := connecting_deadline l; answered := answered l;
  attempts_left := n; target := target l; ready := ready l; remote_addr := remote_addr l; rtt := rtt l |}.
Definition with_connected (b : bool) (d : option Instant) (l : Link) : Link := {|
  connected := b; connecting_deadline := d; answered := answered l; attempts_left := attempts_left l;
  target := target l; ready := ready l; remote_addr := remote_addr l; rtt := rtt l |}.

Definition saturating_sub (a b : Z) : Z := Z.max 0 (a - b).

(** [let _ = self.signaler.handle(..)]. *)
Definition feed (i : LanSignalerInput) (s : NetherClient) : Res unit NetherClient :=
  match handle i (signaler s) with
  | (Panic, _) => Panic
  | (_, l) => Ok (set_signaler l s)
  end.

(** ** Connecting *)

(** The loop over the signals of an attempt: the offer is signed. *)
Fixpoint offer_signals (l : list Signal) (wall : SystemTime) (now : Instant) : SE NetherClient unit unit := fun s =>
  match l with
  | [] => (Ok tt, s)
  | g :: l =>
      match (match identity s, signal_type g with
             | Some i, Offer => (fun d => signal_new Offer (connection_id g) d (network_id g))
                                  <$> map_err (fun _ => tt) (augment i (signal_data g) wall)
             | _, _ => Ok g
             end) with
      | Panic => (Panic, s)
      | Err e => (Err e, s)
      | Ok g =>
          match feed (ISignal g now) s with
          | Ok s => offer_signals l wall now s
          | _ => (Panic, s)
          end
      end
  end.

Definition begin_attempt (d : AttemptDraw) : SE NetherClient unit unit := fun s =>
  let s := set_link (with_attempts_left (saturating_sub (attempts_left (link s)) 1) (link s)) s in
  match session_with_advertised (session_local_addr s) (advertised_addrs s) true (at_ufrag d)
          (at_pwd d) (at_random d) (at_session d) with
  | Panic => (Panic, s)
  | Err _ => (Err tt, s)
  | Ok (session, description) =>
      let session := set_establish_deadline (establish (timeouts s)) session in
      let local_ufrag := Webrtc.ufrag (Webrtc.ice description) in
      let '(connection, signals) :=
        connect session description (at_connection_id d) (dec (target (link s))) Trickle (at_describe d) in
      match offer_signals signals (at_wall d) (at_now d) s with
      | (Ok _, s) =>
          let s := if connected (link s) then push_command (Remove tt) s else s in
          let s := push_command (Add tt connection local_ufrag) s in
          (Ok tt, set_link {| connected := true;
             connecting_deadline := Some (at_now d + negotiation (timeouts s)); answered := false;
             attempts_left := attempts_left (link s); target := target (link s); ready := false;
             remote_addr := None; rtt := None |} s)
      | r => r
      end
  end.

Definition client_connect (target_network_id : Z) (d : AttemptDraw) : SE NetherClient unit unit := fun s =>
  let l := link s in
  begin_attempt d (set_link {| connected := connected l; connecting_deadline := connecting_deadline l;
    answered := answered l; attempts_left := Z.max (attempts s) 1; target := target_network_id;
    ready := ready l; remote_addr := remote_addr l; rtt := rtt l |} s).

Definition disconnect (s : NetherClient) : NetherClient :=
  let s := set_link (with_connected (connected (link s)) None (link s)) s in
  let s := if connected (link s)
           then let s := push_command (Remove tt) s in set_link (with_connected false None (link s)) s
           else s in
  if ready (link s) then
    let l := link s in
    push_event EvDisconnected
      (set_link {| connected := connected l; connecting_deadline := connecting_deadline l;
                   answered := answered l; attempts_left := attempts_left l; target := target l;
                   ready := false; remote_addr := None; rtt := None |} s)
  else s.

Definition send_on (channel : Channel) (data : bytes) (s : NetherClient) : Res ProtocolError NetherClient :=
  if negb (connected (link s)) then Err (Other (str "not connected"))
  else Ok (push_command (CmdSend tt channel data) s).

Definition recv (s : NetherClient) : option bytes * NetherClient :=
  match received s with
  | [] => (None, s)
  | m :: rest => (Some m, set_queues rest (received_unreliable s) (events s) s)
  end.
Definition recv_unreliable (s : NetherClient) : option bytes * NetherClient :=
  match received_unreliable s with
  | [] => (None, s)
  | m :: rest => (Some m, set_queues (received s) rest (events s) s)
  end.
Definition next_event (s : NetherClient) : option NetherClientEvent * NetherClient :=
  match events s with
  | [] => (None, s)
  | e :: rest => (Some e, set_queues (received s) (received_unreliable s) rest s)
  end.

(** ** The frame *)

(** An answer is verified first; what the trust notes stays. *)
Definition handle_signal (g : Signal) (now : Instant) (wall : SystemTime) (s : NetherClient)
    : Res unit NetherClient :=
  if bool_decide (signal_type g = Offer) || negb (connected (link s)) then Ok s
  else
    let deciding := negb (answered (link s)) && bool_decide (is_Some (connecting_deadline (link s))) in
    if bool_decide (signal_type g = Answer) then
      let '(r, trust) := verify_answer (signal_data g) wall (server_trust s) in
      let s := set_server_trust trust s in
      match r with
      | Panic => Panic
      | Err _ =>
          if deciding then
            s ← feed (ISignal (signal_error (connection_id g) FailedToSetRemoteDescription
                                 (dec (target (link s)))) now) s;
            let s := push_command (Remove tt) s in
            Ok (push_event EvDisconnected (set_link (with_connected false None (link s)) s))
          else Ok s
      | Ok _ =>
          let l := link s in
          let s := if deciding
                   then set_link {| connected := connected l;
                          connecting_deadline := Some (now + establish (timeouts s)); answered := true;
                          attempts_left := attempts_left l; target := target l; ready := ready l;
                          remote_addr := remote_addr l; rtt := rtt l |} s
                   else s in
          Ok (push_command (CmdSignal tt g) s)
      end
    else Ok (push_command (CmdSignal tt g) s).

Fixpoint receive_datagrams (l : list (bytes * SocketAddr)) (now : Instant) (s : NetherClient)
    : Res unit NetherClient :=
  match l with
  | [] => Ok s
  | (d, addr) :: l => s ← feed (IDatagram d addr now) s; receive_datagrams l now s
  end.

Abbreviation Sending := (NetherClient * list (bytes * SocketAddr))%type.

Definition sending_signaler (t : Sending) : LanSignaler := signaler t.1.
Definition put_signaler (l : LanSignaler) (t : Sending) : Sending := (set_signaler l t.1, t.2).

Definition output_body (now : Instant) (walls : nat -> SystemTime) (i : nat) (o : LanSignalerOutput)
    (t : Sending) : Res unit Sending :=
  let '(s, sent) := t in
  match o with
  | Datagram buf addr => Ok (s, sent ++ [(buf, addr)])
  | ServerDiscovered id data => Ok (push_event (EvServerDiscovered id data) s, sent)
  | OSignal g => s ← handle_signal g now (walls i) s; Ok (s, sent)
  | Wait _ => Ok (s, sent)
  end.

Definition drain_outputs (rounds i : nat) (now : Instant) (walls : nat -> SystemTime) (t : Sending)
    : Res unit Sending :=
  drain_machine sending_signaler put_signaler LanSignaler.output (output_body now walls) rounds i t.

Definition apply_event (s : NetherClient) (e : ConnectionEvent) : NetherClient :=
  let l := link s in
  match e with
  | EvReady addr =>
      if ready l then s
      else push_event EvConnected (set_link {| connected := connected l; connecting_deadline := None;
             answered := answered l; attempts_left := attempts_left l; target := target l; ready := true;
             remote_addr := addr; rtt := rtt l |} s)
  | EvRtt d => set_link {| connected := connected l; connecting_deadline := connecting_deadline l;
             answered := answered l; attempts_left := attempts_left l; target := target l;
             ready := ready l; remote_addr := remote_addr l; rtt := Some d |} s
  | EvMessage Reliable data => set_queues (received s ++ [data]) (received_unreliable s) (events s) s
  | EvMessage Unreliable data => set_queues (received s) (received_unreliable s ++ [data]) (events s) s
  | EvFailed => push_event EvDisconnected (set_link (with_connected false None l) s)
  end.

(** The deadline of negotiation and establishment. *)
Definition check_deadline (now : Instant) (d : AttemptDraw) (s : NetherClient) : Res unit NetherClient :=
  let abandon s := push_event EvDisconnected
    (push_command (Remove tt) (set_link (with_connected false None (link s)) s)) in
  match connecting_deadline (link s) with
  | Some deadline =>
      if deadline <=? now then
        if negb (answered (link s)) && (0 <? attempts_left (link s)) then
          match begin_attempt d s with
          | (Ok _, s) => Ok s
          | (Err _, s) => Ok (abandon s)
          | (Panic, _) => Panic
          end
        else Ok (abandon s)
      else Ok s
  | None => Ok s
  end.

Record Frame := {
  f_now : Instant;
  f_datagrams : list (bytes * SocketAddr);
  f_walls : nat -> SystemTime;
  f_msgs : list ConnectionEvent;
  f_attempt : AttemptDraw;
}.

Definition update (f : Frame) (s : NetherClient) : Res unit (NetherClient * list (bytes * SocketAddr)) :=
  s ← receive_datagrams (take MAX_DATAGRAMS_PER_TICK (f_datagrams f)) (f_now f) s;
  s ← feed (Update (f_now f)) s;
  '(s, sent) ← drain_outputs 2 0 (f_now f) (f_walls f) (s, []);
  if negb (connected (link s)) then Ok (s, sent)
  else
    s ← check_deadline (f_now f) (f_attempt f) (fold_left apply_event (f_msgs f) s);
    Ok (s, sent).

(** ** The client as a state machine *)

Inductive ClientInput :=
| CFrame (f : Frame)
| CConnect (target_network_id : Z) (d : AttemptDraw)
| CDisconnect
| CSendOn (channel : Channel) (data : bytes)
| CRecv | CRecvUnreliable | CNextEvent
| CSetIdentity (i : ServerIdentity)
| CSetServerTrust (t : option TokenTrust)
| CSetTimeouts (t : Timeouts)
| CSetAttempts (n : Z).

(** A refused call leaves what it has changed. *)
Definition client_input (i : ClientInput) (s : NetherClient) : Res unit NetherClient :=
  match i with
  | CFrame f => '(s, _) ← update f s; Ok s
  | CConnect target d =>
      match client_connect target d s with (Panic, _) => Panic | (_, s) => Ok s end
  | CDisconnect => Ok (disconnect s)
  | CSendOn channel data =>
      match send_on channel data s with Ok s => Ok s | Err _ => Ok s | Panic => Panic end
  | CRecv => Ok (recv s).2
  | CRecvUnreliable => Ok (recv_unreliable s).2
  | CNextEvent => Ok (next_event s).2
  | CSetIdentity i => Ok (set_identity i s)
  | CSetServerTrust t => Ok (set_server_trust t s)
  | CSetTimeouts t => Ok (set_timeouts t s)
  | CSetAttempts n => Ok (set_attempts n s)
  end.

Inductive client_run (s0 : NetherClient) : list ClientInput -> NetherClient -> Prop :=
| crun_nil : client_run s0 [] s0
| crun_step inputs s i s' :
    client_run s0 inputs s -> client_input i s = Ok s' -> client_run s0 (inputs ++ [i]) s'.

(** ** What the parts of the client change *)

(** Commands are only added; [more] are those added. *)
Definition extends (more : list Cmd) (s s' : NetherClient) : Prop :=
  commands s' = commands s ++ more.

(** Nothing but the signaler, the link's times and the queues. *)
Definition quietly (s s' : NetherClient) : Prop :=
  commands s' = commands s /\ server_trust s' = server_trust s /\
  attempts_left (link s') = attempts_left (link s).

#[local] Instance quietly_preorder : PreOrder quietly.
Proof. split; [by intros s|]. intros a b c (?&?&?) (?&?&?). unfold quietly. split_and!; congruence. Qed.

Lemma feed_quietly i s s' : feed i s = Ok s' -> quietly s s' /\ link s' = link s.
Proof. unfold feed. by destruct (handle i (signaler s)) as [[] l]; intros [= <-]. Qed.

Lemma receive_quietly l now : forall s s', receive_datagrams l now s = Ok s' -> quietly s s'.
Proof.
  induction l as [|[d a] l IH]; intros s s'; cbn [receive_datagrams]; [by intros <-%Ok_inj|].
  intros (s1 & [H1 _]%feed_quietly & H2%IH)%res_bind_inv. by etrans.
Qed.

Lemma offer_signals_quietly l wall now : forall s,
  quietly s (offer_signals l wall now s).2 /\ link (offer_signals l wall now s).2 = link s.
Proof.
  induction l as [|g l IH]; intros s; cbn [offer_signals]; [done|].
  destruct (match identity s with Some _ => _ | None => _ end) as [g'| |]; [|done..].
  destruct (feed (ISignal g' now) s) as [s1| |] eqn:E; [|done..].
  apply feed_quietly in E as [Hq Hl]. destruct (IH s1) as [Hq' Hl']. split; [by etrans|congruence].
Qed.

(** An attempt uses one of those left, and adds one session to the pool when it
    succeeds, after removing the one before. *)
Lemma begin_attempt_spec d s :
  let '(r, s') := begin_attempt d s in
  server_trust s' = server_trust s /\
  attempts_left (link s') = saturating_sub (attempts_left (link s)) 1 /\
  exists more, commands s' = commands s ++ more /\
    match r with
    | Ok _ => exists conn u, more = [Add tt conn u] \/ more = [Remove tt; Add tt conn u]
    | _ => more = []
    end.
Proof.
  unfold begin_attempt. set (s1 := set_link _ s).
  assert (server_trust s1 = server_trust s /\ commands s1 = commands s /\
    attempts_left (link s1) = saturating_sub (attempts_left (link s)) 1) as (Ht & Hc & Ha) by done.
  destruct (session_with_advertised _ _ _ _ _ _ _) as [[session description]| |];
    [|by split_and!; [..|exists []; rewrite app_nil_r]..].
  destruct (connect _ _ _ _ _ _) as [connection signals].
  destruct (offer_signals_quietly signals (at_wall d) (at_now d) s1) as [(Hqc & Hqt & Hqa) Hl].
  destruct (offer_signals signals (at_wall d) (at_now d) s1) as [[u| |] s2]; cbn [snd] in *;
    [|split_and!; [congruence..|]; exists []; rewrite app_nil_r; split; [congruence|done]..].
  destruct (connected (link s2)); cbn; (split_and!; [congruence..|]); rewrite Hqc, Hc, <- ?app_assoc;
    (eexists; split; [reflexivity|eexists _, _]); [by right|by left].
Qed.

(** What a signal of the peer leads to: nothing, the end of the attempt, or a
    signal for the session, which is verified when it is an answer. *)
Lemma handle_signal_cases g now wall s s' :
  handle_signal g now wall s = Ok s' ->
  attempts_left (link s') = attempts_left (link s) /\ noted (server_trust s) (server_trust s') /\
  (commands s' = commands s \/ commands s' = commands s ++ [Remove tt] \/
   commands s' = commands s ++ [CmdSignal tt g] /\
   (signal_type g = Answer -> is_ok (verify_answer (signal_data g) wall (server_trust s)).1 = true)).
Proof.
  unfold handle_signal. destruct (_ || _); [intros <-%Ok_inj; split; [done|]; split; [by left|by left]|].
  case_bool_decide as Ea.
  2:{ intros <-%Ok_inj. split; [done|]. split; [by left|]. right. right. by split. }
  pose proof (verify_answer_noted (signal_data g) wall (server_trust s)) as Hv.
  destruct (verify_answer _ _ _) as [r trust] eqn:Ev. cbn [snd] in Hv.
  destruct r as [c|e|]; [| |done].
  - intros <-%Ok_inj. destruct (_ && _); (split; [done|]); (split; [exact Hv|]); right; right; by split.
  - destruct (_ && _); [|intros <-%Ok_inj; split; [done|]; split; [exact Hv|by left]].
    intros (s1 & [(Hc & Ht & Ha) Hl]%feed_quietly & <-%Ok_inj)%res_bind_inv. cbn in Hc, Ht, Ha.
    split; [cbn; congruence|]. split; [cbn; rewrite Ht; exact Hv|].
    right. left. cbn. congruence.
Qed.

(** ** Steps *)

(** A command that neither adds a session nor passes an answer on. *)
Definition harmless (c : Cmd) : Prop :=
  match c with
  | Add _ _ _ => False
  | CmdSignal _ g => signal_type g <> Answer
  | _ => True
  end.

(** What the client does between two attempts, and an attempt, which there must
    be some left for. *)
Inductive cstep (s s' : NetherClient) : Prop :=
| cs_other more :
    noted (server_trust s) (server_trust s') -> attempts_left (link s') = attempts_left (link s) ->
    commands s' = commands s ++ more -> Forall harmless more -> cstep s s'
| cs_answer g wall :
    noted (server_trust s) (server_trust s') -> attempts_left (link s') = attempts_left (link s) ->
    commands s' = commands s ++ [CmdSignal tt g] ->
    is_ok (verify_answer (signal_data g) wall (server_trust s)).1 = true -> cstep s s'
| cs_attempt d r :
    0 < attempts_left (link s) -> begin_attempt d s = (r, s') -> cstep s s'.

Lemma quietly_step s s' : quietly s s' -> cstep s s'.
Proof.
  intros (Hc & Ht & Ha). apply (cs_other s s' []); [by left|done|by rewrite app_nil_r|constructor].
Qed.

Lemma handle_signal_step g now wall s s' : handle_signal g now wall s = Ok s' -> cstep s s'.
Proof.
  intros (Ha & Ht & [Hc|[Hc|[Hc Hv]]])%handle_signal_cases.
  - by apply (cs_other s s' []); [..|rewrite app_nil_r|constructor].
  - apply (cs_other s s' [Remove tt]); [done..|]. by repeat constructor.
  - destruct (decide (signal_type g = Answer)) as [E|E]; [by apply (cs_answer s s' g wall); auto|].
    apply (cs_other s s' [CmdSignal tt g]); [done..|]. by repeat constructor.
Qed.

Lemma apply_event_quietly s e : quietly s (apply_event s e).
Proof. destruct e as [addr|d|[] data|]; cbn; try done. by destruct (ready (link s)). Qed.

Lemma apply_events_quietly l : forall s, quietly s (fold_left apply_event l s).
Proof. induction l as [|e l IH]; intros s; [done|]. cbn. etrans; [apply apply_event_quietly|apply IH]. Qed.

Lemma outputs_steps rounds i now walls s sent s' sent' :
  drain_outputs rounds i now walls (s, sent) = Ok (s', sent') -> rtc cstep s s'.
Proof.
  intros Hd. apply (drain_machine_invariant _ _ _ _ (fun t => rtc cstep s t.1)) in Hd; [done| | |done].
  - intros [x y] l _ Hx. eapply rtc_r; [exact Hx|]. by apply quietly_step.
  - intros j [x y] o l [x' y'] _ Ho Hx.
    assert (rtc cstep s (set_signaler l x)) as Hl by (eapply rtc_r; [exact Hx|by apply quietly_step]).
    eapply rtc_r; [exact Hl|]. destruct o as [buf a|g|id data|d]; cbn in Ho;
      try (injection Ho as <- _; by apply quietly_step).
    apply res_bind_inv in Ho as (x2 & H2 & [= <- _]). by eapply handle_signal_step.
Qed.

Lemma check_deadline_steps now d s s' : check_deadline now d s = Ok s' -> rtc cstep s s'.
Proof.
  assert (forall x, cstep x (push_event EvDisconnected (push_command (Remove tt)
    (set_link (with_connected false None (link x)) x)))) as Hab.
  { intros x. apply (cs_other _ _ [Remove tt]); [by left|done..|]. by repeat constructor. }
  unfold check_deadline. destruct (connecting_deadline (link s)) as [deadline|]; [|by intros <-%Ok_inj].
  destruct (_ <=? _); [|by intros <-%Ok_inj].
  destruct (_ && _) eqn:E; [|intros <-%Ok_inj; apply rtc_once, Hab]. to_props.
  destruct (begin_attempt d s) as [[u|e|] s1] eqn:Eb; [| |done].
  - intros <-%Ok_inj. apply rtc_once. by eapply cs_attempt.
  - intros <-%Ok_inj. eapply rtc_l; [by eapply cs_attempt|]. apply rtc_once, Hab.
Qed.

Lemma client_update_steps f s s' sent : update f s = Ok (s', sent) -> rtc cstep s s'.
Proof.
  unfold update. intros (s1 & H1%receive_quietly & Hu)%res_bind_inv.
  apply res_bind_inv in Hu as (s2 & [H2 _]%feed_quietly & Hu).
  apply res_bind_inv in Hu as ([s3 sent3] & H3%outputs_steps & Hu).
  eapply rtc_l; [by apply quietly_step; etrans|]. etrans; [exact H3|].
  destruct (connected (link s3)); cbn [negb] in Hu; [|by injection Hu as <- _].
  apply res_bind_inv in Hu as (s4 & H4%check_deadline_steps & [= <- _]).
  eapply rtc_l; [apply quietly_step, apply_events_quietly|exact H4].
Qed.

Lemma disconnect_step s : cstep s (disconnect s).
Proof.
  unfold disconnect. cbn. destruct (connected (link s)).
  - apply (cs_other _ _ [Remove tt]); [..|by repeat constructor]; by destruct (ready _); try left.
  - apply (cs_other _ _ []); [..|constructor]; rewrite ?app_nil_r; by destruct (ready _); try left.
Qed.

(** Calls other than [connect] and the setting of the trust. *)
Lemma client_input_steps i s s' :
  (forall t d, i <> CConnect t d) -> (forall t, i <> CSetServerTrust t) ->
  client_input i s = Ok s' -> rtc cstep s s'.
Proof.
  intros Hc Ht. destruct i as [f|t d| |ch data| | | |i|t|t|n]; cbn [client_input].
  - intros ([s1 sent] & Hu%client_update_steps & <-%Ok_inj)%res_bind_inv. exact Hu.
  - by destruct (Hc t d).
  - intros <-%Ok_inj. apply rtc_once, disconnect_step.
  - unfold send_on. destruct (negb _); intros <-%Ok_inj; [done|]. apply rtc_once.
    eapply (cs_other _ _ [CmdSend tt ch data]); [by left|done..|]. by repeat constructor.
  - intros <-%Ok_inj. unfold recv. destruct (received s); [done|]. by apply rtc_once, quietly_step.
  - intros <-%Ok_inj. unfold recv_unreliable. destruct (received_unreliable s); [done|]. by apply rtc_once, quietly_step.
  - intros <-%Ok_inj. unfold next_event. destruct (events s); [done|]. by apply rtc_once, quietly_step.
  - intros <-%Ok_inj. by apply rtc_once, quietly_step.
  - by destruct (Ht t).
  - intros <-%Ok_inj. by apply rtc_once, quietly_step.
  - intros <-%Ok_inj. by apply rtc_once, quietly_step.
Qed.

(** ** The loop over the signaler's outputs *)

(** What the signaler has produced since: datagrams to send. *)
Definition adds_datagrams (s s' : NetherClient) : Prop :=
  exists outs, LanSignaler.output (signaler s') = LanSignaler.output (signaler s) ++ outs /\ Forall is_sent outs.

Lemma adds_none s s' : signaler s' = signaler s -> adds_datagrams s s'.
Proof. intros E. exists []. by rewrite E, app_nil_r. Qed.

Lemma feed_signal_sends sig now s s' : feed (ISignal sig now) s = Ok s' -> adds_datagrams s s'.
Proof.
  unfold feed. cbn [handle LanSignaler_sans].
  destruct (signal_sends_datagrams sig now (signaler s)) as (outs & Ho & Hf).
  destruct (lan_handle (ISignal sig now) (signaler s)) as [[] l]; intros [= <-]; by exists outs.
Qed.

Lemma handle_signal_sends g now wall s s' : handle_signal g now wall s = Ok s' -> adds_datagrams s s'.
Proof.
  unfold handle_signal. destruct (_ || _); [intros <-%Ok_inj; by apply adds_none|].
  case_bool_decide; [|intros <-%Ok_inj; by apply adds_none].
  destruct (verify_answer _ _ _) as [[c|e|] trust]; [|destruct (_ && _)|done].
  - intros <-%Ok_inj. apply adds_none. by destruct (_ && _).
  - intros (s1 & (outs & H1 & H2)%feed_signal_sends & <-%Ok_inj)%res_bind_inv. by exists outs.
  - intros <-%Ok_inj. by apply adds_none.
Qed.

(** When the outputs that are there are handled without a panic, the loop of a
    frame ends within the two rounds [update] gives it, with nothing left to poll. *)
Lemma client_outputs_end i now walls s sent t1 :
  drain_turns sending_signaler put_signaler (output_body now walls)
    (length (LanSignaler.output (signaler s))) i (s, sent) = Ok t1 ->
  exists t2, drain_outputs 2 i now walls (s, sent) = Ok t2 /\ LanSignaler.output (signaler t2.1) = [].
Proof.
  intros Hr. refine (drain_machine_ends sending_signaler put_signaler LanSignaler.output (output_body now walls)
    is_sent _ _ _ _ i (s, sent) t1 Hr); [done| | |].
  - intros l o rest Ho. cbn. unfold lan_poll. rewrite Ho. by eexists.
  - intros j o [x sent1] [x' sent2] Ho. cbn in Ho.
    enough (adds_datagrams x x') as (outs & H1 & H2) by by exists outs.
    destruct o as [buf a|sig|id data|d]; cbn in Ho; try (injection Ho as <- _; by apply adds_none).
    by apply res_bind_inv in Ho as (x2 & H2%handle_signal_sends & [= <- _]).
  - intros j o [x sent1] (buf & a & ->). by eexists.
Qed.

(** ** Attempts *)

(** The sessions the client has added to its pool, each for one offer. *)
Definition is_add (c : Cmd) : bool := match c with Add _ _ _ => true | _ => false end.
Definition offers (s : NetherClient) : Z := blen (List.filter is_add (commands s)).

Lemma offers_app s s' more :
  commands s' = commands s ++ more -> offers s' = offers s + blen (List.filter is_add more).
Proof. intros E. unfold offers. by rewrite E, List.filter_app, blen_app. Qed.

Lemma harmless_no_add more : Forall harmless more -> List.filter is_add more = [].
Proof. induction 1 as [|[] more Hc _ IH]; cbn; done. Qed.

(** The attempts made and those left. *)
Definition attempts_within (n : Z) (s : NetherClient) : Prop :=
  offers s + attempts_left (link s) <= n /\ 0 <= attempts_left (link s).

Lemma begin_attempt_within n d s r s' :
  0 < attempts_left (link s) -> begin_attempt d s = (r, s') -> attempts_within n s -> attempts_within n s'.
Proof.
  intros Hl Hb [H1 H2]. pose proof (begin_attempt_spec d s) as Hs. rewrite Hb in Hs.
  destruct Hs as (_ & Ha & more & Hm & Hr). unfold attempts_within, saturating_sub in *.
  rewrite (offers_app _ _ _ Hm), Ha. destruct r as [u| |]; [|subst more; cbn [List.filter]; rewrite blen_nil; lia..].
  destruct Hr as (conn & uf & [->| ->]); cbn [List.filter is_add]; rewrite blen_cons, blen_nil; lia.
Qed.

Lemma cstep_within n s s' : cstep s s' -> attempts_within n s -> attempts_within n s'.
Proof.
  intros [more _ Ha Hm Hh|g wall _ Ha Hm _|d r Hl Hb] Hw.
  - destruct Hw as [H1 H2]. unfold attempts_within. rewrite (offers_app _ _ _ Hm), Ha.
    rewrite harmless_no_add, blen_nil by done. lia.
  - destruct Hw as [H1 H2]. unfold attempts_within. rewrite (offers_app _ _ _ Hm), Ha.
    cbn [List.filter is_add]. rewrite blen_nil. lia.
  - by eapply begin_attempt_within.
Qed.

(** However long it runs, the client makes at most as many offers for one
    [connect] as it has attempts, and at least one is allowed. *)
Theorem lan_client_attempts s0 target d r s1 inputs s :
  client_connect target d s0 = (r, s1) -> client_run s1 inputs s ->
  (forall t d, CConnect t d ∉ inputs) ->
  offers s <= offers s0 + Z.max (attempts s0) 1.
Proof.
  intros Hc Hrun Hno. enough (attempts_within (offers s0 + Z.max (attempts s0) 1) s) as [H1 H2] by lia.
  assert (attempts_within (offers s0 + Z.max (attempts s0) 1) s1) as H1.
  { unfold client_connect in Hc. eapply begin_attempt_within; [|exact Hc|]; cbn; [lia|].
    split; cbn; [|lia]. unfold offers. cbn. lia. }
  induction Hrun as [|inputs s i s' _ IH Hi]; [done|].
  assert (attempts_within (offers s0 + Z.max (attempts s0) 1) s) as Hs.
  { apply IH. intros t e Hin. apply (Hno t e), elem_of_app. by left. }
  assert ((exists t, i = CSetServerTrust t) \/ forall t, i <> CSetServerTrust t) as [[t ->]|Hn]
    by (destruct i; eauto; by right).
  { by injection Hi as <-. }
  apply client_input_steps in Hi; [|intros t e ->; apply (Hno t e), elem_of_app; right; by left|done].
  clear -Hs Hi. induction Hi as [|x y z Hxy _ IH]; [done|]. apply IH. by eapply cstep_within.
Qed.

(** ** Answers *)

Context {blaws : Base64Laws b64} {slaws : SerdeLaws serde}.

(** A trust the client has been given, in the beginning or since, or what it has
    become by noting something. *)
Definition configured (s0 : NetherClient) (inputs : list ClientInput) (t : TokenTrust) : Prop :=
  exists t0, (server_trust s0 = Some t0 \/ CSetServerTrust (Some t0) ∈ inputs) /\ derived t0 t.

Section trusted.
Context (trusted : TokenTrust -> Prop).
Context (trusted_noted : forall t text wall, trusted t -> trusted (validate_sdp text wall t).2).

(** Every answer that was passed on to the session is authentic. *)
Definition answers_ok (s : NetherClient) : Prop :=
  (exists t, server_trust s = Some t /\ trusted t) /\
  forall g, CmdSignal tt g ∈ commands s -> signal_type g = Answer ->
    exists t wall claims, trusted t /\ authentic t (signal_data g) wall claims.

Lemma answers_ok_more s s' more :
  noted (server_trust s) (server_trust s') -> commands s' = commands s ++ more ->
  (forall g, CmdSignal tt g ∈ more -> signal_type g = Answer ->
     exists t wall claims, trusted t /\ authentic t (signal_data g) wall claims) ->
  answers_ok s -> answers_ok s'.
Proof.
  intros Hn Hm Hg [Ht Hs]. split; [by eapply noted_trusted|].
  intros g. rewrite Hm, elem_of_app. intros [?|?]; [by apply Hs|by apply Hg].
Qed.

Lemma begin_attempt_answers d s : answers_ok s -> answers_ok (begin_attempt d s).2.
Proof.
  intros Hs. pose proof (begin_attempt_spec d s) as Hb. destruct (begin_attempt d s) as [r s'].
  destruct Hb as (Ht & _ & more & Hm & Hr). apply (answers_ok_more s s' more); [by left|done| |done].
  intros g Hg. exfalso. destruct r as [u| |]; [|subst more; by apply elem_of_nil in Hg..].
  destruct Hr as (conn & uf & [->| ->]);
    by repeat (apply elem_of_cons in Hg as [Hg|Hg]; [discriminate Hg|]); apply elem_of_nil in Hg.
Qed.

Lemma cstep_answers s s' : cstep s s' -> answers_ok s -> answers_ok s'.
Proof.
  intros [more Hn _ Hm Hh|g wall Hn _ Hm Hv|d r _ Hb] Hs.
  - eapply answers_ok_more; [exact Hn|exact Hm| |done]. intros g Hg Hga.
    rewrite list.Forall_forall in Hh. by destruct (Hh _ Hg).
  - eapply answers_ok_more; [exact Hn|exact Hm| |done]. intros g' Hg' _.
    apply list_elem_of_singleton in Hg'. injection Hg' as ->.
    destruct Hs as [(t & Ht & Htr) _]. rewrite Ht in Hv.
    apply verify_answer_authentic in Hv as [claims Ha]. eauto.
  - replace s' with (begin_attempt d s).2 by by rewrite Hb. by apply begin_attempt_answers.
Qed.

Lemma client_input_answers i s s' :
  (forall x, i = CSetServerTrust x -> exists t, x = Some t /\ trusted t) ->
  client_input i s = Ok s' -> answers_ok s -> answers_ok s'.
Proof.
  intros Hi Hin Hs.
  assert ((exists x, i = CSetServerTrust x) \/ (exists t d, i = CConnect t d) \/
          ((forall t d, i <> CConnect t d) /\ forall x, i <> CSetServerTrust x)) as [[x ->]|[(t & d & ->)|[Hc Ht]]]
    by (destruct i; eauto 10; right; right; by split).
  - injection Hin as <-. destruct (Hi x eq_refl) as (t & -> & Ht). destruct Hs as [_ Hs]. split; [by exists t|done].
  - cbn in Hin. unfold client_connect in Hin. pose proof (begin_attempt_answers d) as Hb.
    set (s1 := set_link _ s) in Hin. assert (answers_ok s1) as H1 by done.
    specialize (Hb s1 H1). destruct (begin_attempt d s1) as [[] s2]; cbn [snd] in Hb; by simplify_eq.
  - apply client_input_steps in Hin; [|done..]. clear -Hs Hin trusted_noted blaws slaws.
    induction Hin as [|x y z Hxy _ IH]; [done|]. apply IH. by eapply cstep_answers.
Qed.
End trusted.

(** A client that has a token trust and is never told to skip validation passes
    only authentic answers on to its session: each one carries a token that was
    trusted and unexpired when it arrived, and whose key signed the fingerprints
    of that very answer. *)
Theorem lan_client_answers_authentic s0 inputs s g :
  commands s0 = [] -> is_Some (server_trust s0) -> CSetServerTrust None ∉ inputs ->
  client_run s0 inputs s -> CmdSignal tt g ∈ commands s -> signal_type g = Answer ->
  exists t wall claims, configured s0 inputs t /\ authentic t (signal_data g) wall claims.
Proof.
  intros H0 [t0 Ht0] Hnone Hrun. set (trusted := configured s0 inputs).
  enough (answers_ok trusted s) as [_ Hs] by apply Hs.
  assert (forall x, CSetServerTrust x ∈ inputs -> exists t, x = Some t /\ trusted t) as Hset.
  { intros [t|] Hx; [|done]. exists t. split; [done|]. exists t. split; [by right|constructor]. }
  assert (answers_ok trusted s0) as Hs0.
  { split; [|intros g'; rewrite H0; by intros ?%elem_of_nil].
    exists t0. split; [done|]. exists t0. split; [by left|constructor]. }
  assert (forall t text wall, trusted t -> trusted (validate_sdp text wall t).2) as Hn.
  { intros t text wall (t1 & Ht1 & Hd). exists t1. split; [done|]. by constructor. }
  clearbody trusted. clear Hnone Ht0. induction Hrun as [|inputs s i s' _ IH Hi]; [done|].
  eapply (client_input_answers trusted Hn i s); [|exact Hi|].
  - intros x ->. apply Hset, elem_of_app. right. by left.
  - apply IH. intros x Hx. apply Hset, elem_of_app. by left.
Qed.

(** ** A session that fails *)

(** A failed session leaves [ready] set: the client still calls itself connected
    after it has reported the loss, and reports it again when it is told to
    disconnect. *)
Lemma failed_session_still_connected s :
  is_connected s = true ->
  is_connected (apply_event s EvFailed) = true /\
  events (disconnect (apply_event s EvFailed)) = events s ++ [EvDisconnected; EvDisconnected].
Proof.
  unfold is_connected. intros Hr. split; [done|]. unfold disconnect. cbn. rewrite Hr. cbn.
  by rewrite <- app_assoc.
Qed.
End client.
