(* ===== verification/JoinTarget.v ===== *)
(** * JoinTarget: the server URLs of the HTTP client
    ([bevy-nethernet/src/http_client.rs], [JoinTarget::parse])

    Every character the parser looks for is ASCII, so the URL is read as bytes. *)
From S2P Require Import Prelude Text.

Inductive JoinError :=
| MissingScheme | UnsupportedScheme | MissingHost | InvalidPort
| TlsUnavailable | InvalidServerName | TlsSetup.

Record JoinTarget := { secure : bool; host : bytes; port : Z; authority : bytes }.

(** [str::split_once] with a string. *)
Fixpoint split_once_str (p s : bytes) : option (bytes * bytes) :=
  match strip_prefix p s with
  | Some r => Some ([], r)
  | None =>
      match s with
      | [] => None
      | b :: s => (fun '(w, r) => (b :: w, r)) <$> split_once_str p s
      end
  end.

(** [str::rsplit_once]. *)
Definition rsplit_once (sep : byte -> bool) (s : bytes) : option (bytes * bytes) :=
  (fun '(w, r) => (rev r, rev w)) <$> split_once sep (rev s).

(** [['/', '?', '#']]. *)
Definition ends_authority (b : byte) : bool := byte_eqb x2f b || byte_eqb x3f b || byte_eqb x23 b.

(** What is after the last [@]. *)
Definition after_user (auth : bytes) : bytes :=
  match rsplit_once (is_byte x40) auth with Some (_, w) => w | None => auth end.

(** The host and the text of the port. *)
Definition host_port (s : bytes) : Res JoinError (bytes * option bytes) :=
  match strip_prefix (str "[") s with
  | Some bracketed =>
      '(h, after) ← ok_or MissingHost (split_once (is_byte x5d) bracketed);
      Ok (h, strip_prefix (str ":") after)
  | None =>
      match rsplit_once (is_byte x3a) s with
      | Some (h, p) => Ok (h, Some p)
      | None => Ok (s, None)
      end
  end.

Definition scheme_of (scheme : bytes) : Res JoinError (bool * Z) :=
  let scheme := to_ascii_lowercase scheme in
  if bytes_eqb scheme (str "http") then Ok (false, 80)
  else if bytes_eqb scheme (str "https") then Ok (true, 443)
  else Err UnsupportedScheme.

Definition target_parse (url : bytes) : Res JoinError JoinTarget :=
  '(scheme, rest) ← ok_or MissingScheme (split_once_str (str "://") url);
  '(sec, default_port) ← scheme_of scheme;
  let auth := default [] (head (split_on ends_authority rest)) in
  let host_and_port := after_user auth in
  '(h, port_text) ← host_port host_and_port;
  if blen h =? 0 then Err MissingHost
  else
    port ← match port_text with
           | Some text => ok_or InvalidPort (parse_uint u16_max text)
           | None => Ok default_port
           end;
    Ok {| secure := sec; host := h; port := port; authority := host_and_port |}.

(** ** Splitting from the right *)

Lemma rev_rev (s : bytes) : rev (rev s) = s.
Proof. apply rev_involutive. Qed.

Lemma rsplit_once_Some sep s w r :
  rsplit_once sep s = Some (w, r) -> exists c, sep c = true /\ sep_free sep r /\ s = w ++ c :: r.
Proof.
  unfold rsplit_once. destruct (split_once sep (rev s)) as [[a b]|] eqn:E; [|done]. intros [= <- <-].
  apply split_once_Some in E as (c & Hc & Ha & E). exists c. split; [done|]. split.
  - unfold sep_free in *. by apply Forall_rev.
  - rewrite <- (rev_rev s), E, rev_app_distr. cbn. by rewrite <- app_assoc.
Qed.

Lemma rsplit_once_app sep w c r :
  sep_free sep r -> sep c = true -> rsplit_once sep (w ++ c :: r) = Some (w, r).
Proof.
  intros Hr Hc. unfold rsplit_once. rewrite rev_app_distr. cbn. rewrite <- app_assoc. cbn.
  rewrite split_once_app; [cbn; by rewrite !rev_rev|by apply Forall_rev|done].
Qed.

Lemma split_once_free sep s : sep_free sep s -> split_once sep s = None.
Proof. induction 1 as [|b s Hb _ IH]; cbn; [done|]. by rewrite Hb, IH. Qed.

Lemma rsplit_once_free sep s : sep_free sep s -> rsplit_once sep s = None.
Proof. intros Hs. unfold rsplit_once. by rewrite split_once_free by by apply Forall_rev. Qed.

(** ** What a parsed URL is like *)

(** The authority that is left, which becomes the Host header, has no user
    information, path, query or fragment; the host and the port are in it. *)
Definition target_ok (t : JoinTarget) : Prop :=
  is_u16 (port t) /\ host t <> [] /\
  sep_free ends_authority (authority t) /\ sep_free (is_byte x40) (authority t) /\
  exists before after, authority t = before ++ host t ++ after /\
    (after = [] \/ (exists text, after = x3a :: text /\ parse_uint u16_max text = Some (port t)) \/
     exists rest, before = str "[" /\ after = x5d :: rest /\
       forall text, strip_prefix (str ":") rest = Some text -> parse_uint u16_max text = Some (port t)).

Lemma parse_uint_range max s n : parse_uint max s = Some n -> 0 <= n <= max.
Proof.
  unfold parse_uint. destruct (parse_digits _) as [v|] eqn:E; [|done]. apply parse_digits_nonneg in E.
  destruct (_ <=? _) eqn:El; [|done]. to_props. intros [= <-]. lia.
Qed.

Lemma head_piece_free sep s : sep_free sep (default [] (head (split_on sep s))).
Proof.
  pose proof (split_on_pieces_free sep s) as Hp. destruct (split_on sep s) as [|w ws]; cbn; [constructor|].
  by inversion Hp.
Qed.

Lemma split_once_None sep s : split_once sep s = None -> sep_free sep s.
Proof.
  induction s as [|b s IH]; cbn; [constructor|]. destruct (sep b) eqn:Eb; [done|].
  destruct (split_once sep s) as [[]|]; [done|]. intros _. constructor; [done|by apply IH].
Qed.

Lemma rsplit_once_None sep s : rsplit_once sep s = None -> sep_free sep s.
Proof.
  unfold rsplit_once. destruct (split_once sep (rev s)) as [[]|] eqn:E; [done|]. intros _.
  rewrite <- (rev_rev s). by apply Forall_rev, split_once_None.
Qed.

Lemma after_user_free auth :
  sep_free ends_authority auth ->
  sep_free ends_authority (after_user auth) /\ sep_free (is_byte x40) (after_user auth).
Proof.
  intros Ha. unfold after_user. destruct (rsplit_once (is_byte x40) auth) as [[u w]|] eqn:E.
  - apply rsplit_once_Some in E as (c & _ & Hw & ->). split; [|done].
    apply sep_free_app in Ha as [_ Ha]. by inversion Ha.
  - split; [done|]. by apply rsplit_once_None.
Qed.

Lemma host_port_spec hp h text :
  host_port hp = Ok (h, text) ->
  exists before after, hp = before ++ h ++ after /\
    (after = [] \/ (exists t, after = x3a :: t /\ text = Some t) \/
     exists rest, before = str "[" /\ after = x5d :: rest /\ text = strip_prefix (str ":") rest).
Proof.
  unfold host_port. destruct (strip_prefix (str "[") hp) as [br|] eqn:Eb.
  - apply strip_prefix_Some in Eb as ->. intros ([h2 after] & Ho & [= <- <-])%res_bind_inv.
    destruct (split_once _ br) as [[a b]|] eqn:Es; [|done]. injection Ho as <- <-.
    apply split_once_Some in Es as (c & Hc%byte_eqb_eq & _ & ->). subst c.
    exists (str "["), (x5d :: b). split; [done|]. right. right. by exists b.
  - destruct (rsplit_once _ hp) as [[a b]|] eqn:Es; intros [= <- <-].
    + apply rsplit_once_Some in Es as (c & Hc%byte_eqb_eq & _ & ->). subst c.
      exists [], (x3a :: b). split; [done|]. right. left. by exists b.
    + exists [], []. split; [by rewrite app_nil_r|by left].
Qed.

Lemma scheme_port scheme b p : scheme_of scheme = Ok (b, p) -> is_u16 p.
Proof.
  unfold scheme_of. destruct (bytes_eqb _ _); [by intros [= _ <-]|].
  destruct (bytes_eqb _ _); [by intros [= _ <-]|done].
Qed.

Lemma scheme_lower scheme x :
  scheme_of scheme = Ok x -> to_ascii_lowercase scheme = str "http" \/ to_ascii_lowercase scheme = str "https".
Proof.
  unfold scheme_of, bytes_eqb. case_bool_decide as E1; [by left|]. case_bool_decide as E2; [by right|done].
Qed.

(** C32: A URL that is accepted gives a target that is well formed: a port of 16
    bits, a host that is not empty, and an authority from which the user
    information, the path, the query and the fragment are gone and which holds
    the host and, when one is written, the decimal text of the port. *)
Theorem target_parse_ok url t : target_parse url = Ok t -> target_ok t.
Proof.
  unfold target_parse. intros ([scheme rest] & _ & ([sec dp] & Hs%scheme_port & Hp)%res_bind_inv)%res_bind_inv.
  pose proof (after_user_free _ (head_piece_free ends_authority rest)) as [H1 H2].
  revert Hp H1 H2. generalize (after_user (default [] (head (split_on ends_authority rest)))).
  intros hp ([h text] & Hh%host_port_spec & Hp)%res_bind_inv H1 H2.
  destruct (blen h =? 0) eqn:Eh; [done|]. to_props.
  apply res_bind_inv in Hp as (p & Hp & <-%Ok_inj).
  assert (is_u16 p /\ forall x, text = Some x -> parse_uint u16_max x = Some p) as [Hr Ht].
  { destruct text as [x|]; cbn in Hp; [|by injection Hp as <-].
    destruct (parse_uint u16_max x) as [q|] eqn:Eq; [|done]. injection Hp as <-.
    apply parse_uint_range in Eq as Hq. unfold is_u16, u16_max in *. split; [lia|by intros ? [= <-]]. }
  split; [done|]. split; [by intros E; cbn in E; subst h|]. split; [done|]. split; [done|].
  destruct Hh as (before & after & -> & Hc). exists before, after. split; [done|].
  destruct Hc as [?|[(x & ? & ?)|(x & ? & ? & ?)]]; [by left|right; left; eauto|].
  right. right. exists x. subst text. eauto.
Qed.

(** ** Round trip *)

Inductive UrlHost := Named (h : bytes) | Bracketed (h : bytes).

Record Url := {
  url_scheme : bytes; url_user : option bytes; url_host : UrlHost; url_port : option Z; url_tail : bytes }.

Definition host_text (h : UrlHost) : bytes :=
  match h with Named h => h | Bracketed h => str "[" ++ h ++ str "]" end.
Definition host_name (h : UrlHost) : bytes := match h with Named h => h | Bracketed h => h end.
Definition port_text (p : option Z) : bytes := match p with Some p => x3a :: dec p | None => [] end.
Definition user_text (u : option bytes) : bytes := match u with Some u => u ++ [x40] | None => [] end.
Definition url_text (u : Url) : bytes :=
  url_scheme u ++ str "://" ++ user_text (url_user u) ++ host_text (url_host u) ++ port_text (url_port u)
    ++ url_tail u.

(** A name has no colon and does not start with a bracket; an address in brackets
    has no closing bracket. *)
Definition host_ok (h : UrlHost) : Prop :=
  host_name h <> [] /\ sep_free ends_authority (host_name h) /\ sep_free (is_byte x40) (host_name h) /\
  match h with
  | Named h => sep_free (is_byte x3a) h /\ head h <> Some x5b
  | Bracketed h => sep_free (is_byte x5d) h
  end.

Definition url_ok (u : Url) : Prop :=
  host_ok (url_host u) /\
  (forall x, url_user u = Some x -> sep_free ends_authority x) /\
  (forall p, url_port u = Some p -> is_u16 p) /\
  match url_tail u with [] => True | b :: _ => ends_authority b = true end.

Lemma split_once_str_app w s :
  sep_free (is_byte x3a) w -> split_once_str (str "://") (w ++ str "://" ++ s) = Some (w, s).
Proof.
  induction 1 as [|b w Hb _ IH].
  - change ([] ++ str "://" ++ s) with (str "://" ++ s). by destruct s.
  - change ((b :: w) ++ str "://" ++ s) with (b :: (w ++ str "://" ++ s)). cbn [split_once_str].
    rewrite IH. change (strip_prefix (str "://") (b :: (w ++ str "://" ++ s))) with
      (if is_byte x3a b then strip_prefix (str "//") (w ++ str "://" ++ s) else None). by rewrite Hb.
Qed.

Lemma lowercase_scheme w t :
  to_ascii_lowercase w = t -> sep_free (is_byte x3a) t -> sep_free (is_byte x3a) w.
Proof.
  intros <-. unfold sep_free, to_ascii_lowercase. rewrite list.Forall_fmap. intros Hw.
  eapply list.Forall_impl; [exact Hw|]. intros b Hb%byte_eqb_neq. apply byte_eqb_neq.
  intros <-. by apply Hb.
Qed.

Lemma digits_free sep z :
  0 <= z -> (forall b, is_ascii_digit b = true -> sep b = false) -> sep_free sep (dec z).
Proof. intros Hz Hs. eapply list.Forall_impl; [by apply dec_all_digits|exact Hs]. Qed.

Lemma digit_free b : is_ascii_digit b = true ->
  ends_authority b = false /\ is_byte x40 b = false /\ is_byte x3a b = false.
Proof. by destruct b. Qed.

Lemma port_text_free p : (forall n, p = Some n -> is_u16 n) ->
  sep_free ends_authority (port_text p) /\ sep_free (is_byte x40) (port_text p).
Proof.
  intros Hp. destruct p as [n|]; [|by split; constructor]. specialize (Hp n eq_refl). unfold is_u16 in Hp.
  split; (constructor; [done|]); apply digits_free; try lia; intros b Hb; by destruct (digit_free b Hb) as (?&?&?).
Qed.

Lemma host_text_free h : host_ok h -> sep_free ends_authority (host_text h) /\ sep_free (is_byte x40) (host_text h).
Proof.
  intros (_ & H1 & H2 & _). destruct h as [h|h]; [done|]. cbn [host_text host_name] in *.
  split; (constructor; [done|]); apply sep_free_app; (split; [done|by repeat constructor]).
Qed.

Lemma host_port_text h p :
  host_ok h -> (forall n, p = Some n -> is_u16 n) ->
  host_port (host_text h ++ port_text p) = Ok (host_name h, dec <$> p).
Proof.
  intros (Hn & _ & _ & Hh) Hp. unfold host_port. destruct h as [h|h]; cbn [host_text host_name] in *.
  - destruct Hh as [Hc Hb].
    assert (strip_prefix (str "[") (h ++ port_text p) = None) as ->.
    { destruct h as [|b h]; [done|].
      change (strip_prefix (str "[") ((b :: h) ++ port_text p)) with
        (if byte_eqb x5b b then Some (h ++ port_text p) else None).
      destruct (byte_eqb x5b b) eqn:E; [|done]. apply byte_eqb_eq in E. by subst b. }
    destruct p as [n|]; cbn [port_text].
    + rewrite rsplit_once_app; [done| |done]. specialize (Hp n eq_refl). unfold is_u16 in Hp.
      apply digits_free; [lia|]. intros b Hb'. by destruct (digit_free b Hb') as (?&?&?).
    + rewrite app_nil_r. by rewrite rsplit_once_free.
  - rewrite <- app_assoc, strip_prefix_app, <- app_assoc. cbn [app].
    change (str "]" ++ port_text p) with (x5d :: port_text p).
    rewrite split_once_app by done. cbn. by destruct p.
Qed.

(** The parts of a URL come back: scheme in any case, host by name or in
    brackets, with or without port, whatever user information and path,
    query or fragment there is. *)
Theorem target_roundtrip u sec default_port :
  url_ok u -> scheme_of (url_scheme u) = Ok (sec, default_port) ->
  target_parse (url_text u) =
    Ok {| secure := sec; host := host_name (url_host u); port := default default_port (url_port u);
          authority := host_text (url_host u) ++ port_text (url_port u) |}.
Proof.
  intros (Hh & Hu & Hp & Ht) Hs. unfold target_parse, url_text.
  assert (sep_free (is_byte x3a) (url_scheme u)) as Hf.
  { apply scheme_lower in Hs as [E|E]; (eapply lowercase_scheme; [exact E|by repeat constructor]). }
  rewrite split_once_str_app by done. cbn [ok_or]. rewrite res_bind_Ok, Hs, res_bind_Ok.
  set (hp := host_text (url_host u) ++ port_text (url_port u)).
  assert (sep_free ends_authority hp /\ sep_free (is_byte x40) hp) as [H1 H2].
  { destruct (host_text_free _ Hh), (port_text_free _ Hp). split; by apply sep_free_app. }
  assert (sep_free ends_authority (user_text (url_user u) ++ hp)) as H3.
  { apply sep_free_app. split; [|done]. destruct (url_user u) as [x|]; [|constructor].
    apply sep_free_app. split; [by apply Hu|by repeat constructor]. }
  assert (default [] (head (split_on ends_authority
    (user_text (url_user u) ++ host_text (url_host u) ++ port_text (url_port u) ++ url_tail u)))
    = user_text (url_user u) ++ hp) as ->.
  { rewrite (app_assoc (host_text _)), app_assoc. fold hp. destruct (url_tail u) as [|b t].
    - by rewrite app_nil_r, split_on_free.
    - by rewrite split_on_app. }
  assert (after_user (user_text (url_user u) ++ hp) = hp) as ->.
  { unfold after_user. destruct (url_user u) as [x|]; cbn [user_text].
    - rewrite <- app_assoc. cbn [app]. by rewrite rsplit_once_app.
    - cbn [app]. by rewrite rsplit_once_free. }
  unfold hp. rewrite host_port_text by done. rewrite res_bind_Ok.
  destruct (blen (host_name (url_host u)) =? 0) eqn:Eb.
  { to_props. apply blen_zero_nil in Eb. by destruct Hh. }
  destruct (url_port u) as [n|]; [|done]. cbn [fmap option_fmap option_map]. specialize (Hp n eq_refl). unfold is_u16 in Hp.
  by rewrite parse_uint_dec by (unfold u16_max; lia).
Qed.

(** ** Concrete URLs *)

Definition sample_url : Url := {|
  url_scheme := str "HTTPS"; url_user := Some (str "me:x@y"); url_host := Bracketed (str "::1");
  url_port := Some 7551; url_tail := str "/v1?q" |}.

Lemma target_roundtrip_witness :
  target_parse (str "HTTPS://me:x@y@[::1]:7551/v1?q")
  = Ok {| secure := true; host := str "::1"; port := 7551; authority := str "[::1]:7551" |}.
Proof.
  apply (target_roundtrip sample_url true 443); [|reflexivity].
  split; [|split; [|split]].
  - split; [discriminate|]. split; [by repeat constructor|]. split; by repeat constructor.
  - intros x [= <-]. by repeat constructor.
  - intros p [= <-]. by unfold is_u16.
  - reflexivity.
Defined.

Lemma target_parse_ok_witness :
  target_ok {| secure := true; host := str "::1"; port := 7551; authority := str "[::1]:7551" |}.
Proof. exact (target_parse_ok (str "HTTPS://me:x@y@[::1]:7551/v1?q") _ eq_refl). Defined.

(** What is after the brackets is not looked at unless it starts with a colon. *)
Lemma garbage_after_brackets_accepted :
  target_parse (str "http://[::1]garbage") =
    Ok {| secure := false; host := str "::1"; port := 80; authority := str "[::1]garbage" |}.
Proof. reflexivity. Qed.
