(* ===== verification/HttpClient.v ===== *)
(** * HttpClient: the HTTP client polled once per frame
    ([bevy-nethernet/src/http_client.rs], with [ClientTls] of [http_stream.rs])

    A join sends one request over one stream, takes the answer from the response
    and hands the connection to a pool of one session.  What the resolver, the
    sockets, the random draws and the clocks give are arguments; the requests the
    client sends are its result.  The commands to the pool are kept whole.  The
    fields of the client are grouped in records: the link, the request it is for,
    the settings and the queues. *)
From S2P Require Import Prelude Text Errors Codec SignalMsg ServerDataModel Discovery Endpoint Router Sans.
From S2P Require Import Identity ServerIdentity HttpSignaler HttpWire HttpStream Webrtc Framing Transports.
From S2P Require Import Session Connection Pool ServerSessions JoinTarget.

(** ** [ClientTls] *)

(** What [socket.connect] reports on a non-blocking socket. *)
Inductive ConnectError := ConnWouldBlock | ConnInProgress | ConnOther.

(** [rustls::pki_types::ServerName::try_from]. *)
Class ServerNames := { server_name : bytes -> option bytes }.

(** The status of a response. *)
Class ResponseAccess (types : HttpTypes) := { response_status : ResponseHead -> Z }.

Inductive StartError :=
| SJoin (e : JoinError) | SResolve | SNotFound | SMedia | SSession (e : ProtocolError) | SIdentity
| SRequest (e : HttpWire.WireError) | SSocket.

Inductive QueryError := QueryConnection | QueryTimedOut | QueryResponse (e : StatusResponseError).

Inductive NetherHttpClientEvent :=
| HcConnected
| HcConnectFailed
| HcDisconnected
| HcServerData (data : ServerData)
| HcQueryFailed (e : QueryError).

Definition DEFAULT_ATTEMPTS : Z := 3.

Section client.
Context `{b64 : Base64} `{serde : Serde} `{p384 : P384} `{rsa : Rsa} `{Stun}.
Context {crypto : CryptoOps} {sdp : Sdp} {cand : IceCandidate} {cert : CertificateOps}
  {iceops : IceOps} {dtlsops : DtlsOps} {sctpops : SctpOps} {dcepops : DcepOps}.
Context {httparse : Httparse} {types : HttpTypes} {access : ResponseAccess types} {tlsops : TlsOps}
  {names : ServerNames} {json : StatusJson}.

Abbreviation Cmd := (Command (K := unit)).

(** What opening a stream finds: the socket, the outcome of [connect] and the
    platform's TLS settings. *)
Record Dialing := {
  dl_socket : Res unit TcpStream;
  dl_connect : Res ConnectError unit;
  dl_platform : Res unit TlsClientConfig;
}.

Definition connect_in_progress (e : ConnectError) : bool :=
  match e with ConnWouldBlock | ConnInProgress => true | ConnOther => false end.

Definition connect_socket (d : Dialing) : Res StartError TcpStream :=
  socket ← map_err (fun _ => SSocket) (dl_socket d);
  match dl_connect d with
  | Ok _ => Ok socket
  | Err e => if connect_in_progress e then Ok socket else Err SSocket
  | Panic => Panic
  end.

Definition secure_wire (tls : option TlsClientConfig) (host : bytes) (d : Dialing) : Res StartError Wire :=
  config ← match tls with
           | Some c => Ok c
           | None => map_err (fun _ => SJoin TlsSetup) (dl_platform d)
           end;
  name ← ok_or (SJoin InvalidServerName) (server_name host);
  socket ← connect_socket d;
  map_err (fun _ => SJoin TlsSetup) (wire_tls_client socket config name).

Definition dial (tls : option TlsClientConfig) (secure : bool) (host : bytes) (d : Dialing)
    : Res StartError HttpStream :=
  wire ← (if secure then secure_wire tls host d else socket ← connect_socket d; Ok (Plain socket));
  Ok (stream_new wire).

(** ** Responses *)

Inductive JoinState := JSending (s : HttpStream) | JReceiving (s : HttpStream).

Definition join_sending (s : HttpStream) (request : bytes) : JoinState := JSending (HttpStream.queue request s).

Inductive JoinStep := JPending (st : JoinState) | JDone (code : Z) (body : bytes) | JFailed.

Definition drive_join (st : JoinState) : Res unit JoinStep :=
  match st with
  | JSending stream =>
      match HttpStream.drain stream with
      | (Ok (DBlocked | DPartial), s) => Ok (JPending (JSending s))
      | (Ok (DComplete | DEmpty), s) => Ok (JPending (JReceiving s))
      | (Err _, _) => Ok JFailed
      | (Panic, _) => Panic
      end
  | JReceiving stream =>
      match HttpStream.fill stream with
      | (Ok InboundClosed, _) | (Err _, _) => Ok JFailed
      | (Ok Idle, s) => Ok (JPending (JReceiving s))
      | (Ok Received, s) =>
          match response_parse (inbound s) with
          | Ok (Complete (head, body)) =>
              match text_body body with
              | Ok body => Ok (JDone (response_status head) body)
              | Err _ => Ok JFailed
              | Panic => Panic
              end
          | Ok Partial => if blen (inbound s) >? MAX_BODY then Ok JFailed else Ok (JPending (JReceiving s))
          | Err _ => Ok JFailed
          | Panic => Panic
          end
      | (Panic, _) => Panic
      end
  end.

(** ** The client *)

Record Join := {
  join_state : JoinState;
  join_connection : Connection.Connection;
  join_ufrag : bytes;
  join_url : bytes;
}.

Record Query := { query_state : JoinState; query_deadline : Instant }.

Record Link := {
  join : option Join;
  pool : option (list Cmd);
  connected : bool;
  connecting_deadline : option Instant;
  ready : bool;
  remote_addr : option SocketAddr;
  rtt : option Duration;
}.

Record Asked := { attempts_left : Z; local_network_id : bytes; server_url : bytes }.

Record Settings := {
  timeouts : Timeouts;
  attempts : Z;
  identity : option ServerIdentity;
  server_trust : option TokenTrust;
  tls : option TlsClientConfig;
}.

Record Queues := {
  events : list NetherHttpClientEvent;
  received : list bytes;
  received_unreliable : list bytes;
}.

Record NetherHttpClient := {
  link : Link; query : option Query; asked : Asked; settings : Settings; queues : Queues }.

Definition closed_link : Link := {|
  join := None; pool := None; connected := false; connecting_deadline := None; ready := false;
  remote_addr := None; rtt := None |}.

Definition client_default : NetherHttpClient := {|
  link := closed_link; query := None;
  asked := {| attempts_left := 0; local_network_id := []; server_url := [] |};
  settings := {| timeouts := Timeouts_default; attempts := DEFAULT_ATTEMPTS; identity := None;
                 server_trust := None; tls := None |};
  queues := {| events := []; received := []; received_unreliable := [] |} |}.

Definition set_link (l : Link) (s : NetherHttpClient) : NetherHttpClient :=
  {| link := l; query := query s; asked := asked s; settings := settings s; queues := queues s |}.
Definition set_query (q : option Query) (s : NetherHttpClient) : NetherHttpClient :=
  {| link := link s; query := q; asked := asked s; settings := settings s; queues := queues s |}.
Definition set_asked (a : Asked) (s : NetherHttpClient) : NetherHttpClient :=
  {| link := link s; query := query s; asked := a; settings := settings s; queues := queues s |}.
Definition set_settings (x : Settings) (s : NetherHttpClient) : NetherHttpClient :=
  {| link := link s; query := query s; asked := asked s; settings := x; queues := queues s |}.
Definition set_queues (q : Queues) (s : NetherHttpClient) : NetherHttpClient :=
  {| link := link s; query := query s; asked := asked s; settings := settings s; queues := q |}.

Definition push_event (e : NetherHttpClientEvent) (s : NetherHttpClient) : NetherHttpClient :=
  let q := queues s in
  set_queues {| events := events q ++ [e]; received := received q;
                received_unreliable := received_unreliable q |} s.

(** *** Settings *)

Definition set_identity (i : ServerIdentity) (s : NetherHttpClient) : NetherHttpClient :=
  let x := settings s in
  set_settings {| timeouts := timeouts x; attempts := attempts x; identity := Some i;
                  server_trust := server_trust x; tls := tls x |} s.
Definition set_server_trust (t : option TokenTrust) (s : NetherHttpClient) : NetherHttpClient :=
  let x := settings s in
  set_settings {| timeouts := timeouts x; attempts := attempts x; identity := identity x;
                  server_trust := t; tls := tls x |} s.
Definition set_timeouts (t : Timeouts) (s : NetherHttpClient) : NetherHttpClient :=
  let x := settings s in
  set_settings {| timeouts := t; attempts := attempts x; identity := identity x;
                  server_trust := server_trust x; tls := tls x |} s.
Definition set_attempts (n : Z) (s : NetherHttpClient) : NetherHttpClient :=
  let x := settings s in
  set_settings {| timeouts := timeouts x; attempts := n; identity := identity x;
                  server_trust := server_trust x; tls := tls x |} s.
Definition set_tls_config (c : TlsClientConfig) (s : NetherHttpClient) : NetherHttpClient :=
  let x := settings s in
  set_settings {| timeouts := timeouts x; attempts := attempts x; identity := identity x;
                  server_trust := server_trust x; tls := Some c |} s.

Definition is_connected (s : NetherHttpClient) : bool := ready (link s).

(** *** Status queries *)

(** [to_socket_addrs] gives what the resolver found. *)
Definition resolve (url : bytes) (resolved : Res unit (list SocketAddr)) : Res StartError (JoinTarget * SocketAddr) :=
  target ← map_err SJoin (target_parse url);
  addrs ← map_err (fun _ => SResolve) resolved;
  addr ← ok_or SNotFound (head addrs);
  Ok (target, addr).

Definition open_stream (target : JoinTarget) (d : Dialing) (s : NetherHttpClient) : Res StartError HttpStream :=
  dial (tls (settings s)) (secure target) (host target) d.

Definition query_server_data (url : bytes) (resolved : Res unit (list SocketAddr)) (d : Dialing)
    (now : Instant) (s : NetherHttpClient) : Res StartError (SocketAddr * bytes * NetherHttpClient) :=
  '(target, addr) ← resolve url resolved;
  stream ← open_stream target d s;
  request ← map_err SRequest (request_get (authority target) STATUS_PATH);
  Ok (addr, request,
      set_query (Some {| query_state := join_sending stream request;
                         query_deadline := now + negotiation (timeouts (settings s)) |}) s).

Definition update_query (now : Instant) (s : NetherHttpClient) : Res unit NetherHttpClient :=
  match query s with
  | None => Ok s
  | Some q =>
      let s := set_query None s in
      step ← drive_join (query_state q);
      match step with
      | JPending st =>
          if query_deadline q <=? now then Ok (push_event (HcQueryFailed QueryTimedOut) s)
          else Ok (set_query (Some {| query_state := st; query_deadline := query_deadline q |}) s)
      | JDone code body =>
          match validate_status_response code body with
          | Ok data => Ok (push_event (HcServerData data) s)
          | Err e => Ok (push_event (HcQueryFailed (QueryResponse e)) s)
          | Panic => Panic
          end
      | JFailed => Ok (push_event (HcQueryFailed QueryConnection) s)
      end
  end.

(** *** Joining *)

(** What a join finds and draws: the resolver's and the media socket's results,
    the parts of the session, the stream and the clocks. *)
Record JoinDraw := {
  jd_resolved : Res unit (list SocketAddr);
  jd_media : Res unit (SocketAddr * list IpAddr);
  jd_session : Instant; jd_ufrag : bytes; jd_pwd : bytes; jd_random : bytes; jd_connection_id : Z;
  jd_describe : SystemTime; jd_wall : SystemTime;
  jd_dialing : Dialing;
  jd_now : Instant;
}.

(** What begins the join: its address, its request and the state that follows. *)
Definition prepare_join (d : JoinDraw) (s : NetherHttpClient) : Res StartError (SocketAddr * bytes * Join) :=
  let url := server_url (asked s) in
  '(target, addr) ← resolve url (jd_resolved d);
  '(local_addr, advertised) ← map_err (fun _ => SMedia) (jd_media d);
  '(session, description) ← map_err SSession
    (session_with_advertised local_addr advertised true (jd_ufrag d) (jd_pwd d) (jd_random d) (jd_session d));
  let session := set_establish_deadline (Connection.establish (timeouts (settings s))) session in
  let '(connection, signals) :=
    Connection.connect session description (jd_connection_id d) url Full (jd_describe d) in
  match signals with
  | [] => Panic
  | offer :: _ =>
      offer_data ← match identity (settings s) with
                   | Some i => map_err (fun _ => SIdentity) (augment i (signal_data offer) (jd_wall d))
                   | None => Ok (signal_data offer)
                   end;
      request ← map_err SRequest
        (request_post (authority target) (join_path (local_network_id (asked s))) JOIN_CONTENT_TYPE offer_data);
      stream ← open_stream target (jd_dialing d) s;
      Ok (addr, request,
          {| join_state := join_sending stream request; join_connection := connection;
             join_ufrag := Webrtc.ufrag (Webrtc.ice description); join_url := url |})
  end.

Definition use_attempt (s : NetherHttpClient) : NetherHttpClient :=
  let a := asked s in
  set_asked {| attempts_left := Z.max 0 (attempts_left a - 1);
               local_network_id := local_network_id a; server_url := server_url a |} s.

Definition begin_join (d : JoinDraw) : SE NetherHttpClient StartError (SocketAddr * bytes) := fun s =>
  let s := use_attempt s in
  match prepare_join d s with
  | Panic => (Panic, s)
  | Err e => (Err e, s)
  | Ok (addr, request, j) =>
      let l := link s in
      (Ok (addr, request),
       set_link {| join := Some j; pool := pool l; connected := connected l;
                   connecting_deadline := Some (jd_now d + negotiation (timeouts (settings s)));
                   ready := ready l; remote_addr := remote_addr l; rtt := rtt l |} s)
  end.

(** The deadline of an earlier join stays. *)
Definition client_connect (network_id url : bytes) (d : JoinDraw)
    : SE NetherHttpClient StartError (SocketAddr * bytes) := fun s =>
  begin_join d
    (set_asked {| attempts_left := Z.max (attempts (settings s)) 1; local_network_id := network_id;
                  server_url := url |}
    (set_link {| join := None; pool := None; connected := false;
                 connecting_deadline := connecting_deadline (link s); ready := false;
                 remote_addr := None; rtt := None |} s)).

Definition disconnect (s : NetherHttpClient) : NetherHttpClient :=
  let l := link s in
  let s' := set_link {| join := None; pool := None; connected := false; connecting_deadline := None;
                        ready := false; remote_addr := if ready l then None else remote_addr l;
                        rtt := if ready l then None else rtt l |} s in
  if ready l then push_event HcDisconnected s' else s'.

(** [unwrap] panics without a pool. *)
Definition send_on (channel : Channel) (data : bytes) (s : NetherHttpClient) : Res ProtocolError NetherHttpClient :=
  let l := link s in
  if negb (connected l) then Err (Other (str "not connected"))
  else match pool l with
       | None => Panic
       | Some cmds =>
           Ok (set_link {| join := join l; pool := Some (cmds ++ [CmdSend tt channel data]);
                           connected := connected l; connecting_deadline := connecting_deadline l;
                           ready := ready l; remote_addr := remote_addr l; rtt := rtt l |} s)
       end.

Definition recv (s : NetherHttpClient) : option bytes * NetherHttpClient :=
  let q := queues s in
  match received q with
  | [] => (None, s)
  | m :: rest => (Some m, set_queues {| events := events q; received := rest;
                                        received_unreliable := received_unreliable q |} s)
  end.
Definition recv_unreliable (s : NetherHttpClient) : option bytes * NetherHttpClient :=
  let q := queues s in
  match received_unreliable q with
  | [] => (None, s)
  | m :: rest => (Some m, set_queues {| events := events q; received := received q;
                                        received_unreliable := rest |} s)
  end.
Definition next_event (s : NetherHttpClient) : option NetherHttpClientEvent * NetherHttpClient :=
  let q := queues s in
  match events q with
  | [] => (None, s)
  | e :: rest => (Some e, set_queues {| events := rest; received := received q;
                                        received_unreliable := received_unreliable q |} s)
  end.

(** *** The frame *)

Definition with_join (j : option Join) (d : option Instant) (s : NetherHttpClient) : NetherHttpClient :=
  let l := link s in
  set_link {| join := j; pool := pool l; connected := connected l; connecting_deadline := d;
              ready := ready l; remote_addr := remote_addr l; rtt := rtt l |} s.

(** The join has failed. *)
Definition reject_join (s : NetherHttpClient) : NetherHttpClient :=
  push_event HcConnectFailed (with_join None None s).

(** The answer is validated, verified and handed to the connection. *)
Definition accept_answer (j : Join) (code : Z) (body : bytes) (now : Instant) (wall : SystemTime)
    (s : NetherHttpClient) : Res unit NetherHttpClient :=
  match validate_join_response code body with
  | Panic => Panic
  | Err _ => Ok (reject_join s)
  | Ok _ =>
      let '(r, trust) := verify_answer body wall (server_trust (settings s)) in
      let s := set_server_trust trust s in
      match r with
      | Panic => Panic
      | Err _ => Ok (reject_join s)
      | Ok _ =>
          let answer := signal_answer (c_connection_id (join_connection j)) body (join_url j) in
          match handle (CSignal answer now) (join_connection j) with
          | (Panic, _) => Panic
          | (Err _, _) => Ok (reject_join s)
          | (Ok _, connection) =>
              let l := link s in
              Ok (set_link {| join := None; pool := Some [Add tt connection (join_ufrag j)];
                     connected := true;
                     connecting_deadline := Some (now + Connection.establish (timeouts (settings s)));
                     ready := ready l; remote_addr := remote_addr l; rtt := rtt l |} s)
          end
      end
  end.

Definition update_join (now : Instant) (wall : SystemTime) (s : NetherHttpClient) : Res unit NetherHttpClient :=
  match join (link s) with
  | None => Ok s
  | Some j =>
      step ← drive_join (join_state j);
      match step with
      | JPending st =>
          Ok (with_join (Some {| join_state := st; join_connection := join_connection j;
                join_ufrag := join_ufrag j; join_url := join_url j |}) (connecting_deadline (link s)) s)
      | JDone code body => accept_answer j code body now wall s
      | JFailed => Ok (reject_join s)
      end
  end.

(** The connection, or the attempt to make one, is lost. *)
Definition lose (s : NetherHttpClient) : NetherHttpClient :=
  push_event (if ready (link s) then HcDisconnected else HcConnectFailed) (set_link closed_link s).

Definition apply_event (s : NetherHttpClient) (e : ConnectionEvent) : NetherHttpClient :=
  let l := link s in
  let q := queues s in
  match e with
  | EvReady addr =>
      if ready l then s
      else push_event HcConnected (set_link {| join := join l; pool := pool l; connected := connected l;
             connecting_deadline := None; ready := true; remote_addr := addr; rtt := rtt l |} s)
  | EvRtt d => set_link {| join := join l; pool := pool l; connected := connected l;
             connecting_deadline := connecting_deadline l; ready := ready l;
             remote_addr := remote_addr l; rtt := Some d |} s
  | EvMessage Reliable data =>
      set_queues {| events := events q; received := received q ++ [data];
                    received_unreliable := received_unreliable q |} s
  | EvMessage Unreliable data =>
      set_queues {| events := events q; received := received q;
                    received_unreliable := received_unreliable q ++ [data] |} s
  | EvFailed => lose s
  end.

Definition drive_pool (msgs : list ConnectionEvent) (s : NetherHttpClient) : NetherHttpClient :=
  match pool (link s) with
  | None => s
  | Some _ => fold_left apply_event msgs s
  end.

Definition check_deadline (now : Instant) (d : JoinDraw) (s : NetherHttpClient)
    : Res unit (list (SocketAddr * bytes) * NetherHttpClient) :=
  match connecting_deadline (link s) with
  | Some deadline =>
      if deadline <=? now then
        if negb (bool_decide (is_Some (pool (link s)))) && (0 <? attempts_left (asked s)) then
          match begin_join d s with
          | (Ok sent, s) => Ok ([sent], s)
          | (Err _, s) => Ok ([], lose s)
          | (Panic, _) => Panic
          end
        else Ok ([], lose s)
      else Ok ([], s)
  | None => Ok ([], s)
  end.

Record Frame := {
  f_now : Instant; f_wall : SystemTime; f_msgs : list ConnectionEvent; f_join : JoinDraw }.

Definition update (f : Frame) (s : NetherHttpClient) : Res unit (list (SocketAddr * bytes) * NetherHttpClient) :=
  s ← update_query (f_now f) s;
  s ← update_join (f_now f) (f_wall f) s;
  check_deadline (f_now f) (f_join f) (drive_pool (f_msgs f) s).

(** ** The client as a state machine *)

Inductive ClientInput :=
| HFrame (f : Frame)
| HConnect (network_id url : bytes) (d : JoinDraw)
| HQuery (url : bytes) (resolved : Res unit (list SocketAddr)) (d : Dialing) (now : Instant)
| HDisconnect
| HSendOn (channel : Channel) (data : bytes)
| HRecv | HRecvUnreliable | HNextEvent
| HSetIdentity (i : ServerIdentity)
| HSetServerTrust (t : option TokenTrust)
| HSetTimeouts (t : Timeouts)
| HSetAttempts (n : Z)
| HSetTlsConfig (c : TlsClientConfig).

(** The event that is taken, the joins that are sent and what becomes of the
    client; a refused call leaves what it has changed. *)
Abbreviation Logged := (list NetherHttpClientEvent * list (SocketAddr * bytes) * NetherHttpClient)%type.

Definition silent (s : NetherHttpClient) : Res unit Logged := Ok ([], [], s).

Definition client_input (i : ClientInput) (s : NetherHttpClient) : Res unit Logged :=
  match i with
  | HFrame f => '(sent, s) ← update f s; Ok ([], sent, s)
  | HConnect nid url d =>
      match client_connect nid url d s with
      | (Ok sent, s) => Ok ([], [sent], s)
      | (Err _, s) => silent s
      | (Panic, _) => Panic
      end
  | HQuery url resolved d now =>
      match query_server_data url resolved d now s with
      | Ok (_, _, s) => silent s
      | Err _ => silent s
      | Panic => Panic
      end
  | HDisconnect => silent (disconnect s)
  | HSendOn channel data =>
      match send_on channel data s with Ok s => silent s | Err _ => silent s | Panic => Panic end
  | HRecv => silent (recv s).2
  | HRecvUnreliable => silent (recv_unreliable s).2
  | HNextEvent => let '(e, s) := next_event s in Ok ((match e with Some e => [e] | None => [] end), [], s)
  | HSetIdentity i => silent (set_identity i s)
  | HSetServerTrust t => silent (set_server_trust t s)
  | HSetTimeouts t => silent (set_timeouts t s)
  | HSetAttempts n => silent (set_attempts n s)
  | HSetTlsConfig c => silent (set_tls_config c s)
  end.

Inductive client_run (s0 : NetherHttpClient)
    : list ClientInput -> list NetherHttpClientEvent -> list (SocketAddr * bytes) -> NetherHttpClient -> Prop :=
| hrun_nil : client_run s0 [] [] [] s0
| hrun_step inputs log sent s i taken more s' :
    client_run s0 inputs log sent s -> client_input i s = Ok (taken, more, s') ->
    client_run s0 (inputs ++ [i]) (log ++ taken) (sent ++ more) s'.

(** ** The state of the link *)

(** There is a pool exactly while the client is connected; a join is made without
    one and before the connection is ready; whatever is under way and not ready
    has a deadline, and only that. *)
Record link_ok (l : Link) : Prop := {
  ok_pool : connected l = bool_decide (is_Some (pool l));
  ok_join : is_Some (join l) -> pool l = None /\ is_Some (connecting_deadline l);
  ok_deadline : is_Some (connecting_deadline l) -> ready l = false;
  ok_waiting : is_Some (pool l) -> ready l = false -> is_Some (connecting_deadline l);
}.

Lemma closed_link_ok : link_ok closed_link.
Proof. by split; cbn; try intros [? [=]]. Qed.

(** ** The events *)

(** How the events of a client without calls of [connect] on an open connection
    follow each other: [Connected] opens, [Disconnected] closes, and
    [ConnectFailed] only comes while there is no connection. *)
Definition track_event (open_ : option bool) (e : NetherHttpClientEvent) : option bool :=
  match open_, e with
  | Some false, HcConnected => Some true
  | Some true, HcDisconnected => Some false
  | Some false, HcConnectFailed => Some false
  | Some b, HcServerData _ | Some b, HcQueryFailed _ => Some b
  | _, _ => None
  end.

Definition track (l : list NetherHttpClientEvent) : option bool := fold_left track_event l (Some false).

(** The link stays well formed and the events that are queued fit it. *)
Definition advances (s s' : NetherHttpClient) : Prop :=
  link_ok (link s) -> link_ok (link s') /\
  exists pushed, events (queues s') = events (queues s) ++ pushed /\
    fold_left track_event pushed (Some (ready (link s))) = Some (ready (link s')).

#[local] Instance advances_preorder : PreOrder advances.
Proof.
  split.
  - intros s Hs. split; [done|]. exists []. by rewrite app_nil_r.
  - intros a b c Hab Hbc Ha. destruct (Hab Ha) as (Hb & p & Hp & Tp). destruct (Hbc Hb) as (Hc & q & Hq & Tq).
    split; [done|]. exists (p ++ q). by rewrite Hq, Hp, app_assoc, fold_left_app, Tp.
Qed.

Lemma advances_quietly s s' :
  (link_ok (link s) -> link_ok (link s')) -> ready (link s') = ready (link s) ->
  events (queues s') = events (queues s) -> advances s s'.
Proof. intros Hl Hr He Hs. split; [by apply Hl|]. exists []. by rewrite He, app_nil_r, Hr. Qed.

Lemma update_query_advances now s s' : update_query now s = Ok s' -> advances s s'.
Proof.
  assert (forall q e, (forall b, track_event (Some b) e = Some b) -> advances s (push_event e (set_query q s))) as He.
  { intros q e Hb Hs. split; [done|]. exists [e]. split; [done|apply Hb]. }
  unfold update_query. destruct (query s) as [q|]; [|by intros <-%Ok_inj].
  intros (step & _ & Hu)%res_bind_inv. destruct step as [st|code body|].
  - destruct (_ <=? _); apply Ok_inj in Hu as <-; [by apply He; intros []|by apply advances_quietly].
  - destruct (validate_status_response code body); [| |done]; apply Ok_inj in Hu as <-; by apply He; intros [].
  - apply Ok_inj in Hu as <-. by apply He; intros [].
Qed.

(** A join that fails while there is no pool. *)
Lemma reject_join_advances s : pool (link s) = None -> ready (link s) = false -> advances s (reject_join s).
Proof.
  intros Hp Hr Hs. split.
  - split; cbn; rewrite ?Hp; try by intros [? [=]]. rewrite (ok_pool _ Hs). by rewrite Hp.
  - exists [HcConnectFailed]. cbn. by rewrite Hr.
Qed.

Lemma trust_advances t s : advances s (set_server_trust t s).
Proof. by apply advances_quietly. Qed.

Lemma accept_answer_advances j code body now wall s s' :
  join (link s) = Some j -> accept_answer j code body now wall s = Ok s' -> advances s s'.
Proof.
  intros Hj Ha Hs.
  assert (pool (link s) = None /\ ready (link s) = false) as [Hp Hr].
  { destruct (ok_join _ Hs) as [Hp Hd]; [by eexists|]. split; [done|]. by apply (ok_deadline _ Hs). }
  assert (forall t, advances s (reject_join (set_server_trust t s))) as Hrej.
  { intros t. etrans; [apply trust_advances|]. by apply reject_join_advances. }
  revert Hs. change (advances s s'). unfold accept_answer in Ha.
  destruct (validate_join_response code body); [|apply Ok_inj in Ha as <-; by apply reject_join_advances|done].
  destruct (verify_answer body wall _) as [[c|e|] t]; [|apply Ok_inj in Ha as <-; apply Hrej|done].
  destruct (handle _ _) as [[u|e|] connection]; [|apply Ok_inj in Ha as <-; apply Hrej|done].
  apply Ok_inj in Ha as <-. apply advances_quietly; [|done..]. intros Hs.
  split; cbn; [done|by intros [? [=]]|done|by eexists].
Qed.

Lemma update_join_advances now wall s s' : update_join now wall s = Ok s' -> advances s s'.
Proof.
  unfold update_join. destruct (join (link s)) as [j|] eqn:Ej; [|by intros <-%Ok_inj].
  intros (step & _ & Hu)%res_bind_inv. destruct step as [st|code body|].
  - apply Ok_inj in Hu as <-. apply advances_quietly; [|done..]. intros Hs.
    split; cbn; [apply Hs|intros _; apply (ok_join _ Hs); by eexists|apply Hs|apply Hs].
  - by eapply accept_answer_advances.
  - apply Ok_inj in Hu as <-. intros Hs. destruct (ok_join _ Hs) as [Hp Hd]; [by eexists|].
    apply reject_join_advances; [done| |done]. by apply (ok_deadline _ Hs).
Qed.

Lemma lose_advances s : advances s (lose s).
Proof.
  intros _. split; [apply closed_link_ok|]. unfold lose. cbn.
  destruct (ready (link s)); by eexists [_].
Qed.

(** Nothing of the pool's events brings a join. *)
Lemma apply_event_advances s e :
  join (link s) = None -> advances s (apply_event s e) /\ join (link (apply_event s e)) = None.
Proof.
  intros Hj. destruct e as [addr|d|[] data|]; cbn [apply_event].
  - destruct (ready (link s)) eqn:Er; [done|]. split; [|done]. intros Hs. split; [|exists [HcConnected]; cbn; by rewrite Er].
    split; cbn; [apply Hs|rewrite Hj|..]; by try intros [? [=]].
  - split; [|done]. apply advances_quietly; [|done..]. intros Hs. by split; cbn; apply Hs.
  - split; [|done]. by apply advances_quietly.
  - split; [|done]. by apply advances_quietly.
  - split; [apply lose_advances|done].
Qed.

Lemma drive_pool_advances msgs s : advances s (drive_pool msgs s).
Proof.
  unfold drive_pool. destruct (pool (link s)) as [p|] eqn:Ep; [|done].
  intros Hs. assert (join (link s) = None) as Hj.
  { destruct (join (link s)) eqn:Ej; [|done]. destruct (ok_join _ Hs); [by eexists|congruence]. }
  revert Hs. change (advances s (fold_left apply_event msgs s)). clear p Ep. revert s Hj.
  induction msgs as [|e msgs IH]; intros s Hj; [done|]. cbn.
  destruct (apply_event_advances s e Hj) as [H1 H2]. etrans; [exact H1|by apply IH].
Qed.

(** A join that is begun while nothing is under way. *)
Lemma begin_join_advances d s r s' :
  begin_join d s = (r, s') -> pool (link s) = None -> ready (link s) = false -> advances s s'.
Proof.
  intros Hb Hp Hr. unfold begin_join in Hb.
  destruct (prepare_join d _) as [[[addr request] j]|e|]; injection Hb as <- <-; try by apply advances_quietly.
  apply advances_quietly; [|done..]. intros Hs. split; cbn; [apply Hs|by split; [|eexists]|done|by eexists].
Qed.

Lemma check_deadline_advances now d s sent s' : check_deadline now d s = Ok (sent, s') -> advances s s'.
Proof.
  unfold check_deadline. destruct (connecting_deadline (link s)) as [deadline|] eqn:Ed; [|by intros [= _ <-]].
  destruct (_ <=? _); [|by intros [= _ <-]]. destruct (_ && _) eqn:E; [|intros [= _ <-]; apply lose_advances].
  apply andb_true_iff in E as [Hn _]. apply negb_true_iff, bool_decide_eq_false, eq_None_not_Some in Hn.
  intros Hb Hs. assert (ready (link s) = false) as Hr by (apply (ok_deadline _ Hs); by rewrite Ed).
  revert Hs. change (advances s s'). destruct (begin_join d s) as [[x|e|] s1] eqn:Eb; [..|done].
  - injection Hb as _ <-. by eapply begin_join_advances.
  - injection Hb as _ <-. etrans; [by eapply begin_join_advances|apply lose_advances].
Qed.

Lemma update_advances f s sent s' : update f s = Ok (sent, s') -> advances s s'.
Proof.
  unfold update. intros (s1 & H1%update_query_advances & (s2 & H2%update_join_advances & H3)%res_bind_inv)%res_bind_inv.
  apply check_deadline_advances in H3. etrans; [exact H1|]. etrans; [exact H2|].
  etrans; [apply drive_pool_advances|exact H3].
Qed.

Lemma disconnect_advances s : advances s (disconnect s).
Proof.
  intros Hs. unfold disconnect. split.
  - destruct (ready (link s)); split; cbn; by try intros [? [=]].
  - destruct (ready (link s)) eqn:Er; [by exists [HcDisconnected]; cbn|exists []; by rewrite app_nil_r].
Qed.

Lemma connect_advances nid url d s r s' :
  ready (link s) = false -> client_connect nid url d s = (r, s') -> advances s s'.
Proof.
  intros Hr Hc. unfold client_connect in Hc. apply begin_join_advances in Hc; [|done..].
  etrans; [|exact Hc]. apply advances_quietly; [|done..]. intros Hs. by split; cbn; try intros [? [=]].
Qed.

Lemma send_on_advances ch data s s' : send_on ch data s = Ok s' -> advances s s'.
Proof.
  unfold send_on. destruct (negb _); [done|]. destruct (pool (link s)) as [p|] eqn:Ep; [|done].
  intros <-%Ok_inj. apply advances_quietly; [|done..]. intros Hs. split; cbn; [|..|apply Hs|].
  - rewrite (ok_pool _ Hs), Ep. by rewrite !bool_decide_eq_true_2 by by eexists.
  - intros Hj. destruct (ok_join _ Hs Hj). congruence.
  - intros _. apply (ok_waiting _ Hs). rewrite Ep. by eexists.
Qed.

(** [connect] is not called while the connection is open. *)
Definition well_used (s : NetherHttpClient) (i : ClientInput) : Prop :=
  match i with HConnect _ _ _ => ready (link s) = false | _ => True end.

(** The log with what is queued. *)
Definition consistent (log : list NetherHttpClientEvent) (s : NetherHttpClient) : Prop :=
  link_ok (link s) /\ track (log ++ events (queues s)) = Some (ready (link s)).

Lemma consistent_advances log s s' : advances s s' -> consistent log s -> consistent (log ++ []) s'.
Proof.
  intros Ha [Hs Ht]. destruct (Ha Hs) as (Hs' & pushed & He & Hp). split; [done|].
  unfold track in *. by rewrite app_nil_r, He, app_assoc, fold_left_app, Ht.
Qed.

Lemma client_input_consistent i s taken sent s' log :
  client_input i s = Ok (taken, sent, s') -> well_used s i -> consistent log s -> consistent (log ++ taken) s'.
Proof.
  destruct i as [f|nid url d|url rs d now| |ch data| | | |x|x|x|x|x]; cbn [client_input well_used]; unfold silent;
    try (intros [= <- _ <-] _; by apply consistent_advances, advances_quietly).
  - intros ([more s1] & Hu%update_advances & [= <- _ <-])%res_bind_inv _. by apply consistent_advances.
  - intros Hi Hw. destruct (client_connect nid url d s) as [[x|e|] s1] eqn:Ec; [..|done];
      injection Hi as <- _ <-; apply consistent_advances; by eapply connect_advances.
  - intros Hi _. unfold query_server_data in Hi. destruct (resolve url rs) as [[t a]|e|]; cbn in Hi.
    2: injection Hi as <- _ <-; by apply consistent_advances. 2: done.
    destruct (open_stream _ _ _) as [stream|e|]; cbn in Hi. 2: injection Hi as <- _ <-; by apply consistent_advances. 2: done.
    destruct (map_err _ _) as [request|e|]; cbn in Hi; [..|done]; injection Hi as <- _ <-;
      by apply consistent_advances, advances_quietly.
  - intros [= <- _ <-] _. apply consistent_advances, disconnect_advances.
  - intros Hi _. destruct (send_on ch data s) as [s1|e|] eqn:Es; [..|done]; injection Hi as <- _ <-;
      apply consistent_advances; [by eapply send_on_advances|done].
  - intros [= <- _ <-] _. apply consistent_advances. unfold recv. by destruct (received _); apply advances_quietly.
  - intros [= <- _ <-] _. apply consistent_advances. unfold recv_unreliable.
    by destruct (received_unreliable _); apply advances_quietly.
  - intros Hi _ [Hs Ht]. unfold next_event in Hi. destruct (events (queues s)) as [|e rest] eqn:Ee; injection Hi as <- _ <-.
    + split; [done|]. rewrite app_nil_r, Ee. exact Ht.
    + split; [done|]. cbn. by rewrite <- app_assoc.
Qed.

(** A client that is used well. *)
Inductive well_run (s0 : NetherHttpClient) : list NetherHttpClientEvent -> NetherHttpClient -> Prop :=
| wrun_nil : well_run s0 [] s0
| wrun_step log s i taken sent s' :
    well_run s0 log s -> well_used s i -> client_input i s = Ok (taken, sent, s') -> well_run s0 (log ++ taken) s'.

Lemma well_run_consistent log s : well_run client_default log s -> consistent log s.
Proof.
  induction 1 as [|log s i taken sent s' _ IH Hw Hi]; [split; [apply closed_link_ok|done]|].
  by eapply client_input_consistent.
Qed.

(** C24: The events of a client that is not told to connect while its connection is
    open tell its state: connections open and close in turns, failed attempts are
    only reported between them, and the client is connected exactly after a
    [Connected] that no [Disconnected] has followed. *)
Theorem http_client_events log s :
  well_run client_default log s -> track (log ++ events (queues s)) = Some (is_connected s).
Proof. intros Hr. apply (well_run_consistent log s Hr). Qed.

(** *** The deadline *)

(** The end of what was under way is among the events queued since. *)
Definition reported (s0 s : NetherHttpClient) : Prop :=
  exists pushed, events (queues s) = events (queues s0) ++ pushed /\
    (HcConnectFailed ∈ pushed \/ HcDisconnected ∈ pushed).

(** What a frame has made of a client that waits, at the time [now]: it still
    waits for the same; the answer to its join is accepted, so that it has until
    a new deadline; it has ended, and reported it; or it is ready. *)
Inductive progress (now : Instant) (s0 s : NetherHttpClient) : Prop :=
| pr_waiting :
    connecting_deadline (link s) = connecting_deadline (link s0) ->
    attempts_left (asked s) = attempts_left (asked s0) -> ready (link s) = false ->
    (exists pushed, events (queues s) = events (queues s0) ++ pushed) -> progress now s0 s
| pr_answered :
    is_Some (join (link s0)) -> join (link s) = None -> is_Some (pool (link s)) ->
    connecting_deadline (link s) = Some (now + Connection.establish (timeouts (settings s0))) ->
    ready (link s) = false ->
    (exists pushed, events (queues s) = events (queues s0) ++ pushed) -> progress now s0 s
| pr_ended :
    join (link s) = None -> pool (link s) = None -> connecting_deadline (link s) = None ->
    ready (link s) = false -> reported s0 s -> progress now s0 s
| pr_ready : ready (link s) = true ->
    (exists pushed, events (queues s) = events (queues s0) ++ pushed) -> progress now s0 s.

(** Giving up closes the link and reports it. *)
Lemma lose_reported s0 s :
  (exists pushed, events (queues s) = events (queues s0) ++ pushed) -> reported s0 (lose s).
Proof.
  intros [x Hx]. eexists. unfold lose. cbn. rewrite Hx, <- app_assoc. split; [reflexivity|].
  rewrite !elem_of_app, !list_elem_of_singleton. destruct (ready (link s)); auto.
Qed.

Lemma progress_events now s0 s :
  progress now s0 s -> exists pushed, events (queues s) = events (queues s0) ++ pushed.
Proof. destruct 1 as [_ _ _ ?|_ _ _ _ _ ?|_ _ _ _ (x & ? & _)|_ ?]; [done|done|by exists x|done]. Qed.

Lemma update_query_progress now t s s' :
  update_query t s = Ok s' -> ready (link s) = false ->
  link s' = link s /\ settings s' = settings s /\ progress now s s'.
Proof.
  intros Hu Hr. enough (link s' = link s /\ settings s' = settings s /\ asked s' = asked s /\
    exists pushed, events (queues s') = events (queues s) ++ pushed) as (Hl & Hs & Ha & Hx).
  { split_and!; [done|done|]. apply pr_waiting; by rewrite ?Hl, ?Ha. }
  revert Hu. unfold update_query. destruct (query s) as [q|].
  2:{ intros <-%Ok_inj. split_and!; [done..|]. exists []. by rewrite app_nil_r. }
  intros (step & _ & Hu)%res_bind_inv. destruct step as [st|code body|].
  - destruct (_ <=? _); apply Ok_inj in Hu as <-; (split_and!; [done..|]); [by eexists|]. exists []. by rewrite app_nil_r.
  - destruct (validate_status_response code body); [| |done]; apply Ok_inj in Hu as <-; (split_and!; [done..|]); by eexists.
  - apply Ok_inj in Hu as <-. split_and!; [done..|]. by eexists.
Qed.

(** A join that fails while there is no pool has ended. *)
Lemma reject_join_ended now s0 s :
  pool (link s) = None -> ready (link s) = false ->
  (exists pushed, events (queues s) = events (queues s0) ++ pushed) -> progress now s0 (reject_join s).
Proof.
  intros Hp Hr [x Hx]. apply pr_ended; [done..|]. eexists. cbn. rewrite Hx, <- app_assoc. split; [reflexivity|].
  rewrite elem_of_app, list_elem_of_singleton. auto.
Qed.

Lemma update_join_progress now wall s0 s s' :
  update_join now wall s = Ok s' -> link s = link s0 -> settings s = settings s0 -> link_ok (link s) ->
  ready (link s) = false -> progress now s0 s -> progress now s0 s'.
Proof.
  intros Hu El Es Hok Hr Hpr.
  pose proof (progress_events _ _ _ Hpr) as Hx.
  revert Hu. unfold update_join. destruct (join (link s)) as [j|] eqn:Ej; [|by intros <-%Ok_inj].
  destruct (ok_join _ Hok) as [Hp [dl Hd]]; [by eexists|].
  intros (step & _ & Hu)%res_bind_inv. destruct step as [st|code body|].
  - apply Ok_inj in Hu as <-. destruct Hpr as [H1 H2 _ _|_ H2 _ _ _ _|H1 _ _ _ _|H1 _]; [|congruence..].
    by apply pr_waiting.
  - unfold accept_answer in Hu.
    destruct (validate_join_response code body); [|apply Ok_inj in Hu as <-; by apply reject_join_ended|done].
    destruct (verify_answer body wall _) as [[c|e|] t]; [|apply Ok_inj in Hu as <-; by apply reject_join_ended|done].
    destruct (handle _ _) as [[u|e|] connection]; [|apply Ok_inj in Hu as <-; by apply reject_join_ended|done].
    apply Ok_inj in Hu as <-. apply pr_answered; cbn; rewrite <- ?El, ?Ej, <- ?Es; try done; by eexists.
  - apply Ok_inj in Hu as <-. by apply reject_join_ended.
Qed.

Lemma apply_event_progress now s0 s e : progress now s0 s -> progress now s0 (apply_event s e).
Proof.
  intros Hpr.
  pose proof (progress_events _ _ _ Hpr) as Hx.
  destruct e as [addr|d|[] data|]; cbn [apply_event].
  - destruct (ready (link s)) eqn:Er; [done|]. apply pr_ready; [done|]. destruct Hx as [x Hx].
    exists (x ++ [HcConnected]). cbn. by rewrite Hx, app_assoc.
  - destruct Hpr; [by apply pr_waiting|by apply pr_answered|by apply pr_ended|by apply pr_ready].
  - destruct Hpr; [by apply pr_waiting|by apply pr_answered|by apply pr_ended|by apply pr_ready].
  - destruct Hpr; [by apply pr_waiting|by apply pr_answered|by apply pr_ended|by apply pr_ready].
  - apply pr_ended; [done..|]. by apply lose_reported.
Qed.

Lemma drive_pool_progress now s0 msgs s : progress now s0 s -> progress now s0 (drive_pool msgs s).
Proof.
  unfold drive_pool. destruct (pool (link s)); [|done]. revert s.
  induction msgs as [|e msgs IH]; intros s Hs; [done|]. cbn. by apply IH, apply_event_progress.
Qed.

(** The frame does not panic: not in what it reads, and not if it has to make a
    request. *)
Definition frame_survives (f : Frame) (s : NetherHttpClient) : Prop :=
  exists s1 s2, update_query (f_now f) s = Ok s1 /\ update_join (f_now f) (f_wall f) s1 = Ok s2 /\
    prepare_join (f_join f) (use_attempt (drive_pool (f_msgs f) s2)) <> Panic.

(** What the client has after a frame at or past its deadline: another request is
    on its way, for which one of the attempts left was used; the answer came in
    this frame, and the session has its own time to open; nothing is left, and
    that is reported; or the connection is ready. *)
Inductive deadline_met (f : Frame) (s : NetherHttpClient) (sent : list (SocketAddr * bytes)) (s' : NetherHttpClient) : Prop :=
| dm_again x :
    sent = [x] -> is_Some (join (link s')) -> 0 <= attempts_left (asked s') ->
    attempts_left (asked s') = attempts_left (asked s) - 1 ->
    connecting_deadline (link s') = Some (jd_now (f_join f) + negotiation (timeouts (settings s'))) ->
    deadline_met f s sent s'
| dm_answered d :
    sent = [] -> is_Some (join (link s)) -> join (link s') = None -> is_Some (pool (link s')) ->
    d = f_now f + Connection.establish (timeouts (settings s)) ->
    connecting_deadline (link s') = Some d -> f_now f < d -> deadline_met f s sent s'
| dm_ended :
    sent = [] -> join (link s') = None -> pool (link s') = None -> connecting_deadline (link s') = None ->
    ready (link s') = false -> reported s s' -> deadline_met f s sent s'
| dm_ready : sent = [] -> ready (link s') = true -> deadline_met f s sent s'.

Lemma check_deadline_met f s s1 deadline :
  connecting_deadline (link s) = Some deadline -> deadline <= f_now f ->
  prepare_join (f_join f) (use_attempt s1) <> Panic -> link_ok (link s1) -> progress (f_now f) s s1 ->
  exists sent s', check_deadline (f_now f) (f_join f) s1 = Ok (sent, s') /\ deadline_met f s sent s'.
Proof.
  intros Hd Hle Hnp Hok Hpr. unfold check_deadline.
  pose proof (progress_events _ _ _ Hpr) as Hx.
  assert (forall y, queues y = queues s1 -> deadline_met f s [] (lose y)) as Hlose.
  { intros y Ey. apply dm_ended; [done..|]. apply lose_reported. by rewrite Ey. }
  destruct Hpr as [H1 H2 H3 _|H1 H2 [p H3] H4 H5 _|H1 H2 H3 H4 H5|H1 _].
  - rewrite H1, Hd. destruct (_ <=? _) eqn:El; [|to_props; lia].
    destruct (_ && _) eqn:E; [|by eexists [], _; split; [done|apply Hlose]].
    apply andb_true_iff in E as [_ Ha]. to_props. unfold begin_join.
    destruct (prepare_join _ _) as [[[addr request] j]|e|]; [..|done].
    + eexists _, _. split; [done|]. apply (dm_again f s _ _ (addr, request)); cbn; [done|by eexists|lia|lia|done].
    + by eexists [], _; split; [done|apply Hlose].
  - rewrite H4. destruct (_ <=? _) eqn:El; to_props.
    + rewrite H3. by eexists [], _; split; [done|apply Hlose].
    + eexists [], s1. split; [done|]. eapply dm_answered; [done|done|done|by eexists|reflexivity|done|lia].
  - rewrite H3. eexists [], s1. split; [done|]. by apply dm_ended.
  - destruct (connecting_deadline (link s1)) eqn:Ec.
    + rewrite (ok_deadline _ Hok) in H1; [done|]. by rewrite Ec.
    + eexists [], s1. split; [done|]. by apply dm_ready.
Qed.

(** C25: Of a client that is never told to connect while its connection is open:
    whatever it has under way has a deadline until it is ready, and the frame that
    reaches the deadline, unless it panics in reading, in handling an answer or in
    making a request, does one of four things.  It sends another request, using
    one of the attempts left, with a new deadline; or the answer has come in this
    very frame and the session gets its time to open; or the link is closed and
    that is reported; or the connection is ready.  Sending does not panic. *)
Theorem http_client_never_stuck log s :
  well_run client_default log s ->
  (is_Some (join (link s)) \/ is_Some (pool (link s)) ->
     ready (link s) = true \/ is_Some (connecting_deadline (link s))) /\
  (forall deadline f, connecting_deadline (link s) = Some deadline -> deadline <= f_now f ->
     frame_survives f s -> exists sent s', update f s = Ok (sent, s') /\ deadline_met f s sent s') /\
  (forall channel data, send_on channel data s <> Panic).
Proof.
  intros Hr%well_run_consistent. destruct Hr as [Hs _]. split_and!.
  - intros [Hj|Hp]; [right; apply (ok_join _ Hs Hj)|]. destruct (ready (link s)) eqn:Er; [by left|].
    right. by apply (ok_waiting _ Hs).
  - intros deadline f Hd Hn (s1 & s2 & H1 & H2 & H3). unfold update. rewrite H1, res_bind_Ok, H2, res_bind_Ok.
    assert (ready (link s) = false) as Er by (apply (ok_deadline _ Hs); by rewrite Hd).
    destruct (update_query_progress (f_now f) _ _ _ H1 Er) as (El & Es & Hp).
    pose proof (update_join_progress _ _ s _ _ H2 El Es) as Hp2. rewrite El in Hp2. specialize (Hp2 Hs Er Hp).
    apply update_join_advances in H2. rewrite <- El in Hs. destruct (H2 Hs) as [Hs2 _].
    eapply check_deadline_met; [done|done|done| |by apply drive_pool_progress].
    by apply (drive_pool_advances (f_msgs f) s2).
  - intros channel data. unfold send_on. destruct (connected (link s)) eqn:Ec; [|done]. cbn [negb].
    rewrite (ok_pool _ Hs) in Ec. apply bool_decide_eq_true in Ec as [p ->]. done.
Qed.

(** ** What the parts of the client leave alone *)

(** The trust, the attempts left and, but for what is sent on it, the pool. *)
Definition idles (s s' : NetherHttpClient) : Prop :=
  server_trust (settings s') = server_trust (settings s) /\
  attempts_left (asked s') = attempts_left (asked s) /\
  forall cmds, pool (link s') = Some cmds -> exists cmds0, pool (link s) = Some cmds0 /\
    forall conn u, Add tt conn u ∈ cmds -> Add tt conn u ∈ cmds0.

#[local] Instance idles_preorder : PreOrder idles.
Proof.
  split.
  - intros s. split_and!; [done|done|]. intros cmds Hc. by exists cmds.
  - intros a b c (H1 & H2 & H3) (H4 & H5 & H6). split_and!; [congruence..|]. intros cmds Hc.
    destruct (H6 cmds Hc) as (k & Hk & Hin). destruct (H3 k Hk) as (k0 & Hk0 & Hin0). exists k0. eauto.
Qed.

Lemma idles_pool s s' :
  settings s' = settings s -> asked s' = asked s -> (pool (link s') = pool (link s) \/ pool (link s') = None) ->
  idles s s'.
Proof.
  intros Hs Ha Hp. split_and!; [by rewrite Hs|by rewrite Ha|]. intros cmds Hc.
  destruct Hp as [Hp|Hp]; [|congruence]. exists cmds. by rewrite <- Hp.
Qed.

Lemma update_query_idles now s s' : update_query now s = Ok s' -> idles s s'.
Proof.
  unfold update_query. destruct (query s) as [q|]; [|by intros <-%Ok_inj].
  intros (step & _ & Hu)%res_bind_inv. destruct step as [st|code body|].
  - destruct (_ <=? _); apply Ok_inj in Hu as <-; apply idles_pool; auto.
  - destruct (validate_status_response code body); [| |done]; apply Ok_inj in Hu as <-; apply idles_pool; auto.
  - apply Ok_inj in Hu as <-. apply idles_pool; auto.
Qed.

Lemma lose_idles s : idles s (lose s).
Proof. apply idles_pool; auto. Qed.

Lemma drive_pool_idles msgs s : idles s (drive_pool msgs s).
Proof.
  unfold drive_pool. destruct (pool (link s)); [|done]. revert s.
  induction msgs as [|e msgs IH]; intros s; [done|]. cbn [fold_left]. etrans; [|apply IH].
  destruct e as [addr|d|[] data|]; cbn [apply_event]; try (apply idles_pool; by auto).
  destruct (ready (link s)); [done|]. apply idles_pool; auto.
Qed.

(** An attempt is used; the pool and the trust stay. *)
Lemma begin_join_spec d s r s' :
  begin_join d s = (r, s') ->
  settings s' = settings s /\ pool (link s') = pool (link s) /\
  attempts_left (asked s') = Z.max 0 (attempts_left (asked s) - 1).
Proof.
  unfold begin_join. by destruct (prepare_join d _) as [[[addr request] j]|e|]; intros [= _ <-].
Qed.

(** The connection has been given an answer that a trust has accepted. *)
Definition answered (trusted : TokenTrust -> Prop) (conn : Connection.Connection) : Prop :=
  exists c0 body url now wall t claims,
    trusted t /\ authentic t body wall claims /\
    handle (CSignal (signal_answer (c_connection_id c0) body url) now) c0 = (Ok tt, conn).

(** A join that is driven: nothing is added to the pool, or a connection that was
    given a verified answer. *)
Lemma update_join_cases now wall s s' :
  update_join now wall s = Ok s' ->
  noted (server_trust (settings s)) (server_trust (settings s')) /\ attempts_left (asked s') = attempts_left (asked s) /\
  (pool (link s') = pool (link s) \/
   exists c0 body url conn u, pool (link s') = Some [Add tt conn u] /\
     is_ok (verify_answer body wall (server_trust (settings s))).1 = true /\
     handle (CSignal (signal_answer (c_connection_id c0) body url) now) c0 = (Ok tt, conn)).
Proof.
  unfold update_join. destruct (join (link s)) as [j|]; [|intros <-%Ok_inj; by split_and!; [left|..|left]].
  intros (step & _ & Hu)%res_bind_inv.
  destruct step as [st|code body|]; [apply Ok_inj in Hu as <-; by split_and!; [left|..|left]| |apply Ok_inj in Hu as <-; by split_and!; [left|..|left]].
  unfold accept_answer in Hu.
  destruct (validate_join_response code body); [|apply Ok_inj in Hu as <-; by split_and!; [left|..|left]|done].
  pose proof (verify_answer_noted body wall (server_trust (settings s))) as Hv.
  destruct (verify_answer body wall _) as [r t] eqn:Ev. cbn [snd] in Hv.
  destruct r as [c|e|]; [|apply Ok_inj in Hu as <-; split_and!; [exact Hv|done|by left]|done].
  destruct (handle _ _) as [[[]|e|] conn] eqn:Eh;
    [|apply Ok_inj in Hu as <-; split_and!; [exact Hv|done|by left]|done].
  apply Ok_inj in Hu as <-. split_and!; [exact Hv|done|]. right. exists (join_connection j), body, (join_url j), conn, (join_ufrag j).
  rewrite Ev. by split_and!.
Qed.

(** ** Attempts *)

(** The joins sent and the attempts left. *)
Definition attempts_within (n : Z) (sent : list (SocketAddr * bytes)) (s : NetherHttpClient) : Prop :=
  blen sent + attempts_left (asked s) <= n /\ 0 <= attempts_left (asked s).

Lemma attempts_idles n sent s s' :
  attempts_left (asked s') = attempts_left (asked s) -> attempts_within n sent s -> attempts_within n (sent ++ []) s'.
Proof. intros Ha [H1 H2]. unfold attempts_within. rewrite app_nil_r. lia. Qed.

Lemma begin_join_within n d sent s r s' :
  begin_join d s = (r, s') -> 0 < attempts_left (asked s) -> attempts_within n sent s ->
  attempts_within n (sent ++ match r with Ok x => [x] | _ => [] end) s'.
Proof.
  intros (_ & _ & Ha)%begin_join_spec Hl [H1 H2]. unfold attempts_within. rewrite blen_app, Ha.
  destruct r as [x| |]; rewrite ?blen_cons, blen_nil; lia.
Qed.

Lemma update_within n f sent more s s' :
  update f s = Ok (more, s') -> attempts_within n sent s -> attempts_within n (sent ++ more) s'.
Proof.
  unfold update. intros (s1 & (_ & H1 & _)%update_query_idles & (s2 & (_ & H2 & _)%update_join_cases & H3)%res_bind_inv)%res_bind_inv Hw.
  destruct (drive_pool_idles (f_msgs f) s2) as (_ & H4 & _). revert H3.
  assert (attempts_within n sent (drive_pool (f_msgs f) s2)) as Hw' by (unfold attempts_within in *; lia).
  revert Hw'. generalize (drive_pool (f_msgs f) s2). clear s H1 s1 H2 s2 H4 Hw. intros s Hw.
  unfold check_deadline. destruct (connecting_deadline (link s)); [|intros [= <- <-]; by eapply attempts_idles].
  destruct (_ <=? _); [|intros [= <- <-]; by eapply attempts_idles].
  destruct (_ && _) eqn:E; [|intros [= <- <-]; by eapply attempts_idles].
  apply andb_true_iff in E as [_ Ha]. to_props.
  destruct (begin_join (f_join f) s) as [r s1] eqn:Eb. apply (begin_join_within n _ sent) in Eb; [|done..].
  destruct r as [x|e|]; [..|done]; intros [= <- <-]; done.
Qed.

Lemma client_input_within n i taken sent more s s' :
  (forall nid url d, i <> HConnect nid url d) ->
  client_input i s = Ok (taken, more, s') -> attempts_within n sent s -> attempts_within n (sent ++ more) s'.
Proof.
  intros Hc. destruct i as [f|nid url d|url rs d now| |ch data| | | |x|x|x|x|x]; cbn [client_input]; unfold silent;
    try (intros [= _ <- <-]; by apply attempts_idles).
  - intros ([m s1] & Hu & [= _ <- <-])%res_bind_inv. by apply (update_within n f).
  - by destruct (Hc nid url d).
  - intros Hi. destruct (query_server_data url rs d now s) as [[[a r] s1]|e|] eqn:Eq; [..|done];
      injection Hi as _ <- <-; apply attempts_idles; [|done].
    apply res_bind_inv in Eq as ([t a1] & _ & (st & _ & (rq & _ & [= _ _ <-])%res_bind_inv)%res_bind_inv). done.
  - intros [= _ <- <-]. apply attempts_idles. unfold disconnect. by destruct (ready (link s)).
  - intros Hi. unfold send_on in Hi. destruct (negb _); [injection Hi as _ <- <-; by apply attempts_idles|].
    destruct (pool (link s)); [|done]. injection Hi as _ <- <-. by apply attempts_idles.
  - intros [= _ <- <-]. apply attempts_idles. unfold recv. by destruct (received _).
  - intros [= _ <- <-]. apply attempts_idles. unfold recv_unreliable. by destruct (received_unreliable _).
  - intros Hi. unfold next_event in Hi. destruct (events (queues s)); injection Hi as _ <- <-; by apply attempts_idles.
Qed.

(** However long it runs, the client sends at most as many join requests for
    one [connect] as it has attempts, and at least one is allowed. *)
Theorem http_client_attempts s0 nid url d r s1 inputs log sent s :
  client_connect nid url d s0 = (r, s1) -> client_run s1 inputs log sent s ->
  (forall nid url d, HConnect nid url d ∉ inputs) ->
  (if is_ok r then 1 else 0) + blen sent <= Z.max (attempts (settings s0)) 1.
Proof.
  intros Hc Hrun Hno. set (first := match r with Ok x => [x] | _ => [] end).
  assert (attempts_within (Z.max (attempts (settings s0)) 1) first s1) as H1.
  { unfold client_connect in Hc. eapply (begin_join_within _ _ []) in Hc; [exact Hc|cbn; lia|].
    split; cbn; [rewrite blen_nil|]; lia. }
  enough (attempts_within (Z.max (attempts (settings s0)) 1) (first ++ sent) s) as [H2 H3].
  { rewrite blen_app in H2. destruct r; cbn [is_ok]; unfold first in *; rewrite ?blen_cons, blen_nil in H2; lia. }
  clearbody first. induction Hrun as [|inputs log sent s i taken more s' _ IH Hi]; [by rewrite app_nil_r|].
  rewrite app_assoc. eapply client_input_within; [|exact Hi|].
  - intros n u e ->. apply (Hno n u e), elem_of_app. right. by left.
  - apply IH. intros n u e Hin. apply (Hno n u e), elem_of_app. by left.
Qed.

(** ** Answers *)

Context {blaws : Base64Laws b64} {slaws : SerdeLaws serde}.

(** A trust the client has been given, in the beginning or since. *)
Definition configured (s0 : NetherHttpClient) (inputs : list ClientInput) (t : TokenTrust) : Prop :=
  exists t0, (server_trust (settings s0) = Some t0 \/ HSetServerTrust (Some t0) ∈ inputs) /\ derived t0 t.

Section trusted.
Context (trusted : TokenTrust -> Prop).
Context (trusted_noted : forall t text wall, trusted t -> trusted (validate_sdp text wall t).2).

(** The trust is one of those given, and what the pool has was answered under one. *)
Definition pool_ok (s : NetherHttpClient) : Prop :=
  (exists t, server_trust (settings s) = Some t /\ trusted t) /\
  forall cmds conn u, pool (link s) = Some cmds -> Add tt conn u ∈ cmds -> answered trusted conn.

Lemma pool_ok_idles s s' : 
  noted (server_trust (settings s)) (server_trust (settings s')) ->
  (forall cmds, pool (link s') = Some cmds -> exists cmds0, pool (link s) = Some cmds0 /\
    forall conn u, Add tt conn u ∈ cmds -> Add tt conn u ∈ cmds0) ->
  pool_ok s -> pool_ok s'.
Proof.
  intros Hn Hp [Ht Hs]. split; [by eapply noted_trusted|]. intros cmds conn u Hc Hin.
  destruct (Hp cmds Hc) as (k & Hk & Hin'). eauto.
Qed.

Lemma pool_ok_same s s' :
  server_trust (settings s') = server_trust (settings s) ->
  (pool (link s') = pool (link s) \/ pool (link s') = None) -> pool_ok s -> pool_ok s'.
Proof.
  intros Ht Hp. apply pool_ok_idles; [by left|]. intros cmds Hc.
  destruct Hp as [Hp|Hp]; [|congruence]. exists cmds. by rewrite <- Hp.
Qed.

Lemma update_join_pool_ok now wall s s' : update_join now wall s = Ok s' -> pool_ok s -> pool_ok s'.
Proof.
  intros (Hn & _ & [Hp|(c0 & body & url & conn & u & Hp & Hv & Hh)])%update_join_cases Hs.
  - eapply pool_ok_idles; [exact Hn| |exact Hs]. intros cmds Hc. exists cmds. by rewrite <- Hp.
  - destruct Hs as [(t & Ht & Htr) _]. split; [by eapply noted_trusted; [exact trusted_noted|exact Hn|exists t]|].
    intros cmds conn' u' Hc. rewrite Hp in Hc. injection Hc as <-.
    intros [= -> ->]%list_elem_of_singleton. rewrite Ht in Hv.
    apply verify_answer_authentic in Hv as [claims Ha]. by exists c0, body, url, now, wall, t, claims.
Qed.

Lemma update_pool_ok f s sent s' : update f s = Ok (sent, s') -> pool_ok s -> pool_ok s'.
Proof.
  unfold update. intros (s1 & (H1 & _ & H1')%update_query_idles & (s2 & H2 & H3)%res_bind_inv)%res_bind_inv Hs.
  apply update_join_pool_ok in H2; [|by eapply pool_ok_idles; [left|..]].
  assert (pool_ok (drive_pool (f_msgs f) s2)) as H4.
  { destruct (drive_pool_idles (f_msgs f) s2) as (H5 & _ & H6). by eapply pool_ok_idles; [left|..]. }
  revert H3 H4. generalize (drive_pool (f_msgs f) s2). clear -trusted_noted. intros s. unfold check_deadline.
  destruct (connecting_deadline (link s)); [|by intros [= _ <-]]. destruct (_ <=? _); [|by intros [= _ <-]].
  destruct (_ && _); [|intros [= _ <-]; apply pool_ok_same; auto].
  destruct (begin_join (f_join f) s) as [r s1] eqn:Eb. apply begin_join_spec in Eb as (Hx & Hp & _).
  destruct r; [..|done]; intros [= _ <-]; apply pool_ok_same; cbn; rewrite ?Hx; auto.
Qed.

Lemma client_input_pool_ok i s taken sent s' :
  (forall x, i = HSetServerTrust x -> exists t, x = Some t /\ trusted t) ->
  client_input i s = Ok (taken, sent, s') -> pool_ok s -> pool_ok s'.
Proof.
  intros Ht. destruct i as [f|nid url d|url rs d now| |ch data| | | |x|x|x|x|x]; cbn [client_input]; unfold silent;
    try (intros [= _ _ <-]; apply pool_ok_same; by auto).
  - intros ([m s1] & Hu & [= _ _ <-])%res_bind_inv. by apply (update_pool_ok f _ m).
  - unfold client_connect. destruct (begin_join d _) as [r s1] eqn:Eb. apply begin_join_spec in Eb as (Hx & Hp & _).
    destruct r; [..|done]; intros [= _ _ <-]; apply pool_ok_same; rewrite ?Hx, ?Hp; auto.
  - intros Hi. destruct (query_server_data url rs d now s) as [[[a r] s1]|e|] eqn:Eq; [..|done];
      injection Hi as _ _ <-; [|done].
    apply res_bind_inv in Eq as ([t a1] & _ & (st & _ & (rq & _ & [= _ _ <-])%res_bind_inv)%res_bind_inv). done.
  - intros [= _ _ <-]. apply pool_ok_same; unfold disconnect; destruct (ready (link s)); auto.
  - intros Hi. unfold send_on in Hi. destruct (negb _); [by injection Hi as _ _ <-|].
    destruct (pool (link s)) as [p|] eqn:Ep; [|done]. injection Hi as _ _ <-. apply pool_ok_idles; [by left|].
    intros cmds [= <-]. exists p. split; [done|]. intros conn u [?|Hin%list_elem_of_singleton]%elem_of_app; done.
  - intros [= _ _ <-]. unfold recv. destruct (received _); [done|]. apply pool_ok_same; auto.
  - intros [= _ _ <-]. unfold recv_unreliable. destruct (received_unreliable _); [done|]. apply pool_ok_same; auto.
  - unfold next_event. destruct (events (queues s)); intros [= _ _ <-]; [done|]. apply pool_ok_same; auto.
  - intros [= _ _ <-] [_ Hs]. destruct (Ht x eq_refl) as (t & -> & Htr). split; [by exists t|exact Hs].
Qed.
End trusted.

(** C22: A client that has a token trust and is never told to skip validation only
    opens sessions with servers it has authenticated: the connection in its pool
    was given an answer with a token that was trusted and unexpired when the
    response came, and whose key signed the fingerprints of that very answer. *)
Theorem http_client_answers_authentic s0 inputs log sent s cmds conn u :
  pool (link s0) = None -> is_Some (server_trust (settings s0)) -> HSetServerTrust None ∉ inputs ->
  client_run s0 inputs log sent s -> pool (link s) = Some cmds -> Add tt conn u ∈ cmds ->
  answered (configured s0 inputs) conn.
Proof.
  intros H0 [t0 Ht0] Hnone Hrun. set (trusted := configured s0 inputs).
  enough (pool_ok trusted s) as [_ Hs] by eauto.
  assert (forall x, HSetServerTrust x ∈ inputs -> exists t, x = Some t /\ trusted t) as Hset.
  { intros [t|] Hx; [|done]. exists t. split; [done|]. exists t. split; [by right|constructor]. }
  assert (pool_ok trusted s0) as Hs0.
  { split; [|intros cmds'; by rewrite H0]. exists t0. split; [done|]. exists t0. split; [by left|constructor]. }
  assert (forall t text wall, trusted t -> trusted (validate_sdp text wall t).2) as Hn.
  { intros t text wall (t1 & Ht1 & Hd). exists t1. split; [done|]. by constructor. }
  clearbody trusted. clear Hnone Ht0. induction Hrun as [|inputs log sent s i taken more s' _ IH Hi]; [done|].
  eapply (client_input_pool_ok trusted Hn i s); [|exact Hi|].
  - intros x ->. apply Hset, elem_of_app. right. by left.
  - apply IH. intros x Hx. apply Hset, elem_of_app. by left.
Qed.
(** ** A refused call *)

(** A [connect] that is refused while a join is under way drops the join but keeps
    its deadline: the frame that reaches it tries the refused URL again, since
    attempts are left, and reports a failure of its own. *)
Lemma refused_connect_fails_later s nid d e s1 deadline now d' :
  connecting_deadline (link s) = Some deadline -> deadline <= now ->
  client_connect nid (str "ftp://host") d s = (Err e, s1) ->
  exists s2, check_deadline now d' s1 = Ok ([], s2) /\ events (queues s2) = events (queues s) ++ [HcConnectFailed].
Proof.
  intros Hd Hn Hc.
  assert (forall d x, server_url (asked x) = str "ftp://host" -> prepare_join d x = Err (SJoin UnsupportedScheme)) as Hp.
  { intros d0 x Hx. unfold prepare_join, resolve. rewrite Hx. reflexivity. }
  unfold client_connect, begin_join in Hc. rewrite Hp in Hc by done. injection Hc as <- <-.
  unfold check_deadline. cbn [use_attempt set_asked set_link link connecting_deadline pool asked attempts_left].
  rewrite Hd. destruct (_ <=? _) eqn:El; [|to_props; lia].
  destruct (_ && _); [|by eexists]. unfold begin_join. rewrite Hp by done. by eexists.
Qed.
End client.
