(* ===== verification/Motd.v ===== *)
(** * Motd: the builder of advertised server data
    ([nethernet-tokio/src/builders/motd.rs])

    A builder is the server data it has so far; each method replaces one field. *)
From S2P Require Import Prelude Text Errors Codec ServerDataModel.

Definition NetherMotd := ServerData.

Definition motd_new (server_name level_name : bytes) : NetherMotd := server_data_new server_name level_name.

Definition motd_server_name (x : bytes) (d : NetherMotd) : NetherMotd :=
  {| server_name := x; level_name := level_name d; game_type := game_type d; player_count := player_count d;
     max_player_count := max_player_count d; editor_world := editor_world d; hardcore := hardcore d;
     flag_a := flag_a d; flag_b := flag_b d; session_id := session_id d; transport_layer := transport_layer d;
     connection_type := connection_type d; protocol_version := protocol_version d; game_version := game_version d |}.
Definition motd_level_name (x : bytes) (d : NetherMotd) : NetherMotd :=
  {| server_name := server_name d; level_name := x; game_type := game_type d; player_count := player_count d;
     max_player_count := max_player_count d; editor_world := editor_world d; hardcore := hardcore d;
     flag_a := flag_a d; flag_b := flag_b d; session_id := session_id d; transport_layer := transport_layer d;
     connection_type := connection_type d; protocol_version := protocol_version d; game_version := game_version d |}.
Definition motd_game_type (x : Z) (d : NetherMotd) : NetherMotd :=
  {| server_name := server_name d; level_name := level_name d; game_type := x; player_count := player_count d;
     max_player_count := max_player_count d; editor_world := editor_world d; hardcore := hardcore d;
     flag_a := flag_a d; flag_b := flag_b d; session_id := session_id d; transport_layer := transport_layer d;
     connection_type := connection_type d; protocol_version := protocol_version d; game_version := game_version d |}.
Definition motd_player_count (x : Z) (d : NetherMotd) : NetherMotd :=
  {| server_name := server_name d; level_name := level_name d; game_type := game_type d; player_count := x;
     max_player_count := max_player_count d; editor_world := editor_world d; hardcore := hardcore d;
     flag_a := flag_a d; flag_b := flag_b d; session_id := session_id d; transport_layer := transport_layer d;
     connection_type := connection_type d; protocol_version := protocol_version d; game_version := game_version d |}.
Definition motd_max_player_count (x : Z) (d : NetherMotd) : NetherMotd :=
  {| server_name := server_name d; level_name := level_name d; game_type := game_type d; player_count := player_count d;
     max_player_count := x; editor_world := editor_world d; hardcore := hardcore d;
     flag_a := flag_a d; flag_b := flag_b d; session_id := session_id d; transport_layer := transport_layer d;
     connection_type := connection_type d; protocol_version := protocol_version d; game_version := game_version d |}.
Definition motd_editor_world (x : bool) (d : NetherMotd) : NetherMotd :=
  {| server_name := server_name d; level_name := level_name d; game_type := game_type d; player_count := player_count d;
     max_player_count := max_player_count d; editor_world := x; hardcore := hardcore d;
     flag_a := flag_a d; flag_b := flag_b d; session_id := session_id d; transport_layer := transport_layer d;
     connection_type := connection_type d; protocol_version := protocol_version d; game_version := game_version d |}.
Definition motd_hardcore (x : bool) (d : NetherMotd) : NetherMotd :=
  {| server_name := server_name d; level_name := level_name d; game_type := game_type d; player_count := player_count d;
     max_player_count := max_player_count d; editor_world := editor_world d; hardcore := x;
     flag_a := flag_a d; flag_b := flag_b d; session_id := session_id d; transport_layer := transport_layer d;
     connection_type := connection_type d; protocol_version := protocol_version d; game_version := game_version d |}.
Definition motd_transport_layer (x : Z) (d : NetherMotd) : NetherMotd :=
  {| server_name := server_name d; level_name := level_name d; game_type := game_type d; player_count := player_count d;
     max_player_count := max_player_count d; editor_world := editor_world d; hardcore := hardcore d;
     flag_a := flag_a d; flag_b := flag_b d; session_id := session_id d; transport_layer := x;
     connection_type := connection_type d; protocol_version := protocol_version d; game_version := game_version d |}.
Definition motd_connection_type (x : Z) (d : NetherMotd) : NetherMotd :=
  {| server_name := server_name d; level_name := level_name d; game_type := game_type d; player_count := player_count d;
     max_player_count := max_player_count d; editor_world := editor_world d; hardcore := hardcore d;
     flag_a := flag_a d; flag_b := flag_b d; session_id := session_id d; transport_layer := transport_layer d;
     connection_type := x; protocol_version := protocol_version d; game_version := game_version d |}.
Definition motd_protocol_version (x : Z) (d : NetherMotd) : NetherMotd :=
  {| server_name := server_name d; level_name := level_name d; game_type := game_type d; player_count := player_count d;
     max_player_count := max_player_count d; editor_world := editor_world d; hardcore := hardcore d;
     flag_a := flag_a d; flag_b := flag_b d; session_id := session_id d; transport_layer := transport_layer d;
     connection_type := connection_type d; protocol_version := x; game_version := game_version d |}.
Definition motd_game_version (x : bytes) (d : NetherMotd) : NetherMotd :=
  {| server_name := server_name d; level_name := level_name d; game_type := game_type d; player_count := player_count d;
     max_player_count := max_player_count d; editor_world := editor_world d; hardcore := hardcore d;
     flag_a := flag_a d; flag_b := flag_b d; session_id := session_id d; transport_layer := transport_layer d;
     connection_type := connection_type d; protocol_version := protocol_version d; game_version := x |}.

Definition motd_build (d : NetherMotd) : ServerData := d.
