(* ===== verification/TokioBase.v ===== *)
(** * TokioBase: errors, addresses and settings of the tokio front end
    ([nethernet-tokio/src/error/mod.rs], [addr.rs], [transport/mod.rs])

    Error texts are kept up to the text of a foreign error, which is left out. *)
From S2P Require Import Prelude Text Errors Codec SignalMsg ServerDataModel Endpoint Identity ServerIdentity.
From S2P Require Import Candidate IpRange Discovery Webrtc Framing Transports Sans Session Connection.
From S2P Require Import Admission HttpSignaler Motd.

(** ** [error/mod.rs] *)

Inductive SignalingError :=
| SendFailed (m : bytes) | ReceiveFailed (m : bytes) | InvalidSignal (m : bytes) | Stopped
| NetworkIdNotFound (id : Z) | CredentialError (m : bytes) | ParseError (m : bytes).

Inductive NetherError :=
| NIce (m : bytes)
| NDtls (m : bytes)
| NSctp (m : bytes)
| NProtocol (e : ProtocolError)
| NIdentity (e : IdentityError)
| IdentityRequired
| NAdmission (e : AdmissionError)
| NSignaling (e : SignalingError)
| NStatus (e : StatusResponseError)
| NIo
| ConnectionClosed
| PendingCountExceeded (network_id : bytes)
| NDataChannel (m : bytes)
| NMessageParse (m : bytes)
| NMessageSizeExceeded (size : Z)
| NTimeout
| InvalidState (m : bytes)
| Signaled (code : SignalErrorCode)
| NOther (m : bytes).

(** ** [addr.rs] *)

Record Addr := { addr_network_id : bytes; addr_connection_id : Z; addr_socket : option SocketAddr }.

#[global] Instance Addr_eq_dec : EqDecision Addr.
Proof. solve_decision. Defined.

Definition addr_new (nid : bytes) (cid : Z) : Addr :=
  {| addr_network_id := nid; addr_connection_id := cid; addr_socket := None |}.

Definition addr_network (nid : bytes) : Addr := addr_new nid 0.

(** [Display] of [SocketAddr]. *)
Definition show_socket_addr (a : SocketAddr) : bytes :=
  match ip a with
  | Endpoint.V4 _ _ _ _ => show_ip (ip a) ++ x3a :: dec (port a)
  | _ => x5b :: show_ip (ip a) ++ [x5d; x3a] ++ dec (port a)
  end.

(** [Display] of [Addr]. *)
Definition show_addr (a : Addr) : bytes :=
  addr_network_id a
  ++ (if addr_connection_id a =? 0 then [] else str " (" ++ dec (addr_connection_id a) ++ str ")")
  ++ match addr_socket a with Some s => str " (" ++ show_socket_addr s ++ str ")" | None => [] end.

(** ** [NetherMotd::encode] *)

Definition motd_encode (d : NetherMotd) : Res NetherError bytes := map_err NProtocol (server_data_serialize d).

(** ** [transport/mod.rs] *)

(** The address that the probe found. *)
Definition local_bind_addr (probe : option IpAddr) : SocketAddr := socket_addr_new (default LOCALHOST probe) 0.

(** [interfaces] are the addresses of the host's interfaces, each with whether it
    is a loopback interface. *)
Definition is_ipv4 (i : IpAddr) : bool := match i with Endpoint.V4 _ _ _ _ => true | _ => false end.

Definition advertisable_addresses (primary : IpAddr) (interfaces : list (IpAddr * bool)) : list IpAddr :=
  fold_left (fun found '(i, loopback) =>
    if is_ipv4 i && negb loopback && advertisable i false && negb (bool_decide (i ∈ found))
    then found ++ [i] else found) interfaces [primary].

(** [IpAddr::is_unspecified]. *)
Definition is_unspecified (i : IpAddr) : bool :=
  bool_decide (i = Endpoint.V4 0 0 0 0 \/ i = Endpoint.V6 0 0 0 0 0 0 0 0).

(** [SharedSocket::bind] of [transport/shared.rs]: [socket] is what binding gives,
    the address that is bound; the address to put into candidates, and the
    addresses to advertise. *)
Definition shared_bind (socket : SocketAddr -> Res NetherError SocketAddr) (advertised_ip : IpAddr)
    (interfaces : list (IpAddr * bool)) (addr : SocketAddr) : Res NetherError (SocketAddr * list IpAddr) :=
  bound ← socket addr;
  Ok (if is_unspecified (ip bound)
      then (socket_addr_new advertised_ip (port bound), advertisable_addresses advertised_ip interfaces)
      else (bound, [])).

Section config.
Context `{b64 : Base64} `{serde : Serde} `{p384 : P384} `{rsa : Rsa}.

(** [ConnectionConfig]; the token that cancels negotiation is an input of those
    who look at it. *)
Record ConnectionConfig := {
  cfg_timeouts : Timeouts;
  cfg_attempts : Z;
  cfg_identity : option ServerIdentity;
  cfg_allow_unsigned_answers : bool;
  cfg_token_trust : option TokenTrust;
  cfg_server_trust : option TokenTrust;
  cfg_infer_peer_candidates : bool;
  cfg_max_pending : Z;
  cfg_max_pending_per_network_id : Z;
  cfg_media_addr : option SocketAddr;
}.

Definition ConnectionConfig_default : ConnectionConfig := {|
  cfg_timeouts := Timeouts_default; cfg_attempts := 3; cfg_identity := None;
  cfg_allow_unsigned_answers := false; cfg_token_trust := None; cfg_server_trust := None;
  cfg_infer_peer_candidates := true; cfg_max_pending := DEFAULT_MAX_PENDING;
  cfg_max_pending_per_network_id := DEFAULT_MAX_PENDING_PER_NETWORK_ID; cfg_media_addr := None |}.
End config.

(** [parse_error_code] of [transport/client.rs]. *)
Definition parse_error_code (data : bytes) : SignalErrorCode :=
  match parse_uint u32_max (trim data) with
  | Some n => SignalErrorCode_from_u32 n
  | None => SignalingUnknownError
  end.

(** ** Sending signals one after the other *)

(** The code that is signaled to the peer, if any, and the error. *)
Abbreviation Failure := (option SignalErrorCode * NetherError)%type.

(** [results] is what sending each signal gives; [cancelled i] whether the caller's
    token ends it before the [i]-th.  The signals that are sent, and how it ends. *)
Fixpoint send_signals (i : nat) (cancelled : nat -> bool) (results : nat -> Res NetherError unit) (l : list Signal)
    : list Signal * Res Failure unit :=
  match l with
  | [] => ([], Ok tt)
  | g :: l =>
      if cancelled i then ([], Err (None, ConnectionClosed))
      else match results i with
           | Ok _ => let '(sent, r) := send_signals (S i) cancelled results l in (g :: sent, r)
           | Err x => ([g], Err (None, x))
           | Panic => ([g], Panic)
           end
  end.

(** [wait_ready]: how waiting for a session to become ready ends. *)
Inductive WaitOutcome := WReady | WDropped | WTimeout | WCancelled.

Definition wait_result (o : WaitOutcome) : Res Failure unit :=
  match o with
  | WReady => Ok tt
  | WDropped => Err (None, ConnectionClosed)
  | WTimeout => Err (Some NegotiationTimeoutWaitingForAccept, NTimeout)
  | WCancelled => Err (None, ConnectionClosed)
  end.

(** ** Properties *)

Lemma send_signals_all c r l : forall i sent, send_signals i c r l = (sent, Ok tt) -> sent = l.
Proof.
  induction l as [|g l IH]; intros i sent; cbn [send_signals]; [by intros [= <-]|].
  destruct (c i); [done|]. destruct (r i); [|done..].
  destruct (send_signals (S i) c r l) as [sent' x] eqn:E. intros [= <- ->]. f_equal. by eapply IH.
Qed.

Lemma send_signals_prefix c r l : forall i, exists rest, (send_signals i c r l).1 ++ rest = l.
Proof.
  induction l as [|g l IH]; intros i; cbn [send_signals]; [by exists []|].
  destruct (c i); [by exists (g :: l)|]. destruct (r i); [|by exists l..].
  destruct (IH (S i)) as [rest Hr]. exists rest. destruct (send_signals (S i) c r l). cbn in *. by rewrite Hr.
Qed.

(** A failure has no code: the signaling has failed, or it was cancelled. *)
Lemma send_signals_fails c r l : forall i sent f, send_signals i c r l = (sent, Err f) ->
  f.1 = None /\ ((exists i, c i = true) \/ exists i x, r i = Err x).
Proof.
  induction l as [|g l IH]; intros i sent f; cbn [send_signals]; [done|].
  destruct (c i) eqn:Ec; [intros [= _ <-]; eauto|].
  destruct (r i) as [u|x|] eqn:Er; [|intros [= _ <-]; eauto|done].
  destruct (send_signals (S i) c r l) as [sent' y] eqn:E. intros [= _ ->]. by eapply IH.
Qed.

(** ... and what was sent is what came before. *)
Lemma send_signals_stops c r l : forall i sent f, send_signals i c r l = (sent, Err f) ->
  exists k, (k < length l)%nat /\
    ((c (i + k)%nat = true /\ sent = take k l) \/
     (exists x, r (i + k)%nat = Err x /\ sent = take (S k) l)).
Proof.
  induction l as [|g l IH]; intros i sent f; cbn [send_signals]; [done|].
  destruct (c i) eqn:Ec; [|destruct (r i) as [u|x|] eqn:Er; [| |done]].
  - intros [= <- _]. exists 0%nat. rewrite Nat.add_0_r. cbn. split; [lia|]. by left.
  - destruct (send_signals (S i) c r l) as [sent' y] eqn:E. intros [= <- ->].
    destruct (IH _ _ _ E) as (k & Hk & Hcase). exists (S k). rewrite <- Nat.add_succ_comm. cbn [length].
    split; [lia|]. destruct Hcase as [[? ->]|(x & ? & ->)]; eauto.
  - intros [= <- _]. exists 0%nat. rewrite Nat.add_0_r. cbn. split; [lia|]. right. exists x. by destruct l.
Qed.

(** The addresses that are advertised: the default route first, then each IPv4
    address of an interface that may be advertised, once. *)
Lemma advertisable_addresses_spec primary interfaces :
  let found := advertisable_addresses primary interfaces in
  head found = Some primary /\ NoDup found /\
  forall i, i ∈ found <-> i = primary \/
    exists loopback, (i, loopback) ∈ interfaces /\ is_ipv4 i = true /\ loopback = false /\ advertisable i false = true.
Proof.
  unfold advertisable_addresses.
  assert (forall l found, head found = Some primary -> NoDup found ->
    let r := fold_left (fun found '(i, loopback) =>
      if is_ipv4 i && negb loopback && advertisable i false && negb (bool_decide (i ∈ found))
      then found ++ [i] else found) l found in
    head r = Some primary /\ NoDup r /\
    forall i, i ∈ r <-> i ∈ found \/ exists loopback, (i, loopback) ∈ l /\ is_ipv4 i = true /\ loopback = false /\
      advertisable i false = true) as Hl.
  { induction l as [|[j lb] l IH]; intros found Hh Hn; cbn [fold_left].
    { split; [done|]. split; [done|]. intros i. split; [by left|]. intros [Hf|(lb & Hin & _)]; [done|by apply elem_of_nil in Hin]. }
    destruct (_ && _) eqn:E.
    - apply andb_true_iff in E as [E E4]. apply andb_true_iff in E as [E E3]. apply andb_true_iff in E as [E1 E2].
      apply negb_true_iff in E2, E4. apply bool_decide_eq_false in E4.
      destruct (IH (found ++ [j])) as (H1 & H2 & H3); [by destruct found| |].
      { apply list.NoDup_app. split; [done|]. split; [|apply list.NoDup_singleton]. by intros x Hx ->%list_elem_of_singleton. }
      split; [done|]. split; [done|]. intros i. rewrite H3, elem_of_app, list_elem_of_singleton. setoid_rewrite elem_of_cons.
      split; [|naive_solver]. intros [[Hf|Hf]|(b & Hb & Hc)]; [by left|subst j; right; exists lb; by auto|right; exists b; by auto].
    - destruct (IH found Hh Hn) as (H1 & H2 & H3). split; [done|]. split; [done|]. intros i. rewrite H3.
      setoid_rewrite elem_of_cons. split; [naive_solver|].
      intros [Hf|(b & [[= -> ->]|Hb] & Hv & -> & Ha)]; [by left| |right; by exists false].
      left. rewrite Hv, Ha in E. cbn in E. apply negb_false_iff, bool_decide_eq_true in E. done. }
  destruct (Hl interfaces [primary]) as (H1 & H2 & H3); [done|apply list.NoDup_singleton|].
  split; [done|]. split; [done|]. intros i. rewrite H3. by rewrite list_elem_of_singleton.
Qed.

(** A shared socket keeps the port that is bound and puts no unspecified address
    into candidates, unless the probe gave one; the address it puts there is the
    first one it advertises, if it advertises any. *)
Lemma shared_bind_addresses socket advertised_ip interfaces addr a ips :
  is_unspecified advertised_ip = false -> shared_bind socket advertised_ip interfaces addr = Ok (a, ips) ->
  is_unspecified (ip a) = false /\ (exists bound, socket addr = Ok bound /\ port a = port bound) /\
  (ips = [] \/ head ips = Some (ip a)) /\ NoDup ips.
Proof.
  intros Hn. unfold shared_bind. intros (bound & Hb & Hr)%res_bind_inv. destruct (is_unspecified (ip bound)) eqn:E.
  - apply Ok_inj in Hr. simplify_eq. destruct (advertisable_addresses_spec advertised_ip interfaces) as (H1 & H2 & _).
    split; [done|]. split; [by eexists|]. split; [by right|done].
  - apply Ok_inj in Hr. simplify_eq. split; [done|]. split; [by eexists|]. split; [by left|constructor].
Qed.

(** The code an error signal is written with is read back. *)
Lemma parse_error_code_roundtrip cid code nid :
  parse_error_code (signal_data (signal_error cid code nid)) = code.
Proof. by destruct code. Qed.

(** What the builder encodes is read back by the discovery codec. *)
Lemma motd_encode_roundtrip d bs :
  server_data_wf (motd_build d) -> motd_encode d = Ok bs -> server_data_decode bs = Ok (motd_build d).
Proof.
  intros Hd. unfold motd_encode, motd_build in *. destruct (server_data_serialize d) as [b| |] eqn:E; intros [= <-].
  unfold server_data_decode. rewrite <- (app_nil_r b). by rewrite (server_data_deserialize_serialize d b []).
Qed.
