(* ===== verification/SessionHandle.v ===== *)
(** * SessionHandle: who keeps a session of the tokio front end open
    ([Session], [SessionReceiver] and [TaskGuard] of
    [nethernet-tokio/src/session/mod.rs], and the forwarders of
    [transport/server.rs] and [transport/client.rs])

    The handles and the two receivers of a session share a guard; the task is
    aborted when the last of them is dropped.  On a server the forwarder of late
    signals waits for the end of the session through a handle of its own; on a
    client it has only the sender of commands.  The state is what is held. *)
From S2P Require Import Prelude.

(** [handles] counts the clones of [Session] outside the forwarder, [receivers] the
    receivers that are left; [forwarder] is whether a forwarder holds a handle, and
    [dispatcher] whether the sender of its signals is there. *)
Record Held := {
  handles : nat;
  receivers : nat;
  forwarder : bool;
  dispatcher : bool;
  cancelled : bool;
  running : bool;
}.

(** The references to the guard. *)
Definition references (h : Held) : nat := handles h + receivers h + (if forwarder h then 1 else 0).

(** [Session::spawn]. *)
Definition spawn : Held :=
  {| handles := 1; receivers := 2; forwarder := false; dispatcher := false; cancelled := false; running := true |}.

(** The server's start of a forwarder, with a clone of the session and a sender in
    the table of dispatchers. *)
Definition spawn_late_signal_forwarder (h : Held) : Held :=
  {| handles := handles h; receivers := receivers h; forwarder := true; dispatcher := true;
     cancelled := cancelled h; running := running h |}.

(** A reference is gone: the guard's drop cancels the token and aborts the task. *)
Definition drop_guard (h : Held) : Held :=
  if (references h =? 0)%nat
  then {| handles := handles h; receivers := receivers h; forwarder := forwarder h; dispatcher := dispatcher h;
          cancelled := true; running := false |}
  else h.

Definition drop_handle (h : Held) : Held :=
  match handles h with
  | O => h
  | S n => drop_guard {| handles := n; receivers := receivers h; forwarder := forwarder h;
                         dispatcher := dispatcher h; cancelled := cancelled h; running := running h |}
  end.

Definition drop_receiver (h : Held) : Held :=
  match receivers h with
  | O => h
  | S n => drop_guard {| handles := handles h; receivers := n; forwarder := forwarder h;
                         dispatcher := dispatcher h; cancelled := cancelled h; running := running h |}
  end.

Definition clone (h : Held) : Held :=
  match handles h with
  | O => h
  | n => {| handles := S n; receivers := receivers h; forwarder := forwarder h; dispatcher := dispatcher h;
            cancelled := cancelled h; running := running h |}
  end.

Definition cancel (h : Held) : Held :=
  {| handles := handles h; receivers := receivers h; forwarder := forwarder h; dispatcher := dispatcher h;
     cancelled := true; running := running h |}.

(** [Session::close], which takes a handle. *)
Definition close (h : Held) : Held := match handles h with O => h | _ => cancel h end.

(** [Session::is_closed]. *)
Definition is_closed (h : Held) : bool := cancelled h.

(** The end of the task, when it sees the token or the session has failed: it
    cancels the token as well. *)
Definition task_ends (failed : bool) (h : Held) : Held :=
  if running h && (cancelled h || failed)
  then {| handles := handles h; receivers := receivers h; forwarder := forwarder h; dispatcher := dispatcher h;
          cancelled := true; running := false |}
  else h.

(** The forwarder ends when the session has closed or its signals have. *)
Definition forwarder_ends (h : Held) : Held :=
  if forwarder h && (cancelled h || negb (dispatcher h))
  then drop_guard {| handles := handles h; receivers := receivers h; forwarder := false;
                     dispatcher := dispatcher h; cancelled := cancelled h; running := running h |}
  else h.

(** The server removes or replaces the dispatcher, or goes. *)
Definition drop_dispatcher (h : Held) : Held :=
  {| handles := handles h; receivers := receivers h; forwarder := forwarder h; dispatcher := false;
     cancelled := cancelled h; running := running h |}.

Inductive HandleOp := HClone | HDrop | HDropReceiver | HClose | HTaskEnds (failed : bool) | HForwarderEnds | HDropDispatcher.

Definition handle_op (o : HandleOp) (h : Held) : Held :=
  match o with
  | HClone => clone h
  | HDrop => drop_handle h
  | HDropReceiver => drop_receiver h
  | HClose => close h
  | HTaskEnds failed => task_ends failed h
  | HForwarderEnds => forwarder_ends h
  | HDropDispatcher => drop_dispatcher h
  end.

Definition handle_ops (l : list HandleOp) (h : Held) : Held := fold_left (fun h o => handle_op o h) l h.

(** ** Properties *)

(** What holds of a session at all times: a session that nobody refers to has
    ended, and one that has ended is closed. *)
Definition held_ok (h : Held) : Prop :=
  (references h = 0%nat -> running h = false) /\ (running h = false -> cancelled h = true).

Lemma drop_guard_ok h : (running h = false -> cancelled h = true) -> held_ok (drop_guard h).
Proof.
  intros Hr. unfold drop_guard, held_ok. destruct (references h =? 0)%nat eqn:E; [done|].
  apply Nat.eqb_neq in E. by split.
Qed.

Lemma handle_op_ok o h : held_ok h -> held_ok (handle_op o h).
Proof.
  intros [H1 H2]. destruct o as [| | | |failed| |]; cbn [handle_op].
  - unfold clone. destruct (handles h) eqn:E; [done|]. unfold held_ok, references in *. cbn. split; [lia|done].
  - unfold drop_handle. destruct (handles h); [done|by apply drop_guard_ok].
  - unfold drop_receiver. destruct (receivers h); [done|by apply drop_guard_ok].
  - unfold close. by destruct (handles h); [|split].
  - unfold task_ends. by destruct (running h && _); [split|].
  - unfold forwarder_ends. by destruct (forwarder h && _); [apply drop_guard_ok|].
  - by split.
Qed.

Lemma handle_ops_ok l : forall h, held_ok h -> held_ok (handle_ops l h).
Proof. induction l as [|o l IH]; intros h Hh; [done|]. apply IH. by apply handle_op_ok. Qed.

Lemma handle_ops_app l l' h : handle_ops (l ++ l') h = handle_ops l' (handle_ops l h).
Proof. apply fold_left_app. Qed.

(** Closing is for good. *)
Lemma handle_op_closed o h : cancelled h = true -> cancelled (handle_op o h) = true.
Proof.
  intros Hc. destruct o; cbn [handle_op]; unfold clone, drop_handle, drop_receiver, close, cancel, task_ends,
    forwarder_ends, drop_guard; repeat case_match; cbn; done.
Qed.

Lemma handle_ops_closed l : forall h, cancelled h = true -> cancelled (handle_ops l h) = true.
Proof. induction l as [|o l IH]; intros h Hc; [done|]. apply IH. by apply handle_op_closed. Qed.

(** Without a forwarder none appears. *)
Lemma handle_op_no_forwarder o h : forwarder h = false -> forwarder (handle_op o h) = false.
Proof.
  intros Hf. destruct o; cbn [handle_op]; unfold clone, drop_handle, drop_receiver, close, cancel, task_ends,
    forwarder_ends, drop_guard; repeat case_match; cbn; done.
Qed.

Lemma handle_ops_no_forwarder l : forall h, forwarder h = false -> forwarder (handle_ops l h) = false.
Proof. induction l as [|o l IH]; intros h Hf; [done|]. apply IH. by apply handle_op_no_forwarder. Qed.

(** A session without a forwarder that holds it, as a client's is, closes as soon
    as its handles and receivers are gone: its task has ended and it is closed, and
    so it stays.  On a server the same holds once the forwarder has ended, which
    it can as soon as the session is closed or its dispatcher has gone. *)
Theorem session_handle_lifetime server l :
  let h := handle_ops l (if (server : bool) then spawn_late_signal_forwarder spawn else spawn) in
  (server = false \/ forwarder h = false -> handles h = 0%nat -> receivers h = 0%nat ->
     running h = false /\ forall l', is_closed (handle_ops l' h) = true) /\
  (is_closed h = true \/ dispatcher h = false -> forwarder (forwarder_ends h) = false) /\
  (running h = false -> is_closed h = true).
Proof.
  intros h. assert (held_ok h) as [H1 H2] by (apply handle_ops_ok; by destruct server).
  split; [|split; [|done]].
  - intros Hs Hh Hr. assert (forwarder h = false) as Hf.
    { destruct Hs as [->|]; [by apply handle_ops_no_forwarder|done]. }
    assert (running h = false) as Hrun by (apply H1; unfold references; by rewrite Hh, Hr, Hf).
    split; [done|]. intros l'. apply handle_ops_closed. by apply H2.
  - intros Hc. unfold forwarder_ends. destruct (forwarder h) eqn:Ef; [|done].
    replace (cancelled h || negb (dispatcher h)) with true
      by (symmetry; apply orb_true_iff; destruct Hc as [Hc|Hc]; [by left|right; by rewrite Hc]).
    unfold drop_guard. by destruct (_ =? 0)%nat.
Qed.

(** What the owners of a session can do with it when they do not close it. *)
Definition dropping (o : HandleOp) : bool :=
  match o with HClone | HDrop | HDropReceiver | HForwarderEnds | HTaskEnds false => true | _ => false end.

(** While the server keeps the dispatcher, dropping every handle and receiver of an
    accepted session does not end it. *)
Lemma forwarder_keeps_session l : forallb dropping l = true ->
  let h := handle_ops l (spawn_late_signal_forwarder spawn) in running h = true /\ is_closed h = false.
Proof.
  intros Hl. assert (forall l h, forallb dropping l = true ->
    forwarder h = true /\ dispatcher h = true /\ running h = true /\ cancelled h = false ->
    let h' := handle_ops l h in running h' = true /\ cancelled h' = false) as H; [|by apply H].
  clear l Hl. induction l as [|o l IH]; intros h Hl (H1 & H2 & H3 & H4); [done|].
  cbn [forallb] in Hl. apply andb_true_iff in Hl as [Ho Hl]. apply IH; [done|].
  assert (forall n m, references {| handles := n; receivers := m; forwarder := forwarder h; dispatcher := dispatcher h;
    cancelled := cancelled h; running := running h |} <> 0%nat) as Hn
    by (intros n m; unfold references; cbn; rewrite H1; lia).
  destruct o as [| | | |[]| |]; try done; cbn [handle_op].
  - unfold clone. by destruct (handles h).
  - unfold drop_handle, drop_guard. destruct (handles h); [done|]. by rewrite (proj2 (Nat.eqb_neq _ _)) by apply Hn.
  - unfold drop_receiver, drop_guard. destruct (receivers h); [done|]. by rewrite (proj2 (Nat.eqb_neq _ _)) by apply Hn.
  - unfold task_ends. by rewrite H3, H4.
  - unfold forwarder_ends. by rewrite H1, H2, H4.
Qed.

Lemma session_handle_lifetime_witness :
  is_closed (handle_ops [HDrop; HDropReceiver; HDropReceiver] spawn) = true.
Proof.
  destruct (session_handle_lifetime false [HDrop; HDropReceiver; HDropReceiver]) as [H _].
  exact (proj2 (H (or_introl eq_refl) eq_refl eq_refl) []).
Defined.
