(* ===== verification/TokioSession.v ===== *)
(** * TokioSession: the task that drives a session
    ([nethernet-tokio/src/session/mod.rs], [session/command.rs])

    The loop of [Session::drive] is a state machine: each turn takes what
    [select!] has picked (a datagram, a command, the timer, the end), feeds the
    connection and handles its outputs.  Clock readings and what the channels to
    the receivers do are arguments; what the task does to the world is a list of
    effects, in order. *)
From S2P Require Import Prelude Text Errors SignalMsg Endpoint Discovery Identity ServerIdentity Webrtc.
From S2P Require Import Framing Transports Sans Session SessionSafety Connection TokioBase.

Definition MAX_IDLE : Duration := secs 1.
Definition PACKET_CHANNEL_CAPACITY : nat := 1024.

Section task.
Context {crypto : CryptoOps} {sdp : Sdp} {cand : IceCandidate} {cert : CertificateOps}
  {iceops : IceOps} {dtlsops : DtlsOps} {sctpops : SctpOps} {dcepops : DcepOps}.

(** [Command]; the senders of the replies are left out, the replies are effects. *)
Inductive Command :=
| CmdSend (channel : Channel) (data : bytes)
| CmdSignal (signal : Signal)
| CmdRemoteAddr
| CmdRtt
| CmdSetPlayer (player : PlayerInfo)
| CmdPlayer
| CmdSetHost (host : bytes)
| CmdHost.

Inductive Reply :=
| RSend (r : Res NetherError unit)
| RRemoteAddr (a : option SocketAddr)
| RRtt (d : option Duration)
| RPlayer (p : option PlayerInfo)
| RHost (h : option bytes).

(** A message is sent to a channel whose receiver takes it or is gone, or which is
    full; [FxReady] says whether the waiting end was there. *)
Inductive Effect :=
| FxSend (data : bytes) (to : SocketAddr)
| FxReady (first : bool)
| FxPacket (data : bytes) (taken : bool)
| FxUnreliable (data : bytes) (taken : bool)
| FxClaim (addr : SocketAddr)
| FxReply (r : Reply).

(** The local variables of the task. *)
Record Task := {
  connection : Connection;
  wake : Instant;
  task_remote_addr : option SocketAddr;
  task_rtt : option Duration;
  task_player : option PlayerInfo;
  task_host : option bytes;
  ready_tx : bool;
}.

Definition task_new (c : Connection) (now : Instant) : Task := {|
  connection := c; wake := now + MAX_IDLE; task_remote_addr := None; task_rtt := None;
  task_player := None; task_host := None; ready_tx := true |}.

Definition set_connection (c : Connection) (t : Task) : Task := {|
  connection := c; wake := wake t; task_remote_addr := task_remote_addr t; task_rtt := task_rtt t;
  task_player := task_player t; task_host := task_host t; ready_tx := ready_tx t |}.
Definition set_wake (w : Instant) (t : Task) : Task := {|
  connection := connection t; wake := w; task_remote_addr := task_remote_addr t; task_rtt := task_rtt t;
  task_player := task_player t; task_host := task_host t; ready_tx := ready_tx t |}.
Definition set_peer (p : option PlayerInfo) (h : option bytes) (t : Task) : Task := {|
  connection := connection t; wake := wake t; task_remote_addr := task_remote_addr t;
  task_rtt := task_rtt t; task_player := p; task_host := h; ready_tx := ready_tx t |}.

(** What [select!] picks. *)
Inductive Turn :=
| TClosed
| TReceived (received : option (bytes * SocketAddr)) (now : Instant)
| TCommand (command : option Command) (now : Instant)
| TWoken (now : Instant).

Definition feed (i : ConnectionInput) (t : Task) : Res unit (Res ProtocolError unit * Task) :=
  match handle i (connection t) with
  | (Panic, _) => Panic
  | (r, c) => Ok (r, set_connection c t)
  end.

Definition run_command (c : Command) (now : Instant) (t : Task) : Res unit (Task * list Effect) :=
  match c with
  | CmdSend channel data =>
      '(r, t) ← feed (CSend channel data now) t;
      Ok (t, [FxReply (RSend (map_err NProtocol r))])
  | CmdSignal signal => '(_, t) ← feed (CSignal signal now) t; Ok (t, [])
  | CmdRemoteAddr => Ok (t, [FxReply (RRemoteAddr (task_remote_addr t))])
  | CmdRtt => Ok (t, [FxReply (RRtt (task_rtt t))])
  | CmdSetPlayer p => Ok (set_peer (Some p) (task_host t) t, [])
  | CmdPlayer => Ok (t, [FxReply (RPlayer (task_player t))])
  | CmdSetHost h => Ok (set_peer (task_player t) (Some h) t, [])
  | CmdHost => Ok (t, [FxReply (RHost (task_host t))])
  end.

(** [None] when the loop is left. *)
Definition take_turn (u : Turn) (t : Task) : Res unit (option (Task * list Effect)) :=
  match u with
  | TClosed => Ok None
  | TReceived (Some (data, from)) now => '(_, t) ← feed (CPacket data from now) t; Ok (Some (t, []))
  | TReceived None _ => Ok (Some (t, []))
  | TCommand (Some c) now => r ← run_command c now t; Ok (Some r)
  | TCommand None _ => Ok None
  | TWoken now => '(_, t) ← feed (CTimeout now) t; Ok (Some (t, []))
  end.

(** What handling one output finds: whether the receiver of reliable messages is
    there, whether the channel of unreliable ones has room, and the clock. *)
Record OutputEnv := { reliable_open : bool; unreliable_room : bool; output_clock : Instant }.

Inductive Flow := FNext | FBreak | FStop.

Definition handle_output (e : OutputEnv) (o : SessionOutput) (t : Task) : Task * list Effect * Flow :=
  match o with
  | OSend data to => (t, [FxSend data to], FNext)
  | OEvent Ready =>
      ({| connection := connection t; wake := wake t;
          task_remote_addr := connection_remote_addr (connection t); task_rtt := task_rtt t;
          task_player := task_player t; task_host := task_host t; ready_tx := false |},
       [FxReady (ready_tx t)], FNext)
  | OEvent Failed => (t, [], FStop)
  | OMessage Reliable data => (t, [FxPacket data (reliable_open e)], if reliable_open e then FNext else FBreak)
  | OMessage Unreliable data => (t, [FxUnreliable data (unreliable_room e)], FNext)
  | OWait d => (set_wake (output_clock e + Z.min d MAX_IDLE) t, [], FNext)
  end.

(** [while let Some(output) = connection.poll()]; whether the task stops. *)
Fixpoint poll_outputs (fuel : nat) (i : nat) (env : nat -> OutputEnv) (t : Task) (fx : list Effect)
    : Res unit (Task * list Effect * bool) :=
  match fuel with
  | O => Panic
  | S fuel =>
      match poll (connection t) with
      | (None, c) => Ok (set_connection c t, fx, false)
      | (Some o, c) =>
          let '(t, fx1, flow) := handle_output (env i) o (set_connection c t) in
          match flow with
          | FNext => poll_outputs fuel (S i) env t (fx ++ fx1)
          | FBreak => Ok (t, fx ++ fx1, false)
          | FStop => Ok (t, fx ++ fx1, true)
          end
      end
  end.

(** The end of the round. *)
Definition finish_round (t : Task) : Task * list Effect :=
  ({| connection := connection t; wake := wake t; task_remote_addr := task_remote_addr t;
      task_rtt := connection_rtt (connection t); task_player := task_player t; task_host := task_host t;
      ready_tx := ready_tx t |},
   match connection_remote_addr (connection t) with Some addr => [FxClaim addr] | None => [] end).

(** One round of the loop; whether it was the last. *)
Definition drive_round (u : Turn) (env : nat -> OutputEnv) (t : Task) : Res unit (Task * list Effect * bool) :=
  r ← take_turn u t;
  match r with
  | None => Ok (t, [], true)
  | Some (t, fx) =>
      '(t, fx, stopped) ← poll_outputs (S (length (output (c_session (connection t))))) 0 env t fx;
      if (stopped : bool) then Ok (t, fx, true)
      else let '(t, fx1) := finish_round t in Ok (t, fx ++ fx1, false)
  end.

(** The task from its start: what it has done, where it is and whether it has ended. *)
Inductive drive_run (t0 : Task) : list Effect -> Task -> bool -> Prop :=
| drive_start : drive_run t0 [] t0 false
| drive_step fx t u env fx' t' ended :
    drive_run t0 fx t false -> drive_round u env t = Ok (t', fx', ended) ->
    drive_run t0 (fx ++ fx') t' ended.

(** ** The handle *)

(** What a caller gets when the task has answered, or has ended. *)
Definition send_result (reply : option (Res NetherError unit)) : Res NetherError unit :=
  default (Err ConnectionClosed) reply.

Definition session_remote_addr (remote : Addr) (reply : option (option SocketAddr)) : Addr :=
  {| addr_network_id := addr_network_id remote; addr_connection_id := addr_connection_id remote;
     addr_socket := default None reply |}.

(** ** What the task does is what the session says *)

(** The output that an effect carries out. *)
Definition carried (e : Effect) : option SessionOutput :=
  match e with
  | FxSend data to => Some (OSend data to)
  | FxReady _ => Some (OEvent Ready)
  | FxPacket data _ => Some (OMessage Reliable data)
  | FxUnreliable data _ => Some (OMessage Unreliable data)
  | _ => None
  end.

(** Timers and the failure, which ends the task, have no effect of their own. *)
Definition visible_output (o : SessionOutput) : bool :=
  match o with OWait _ | OEvent Failed => false | _ => true end.

Definition fired (e : Effect) : bool := match e with FxReady first => first | _ => false end.

(** The outputs [outs] that have been taken from the connection, and the effects. *)
Record mirrors (c0 : Connection) (outs : list SessionOutput) (fx : list Effect) (t : Task) (ended : bool) : Prop := {
  m_trace : trace c0 outs (connection t);
  m_carried : omap carried fx = List.filter visible_output outs;
  m_ready : length (List.filter fired fx) = if ready_tx t then 0%nat else 1%nat;
  m_taken : ready_tx t = false <-> OEvent Ready ∈ outs;
  m_alive : ended = false -> OEvent Failed ∉ outs;
}.

Lemma task_mirrors_feed c0 outs fx t i r t' :
  feed i t = Ok (r, t') -> mirrors c0 outs fx t false -> mirrors c0 outs fx t' false.
Proof.
  unfold feed. intros Hf [H1 H2 H3 H4 H5].
  assert (connection t' = (handle i (connection t)).2 /\ ready_tx t' = ready_tx t) as [Hc Hr].
  { by destruct (handle i (connection t)) as [[] c]; simplify_eq. }
  split; [rewrite Hc; by constructor|done|by rewrite Hr|by rewrite Hr|done].
Qed.

(** Effects that no output has, and a task whose connection is the same. *)
Lemma task_mirrors_quiet c0 outs fx fx1 t t' ended :
  connection t' = connection t -> ready_tx t' = ready_tx t -> omap carried fx1 = [] -> List.filter fired fx1 = [] ->
  mirrors c0 outs fx t ended -> mirrors c0 outs (fx ++ fx1) t' ended.
Proof.
  intros Hc Hr H1 H2 [M1 M2 M3 M4 M5]. split; [by rewrite Hc| | |by rewrite Hr|done].
  - by rewrite omap_app, H1, app_nil_r.
  - by rewrite List.filter_app, H2, app_nil_r, Hr.
Qed.

Lemma task_take_turn_mirrors c0 outs fx t u t' fx1 :
  take_turn u t = Ok (Some (t', fx1)) -> mirrors c0 outs fx t false -> mirrors c0 outs (fx ++ fx1) t' false.
Proof.
  assert (forall i, (forall r, feed i t = Ok (r, t') -> mirrors c0 outs fx t false -> mirrors c0 outs (fx ++ []) t' false)) as Hfeed.
  { intros i r Hf. rewrite app_nil_r. by eapply task_mirrors_feed. }
  destruct u as [|[[data from]|] now|[c|] now|now]; cbn [take_turn]; [done|..|done|].
  - intros ([r t1] & Hf & [= <- <-])%res_bind_inv. by eapply Hfeed.
  - intros [= <- <-]. by apply task_mirrors_quiet.
  - intros ([t1 fx2] & Hr & [= <- <-])%res_bind_inv. revert Hr.
    destruct c as [ch data|g| | |p| |h|]; cbn [run_command];
      try (intros [= <- <-]; by apply task_mirrors_quiet).
    + intros ([r t2] & Hf & [= <- <-])%res_bind_inv Hm. eapply (task_mirrors_quiet _ _ _ _ t2); [done..|].
      by eapply task_mirrors_feed.
    + intros ([r t2] & Hf & [= <- <-])%res_bind_inv. by eapply Hfeed.
  - intros ([r t1] & Hf & [= <- <-])%res_bind_inv. by eapply Hfeed.
Qed.

(** Taking one output and handling it. *)
Lemma handle_output_mirrors c0 outs fx t e o c t' fx1 flow :
  poll (connection t) = (Some o, c) -> handle_output e o (set_connection c t) = (t', fx1, flow) ->
  mirrors c0 outs fx t false ->
  connection t' = c /\
  mirrors c0 (outs ++ [o]) (fx ++ fx1) t' (match flow with FStop => true | _ => false end).
Proof.
  intros Hp Ho [M1 M2 M3 M4 M5].
  assert (trace c0 (outs ++ [o]) c) as Ht by (pose proof (trace_poll _ _ _ M1) as Ht; by rewrite Hp in Ht).
  destruct o as [data to|[]|[] data|d]; cbn [handle_output] in Ho; injection Ho as <- <- <-; (split; [done|]);
    (split; [exact Ht| | | |]); rewrite ?omap_app, ?List.filter_app, ?length_app, ?M2, ?M3; cbn; try done.
  all: try (intros Hf [Hin|Hin%list_elem_of_singleton]%elem_of_app; [by apply M5|done]).
  all: try (rewrite M4, elem_of_app, list_elem_of_singleton; split; [by left|by intros [Hin|Hin]]).
  - by destruct (ready_tx t).
  - split; [|done]. intros _. apply elem_of_app. right. by left.
Qed.

(** Enough turns for the outputs there are. *)
Lemma poll_outputs_mirrors c0 env l : forall outs pre fx t i,
  output (c_session (connection t)) = l -> mirrors c0 outs (pre ++ fx) t false ->
  exists t' fx' ended outs', poll_outputs (S (length l)) i env t fx = Ok (t', fx', ended) /\
    mirrors c0 (outs ++ outs') (pre ++ fx') t' ended /\ outs' ++ output (c_session (connection t')) = l.
Proof.
  induction l as [|o l IH]; intros outs pre fx t i Hl Hm; cbn [length poll_outputs].
  - rewrite (poll_nil _ Hl). eexists _, _, _, []. split; [done|]. rewrite app_nil_r. split; [|done].
    by destruct Hm.
  - destruct (poll_cons _ _ _ Hl) as (c & Hp & Hc & _). rewrite Hp.
    destruct (handle_output (env i) o (set_connection c t)) as [[t1 fx1] flow] eqn:Eh.
    destruct (handle_output_mirrors c0 outs (pre ++ fx) t _ o c t1 fx1 flow Hp Eh Hm) as [Hc1 Hm1].
    rewrite <- app_assoc in Hm1. destruct flow.
    + destruct (IH (outs ++ [o]) pre (fx ++ fx1) t1 (S i)) as (t2 & fx2 & en & outs2 & H2 & Hm2 & Ho2); [by rewrite Hc1|done|].
      exists t2, fx2, en, (o :: outs2). split; [done|]. rewrite <- app_assoc in Hm2. split; [done|]. by cbn; rewrite Ho2.
    + exists t1, (fx ++ fx1), false, [o]. split; [done|]. split; [done|]. by rewrite Hc1, Hc.
    + exists t1, (fx ++ fx1), true, [o]. split; [done|]. split; [done|]. by rewrite Hc1, Hc.
Qed.

Lemma task_drive_round_mirrors c0 outs fx t u env t' fx' ended :
  drive_round u env t = Ok (t', fx', ended) -> mirrors c0 outs fx t false ->
  exists outs', mirrors c0 (outs ++ outs') (fx ++ fx') t' ended.
Proof.
  unfold drive_round. intros (r & Hr & Hd)%res_bind_inv Hm. destruct r as [[t1 fx1]|].
  - eapply task_take_turn_mirrors in Hr; [|exact Hm].
    destruct (poll_outputs_mirrors c0 env _ outs fx fx1 t1 0 eq_refl Hr) as (t2 & fx2 & en & outs2 & H2 & Hm2 & _).
    rewrite H2, res_bind_Ok in Hd. exists outs2. destruct en; injection Hd as <- <- <-; [done|].
    rewrite app_assoc. eapply (task_mirrors_quiet _ _ _ _ t2); [done|done|..|exact Hm2]; by destruct (connection_remote_addr _).
  - injection Hd as <- <- <-. exists []. rewrite !app_nil_r. destruct Hm as [M1 M2 M3 M4 M5]. by split.
Qed.

Lemma task_drive_run_mirrors c now fx t ended :
  drive_run (task_new c now) fx t ended -> exists outs, mirrors c outs fx t ended.
Proof.
  induction 1 as [|fx t u env fx' t' ended _ [outs IH] Hr].
  - exists []. split; [constructor|done|done| |by intros _ ?%elem_of_nil]. by split; [|intros ?%elem_of_nil].
  - eapply task_drive_round_mirrors in Hr as [outs' Hm]; [|exact IH]. by exists (outs ++ outs').
Qed.

(** A round does not panic unless the connection does, and it always ends. *)
Lemma drive_round_total u env t :
  (forall i, (handle i (connection t)).1 <> Panic) -> exists r, drive_round u env t = Ok r.
Proof.
  intros Hp. assert (forall i, exists r, feed i t = Ok r) as Hf.
  { intros i. unfold feed. specialize (Hp i). destruct (handle i (connection t)) as [[] c]; cbn in Hp; try done; by eexists. }
  assert (exists r, take_turn u t = Ok r) as [r Hr].
  { destruct u as [|[[data from]|] now|[c|] now|now]; cbn [take_turn]; try by eexists.
    - destruct (Hf (CPacket data from now)) as [[r t1] ->]. by eexists.
    - destruct c as [ch data|g| | |p| |h|]; cbn [run_command]; try by eexists.
      + destruct (Hf (CSend ch data now)) as [[r t1] ->]. by eexists.
      + destruct (Hf (CSignal g now)) as [[r t1] ->]. by eexists.
    - destruct (Hf (CTimeout now)) as [[r t1] ->]. by eexists. }
  unfold drive_round. rewrite Hr, res_bind_Ok. destruct r as [[t1 fx1]|]; [|by eexists].
  assert (forall l i t fx, output (c_session (connection t)) = l ->
    exists r, poll_outputs (S (length l)) i env t fx = Ok r) as Hpoll.
  { clear. induction l as [|o l IH]; intros i t fx Hl; cbn [length poll_outputs].
    - rewrite (poll_nil _ Hl). by eexists.
    - destruct (poll_cons _ _ _ Hl) as (c & -> & Hc & _).
      destruct (handle_output (env i) o (set_connection c t)) as [[t1 fx1] flow] eqn:Eh.
      assert (connection t1 = c) as Ht1 by (destruct o as [| [] | [] |]; cbn in Eh; by simplify_eq).
      destruct flow; [|by eexists..]. apply IH. by rewrite Ht1. }
  destruct (Hpoll _ 0%nat t1 fx1 eq_refl) as [[[t2 fx2] en] ->]. rewrite res_bind_Ok.
  destruct en; [by eexists|]. by eexists.
Qed.

Lemma occurrences_elem e l : OEvent e ∈ l -> (0 < occurrences e l)%nat.
Proof.
  induction l as [|o l IH]; [by intros ?%elem_of_nil|]. intros [<-|Hin]%elem_of_cons; cbn.
  - rewrite bool_decide_eq_true_2 by done. lia.
  - specialize (IH Hin). destruct o; lia.
Qed.

(** C30: What a session's task does is what the session says: its datagrams, the
    messages it hands over and the readiness it reports are the session's outputs,
    each once and in order.  The one that waits for readiness is told once, when
    the session has become ready, and both channels are open then.  The task goes
    on only as long as the session has not failed. *)
Theorem session_task_faithful addr advertised controlling u p random now0 s0 d cid nid rid now fx t ended :
  session_with_advertised addr advertised controlling u p random now0 = Ok (s0, d) ->
  drive_run (task_new {| c_session := s0; c_connection_id := cid; remote_network_id := nid;
                         remote_identity := rid |} now) fx t ended ->
  exists outs, trace s0 outs (c_session (connection t)) /\
    omap carried fx = List.filter visible_output outs /\
    (length (List.filter fired fx) <= 1)%nat /\
    (length (List.filter fired fx) = 1%nat <-> OEvent Ready ∈ outs) /\
    (OEvent Ready ∈ outs ->
       is_Some (reliable_stream_id (channels (c_session (connection t)))) /\
       is_Some (unreliable_stream_id (channels (c_session (connection t))))) /\
    (ended = false -> OEvent Failed ∉ outs).
Proof.
  intros Hnew%session_new_inv Hrun. apply task_drive_run_mirrors in Hrun as [outs [M1 M2 M3 M4 M5]].
  apply connection_trace_session in M1. cbn [c_session] in M1. exists outs.
  split; [done|]. split; [done|]. split; [rewrite M3; destruct (ready_tx t); lia|].
  split; [rewrite M3, <- M4; by destruct (ready_tx t)|]. split; [|done].
  destruct (session_inv_trace _ _ _ Hnew M1) as (_ & _ & Hready & Hev). intros Hin%occurrences_elem.
  specialize (Hev Ready). rewrite occurrences_app in Hev. unfold emitted in Hev.
  destruct (ready_emitted (channels (c_session (connection t)))); [|lia].
  split; [apply (Hready eq_refl Reliable)|apply (Hready eq_refl Unreliable)].
Qed.

(** ** The timer *)

(** However the session asks to be woken, the task wakes within [MAX_IDLE] of the
    time it was asked. *)
Definition wakes_by (bound : Instant) (t : Task) : Prop := wake t <= bound + MAX_IDLE.

Lemma poll_outputs_wake fuel : forall i env t fx t' fx' ended bound,
  poll_outputs fuel i env t fx = Ok (t', fx', ended) -> (forall j, output_clock (env j) <= bound) ->
  wakes_by bound t -> wakes_by bound t'.
Proof.
  induction fuel as [|fuel IH]; intros i env t fx t' fx' ended bound; cbn [poll_outputs]; [done|].
  destruct (poll (connection t)) as [[o|] c]; [|by intros [= <- _ _]].
  destruct (handle_output (env i) o (set_connection c t)) as [[t1 fx1] flow] eqn:Eh. intros Hp He Hw.
  assert (wakes_by bound t1) as Hw1.
  { destruct o as [data to|[]|[] data|d]; cbn in Eh; injection Eh as <- _ _; try done.
    unfold wakes_by, MAX_IDLE in *. cbn. specialize (He i). lia. }
  destruct flow; [by eapply IH|injection Hp as <- _ _; done..].
Qed.

Lemma drive_round_wake u env t t' fx ended bound :
  drive_round u env t = Ok (t', fx, ended) -> (forall j, output_clock (env j) <= bound) ->
  wakes_by bound t -> wakes_by bound t'.
Proof.
  unfold drive_round. intros (r & Hr & Hd)%res_bind_inv He Hw. destruct r as [[t1 fx1]|]; [|by injection Hd as <- _ _].
  assert (wake t1 = wake t) as Hk.
  { assert (forall i r t1, feed i t = Ok (r, t1) -> wake t1 = wake t) as Hf.
    { intros i r t2. unfold feed. by destruct (handle i (connection t)) as [[] c]; intros [= _ <-]. }
    destruct u as [|[[data from]|] n|[c|] n|n]; cbn [take_turn] in Hr; try done.
    - apply res_bind_inv in Hr as ([r t2] & Hf1%Hf & [= <- _]). done.
    - by injection Hr as <- _.
    - apply res_bind_inv in Hr as ([t2 fx2] & Hc & [= <- _]).
      destruct c as [ch data|g| | |p| |h|]; cbn [run_command] in Hc; try (by injection Hc as <- _).
      + apply res_bind_inv in Hc as ([r t3] & Hf1%Hf & [= <- _]). done.
      + apply res_bind_inv in Hc as ([r t3] & Hf1%Hf & [= <- _]). done.
    - apply res_bind_inv in Hr as ([r t2] & Hf1%Hf & [= <- _]). done. }
  apply res_bind_inv in Hd as ([[t2 fx2] en] & Hp & Hd). eapply poll_outputs_wake in Hp; [|exact He|by unfold wakes_by; rewrite Hk].
  by destruct en; injection Hd as <- _ _.
Qed.
End task.
