(* ===== verification/LanTask.v ===== *)
(** * LanTask: the task behind LAN signaling
    ([nethernet-tokio/src/signaling/lan.rs])

    [LanSignaling] is a handle on a task that owns the signaler and the discovery
    socket.  A turn of the task takes what [select!] has picked, feeds the signaler
    and carries its outputs out; clock readings are arguments and what the task
    does to the world is a list of effects, in order. *)
From S2P Require Import Prelude Text Errors Codec SignalMsg ServerDataModel Discovery Endpoint Router Sans.
From S2P Require Import LanSignaler SharedSocket TokioBase.

Definition LAN_MAX_IDLE : Duration := secs 1.

Definition BROADCAST : IpAddr := Endpoint.V4 255 255 255 255.

(** [Ipv4Addr::to_ipv6_mapped]. *)
Definition to_ipv6_mapped (a b c d : Z) : IpAddr := Endpoint.V6 0 0 0 0 0 0xffff (a * 256 + b) (c * 256 + d).

(** The address as the socket takes it. *)
Definition socket_family (addr : SocketAddr) (dual_stack : bool) : SocketAddr :=
  match ip addr with
  | Endpoint.V4 a b c d => if dual_stack then socket_addr_new (to_ipv6_mapped a b c d) (port addr) else addr
  | _ => addr
  end.

(** The settings of [with_config]. *)
Definition lan_config (bind_addr : SocketAddr) (c : LanSignalerConfig) : LanSignalerConfig :=
  match broadcast_address c with
  | None =>
      if port bind_addr =? discovery_port c then c
      else {| discovery_port := discovery_port c;
              broadcast_address := Some (socket_addr_new BROADCAST (discovery_port c));
              broadcast_interval := broadcast_interval c; address_timeout := address_timeout c;
              signal_retry_interval := signal_retry_interval c; offer_retry_interval := offer_retry_interval c;
              signal_retries := signal_retries c; max_discovered := max_discovered c |}
  | Some _ => c
  end.

Section task.
Context {crypto : CryptoOps}.

Inductive Command :=
| LSignal (signal : Signal)
| LSetServerData (data : ServerData)
| LDiscovered
| LAddress (network_id : Z).

Inductive Reply :=
| LRSignal (r : Res NetherError unit)
| LRDiscovered (servers : gmap Z ServerData)
| LRAddress (addr : option SocketAddr).

Inductive Effect :=
| LFxDatagram (buf : bytes) (to : SocketAddr)
| LFxSignal (signal : Signal)
| LFxReply (r : Reply).

Record Task := { signaler : LanSignaler; wake : Instant; cached : gmap Z SocketAddr; dual_stack : bool }.

Definition task_new (network_id : Z) (bind_addr : SocketAddr) (c : LanSignalerConfig) (dual : bool)
    (now : Instant) : Task :=
  {| signaler := lan_new network_id (lan_config bind_addr c); wake := now; cached := ∅; dual_stack := dual |}.

Definition set_signaler (s : LanSignaler) (t : Task) : Task :=
  {| signaler := s; wake := wake t; cached := cached t; dual_stack := dual_stack t |}.

Inductive Turn :=
| LTCancelled
| LTReceived (received : option (bytes * SocketAddr)) (now : Instant)
| LTCommand (command : option Command) (now : Instant)
| LTWoken (now : Instant).

Definition feed (i : LanSignalerInput) (t : Task) : Res unit (Res LanSignalerError unit * Task) :=
  match handle i (signaler t) with
  | (Panic, _) => Panic
  | (r, s) => Ok (r, set_signaler s t)
  end.

(** The text of a signaler's error is left out. *)
Definition run_command (c : Command) (now : Instant) (t : Task) : Res unit (Task * list Effect) :=
  match c with
  | LSignal sig =>
      '(r, t) ← feed (ISignal sig now) t;
      Ok (t, [LFxReply (LRSignal (map_err (fun _ => NOther []) r))])
  | LSetServerData data => '(_, t) ← feed (SetServerData data) t; Ok (t, [])
  | LDiscovered => Ok (t, [LFxReply (LRDiscovered (discovered (signaler t)))])
  | LAddress id => Ok (t, [LFxReply (LRAddress (cached t !! id))])
  end.

(** [None] when the loop is left. *)
Definition take_turn (u : Turn) (t : Task) : Res unit (option (Task * list Effect)) :=
  match u with
  | LTCancelled => Ok None
  | LTReceived (Some (buf, from)) now => '(_, t) ← feed (IDatagram buf (canonical from) now) t; Ok (Some (t, []))
  | LTReceived None _ => Ok (Some (t, []))
  | LTCommand (Some c) now => r ← run_command c now t; Ok (Some r)
  | LTCommand None _ => Ok None
  | LTWoken now => '(_, t) ← feed (Update now) t; Ok (Some (t, []))
  end.

(** The effects so far and the time to wake. *)
Definition carry_out (dual : bool) (clock : nat -> Instant) (i : nat) (o : LanSignalerOutput)
    (w : list Effect * Instant) : list Effect * Instant :=
  match o with
  | LanSignaler.Datagram buf addr => (w.1 ++ [LFxDatagram buf (socket_family addr dual)], w.2)
  | OSignal sig => (w.1 ++ [LFxSignal sig], w.2)
  | ServerDiscovered _ _ => w
  | Wait d => (w.1, clock i + Z.min d LAN_MAX_IDLE)
  end.

(** [signaler.addresses().collect()]. *)
Definition collect_addresses (s : LanSignaler) : gmap Z SocketAddr := entry_addr <$> addresses s.

(** One round of the loop; whether it was the last. *)
Definition drive_round (u : Turn) (clock : nat -> Instant) (t : Task) : Res unit (Task * list Effect * bool) :=
  r ← take_turn u t;
  match r with
  | None => Ok (t, [], true)
  | Some (t, fx) =>
      '(s, (fx, w)) ← take_outputs (carry_out (dual_stack t) clock) (signaler t) (fx, wake t);
      Ok ({| signaler := s; wake := w; cached := collect_addresses s; dual_stack := dual_stack t |}, fx, false)
  end.

Inductive drive_run (t0 : Task) : list Effect -> Task -> bool -> Prop :=
| ldrive_start : drive_run t0 [] t0 false
| ldrive_step fx t u clock fx' t' ended :
    drive_run t0 fx t false -> drive_round u clock t = Ok (t', fx', ended) ->
    drive_run t0 (fx ++ fx') t' ended.

(** ** The handle *)

Definition signal_result (reply : option (Res NetherError unit)) : Res NetherError unit :=
  default (Err ConnectionClosed) reply.

(** [remote_address]: the id that is asked for, when the network id is one. *)
Definition remote_address_query (a : Addr) : option Command :=
  LAddress <$> parse_uint u64_max (addr_network_id a).

(** [set_pong_data]: an unparsable string is ignored. *)
Definition pong_command (data : bytes) : Res unit (option Command) :=
  match from_pong_data data with
  | Ok d => Ok (Some (LSetServerData d))
  | Err _ => Ok None
  | Panic => Panic
  end.

(** ** [scan] *)

Definition note_found (i : nat) (o : LanSignalerOutput) (found : gmap Z ServerData) : gmap Z ServerData :=
  match o with ServerDiscovered id data => <[id := data]> found | _ => found end.

(** The datagrams that come before the deadline.  A refused one is skipped with
    what it may have left in the queue. *)
Fixpoint scan_loop (l : list (bytes * SocketAddr * Instant)) (s : LanSignaler) (found : gmap Z ServerData)
    : Res unit (LanSignaler * gmap Z ServerData) :=
  match l with
  | [] => Ok (s, found)
  | (buf, from, now) :: l =>
      match handle (IDatagram buf from now) s with
      | (Panic, _) => Panic
      | (Err _, s) => scan_loop l s found
      | (Ok _, s) => '(s, found) ← take_outputs note_found s found; scan_loop l s found
      end
  end.

(** The broadcast that is sent and the servers found. *)
Definition scan (network_id : Z) (scan_port : Z) (l : list (bytes * SocketAddr * Instant))
    : Res ProtocolError ((bytes * SocketAddr) * gmap Z ServerData) :=
  request ← encode (Request request_packet) network_id;
  '(_, found) ← map_err (fun _ => Other []) (scan_loop l (lan_new network_id LanSignalerConfig_default) ∅);
  Ok ((request, socket_addr_new BROADCAST scan_port), found).

(** ** What the task does is what the signaler says *)

Definition carried (dual : bool) (o : LanSignalerOutput) : option Effect :=
  match o with
  | LanSignaler.Datagram buf addr => Some (LFxDatagram buf (socket_family addr dual))
  | OSignal sig => Some (LFxSignal sig)
  | _ => None
  end.

Definition is_reply (e : Effect) : bool := match e with LFxReply _ => true | _ => false end.

Lemma fold_carry dual clock l : forall i w,
  (fold_outputs (carry_out dual clock) i l w).1 = w.1 ++ omap (carried dual) l.
Proof.
  induction l as [|o l IH]; intros i w; cbn [fold_outputs]; [by rewrite app_nil_r|].
  rewrite IH. by destruct o; cbn; rewrite <- ?app_assoc.
Qed.

(** The outputs taken so far, what has been done about them, and what is known of
    the state between the rounds. *)
Record mirrors (t0 : Task) (outs : list LanSignalerOutput) (fx : list Effect) (t : Task) : Prop := {
  m_trace : trace (signaler t0) outs (signaler t);
  m_carried : List.filter (fun e => negb (is_reply e)) fx = omap (carried (dual_stack t0)) outs;
  m_dual : dual_stack t = dual_stack t0;
}.

Lemma lan_task_mirrors_feed t0 outs fx t i r t' :
  feed i t = Ok (r, t') -> mirrors t0 outs fx t -> mirrors t0 outs fx t'.
Proof.
  unfold feed. intros Hf [M1 M2 M3].
  assert (t' = set_signaler (handle i (signaler t)).2 t) as -> by (destruct (handle i (signaler t)) as [[] s]; by simplify_eq).
  split; [by constructor|done|done].
Qed.

Lemma mirrors_reply t0 outs fx r t : mirrors t0 outs fx t -> mirrors t0 outs (fx ++ [LFxReply r]) t.
Proof. intros [M1 M2 M3]. split; [done| |done]. rewrite List.filter_app, M2. cbn. by rewrite app_nil_r. Qed.

Lemma lan_task_take_turn_mirrors t0 outs fx t u t' fx1 :
  take_turn u t = Ok (Some (t', fx1)) -> mirrors t0 outs fx t -> mirrors t0 outs (fx ++ fx1) t'.
Proof.
  destruct u as [|[[buf from]|] now|[c|] now|now]; cbn [take_turn]; [done|..|done|].
  - intros ([r t1] & Hf & [= <- <-])%res_bind_inv. rewrite app_nil_r. by eapply lan_task_mirrors_feed.
  - intros [= <- <-]. by rewrite app_nil_r.
  - intros ([t1 fx2] & Hr & [= <- <-])%res_bind_inv. destruct c as [sig|data| |id]; cbn [run_command] in Hr.
    + apply res_bind_inv in Hr as ([r t2] & Hf & [= <- <-]). intros Hm. by eapply mirrors_reply, lan_task_mirrors_feed.
    + apply res_bind_inv in Hr as ([r t2] & Hf & [= <- <-]). rewrite app_nil_r. by eapply lan_task_mirrors_feed.
    + injection Hr as <- <-. apply mirrors_reply.
    + injection Hr as <- <-. apply mirrors_reply.
  - intros ([r t1] & Hf & [= <- <-])%res_bind_inv. rewrite app_nil_r. by eapply lan_task_mirrors_feed.
Qed.

Lemma filter_carried dual l :
  List.filter (fun e => negb (is_reply e)) (omap (carried dual) l) = omap (carried dual) l.
Proof. induction l as [|o l IH]; [done|]. destruct o; cbn; try exact IH; f_equal; exact IH. Qed.

Lemma lan_task_drive_round_mirrors t0 outs fx t u clock t' fx' ended :
  drive_round u clock t = Ok (t', fx', ended) -> mirrors t0 outs fx t ->
  exists outs', mirrors t0 (outs ++ outs') (fx ++ fx') t' /\
    (ended = false -> LanSignaler.output (signaler t') = [] /\ cached t' = collect_addresses (signaler t')).
Proof.
  unfold drive_round. intros (r & Hr & Hd)%res_bind_inv Hm. destruct r as [[t1 fx1]|].
  - destruct (lan_task_take_turn_mirrors _ _ _ _ _ _ _ Hr Hm) as [M1 M2 M3].
    destruct (take_outputs_all (carry_out (dual_stack t1) clock) (signaler t1) (fx1, wake t1) _ _ M1)
      as (s' & H2 & Hq & Ht). rewrite H2, res_bind_Ok in Hd.
    pose proof (fold_carry (dual_stack t1) clock (queue (signaler t1)) 0 (fx1, wake t1)) as Hfx.
    destruct (fold_outputs _ _ _ _) as [fx2 w]. cbn [fst] in Hfx. subst fx2. injection Hd as <- <- <-.
    exists (queue (signaler t1)). split; [|done]. split; [done| |done].
    rewrite app_assoc, List.filter_app, M2, omap_app. f_equal. rewrite M3.
    apply filter_carried.
  - injection Hd as <- <- <-. exists []. rewrite !app_nil_r. by split.
Qed.

(** What the LAN signaling task sends and announces is what the signaler it
    drives puts out: every datagram and every signal, once and in order; between
    two turns nothing is left in the signaler's queue, and the address that is
    given out for a network is the one the signaler has for it. *)
Theorem lan_task_faithful network_id bind_addr c dual now fx t :
  drive_run (task_new network_id bind_addr c dual now) fx t false ->
  (exists outs, trace (lan_new network_id (lan_config bind_addr c)) outs (signaler t) /\
     List.filter (fun e => negb (is_reply e)) fx = omap (carried dual) outs) /\
  LanSignaler.output (signaler t) = [] /\
  forall id n, run_command (LAddress id) n t = Ok (t, [LFxReply (LRAddress (address (signaler t) id))]).
Proof.
  intros Hrun. set (t0 := task_new network_id bind_addr c dual now) in *.
  assert (forall fx t b, drive_run t0 fx t b -> exists outs, mirrors t0 outs fx t /\
    (b = false -> LanSignaler.output (signaler t) = [] /\ cached t = collect_addresses (signaler t))) as Hm.
  { clear. induction 1 as [|fx t u clock fx' t' ended _ [outs [IH _]] Hr].
    - exists []. split; [by split; [constructor|..]|]. intros _. split; [done|]. symmetry. apply fmap_empty.
    - eapply lan_task_drive_round_mirrors in Hr as (outs' & Hm & Hq); [|exact IH]. by exists (outs ++ outs'). }
  destruct (Hm _ _ _ Hrun) as (outs & [M1 M2 M3] & [Hq Hc]); [done|]. split; [by exists outs|]. split; [done|].
  intros id n. cbn [run_command]. rewrite Hc. unfold collect_addresses, address. by rewrite lookup_fmap.
Qed.

(** ** Addresses and sockets *)

(** An answer goes back to the socket address its request came from: whatever
    address a dual-stack socket reports, its canonical form, which the signaler
    sees, is turned into it again, and on an IPv4 socket neither changes it. *)
Theorem reply_reaches_source from :
  ip_ok (ip from) ->
  (is_ipv4 (ip from) = false -> socket_family (canonical from) true = from) /\
  (is_ipv4 (ip from) = true -> socket_family (canonical from) false = from).
Proof.
  destruct from as [i p]. intros Hok. cbn in Hok. unfold canonical, socket_family, is_ipv4. cbn.
  split; intros Hv; destruct i as [a b c d|s0 s1 s2 s3 s4 s5 s6 s7]; try done.
  unfold to_canonical. destruct (to_ipv4_mapped (Endpoint.V6 s0 s1 s2 s3 s4 s5 s6 s7)) as [[a b c d|]|] eqn:E;
    cbn [ip port socket_addr_new]; [|unfold to_ipv4_mapped in E; by repeat case_match|done].
  assert (s0 = 0 /\ s1 = 0 /\ s2 = 0 /\ s3 = 0 /\ s4 = 0 /\ s5 = 0xffff /\
    a = s6 / 256 /\ b = s6 mod 256 /\ c = s7 / 256 /\ d = s7 mod 256) as (-> & -> & -> & -> & -> & -> & -> & -> & -> & ->).
  { unfold to_ipv4_mapped in E. repeat case_match; simplify_eq; by split_and!. }
  unfold to_ipv6_mapped. f_equal. f_equal; rewrite Z.mul_comm; symmetry; by apply Z.div_mod.
Qed.

(** ** Scanning *)

Definition discovery (o : LanSignalerOutput) : option (Z * ServerData) :=
  match o with ServerDiscovered id data => Some (id, data) | _ => None end.

Lemma fold_found l : forall i found,
  fold_outputs note_found i l found = fold_left (fun m '(id, data) => <[id := data]> m) (omap discovery l) found.
Proof. induction l as [|o l IH]; intros i found; cbn; [done|]. rewrite IH. by destruct o. Qed.

(** The servers a scan finds are those the signaler discovers from the datagrams,
    each with what it said last. *)
Lemma scan_finds_discovered l : forall s0 outs s found s' found',
  trace s0 outs s ->
  found = fold_left (fun m '(id, data) => <[id := data]> m) (omap discovery outs) ∅ ->
  scan_loop l s found = Ok (s', found') ->
  exists outs', trace s0 outs' s' /\
    found' = fold_left (fun m '(id, data) => <[id := data]> m) (omap discovery outs') ∅.
Proof.
  induction l as [|[[buf from] now] l IH]; intros s0 outs s found s' found' Ht Hf; cbn [scan_loop].
  { intros [= <- <-]. by exists outs. }
  pose proof (trace_handle (IDatagram buf from now) _ _ _ Ht) as Ht1.
  destruct (handle (IDatagram buf from now) s) as [[u|e|] s1]; cbn [snd] in Ht1; [|by eapply IH|done].
  destruct (take_outputs_all note_found s1 found _ _ Ht1) as (s2 & -> & _ & Ht2). rewrite res_bind_Ok.
  apply (IH s0 (outs ++ queue s1)); [done|]. by rewrite fold_found, Hf, omap_app, fold_left_app.
Qed.
End task.
