(* ===== verification/HttpTask.v ===== *)
(** * HttpTask: the task behind HTTP signaling
    ([nethernet-tokio/src/signaling/http/server.rs])

    [HttpSignalingServer] is a handle on a task that owns the signaler; the tasks
    that accept and serve connections send it commands.  A turn of the task takes
    what [select!] has picked, feeds the signaler and carries its outputs out.  The
    channel on which a request waits for its response is named by the number of
    the request; what the task does to the world is a list of effects, in order. *)
From S2P Require Import Prelude Text Errors SignalMsg ServerDataModel Endpoint IpRange Candidate Sans.
From S2P Require Import Identity HttpSignaler TokioBase.

Definition MAX_BODY : Z := 2 ^ 20.
Definition HTTP_MAX_IDLE : Duration := secs 1.
Definition PAYLOAD_TOO_LARGE : Z := 413.
Definition REQUEST_TIMEOUT : Z := 408.

Section task.
Context `{b64 : Base64} `{serde : Serde} `{p384 : P384} `{rsa : Rsa} `{net : IpNetOps}.

(** The random id and the wall clock that handling a request reads go with it. *)
Inductive Command :=
| HRequest (connection : Z) (request : Request) (random : Z) (wall : SystemTime)
| HConnected (connection : Z) (peer : SocketAddr)
| HClosed (connection : Z)
| HAnswer (connection_id : Z) (sdp : bytes)
| HReject (connection_id : Z) (reason : RejectReason)
| HSetServerData (data : ServerData)
| HSetTokenTrust (trust : option TokenTrust)
| HAddress (connection_id : Z)
| HPlayer (connection_id : Z)
| HHost (connection_id : Z).

Inductive Reply :=
| HRAddress (a : option SocketAddr)
| HRPlayer (p : option PlayerInfo)
| HRHost (h : option bytes).

(** A response is sent on the channel of a request, or the channel is dropped. *)
Inductive Effect :=
| HFxResponse (request : nat) (response : Response) (keep_alive : bool)
| HFxDropped (request : nat)
| HFxAdmitted (connection : Z) (admitted : bool)
| HFxSignal (signal : Signal)
| HFxReply (r : Reply).

Record Task := {
  signaler : HttpSignaler;
  waiting : gmap Z nat;
  addresses : gmap Z SocketAddr;
  players : gmap Z PlayerInfo;
  hosts : gmap Z bytes;
  wake : Instant;
  requests : nat;
}.

Definition task_new (c : HttpSignalerConfig) (now : Instant) : Task := {|
  signaler := http_new c; waiting := ∅; addresses := ∅; players := ∅; hosts := ∅;
  wake := now + HTTP_MAX_IDLE; requests := 0 |}.

Definition set_signaler (s : HttpSignaler) (t : Task) : Task := {|
  signaler := s; waiting := waiting t; addresses := addresses t; players := players t;
  hosts := hosts t; wake := wake t; requests := requests t |}.
Definition set_waiting (m : gmap Z nat) (t : Task) : Task := {|
  signaler := signaler t; waiting := m; addresses := addresses t; players := players t;
  hosts := hosts t; wake := wake t; requests := requests t |}.
Definition set_offers (a : gmap Z SocketAddr) (p : gmap Z PlayerInfo) (h : gmap Z bytes) (t : Task) : Task := {|
  signaler := signaler t; waiting := waiting t; addresses := a; players := p; hosts := h;
  wake := wake t; requests := requests t |}.

Definition feed (i : HttpSignalerInput) (t : Task) : Res unit Task :=
  match handle i (signaler t) with
  | (Panic, _) => Panic
  | (_, s) => Ok (set_signaler s t)
  end.

(** [waiting.remove(&connection)]; what is done with the channel. *)
Definition remove_waiting (connection : Z) (f : nat -> Effect) (t : Task) : Task * list Effect :=
  match waiting t !! connection with
  | Some r => (set_waiting (delete connection (waiting t)) t, [f r])
  | None => (t, [])
  end.

Definition forget_offer (connection_id : Z) (t : Task) : Task :=
  set_offers (delete connection_id (addresses t)) (delete connection_id (players t))
    (delete connection_id (hosts t)) t.

Definition note_refused (connection : Z) (i : nat) (o : HttpSignalerOutput) (refused : bool) : bool :=
  match o with Close id => refused || (id =? connection) | _ => refused end.

Definition run_command (c : Command) (now : Instant) (t : Task) : Res unit (Task * list Effect) :=
  match c with
  | HConnected connection peer =>
      t ← feed (Connected connection peer now) t;
      '(s, refused) ← take_outputs (note_refused connection) (signaler t) false;
      Ok (set_signaler s t, [HFxAdmitted connection (negb refused)])
  | HRequest connection request random wall =>
      let r := requests t in
      let fx := match waiting t !! connection with Some old => [HFxDropped old] | None => [] end in
      let t := {| signaler := signaler t; waiting := <[connection := r]> (waiting t);
                  addresses := addresses t; players := players t; hosts := hosts t; wake := wake t;
                  requests := S r |} in
      t ← feed (IRequest connection request now random wall) t;
      Ok (t, fx)
  | HClosed connection =>
      let '(t, fx) := remove_waiting connection HFxDropped t in
      t ← feed (Closed connection) t;
      Ok (t, fx)
  | HAnswer id sdp => t ← feed (IAnswer id sdp) t; Ok (forget_offer id t, [])
  | HReject id reason => t ← feed (Reject id reason) t; Ok (forget_offer id t, [])
  | HSetServerData data => t ← feed (SetServerData data) t; Ok (t, [])
  | HSetTokenTrust trust => t ← feed (SetTokenTrust trust) t; Ok (t, [])
  | HAddress id => Ok (t, [HFxReply (HRAddress (addresses t !! id))])
  | HHost id => Ok (t, [HFxReply (HRHost (hosts t !! id))])
  | HPlayer id => Ok (t, [HFxReply (HRPlayer (players t !! id))])
  end.

Inductive Turn :=
| HTCancelled
| HTCommand (command : option Command) (now : Instant)
| HTWoken (now : Instant) (order : list Z -> list Z).

(** [None] when the loop is left. *)
Definition take_turn (u : Turn) (t : Task) : Res unit (option (Task * list Effect)) :=
  match u with
  | HTCancelled => Ok None
  | HTCommand (Some c) now => r ← run_command c now t; Ok (Some r)
  | HTCommand None _ => Ok None
  | HTWoken now order => t ← feed (Update now order) t; Ok (Some (t, []))
  end.

Definition insert_some {A} (id : Z) (x : option A) (m : gmap Z A) : gmap Z A :=
  match x with Some x => <[id := x]> m | None => m end.

Definition carry_out (clock : nat -> Instant) (i : nat) (o : HttpSignalerOutput) (w : Task * list Effect)
    : Task * list Effect :=
  let '(t, fx) := w in
  match o with
  | OResponse connection response keep =>
      let '(t, fx1) := remove_waiting connection (fun r => HFxResponse r response keep) t in (t, fx ++ fx1)
  | Close connection => let '(t, fx1) := remove_waiting connection HFxDropped t in (t, fx ++ fx1)
  | OOffer offer =>
      let id := offer_connection_id offer in
      (set_offers (insert_some id (offer_client_address offer) (addresses t))
         (insert_some id (offer_player offer) (players t))
         (insert_some id (offer_host offer) (hosts t)) t,
       fx ++ [HFxSignal (offer_signal offer)])
  | Wait d =>
      ({| signaler := signaler t; waiting := waiting t; addresses := addresses t; players := players t;
          hosts := hosts t; wake := clock i + Z.min d HTTP_MAX_IDLE; requests := requests t |}, fx)
  end.

(** One round of the loop; whether it was the last.  The tables go with the task, and
    the channels of the requests that wait are dropped, in the order of the map. *)
Definition drive_round (u : Turn) (clock : nat -> Instant) (t : Task) : Res unit (Task * list Effect * bool) :=
  r ← take_turn u t;
  match r with
  | None => Ok (set_waiting ∅ t, map HFxDropped (map_to_list (waiting t)).*2, true)
  | Some (t, fx) =>
      '(s, (t, fx)) ← take_outputs (carry_out clock) (signaler t) (t, fx);
      Ok (set_signaler s t, fx, false)
  end.

Inductive drive_run (t0 : Task) : list Turn -> list Effect -> Task -> bool -> Prop :=
| hdrive_start : drive_run t0 [] [] t0 false
| hdrive_step turns fx t u clock fx' t' ended :
    drive_run t0 turns fx t false -> drive_round u clock t = Ok (t', fx', ended) ->
    drive_run t0 (turns ++ [u]) (fx ++ fx') t' ended.

(** ** The handle *)

(** [signal]: the command a signal is sent as. *)
Definition signal_command (g : Signal) : Res NetherError Command :=
  match signal_type g with
  | Answer => Ok (HAnswer (connection_id g) (signal_data g))
  | Error => Ok (HReject (connection_id g) (RejectReason_from (parse_error_code (signal_data g))))
  | t => Err (NOther (as_str t ++ str " is not supported over HTTP signaling"))
  end.

(** ** Serving a connection *)

(** What collecting the body of a request within its limit gives. *)
Inductive Collected := CollectTimeout | CollectTooLong | CollectFailed | CollectBody (b : bytes).

(** The body of the request that is passed on, or the status it is refused with. *)
Definition read_body (content_length : option bytes) (collected : Collected) : Res Z bytes :=
  if match content_length ≫= parse_uint u64_max with Some len => len >? MAX_BODY | None => false end
  then Err PAYLOAD_TOO_LARGE
  else match collected with
       | CollectTimeout => Err REQUEST_TIMEOUT
       | CollectTooLong => Err PAYLOAD_TOO_LARGE
       | CollectFailed => Ok (from_utf8_lossy [])
       | CollectBody b => Ok (from_utf8_lossy b)
       end.

(** The response that is written: [reply] is what came on the request's channel;
    with it goes whether the connection is told to close. *)
Definition written_response (reply : option (Response * bool)) : Response * bool :=
  match reply with
  | Some (response, keep) => (response, negb keep)
  | None => ({| response_status := SERVICE_UNAVAILABLE; content_type := None; content_length := 0;
                response_body := [] |}, false)
  end.

(** ** What becomes of a request *)

(** The history of the task, as far as requests are concerned: requests come,
    connections go, the signaler says something, the task ends. *)
Inductive Entry := EAsked (connection : Z) | EGone (connection : Z) | EOut (o : HttpSignalerOutput) | EEnd.

(** What the signaler says to an input, and the signaler without what it has said. *)
Definition says (i : HttpSignalerInput) (s : HttpSignaler) : list Entry * HttpSignaler :=
  let s := (handle i s).2 in (map EOut (output s), set_output [] s).

(** What a turn adds to the history.  The answer to a new connection goes to the one
    that accepts it. *)
Definition turn_log (u : Turn) (s : HttpSignaler) : list Entry * HttpSignaler :=
  match u with
  | HTCancelled | HTCommand None _ => ([EEnd], s)
  | HTWoken now order => says (Update now order) s
  | HTCommand (Some c) now =>
      match c with
      | HConnected id peer => ([], (says (Connected id peer now) s).2)
      | HRequest id q random wall =>
          let '(l, s) := says (IRequest id q now random wall) s in (EAsked id :: l, s)
      | HClosed id => let '(l, s) := says (Closed id) s in (EGone id :: l, s)
      | HAnswer id sdp => says (IAnswer id sdp) s
      | HReject id reason => says (Reject id reason) s
      | HSetServerData data => says (SetServerData data) s
      | HSetTokenTrust trust => says (SetTokenTrust trust) s
      | HAddress _ | HPlayer _ | HHost _ => ([], s)
      end
  end.

Fixpoint run_log (turns : list Turn) (s : HttpSignaler) : list Entry * HttpSignaler :=
  match turns with
  | [] => ([], s)
  | u :: turns =>
      let '(l, s) := turn_log u s in
      let '(ls, s) := run_log turns s in (l ++ ls, s)
  end.

(** What becomes of a request of [connection], after which the history is [log]: it
    waits, or the first that concerns the connection decides, a response of the
    signaler being what it gets; else its channel is dropped. *)
Abbreviation Fate := (option (option (Response * bool))).

Definition decides (connection : Z) (e : Entry) : Fate :=
  match e with
  | EAsked id | EGone id | EOut (Close id) => if id =? connection then Some None else None
  | EOut (OResponse id response keep) => if id =? connection then Some (Some (response, keep)) else None
  | EOut _ => None
  | EEnd => Some None
  end.

Fixpoint fate (connection : Z) (log : list Entry) : Fate :=
  match log with
  | [] => None
  | e :: log => match decides connection e with Some x => Some x | None => fate connection log end
  end.

(** The fates of the requests, in the order they came. *)
Fixpoint fates (log : list Entry) : list Fate :=
  match log with
  | [] => []
  | EAsked id :: log => fate id log :: fates log
  | _ :: log => fates log
  end.

Fixpoint askers (log : list Entry) : list Z :=
  match log with
  | [] => []
  | EAsked id :: log => id :: askers log
  | _ :: log => askers log
  end.

(** What is done to the channel of a request. *)
Definition outcome (e : Effect) : option nat :=
  match e with HFxResponse r _ _ | HFxDropped r => Some r | _ => None end.
Definition outcomes (r : nat) (fx : list Effect) : list Effect :=
  filter (fun e => outcome e = Some r) fx.
Definition effect_of (r : nat) (x : option (Response * bool)) : Effect :=
  match x with Some (response, keep) => HFxResponse r response keep | None => HFxDropped r end.

Definition announced (e : Effect) : option Signal :=
  match e with HFxSignal g => Some g | _ => None end.
Definition offered (e : Entry) : option Signal :=
  match e with EOut (OOffer offer) => Some (offer_signal offer) | _ => None end.

(** *** The history at its end *)

Definition meets (e : Entry) (f : Fate) (connection : Z) : Fate :=
  match f with Some x => Some x | None => decides connection e end.

Lemma fate_snoc connection log e : fate connection (log ++ [e]) = meets e (fate connection log) connection.
Proof.
  induction log as [|e0 log IH]; cbn; [by destruct (decides connection e)|].
  by destruct (decides connection e0).
Qed.

Definition asked_by (e : Entry) : list Z := match e with EAsked id => [id] | _ => [] end.

Lemma askers_snoc log e : askers (log ++ [e]) = askers log ++ asked_by e.
Proof. induction log as [|[] log IH]; cbn; [by destruct e|by rewrite ?IH..]. Qed.

Lemma fates_snoc log e :
  fates (log ++ [e]) = zip_with (meets e) (fates log) (askers log) ++ map (fun _ => None) (asked_by e).
Proof. induction log as [|[] log IH]; cbn; [by destruct e|by rewrite ?fate_snoc, ?IH..]. Qed.

Lemma length_askers log : length (askers log) = length (fates log).
Proof. induction log as [|[] log IH]; cbn; by rewrite ?IH. Qed.

Lemma zip_meets_none e fs cs :
  (forall c, decides c e = None) -> length cs = length fs -> zip_with (meets e) fs cs = fs.
Proof.
  intros Hd. revert cs. induction fs as [|f fs IH]; intros [|c cs]; cbn; try done. intros [= Hl].
  rewrite IH by done. by destruct f; cbn; rewrite ?Hd.
Qed.

(** *** The table of channels *)

(** The channels of the requests whose fate is open are in the table, under the
    connection; the others are used up as their fate says. *)
Record ledger (fs : list Fate) (cs : list Z) (fx : list Effect) (w : gmap Z nat) : Prop := {
  lg_length : length cs = length fs;
  lg_done r x : fs !! r = Some (Some x) -> outcomes r fx = [effect_of r x];
  lg_open r : fs !! r = Some None -> outcomes r fx = [] /\ exists c, cs !! r = Some c /\ w !! c = Some r;
  lg_waiting c r : w !! c = Some r -> fs !! r = Some None /\ cs !! r = Some c;
  lg_none r : fs !! r = None -> outcomes r fx = [];
}.

Lemma outcomes_app r fx fx' : outcomes r (fx ++ fx') = outcomes r fx ++ outcomes r fx'.
Proof. apply list.filter_app. Qed.

Lemma outcomes_effect r x : outcomes r [effect_of r x] = [effect_of r x].
Proof. unfold outcomes. by rewrite filter_cons_True by (by destruct x as [[]|]). Qed.

Lemma outcomes_other r fx : (forall e, e ∈ fx -> outcome e <> Some r) -> outcomes r fx = [].
Proof.
  intros Hr. unfold outcomes. induction fx as [|e fx IH]; [done|]. rewrite filter_cons_False by (apply Hr; by left).
  apply IH. intros. apply Hr. by right.
Qed.

(** An event that decides on some connections: their channels are used up. *)
Lemma ledger_settle fs cs fx w e fx1 w' :
  ledger fs cs fx w ->
  (forall c r, w' !! c = Some r <-> w !! c = Some r /\ decides c e = None) ->
  (forall c r x, w !! c = Some r -> decides c e = Some x -> outcomes r fx1 = [effect_of r x]) ->
  (forall r, (forall c x, w !! c = Some r -> decides c e <> Some x) -> outcomes r fx1 = []) ->
  ledger (zip_with (meets e) fs cs) cs (fx ++ fx1) w'.
Proof.
  intros [L1 L2 L3 L4 L5] Hw Hhit Hmiss.
  assert (forall r f c, fs !! r = Some f -> cs !! r = Some c -> zip_with (meets e) fs cs !! r = Some (meets e f c)) as Hz.
  { intros r f c Hf Hc. by rewrite lookup_zip_with, Hf, Hc. }
  assert (forall r f, fs !! r = Some f -> exists c, cs !! r = Some c) as Hcs.
  { intros r f Hf. apply lookup_lt_is_Some. rewrite L1. apply lookup_lt_is_Some. eauto. }
  assert (forall r x, fs !! r = Some (Some x) -> outcomes r fx1 = []) as Hdone.
  { intros r x Hf. apply Hmiss. intros c y [Ho _]%L4. congruence. }
  split.
  - rewrite length_zip_with. lia.
  - intros r x. rewrite lookup_zip_with. destruct (fs !! r) as [[y|]|] eqn:Ef; cbn; [| |done].
    + destruct (cs !! r) as [c|]; cbn; [|done]. intros [= ->]. by rewrite outcomes_app, (L2 _ _ Ef), (Hdone _ _ Ef).
    + destruct (L3 _ Ef) as (Ho & c & Hc & Hwc). rewrite Hc. cbn. intros [= Hd].
      by rewrite outcomes_app, Ho, (Hhit _ _ _ Hwc Hd).
  - intros r. rewrite lookup_zip_with. destruct (fs !! r) as [[y|]|] eqn:Ef; cbn; [by destruct (cs !! r)| |done].
    destruct (L3 _ Ef) as (Ho & c & Hc & Hwc). rewrite Hc. cbn. intros [= Hd].
    split; [|exists c; split; [done|by apply Hw]]. rewrite outcomes_app, Ho. apply Hmiss.
    intros c' x Hwc' Hd'. destruct (L4 _ _ Hwc') as [_ Hc']. congruence.
  - intros c r [[Hf Hc]%L4 Hd]%Hw. split; [|done]. rewrite (Hz _ _ _ Hf Hc). cbn. by rewrite Hd.
  - intros r. rewrite lookup_zip_with. destruct (fs !! r) as [f|] eqn:Ef; cbn.
    + destruct (Hcs _ _ Ef) as [c Hc]. by rewrite Hc.
    + intros _. rewrite outcomes_app, (L5 _ Ef). apply Hmiss. intros c x [Hf _]%L4. congruence.
Qed.

(** A request comes on a connection on which none waits. *)
Lemma ledger_ask fs cs fx w c :
  ledger fs cs fx w -> w !! c = None -> ledger (fs ++ [None]) (cs ++ [c]) fx (<[c := length fs]> w).
Proof.
  intros [L1 L2 L3 L4 L5] Hc. split.
  - rewrite !length_app, L1. done.
  - intros r x [Hf|[_ Hf]]%lookup_app_Some; [by apply L2|]. by apply list_lookup_singleton_Some in Hf as [_ [=]].
  - intros r [Hf|[Hr Hf]]%lookup_app_Some.
    + destruct (L3 _ Hf) as (Ho & c' & Hc' & Hw). split; [done|]. exists c'. split; [by apply lookup_app_l_Some|].
      rewrite lookup_insert_ne by congruence. done.
    + apply list_lookup_singleton_Some in Hf as [Hn _]. assert (r = length fs) as -> by lia. split.
      * apply L5, lookup_ge_None. lia.
      * exists c. rewrite lookup_insert_eq, <- L1. split; [by rewrite list_lookup_middle|done].
  - intros c' r [[<- <-]|[_ Hw]]%lookup_insert_Some.
    + rewrite list_lookup_middle by done. split; [done|]. by rewrite <- L1, list_lookup_middle.
    + destruct (L4 _ _ Hw). split; by apply lookup_app_l_Some.
  - intros r Hf%lookup_ge_None. rewrite length_app in Hf. apply L5, lookup_ge_None. lia.
Qed.

(** *** Each step of the task *)

(** The table after a history. *)
Definition kept (log : list Entry) (fx : list Effect) (t : Task) : Prop :=
  ledger (fates log) (askers log) fx (waiting t) /\ requests t = length (fates log) /\
  omap announced fx = omap offered log.

(** Something that neither asks nor decides, without a channel being used. *)
Lemma kept_quiet log log' fx fx1 t t' :
  fates log' = fates log -> askers log' = askers log -> omap offered log' = omap offered log ++ omap announced fx1 ->
  omap outcome fx1 = [] -> waiting t' = waiting t -> requests t' = requests t ->
  kept log fx t -> kept log' (fx ++ fx1) t'.
Proof.
  intros Ef Ea Eo Hq Ew Er (Hl & Hr & Ho). unfold kept. rewrite Ef, Ea, Eo, Ew, Er, omap_app, Ho. split; [|done].
  assert (forall r, outcomes r fx1 = []) as Hno.
  { intros r. apply outcomes_other. intros e He Hx. assert (r ∈ omap outcome fx1) as Hin by (apply list_elem_of_omap; eauto).
    rewrite Hq in Hin. by apply elem_of_nil in Hin. }
  destruct Hl as [L1 L2 L3 L4 L5]. by split; try done; intros; rewrite outcomes_app, Hno, app_nil_r; auto.
Qed.

Lemma kept_decided log fx t t' e fx1 :
  kept log fx t -> asked_by e = [] -> offered e = None -> omap announced fx1 = [] -> requests t' = requests t ->
  (forall c r, waiting t' !! c = Some r <-> waiting t !! c = Some r /\ decides c e = None) ->
  (forall c r x, waiting t !! c = Some r -> decides c e = Some x -> outcomes r fx1 = [effect_of r x]) ->
  (forall r, (forall c x, waiting t !! c = Some r -> decides c e <> Some x) -> outcomes r fx1 = []) ->
  kept (log ++ [e]) (fx ++ fx1) t'.
Proof.
  intros (Hl & Hr & Ho) Ha Hof Hx Er Hw Hhit Hmiss. unfold kept. rewrite fates_snoc, askers_snoc, Ha, !app_nil_r.
  split; [by eapply ledger_settle|]. split.
  - rewrite length_zip_with, length_askers, Er, Hr. lia.
  - rewrite !omap_app, Ho, Hx. cbn. by rewrite Hof.
Qed.

(** The channel of a connection is used up. *)
Lemma kept_removed log fx t t' e c x fx1 :
  kept log fx t -> asked_by e = [] -> offered e = None ->
  (forall c', decides c' e = if c =? c' then Some x else None) ->
  remove_waiting c (fun r => effect_of r x) t = (t', fx1) -> kept (log ++ [e]) (fx ++ fx1) t'.
Proof.
  intros Hk Ha Hof Hd. pose proof Hk as ([_ _ _ L4 _] & _). unfold remove_waiting.
  assert (forall w : gmap Z nat, (forall c' r, (delete c w) !! c' = Some r <-> w !! c' = Some r /\ decides c' e = None)) as Hdel.
  { intros w c' r. rewrite lookup_delete_Some, Hd. destruct (Z.eqb_spec c c'); naive_solver. }
  destruct (waiting t !! c) as [r|] eqn:Ew; intros [= <- <-].
  - eapply kept_decided; try done.
    + by destruct x as [[]|].
    + cbn. apply Hdel.
    + intros c' r' y Hw. rewrite Hd. destruct (Z.eqb_spec c c') as [<-|]; [|done]. intros [= <-].
      assert (r' = r) as -> by congruence. apply outcomes_effect.
    + intros r' Hno. apply outcomes_other. intros e0 ->%list_elem_of_singleton Ho.
      assert (r' = r) as -> by (destruct x as [[]|]; cbn in Ho; congruence).
      apply (Hno c x Ew). by rewrite Hd, Z.eqb_refl.
  - eapply kept_decided; try done.
    + intros c' r. rewrite Hd. destruct (Z.eqb_spec c c'); naive_solver.
    + intros c' r y Hw. rewrite Hd. destruct (Z.eqb_spec c c') as [<-|]; [congruence|done].
Qed.

Lemma remove_waiting_signaler connection f t :
  signaler (remove_waiting connection f t).1 = signaler t.
Proof. unfold remove_waiting. by destruct (waiting t !! connection). Qed.

Lemma carry_out_kept clock i o t fx t' fx' log pre :
  carry_out clock i o (t, fx) = (t', fx') -> kept log (pre ++ fx) t -> kept (log ++ [EOut o]) (pre ++ fx') t'.
Proof.
  destruct o as [connection response keep|connection|offer|d]; cbn [carry_out].
  - destruct (remove_waiting _ _ t) as [t1 fx1] eqn:E. intros [= <- <-] Hk. rewrite app_assoc.
    by eapply (kept_removed _ _ _ _ _ connection (Some (response, keep))).
  - destruct (remove_waiting _ _ t) as [t1 fx1] eqn:E. intros [= <- <-] Hk. rewrite app_assoc.
    by eapply (kept_removed _ _ _ _ _ connection None).
  - intros [= <- <-] Hk. rewrite app_assoc. eapply kept_quiet; [..|exact Hk]; try done.
    + rewrite fates_snoc. cbn. rewrite app_nil_r. apply zip_meets_none; [done|apply length_askers].
    + by rewrite askers_snoc, app_nil_r.
    + by rewrite omap_app.
  - intros [= <- <-] Hk. rewrite <- (app_nil_r (pre ++ fx)). eapply kept_quiet; [..|exact Hk]; try done.
    + rewrite fates_snoc. cbn. rewrite app_nil_r. apply zip_meets_none; [done|apply length_askers].
    + by rewrite askers_snoc, app_nil_r.
    + by rewrite omap_app.
Qed.

Lemma fold_kept clock l : forall i t fx t' fx' log pre,
  fold_outputs (carry_out clock) i l (t, fx) = (t', fx') -> kept log (pre ++ fx) t ->
  kept (log ++ map EOut l) (pre ++ fx') t'.
Proof.
  induction l as [|o l IH]; intros i t fx t' fx' log pre; cbn [fold_outputs map]; [intros [= <- <-]; by rewrite app_nil_r|].
  destruct (carry_out clock i o (t, fx)) as [t1 fx1] eqn:E. intros Hf Ha.
  rewrite (cons_middle (EOut o)), app_assoc. eapply IH; [exact Hf|]. by eapply carry_out_kept.
Qed.

Lemma feed_keeps i t t' : feed i t = Ok t' ->
  signaler t' = (handle i (signaler t)).2 /\ waiting t' = waiting t /\ requests t' = requests t.
Proof. unfold feed. by destruct (handle i (signaler t)) as [[] s]; intros [= <-]. Qed.

Lemma http_take_outputs {W} (body : nat -> HttpSignalerOutput -> W -> W) (s : HttpSignaler) w :
  take_outputs body s w = Ok (set_output [] s, fold_outputs body 0 (output s) w).
Proof.
  unfold take_outputs. cbn [queue HttpSignaler_queued]. generalize 0%nat.
  destruct s as [c cs pa pe sd out]. cbn [output]. revert w. induction out as [|o out IH]; intros w i; [done|].
  cbn [length take_loop poll HttpSignaler_sans]. unfold http_poll. cbn [output]. exact (IH (body i o w) (S i)).
Qed.

(** A new connection makes the signaler say at most that it is refused. *)
Lemma connected_outputs connection peer (s : HttpSignaler) :
  output s = [] ->
  (output (HttpSignaler.connected connection peer s) = [] /\
   is_Some (connections (HttpSignaler.connected connection peer s) !! connection)) \/
  (output (HttpSignaler.connected connection peer s) = [Close connection] /\
   connections (HttpSignaler.connected connection peer s) = connections s).
Proof.
  intros Ho. unfold HttpSignaler.connected. destruct (contains _ _); [left; cbn; by rewrite lookup_insert_eq; eauto|].
  destruct (_ >? _); [right; cbn; by rewrite Ho|left; cbn; by rewrite lookup_insert_eq; eauto].
Qed.

Lemma set_output_same (s : HttpSignaler) : output s = [] -> set_output [] s = s.
Proof. destruct s. cbn. by intros ->. Qed.

(** A request: the one that waited on its connection is given up, and it waits. *)
Lemma kept_asked log fx t t' connection :
  kept log fx t -> waiting t' = <[connection := requests t]> (waiting t) -> requests t' = S (requests t) ->
  kept (log ++ [EAsked connection])
    (fx ++ match waiting t !! connection with Some old => [HFxDropped old] | None => [] end) t'.
Proof.
  intros (Hl & Hr & Ho) Hw Hn. unfold kept. rewrite fates_snoc, askers_snoc. cbn [asked_by map].
  set (fx1 := match waiting t !! connection with Some old => [HFxDropped old] | None => [] end).
  assert (ledger (zip_with (meets (EAsked connection)) (fates log) (askers log)) (askers log) (fx ++ fx1)
    (delete connection (waiting t))) as H1.
  { pose proof Hl as [_ _ _ L4 _]. eapply ledger_settle; [exact Hl|..].
    - intros c r. rewrite lookup_delete_Some. cbn. destruct (Z.eqb_spec connection c); naive_solver.
    - intros c r x Hc. cbn. destruct (Z.eqb_spec connection c) as [<-|]; [|done]. intros [= <-].
      unfold fx1. rewrite Hc. apply (outcomes_effect r None).
    - intros r Hno. unfold fx1. destruct (waiting t !! connection) as [old|] eqn:Ew; [|done].
      apply outcomes_other. intros e ->%list_elem_of_singleton [= ->]. apply (Hno connection None Ew).
      cbn. by rewrite Z.eqb_refl. }
  split; [|split].
  - rewrite Hw, Hr, <- insert_delete_eq.
    replace (length (fates log)) with (length (zip_with (meets (EAsked connection)) (fates log) (askers log)))
      by (rewrite length_zip_with, length_askers; lia).
    apply ledger_ask; [done|apply lookup_delete_eq].
  - rewrite Hn, Hr, length_app, length_zip_with, length_askers. cbn. lia.
  - rewrite !omap_app, Ho. cbn. rewrite app_nil_r. unfold fx1. destruct (waiting t !! connection); by rewrite app_nil_r.
Qed.

(** The part of a command's history before what the signaler says. *)
Definition front (c : Command) : list Entry :=
  match c with HRequest id _ _ _ => [EAsked id] | HClosed id => [EGone id] | _ => [] end.

Lemma run_command_kept log fx cmd now t t' fx1 :
  run_command cmd now t = Ok (t', fx1) -> output (signaler t) = [] -> kept log fx t ->
  kept (log ++ front cmd) (fx ++ fx1) t' /\
  turn_log (HTCommand (Some cmd) now) (signaler t)
  = (front cmd ++ map EOut (output (signaler t')), set_output [] (signaler t')).
Proof.
  intros Hc Hq Hk.
  assert (forall i f t1, feed i t = Ok t1 -> signaler (f t1) = signaler t1 -> waiting (f t1) = waiting t1 ->
    requests (f t1) = requests t1 ->
    kept (log ++ []) (fx ++ []) (f t1) /\ says i (signaler t) = (map EOut (output (signaler (f t1))), set_output [] (signaler (f t1)))) as Hfeed.
  { intros i f t1 (Hs & Hw & Hr)%feed_keeps H1 H2 H3. split; [|unfold says; by rewrite H1, Hs].
    eapply kept_quiet; [..|exact Hk]; rewrite ?app_nil_r; try done; congruence. }
  assert (forall e, outcome e = None -> announced e = None -> kept (log ++ []) (fx ++ [e]) t) as Hquiet.
  { intros e He Ha. eapply kept_quiet; [..|exact Hk]; rewrite ?app_nil_r; cbn; rewrite ?He, ?Ha, ?app_nil_r; done. }
  destruct cmd as [connection request random wall|connection peer|connection|id sdp|id reason|data|trust|id|id|id];
    cbn [run_command front turn_log app] in Hc |- *.
  - apply res_bind_inv in Hc as (t1 & (Hs & Hw & Hr)%feed_keeps & [= <- <-]). cbn in Hs, Hw, Hr.
    split; [by apply kept_asked|]. unfold says. change (handle (IRequest connection request now random wall) (signaler t))
      with (http_handle (IRequest connection request now random wall) (signaler t)). by rewrite Hs.
  - apply res_bind_inv in Hc as (t1 & Hf & ([s refused] & Ht & [= <- <-])%res_bind_inv).
    destruct (feed_keeps _ _ _ Hf) as (Hs & Hw & Hr). rewrite http_take_outputs in Ht. injection Ht as <- _.
    split; [|cbn; by rewrite Hs]. eapply kept_quiet; [..|exact Hk]; by rewrite ?app_nil_r.
  - destruct (remove_waiting connection HFxDropped t) as [t1 fx2] eqn:E.
    apply res_bind_inv in Hc as (t2 & (Hs & Hw & Hr)%feed_keeps & [= <- <-]).
    pose proof (remove_waiting_signaler connection HFxDropped t) as Hz. rewrite E in Hz. cbn in Hz.
    eapply (kept_removed _ _ _ _ (EGone connection) connection None) in E; [|exact Hk|done..].
    split; [|unfold says; by rewrite <- Hz, <- Hs]. destruct E as (E1 & E2 & E3). unfold kept. by rewrite Hw, Hr.
  - apply res_bind_inv in Hc as (t1 & Hf & [= <- <-]). by apply (Hfeed _ (forget_offer id) t1 Hf).
  - apply res_bind_inv in Hc as (t1 & Hf & [= <- <-]). by apply (Hfeed _ (forget_offer id) t1 Hf).
  - apply res_bind_inv in Hc as (t1 & Hf & [= <- <-]). by apply (Hfeed _ (fun t => t) t1 Hf).
  - apply res_bind_inv in Hc as (t1 & Hf & [= <- <-]). by apply (Hfeed _ (fun t => t) t1 Hf).
  - injection Hc as <- <-. rewrite Hq, set_output_same by done. split; [by apply Hquiet|done].
  - injection Hc as <- <-. rewrite Hq, set_output_same by done. split; [by apply Hquiet|done].
  - injection Hc as <- <-. rewrite Hq, set_output_same by done. split; [by apply Hquiet|done].
Qed.

(** The end: what waits is dropped. *)
Lemma kept_ended log fx t :
  kept log fx t -> kept (log ++ [EEnd]) (fx ++ map HFxDropped (map_to_list (waiting t)).*2) (set_waiting ∅ t).
Proof.
  intros Hk. pose proof Hk as ([_ _ _ L4 _] & _). set (l := (map_to_list (waiting t)).*2).
  assert (forall r, r ∈ l <-> exists c, waiting t !! c = Some r) as Hl.
  { intros r. unfold l. rewrite list_elem_of_fmap. split.
    - intros ([c r'] & -> & Hc%elem_of_map_to_list). eauto.
    - intros [c Hc]. exists (c, r). split; [done|]. by apply elem_of_map_to_list. }
  assert (NoDup l) as Hn.
  { apply list.NoDup_fmap_2_strong; [|apply NoDup_map_to_list].
    intros [c r] [c' r'] Hc%elem_of_map_to_list Hc'%elem_of_map_to_list. cbn. intros <-.
    apply L4 in Hc as [_ Hc], Hc' as [_ Hc']. congruence. }
  assert (forall r, outcomes r (map HFxDropped l) = if decide (r ∈ l) then [HFxDropped r] else []) as Hout.
  { intros r. clear -Hn. induction Hn as [|r' l Hr Hn IH]; [done|]. cbn [map]. unfold outcomes in *.
    destruct (decide (r' = r)) as [->|Hne].
    - rewrite filter_cons_True by done. rewrite IH, decide_False by done. by rewrite decide_True by by left.
    - rewrite filter_cons_False by (cbn; congruence). rewrite IH. apply decide_ext. rewrite elem_of_cons. naive_solver. }
  eapply kept_decided; [exact Hk|done|done| |done|..].
  - clear. induction l; [done|]. done.
  - intros c r. cbn. rewrite lookup_empty. naive_solver.
  - intros c r x Hc [= <-]. rewrite Hout, decide_True; [done|]. apply Hl. eauto.
  - intros r Hno. rewrite Hout, decide_False; [done|]. intros [c Hc]%Hl. by apply (Hno c None Hc).
Qed.

Lemma drive_round_kept u clock t t' fx' ended log fx :
  drive_round u clock t = Ok (t', fx', ended) -> output (signaler t) = [] -> kept log fx t ->
  kept (log ++ (turn_log u (signaler t)).1) (fx ++ fx') t' /\ signaler t' = (turn_log u (signaler t)).2 /\
  output (signaler t') = [] /\ (ended = true -> waiting t' = ∅).
Proof.
  unfold drive_round. intros (r & Hr & Hd)%res_bind_inv Hq Hk. destruct r as [[t1 fx1]|].
  - rewrite http_take_outputs in Hd. cbn in Hd. destruct (fold_outputs _ _ _ _) as [t2 fx2] eqn:Ef.
    injection Hd as <- <- <-.
    assert (exists l, kept (log ++ l) (fx ++ fx1) t1 /\
      turn_log u (signaler t) = (l ++ map EOut (output (signaler t1)), set_output [] (signaler t1))) as (l & Hk1 & ->).
    { destruct u as [|[cmd|] now|now order]; cbn [take_turn] in Hr; [done| |done|].
      - apply res_bind_inv in Hr as ([t3 fx3] & Hc & [= <- <-]). exists (front cmd). by apply run_command_kept.
      - apply res_bind_inv in Hr as (t3 & (Hs & Hw & Hn)%feed_keeps & [= <- <-]). exists []. cbn [turn_log]. unfold says.
        rewrite Hs. split; [|done]. eapply kept_quiet; [..|exact Hk]; by rewrite ?app_nil_r. }
    cbn [fst snd]. split; [|done]. rewrite app_assoc. eapply fold_kept in Ef; [|exact Hk1]. exact Ef.
  - injection Hd as <- <- <-.
    assert (turn_log u (signaler t) = ([EEnd], signaler t)) as ->.
    { destruct u as [|[cmd|] now|now order]; cbn [take_turn] in Hr; [done| |done|].
      - by apply res_bind_inv in Hr as (? & _ & ?).
      - by apply res_bind_inv in Hr as (? & _ & ?). }
    cbn [fst snd]. split; [|done]. by apply kept_ended.
Qed.

Lemma run_log_snoc turns u : forall s,
  run_log (turns ++ [u]) s
  = let '(l, s1) := run_log turns s in let '(l', s2) := turn_log u s1 in (l ++ l', s2).
Proof.
  induction turns as [|v turns IH]; intros s; cbn [run_log app].
  - destruct (turn_log u s) as [l' s2]. by rewrite app_nil_r.
  - destruct (turn_log v s) as [l1 s1]. rewrite IH. destruct (run_log turns s1) as [l2 s2].
    destruct (turn_log u s2) as [l3 s3]. by rewrite app_assoc.
Qed.

Lemma drive_run_kept c now turns fx t b :
  drive_run (task_new c now) turns fx t b ->
  kept (run_log turns (http_new c)).1 fx t /\ signaler t = (run_log turns (http_new c)).2 /\
  output (signaler t) = [] /\ (b = true -> waiting t = ∅).
Proof.
  induction 1 as [|turns fx t u clock fx' t' ended _ (I1 & I2 & I3 & _) Hr].
  - split; [|done]. split; [|done]. by split.
  - rewrite run_log_snoc. destruct (run_log turns (http_new c)) as [l s1]. cbn [fst snd] in *. subst s1.
    eapply drive_round_kept in Hr as (H1 & H2 & H3 & H4); [|done|exact I1].
    destruct (turn_log u (signaler t)) as [l' s2]. by split_and!.
Qed.

(** C31: What becomes of each request that is passed to the HTTP signaling task is
    what the signaler says of it.  From the turns of the task alone, that is from
    the commands and the times it is woken at, follow the history of the signaler
    and in it the fate of every request: the first thing after it that concerns
    its connection.  If that is a response of the signaler, the task sends exactly
    this response on the request's channel; if it is that the connection is closed
    or gone, another request on it, or the end of the task, the channel is dropped
    without a response, which is answered with 503; each happens exactly once, and
    a request without such an event waits.  So no request is left when the task
    has ended.  The offers that are announced are those of the signaler, once each
    and in order. *)
Theorem http_task_answers_once c now turns fx t b :
  drive_run (task_new c now) turns fx t b ->
  let '(log, s) := run_log turns (http_new c) in
  signaler t = s /\ requests t = length (fates log) /\
  (forall r, outcomes r fx = match fates log !! r with Some (Some x) => [effect_of r x] | _ => [] end) /\
  (forall r, (exists connection, waiting t !! connection = Some r) <-> fates log !! r = Some None) /\
  (b = true -> None ∉ fates log) /\
  omap announced fx = omap offered log.
Proof.
  intros (([L1 L2 L3 L4 L5] & Hn & Ho) & Hs & _ & Hb)%drive_run_kept.
  destruct (run_log turns (http_new c)) as [log s]. cbn [fst snd] in *.
  split; [done|]. split; [done|]. split; [|split; [|split; [|done]]].
  - intros r. destruct (fates log !! r) as [[x|]|] eqn:Ef; [by apply L2|by apply L3|by apply L5].
  - intros r. split; [by intros [x [? _]%L4]|]. intros (_ & x & _ & Hx)%L3. eauto.
  - intros Hend%Hb [r Hr]%list_elem_of_lookup. apply L3 in Hr as (_ & x & _ & Hx). by rewrite Hend in Hx.
Qed.

(** ** Accepting connections *)

(** The tables of the signaler, without its queue. *)
Definition same_core (s s' : HttpSignaler) : Prop :=
  connections s' = connections s /\ per_address s' = per_address s /\ pending s' = pending s /\ config s' = config s.

#[local] Instance same_core_preorder : PreOrder same_core.
Proof.
  split; [done|]. intros a b c (?&?&?&?) (?&?&?&?). unfold same_core. split_and!; congruence.
Qed.

Lemma take_loop_core {W} (body : nat -> HttpSignalerOutput -> W -> W) fuel : forall i s w s' w',
  take_loop body fuel i s w = Ok (s', w') -> same_core s s'.
Proof.
  induction fuel as [|fuel IH]; intros i s w s' w'; cbn [take_loop]; [done|].
  cbn [poll HttpSignaler_sans]. unfold http_poll. destruct (output s) as [|o rest]; [by intros [= <- _]|].
  intros Hs%IH. etrans; [|exact Hs]. done.
Qed.

(** What the turn feeds to the signaler. *)
Definition feeds (u : Turn) (i : HttpSignalerInput) : Prop :=
  match i with
  | Connected id peer n => u = HTCommand (Some (HConnected id peer)) n
  | _ => True
  end.

Lemma drive_round_core u clock t t' fx :
  drive_round u clock t = Ok (t', fx, false) ->
  same_core (signaler t) (signaler t') \/
  exists i, feeds u i /\ same_core (handle i (signaler t)).2 (signaler t').
Proof.
  unfold drive_round. intros (r & Hr & Hd)%res_bind_inv. destruct r as [[t1 fx1]|]; [|done].
  apply res_bind_inv in Hd as ([s [t2 fx2]] & Ht%take_loop_core & [= <- _]).
  assert (same_core (signaler t) (signaler t1) \/
    exists i, feeds u i /\ same_core (handle i (signaler t)).2 (signaler t1)) as [H1|(i & Hi & H1)];
    [|left; by etrans|right; exists i; split; [done|by etrans]].
  clear Ht. assert (forall i x y, signaler x = signaler t -> feed i x = Ok y -> signaler y = (handle i (signaler t)).2) as Hf.
  { intros i x y Hx (Hs & _)%feed_keeps. by rewrite Hs, Hx. }
  destruct u as [|[cmd|] now|now order]; cbn [take_turn] in Hr; [done| |done|].
  2:{ apply res_bind_inv in Hr as (x & Hx%Hf & [= <- _]); [|done]. right. exists (Update now order). split; [done|]. by rewrite Hx. }
  apply res_bind_inv in Hr as ([x fx3] & Hc & [= <- _]).
  destruct cmd as [connection request random wall|connection peer|connection|id sdp|id reason|data|trust|id|id|id];
    cbn [run_command] in Hc; try (injection Hc as <- _; by left).
  - apply res_bind_inv in Hc as (y & Hy%Hf & [= <- _]); [|done]. right. exists (IRequest connection request now random wall). split; [done|]. by rewrite Hy.
  - apply res_bind_inv in Hc as (y & Hy%Hf & ([s1 b] & Ht%take_loop_core & [= <- _])%res_bind_inv); [|done].
    right. exists (Connected connection peer now). split; [done|]. rewrite Hy in Ht. exact Ht.
  - destruct (remove_waiting connection HFxDropped t) as [z fx4] eqn:E.
    assert (signaler z = signaler t) as Hz by (pose proof (remove_waiting_signaler connection HFxDropped t) as Hz; by rewrite E in Hz).
    apply res_bind_inv in Hc as (y & Hy%Hf & [= <- _]); [|done]. right. exists (Closed connection). split; [done|]. by rewrite Hy.
  - apply res_bind_inv in Hc as (y & Hy%Hf & [= <- _]); [|done]. right. exists (IAnswer id sdp). split; [done|]. by rewrite <- Hy.
  - apply res_bind_inv in Hc as (y & Hy%Hf & [= <- _]); [|done]. right. exists (Reject id reason). split; [done|]. by rewrite <- Hy.
  - apply res_bind_inv in Hc as (y & Hy%Hf & [= <- _]); [|done]. right. exists (SetTokenTrust trust). split; [done|]. by rewrite <- Hy.
Qed.

(** The task with the counter of the one that accepts connections. *)
Record Server := { task : Task; next_connection : Z }.

Definition server_new (c : HttpSignalerConfig) (now : Instant) : Server :=
  {| task := task_new c now; next_connection := 1 |}.

Definition is_connected_turn (u : Turn) : bool :=
  match u with HTCommand (Some (HConnected _ _)) _ => true | _ => false end.

(** Only the accepting task announces connections, under ids of its own counter. *)
Inductive serve_run (c : HttpSignalerConfig) (now : Instant) : list Effect -> Server -> Prop :=
| serve_start : serve_run c now [] (server_new c now)
| serve_accept fx w peer n clock fx' t' :
    serve_run c now fx w ->
    drive_round (HTCommand (Some (HConnected (next_connection w) peer)) n) clock (task w) = Ok (t', fx', false) ->
    serve_run c now (fx ++ fx') {| task := t'; next_connection := next_connection w + 1 |}
| serve_turn fx w u clock fx' t' :
    serve_run c now fx w -> is_connected_turn u = false ->
    drive_round u clock (task w) = Ok (t', fx', false) ->
    serve_run c now (fx ++ fx') {| task := t'; next_connection := next_connection w |}.

Lemma serve_run_drive c now fx w :
  serve_run c now fx w -> exists turns, drive_run (task_new c now) turns fx (task w) false.
Proof.
  induction 1 as [|fx w peer n clock fx' t' _ [turns IH] Hr|fx w u clock fx' t' _ [turns IH] _ Hr];
    eexists; by econstructor.
Qed.

(** The connections of the signaler were announced, the limits hold. *)
Definition server_ok (c : HttpSignalerConfig) (w : Server) : Prop :=
  http_inv (signaler (task w)) /\ limits (signaler (task w)) = limits (http_new c) /\
  forall id, is_Some (connections (signaler (task w)) !! id) -> id < next_connection w.

Lemma same_core_ok s s' : same_core s s' -> http_inv s -> http_inv s' /\ limits s' = limits s.
Proof.
  intros (H1 & H2 & H3 & H4) Hs. split; [|unfold limits; by rewrite H4].
  apply (http_inv_same s); [done|done|done|unfold limits; by rewrite H4|done].
Qed.

Lemma serve_step_ok c w u clock t' fx :
  server_ok c w -> drive_round u clock (task w) = Ok (t', fx, false) ->
  (forall id peer n, u = HTCommand (Some (HConnected id peer)) n -> id = next_connection w) ->
  http_inv (signaler t') /\ limits (signaler t') = limits (http_new c) /\
  forall id, is_Some (connections (signaler t') !! id) ->
    is_Some (connections (signaler (task w)) !! id) \/ is_connected_turn u = true /\ id = next_connection w.
Proof.
  intros (Hi & Hl & Hn) Hr Hu. apply drive_round_core in Hr as [Hs|(i & Hf & Hs)].
  - destruct (same_core_ok _ _ Hs Hi) as [Hi' Hl']. split; [done|]. split; [congruence|].
    destruct Hs as (-> & _). auto.
  - assert (fresh (signaler (task w)) i) as Hfr.
    { destruct i as [id peer n|c0 r n rnd wall|id sdp|id reason|d|t|c0|n order]; cbn; try done.
      rewrite (Hu id peer n Hf). apply eq_None_not_Some. intros Hx%Hn. lia. }
    destruct (http_handle_inv i _ Hfr Hi) as [Hi1 Hl1]. destruct (same_core_ok _ _ Hs Hi1) as [Hi' Hl'].
    split; [done|]. split; [change (handle i) with (http_handle i) in *; congruence|].
    intros id Hx. destruct Hs as (Hs & _). rewrite Hs in Hx.
    apply http_handle_connections in Hx as [Hx|(a & n & ->)]; [by left|]. right. cbn in Hf. subst u.
    split; [done|]. by eapply Hu.
Qed.

Lemma serve_run_ok c now fx w :
  0 <= max_connections_per_address c -> 0 <= max_pending_joins c -> serve_run c now fx w -> server_ok c w.
Proof.
  intros Hc Hp. induction 1 as [|fx w peer n clock fx' t' _ IH Hr|fx w u clock fx' t' _ IH Hu Hr].
  - split; [by split|]. split; [done|]. intros id [x Hx]. cbn in Hx. by rewrite lookup_empty in Hx.
  - eapply serve_step_ok in Hr as (H1 & H2 & H3); [|exact IH|by intros id p0 n0 [= <- _ _]].
    split; [done|]. split; [done|]. intros id Hx. cbn. destruct (H3 id Hx) as [Hx'|[_ ->]]; [|lia].
    apply IH in Hx'. lia.
  - eapply serve_step_ok in Hr as (H1 & H2 & H3); [|exact IH|by intros id p0 n0 ->].
    split; [done|]. split; [done|]. intros id Hx. destruct (H3 id Hx) as [Hx'|[Hb _]]; [by apply IH|congruence].
Qed.

(** What the one that accepts is told is whether the signaler has taken the connection. *)
Lemma admitted_exact w c peer n clock t' fx :
  server_ok c w -> output (signaler (task w)) = [] ->
  drive_round (HTCommand (Some (HConnected (next_connection w) peer)) n) clock (task w) = Ok (t', fx, false) ->
  fx = [HFxAdmitted (next_connection w) (bool_decide (is_Some (connections (signaler t') !! next_connection w)))].
Proof.
  intros (_ & _ & Hn) Hq. unfold drive_round. cbn [take_turn run_command].
  set (id := next_connection w). intros (r & Hr & Hd)%res_bind_inv.
  apply res_bind_inv in Hr as ([t1 fx1] & (x & (Hx & _)%feed_keeps & ([s refused] & Ht & [= <- <-])%res_bind_inv)%res_bind_inv & <-%Ok_inj).
  change ((handle (Connected id peer n) (signaler (task w))).2) with (HttpSignaler.connected id peer (signaler (task w))) in Hx.
  destruct (take_outputs_all (note_refused id) (signaler x) false (signaler x) []) as (s1 & H1 & Hq1 & _); [constructor|].
  pose proof (take_loop_core _ _ _ _ _ _ _ Ht) as (Hc1 & _). rewrite H1 in Ht. injection Ht as <- <-.
  apply res_bind_inv in Hd as ([s2 [t2 fx2]] & H2 & [= <- <-]).
  pose proof (take_loop_core _ _ _ _ _ _ _ H2) as (Hc2 & _).
  unfold take_outputs in H2. cbn [signaler set_signaler] in H2. rewrite Hq1 in H2. cbn [length take_loop] in H2.
  pose proof (poll_queue s1) as Hp. rewrite Hq1 in Hp. rewrite Hp in H2. injection H2 as <- <- <-.
  cbn [signaler set_signaler] in *. rewrite Hc1, Hx in *. cbn [queue HttpSignaler_queued].
  destruct (connected_outputs id peer (signaler (task w)) Hq) as [[-> Hs]|[-> Hs]]; cbn [fold_outputs note_refused].
  - by rewrite bool_decide_eq_true_2.
  - rewrite Z.eqb_refl, Hs, bool_decide_eq_false_2; [done|]. intros Hin%Hn. unfold id in Hin. lia.
Qed.

Definition is_admission (e : Effect) : bool := match e with HFxAdmitted _ _ => true | _ => false end.

Lemma remove_waiting_admits connection f t t' fx :
  (forall r, is_admission (f r) = false) -> remove_waiting connection f t = (t', fx) -> existsb is_admission fx = false.
Proof.
  intros Hf. unfold remove_waiting. destruct (waiting t !! connection); intros [= _ <-]; [|done]. cbn. by rewrite Hf.
Qed.

Lemma fold_admits clock l : forall i t fx t' fx',
  fold_outputs (carry_out clock) i l (t, fx) = (t', fx') -> existsb is_admission fx = false ->
  existsb is_admission fx' = false.
Proof.
  induction l as [|o l IH]; intros i t fx t' fx'; cbn [fold_outputs]; [by intros [= _ <-]|].
  destruct (carry_out clock i o (t, fx)) as [t1 fx1] eqn:E. intros Hl Hfx. eapply IH; [exact Hl|].
  destruct o as [connection response keep|connection|offer|d]; cbn [carry_out] in E.
  - destruct (remove_waiting _ _ t) as [t2 fx2] eqn:Er. injection E as _ <-. rewrite existsb_app, Hfx.
    by eapply remove_waiting_admits; [|exact Er].
  - destruct (remove_waiting _ _ t) as [t2 fx2] eqn:Er. injection E as _ <-. rewrite existsb_app, Hfx.
    by eapply remove_waiting_admits; [|exact Er].
  - injection E as _ <-. by rewrite existsb_app, Hfx.
  - by injection E as _ <-.
Qed.

(** Only an accepted connection is told whether it is admitted. *)
Lemma drive_round_admits u clock t t' fx e id b :
  drive_round u clock t = Ok (t', fx, e) -> is_connected_turn u = false -> HFxAdmitted id b ∉ fx.
Proof.
  intros Hr Hu. enough (existsb is_admission fx = false) as Hf.
  { intros Hin%list_elem_of_In. rewrite <- not_true_iff_false in Hf. apply Hf, existsb_exists. by eexists. }
  revert Hr. unfold drive_round. intros (r & Hr & Hd)%res_bind_inv. destruct r as [[t1 fx1]|].
  2:{ injection Hd as _ <- _. clear. by induction (map_to_list (waiting t)).*2. }
  apply res_bind_inv in Hd as ([s [t2 fx2]] & Ht & [= _ <- _]).
  destruct (take_outputs_all (carry_out clock) (signaler t1) (t1, fx1) (signaler t1) []) as (s1 & H1 & _); [constructor|].
  rewrite H1 in Ht. injection Ht as _ Hf. eapply fold_admits; [exact Hf|]. clear Hf H1.
  destruct u as [|[cmd|] now|now order]; cbn [take_turn] in Hr; [done| |done|].
  2:{ by apply res_bind_inv in Hr as (x & _ & [= _ <-]). }
  apply res_bind_inv in Hr as ([x fx3] & Hc & [= _ <-]).
  destruct cmd as [connection request random wall|connection peer|connection|cid sdp|cid reason|data|trust|cid|cid|cid];
    cbn [run_command] in Hc; try done; try (by injection Hc as _ <-).
  - apply res_bind_inv in Hc as (y & _ & [= _ <-]). by destruct (waiting t !! connection).
  - destruct (remove_waiting connection HFxDropped t) as [z fx4] eqn:E.
    apply res_bind_inv in Hc as (y & _ & [= _ <-]). by eapply remove_waiting_admits; [|exact E].
  - by apply res_bind_inv in Hc as (y & _ & [= _ <-]).
  - by apply res_bind_inv in Hc as (y & _ & [= _ <-]).
Qed.

(** The HTTP signaling server keeps its limits: each address has at most
    [max_connections_per_address] connections, at most [max_pending_joins] joins
    wait; a connection that is served was admitted, and one that was refused is
    not in the signaler's tables, now or later. *)
Theorem http_task_limits c now fx w :
  0 <= max_connections_per_address c -> 0 <= max_pending_joins c -> serve_run c now fx w ->
  (forall a, held_by (connections (signaler (task w))) a <= max_connections_per_address c) /\
  pending_joins (signaler (task w)) <= max_pending_joins c /\
  (forall id, is_Some (connections (signaler (task w)) !! id) -> HFxAdmitted id true ∈ fx) /\
  (forall id, HFxAdmitted id false ∈ fx -> connections (signaler (task w)) !! id = None).
Proof.
  intros Hc Hp Hrun. destruct (serve_run_ok c now fx w Hc Hp Hrun) as ([_ Hl Hj] & [= E1 E2] & _).
  rewrite E1 in Hl. rewrite E2 in Hj. split; [exact Hl|]. split; [exact Hj|]. clear Hl Hj E1 E2.
  enough ((forall id b, HFxAdmitted id b ∈ fx -> id < next_connection w) /\
    (forall id, is_Some (connections (signaler (task w)) !! id) -> HFxAdmitted id true ∈ fx) /\
    (forall id, HFxAdmitted id false ∈ fx -> connections (signaler (task w)) !! id = None)) as (_ & ?) by done.
  induction Hrun as [|fx w peer n clock fx' t' Hrun (I1 & I2 & I3) Hr|fx w u clock fx' t' Hrun (I1 & I2 & I3) Hu Hr].
  - split_and!; [by intros id b ?%elem_of_nil| |by intros id ?%elem_of_nil]. intros id [x Hx]. cbn in Hx. by rewrite lookup_empty in Hx.
  - pose proof (serve_run_ok c now fx w Hc Hp Hrun) as Hok.
    apply serve_run_drive in Hrun as [turns (_ & _ & Hq & _)%drive_run_kept].
    pose proof (admitted_exact w c peer n clock t' fx' Hok Hq Hr) as ->.
    eapply serve_step_ok in Hr as (_ & _ & H3); [|exact Hok|by intros id p0 n0 [= <- _ _]]. cbn [task next_connection].
    split_and!.
    + intros id b [Hin|[= -> _]%list_elem_of_singleton]%elem_of_app; [specialize (I1 id b Hin)|]; lia.
    + intros id Hx. apply elem_of_app. destruct (H3 id Hx) as [Hx'|[_ ->]]; [left; by apply I2|]. right.
      rewrite bool_decide_eq_true_2 by done. by left.
    + intros id [Hin|Hin%list_elem_of_singleton]%elem_of_app.
      * apply eq_None_not_Some. intros Hx. destruct (H3 id Hx) as [Hx'|[_ ->]]; [|specialize (I1 _ _ Hin); lia].
        rewrite (I3 id Hin) in Hx'. by destruct Hx'.
      * injection Hin as -> Hb. symmetry in Hb. apply bool_decide_eq_false in Hb. by apply eq_None_not_Some.
  - pose proof (serve_run_ok c now fx w Hc Hp Hrun) as Hok.
    assert (forall id b, HFxAdmitted id b ∈ fx ++ fx' -> HFxAdmitted id b ∈ fx) as Hno.
    { intros id b [Hin|Hin]%elem_of_app; [done|]. by eapply drive_round_admits in Hin. }
    eapply serve_step_ok in Hr as (_ & _ & H3); [|exact Hok|by intros id p0 n0 ->]. cbn [task next_connection].
    split_and!.
    + intros id b Hin%Hno. by eapply I1.
    + intros id Hx. apply elem_of_app. left. apply I2. destruct (H3 id Hx) as [Hx'|[Hb _]]; [done|congruence].
    + intros id Hin%Hno. apply eq_None_not_Some. intros Hx. destruct (H3 id Hx) as [Hx'|[Hb _]]; [|congruence].
      rewrite (I3 id Hin) in Hx'. by destruct Hx'.
Qed.

(** ** What stays of a join that times out *)

(** The address, the player and the host of an offer are forgotten when the offer
    is answered or rejected; the turn that lets a join time out keeps them. *)
Lemma timed_out_offer_kept now order clock t t' fx :
  drive_round (HTWoken now order) clock t = Ok (t', fx, false) -> output (signaler t) = [] ->
  (forall id, is_Some (addresses t !! id) -> is_Some (addresses t' !! id)).
Proof.
  unfold drive_round. cbn [take_turn]. intros (r & Hr & Hd)%res_bind_inv _ id.
  apply res_bind_inv in Hr as (t1 & Hf & <-%Ok_inj).
  assert (addresses t1 = addresses t) as Ha by (unfold feed in Hf; destruct (handle _ _) as [[] s]; by simplify_eq).
  apply res_bind_inv in Hd as ([s [t2 fx2]] & Ht & [= <- _]).
  destruct (take_outputs_all (carry_out clock) (signaler t1) (t1, []) (signaler t1) []) as (s1 & H1 & _); [constructor|].
  rewrite H1 in Ht. injection Ht as _ Hfold. cbn [addresses set_signaler]. rewrite <- Ha. clear Ha Hf H1.
  revert Hfold. generalize (output (signaler t1)). generalize 0%nat. generalize (@nil Effect).
  intros fx0 i l. revert i fx0 t1. induction l as [|o l IH]; intros i fx0 t1; cbn [fold_outputs]; [intros; by simplify_eq|].
  destruct (carry_out clock i o (t1, fx0)) as [t3 fx3] eqn:E. intros Hl Hx. eapply IH; [exact Hl|].
  destruct o as [connection response keep|connection|offer|d]; cbn [carry_out] in E; unfold remove_waiting in E.
  - destruct (waiting t1 !! connection); by injection E as <- _.
  - destruct (waiting t1 !! connection); by injection E as <- _.
  - injection E as <- _. cbn. destruct (offer_client_address offer); cbn; [|done].
    destruct (decide (offer_connection_id offer = id)) as [->|]; [by rewrite lookup_insert_eq; eauto|by rewrite lookup_insert_ne].
  - by injection E as <- _.
Qed.
End task.
