(* ===== verification/HttpServer.v ===== *)
(** * HttpServer: the HTTP server polled once per frame ([bevy-nethernet/src/http_server.rs])

    The server joins TCP or TLS streams, the reader of requests, the HTTP
    signaler, admission, the session table and the commands to the pool.  What a
    frame meets (new connections with what their sockets will do, the order maps
    are walked in, random draws, clock readings and the pool's events) is a
    [Frame].  Flags that only silence repeated log lines are left out. *)
From S2P Require Import Prelude Text Errors SignalMsg ServerDataModel Discovery Endpoint IpRange Candidate Router Sans.
From S2P Require Import Identity ServerIdentity HttpSignaler HttpWire HttpStream Webrtc Framing Transports.
From S2P Require Import Session Connection Admission Pending Pool ServerSessions.

Definition MAX_ACCEPTS_PER_TICK : nat := 64.
Definition DEFAULT_IDLE_TIMEOUT : Duration := secs 30.

Definition BAD_REQUEST : Z := 400.
Definition LENGTH_REQUIRED : Z := 411.
Definition PAYLOAD_TOO_LARGE : Z := 413.
Definition REQUEST_HEADER_FIELDS_TOO_LARGE : Z := 431.

(** The accessors of [http::Request]. *)
Class HttpAccess (types : HttpTypes) := {
  head_method : RequestHead -> Method;
  head_path : RequestHead -> bytes;
  head_version : RequestHead -> Version;
  head_text : RequestHead -> bytes -> option bytes;
}.

Section server.
Context `{b64 : Base64} `{serde : Serde} `{p384 : P384} `{rsa : Rsa} `{net : IpNetOps} `{Stun}.
Context {crypto : CryptoOps} {sdp : Sdp} {cand : IceCandidate} {cert : CertificateOps}
  {iceops : IceOps} {dtlsops : DtlsOps} {sctpops : SctpOps} {dcepops : DcepOps}.
Context {httparse : Httparse} {types : HttpTypes} {access : HttpAccess types} {tls : TlsOps}.

(** ** Connections *)

Record TcpConn := {
  stream : HttpStream;
  close_after_write : bool;
  requested : bool;
  last_active : Instant;
}.

Definition set_stream (x : HttpStream) (c : TcpConn) : TcpConn :=
  {| stream := x; close_after_write := close_after_write c; requested := requested c;
     last_active := last_active c |}.
Definition touch (now : Instant) (c : TcpConn) : TcpConn :=
  {| stream := stream c; close_after_write := close_after_write c; requested := requested c;
     last_active := now |}.

(** The connection closes once what is buffered, and [d], is written. *)
Definition queue_last (d : bytes) (c : TcpConn) : TcpConn :=
  {| stream := queue d (stream c); close_after_write := true; requested := requested c;
     last_active := last_active c |}.

Definition refuse (status : Z) (c : TcpConn) : TcpConn :=
  let c := queue_last (response_encode status [] []) c in
  set_stream (set_inbound [] (stream c)) c.

Definition refusal_status (e : RequestError) : Z :=
  match e with
  | RequestHeaderCountExceeded => REQUEST_HEADER_FIELDS_TOO_LARGE
  | RequestMalformed => BAD_REQUEST
  | RequestSizeExceeded => PAYLOAD_TOO_LARGE
  | LengthRequired => LENGTH_REQUIRED
  end.

(** The request as the signaler reads it. *)
Definition signaled_request (head : RequestHead) (text : bytes) : Request :=
  {| HttpSignaler.method := head_method head; HttpSignaler.path := head_path head;
     HttpSignaler.version := head_version head; HttpSignaler.header_text := head_text head;
     HttpSignaler.body := text |}.

(** What a frame makes of a connection: it stays, it goes, or it asks something. *)
Inductive Pumped := Stays | Goes | Asks (request : Request).

Definition read_request (c : TcpConn) : Res unit (Pumped * TcpConn) :=
  match request_parse (inbound (stream c)) with
  | Ok (Complete (head, body)) =>
      match text_body body with
      | Ok text =>
          Ok (Asks (signaled_request head text),
              {| stream := set_inbound [] (stream c); close_after_write := close_after_write c;
                 requested := true; last_active := last_active c |})
      | Err _ => Ok (Stays, refuse BAD_REQUEST c)
      | Panic => Panic
      end
  | Ok Partial =>
      if blen (inbound (stream c)) >? MAX_BODY then Ok (Stays, refuse PAYLOAD_TOO_LARGE c)
      else Ok (Stays, c)
  | Err e => Ok (Stays, refuse (refusal_status e) c)
  | Panic => Panic
  end.

(** [close] has no error. *)
Definition finish_conn (c : TcpConn) : Res unit (Pumped * TcpConn) :=
  let '(r, s) := HttpStream.close (stream c) in
  match r with
  | Panic => Panic
  | Ok ShutdownDone => Ok (Goes, set_stream s c)
  | _ => Ok (Stays, set_stream s c)
  end.

(** The stream is set up and flushed, and a request is read unless there was one. *)
Definition pump_request (c : TcpConn) : Res unit (Pumped * TcpConn) :=
  let '(r, s) := HttpStream.establish (stream c) in
  let c := set_stream s c in
  match r with
  | Panic => Panic
  | Err _ | Ok InboundClosed => Ok (Goes, c)
  | Ok _ =>
      let '(r, s) := HttpStream.flush (stream c) in
      let c := set_stream s c in
      match r with
      | Panic => Panic
      | Err _ => Ok (Goes, c)
      | Ok _ =>
          if requested c then Ok (Stays, set_stream (set_inbound [] (stream c)) c)
          else read_request c
      end
  end.

Definition pump_inbound (now : Instant) (c : TcpConn) : Res unit (Pumped * TcpConn) :=
  let '(r, s) := HttpStream.fill (stream c) in
  let c := set_stream s c in
  match r with
  | Panic => Panic
  | Err _ | Ok InboundClosed => Ok (Goes, c)
  | Ok Received => pump_request (touch now c)
  | Ok Idle => pump_request c
  end.

Definition pump_conn (now : Instant) (c : TcpConn) : Res unit (Pumped * TcpConn) :=
  if negb (has_outbound (stream c)) && close_after_write c then finish_conn c
  else
    let '(r, s) := HttpStream.drain (stream c) in
    let c := set_stream s c in
    match r with
    | Panic => Panic
    | Err _ => Ok (Goes, c)
    | Ok (DEmpty | DBlocked) => pump_inbound now c
    | Ok DPartial => pump_inbound now (touch now c)
    | Ok DComplete =>
        let c := touch now c in
        if close_after_write c then finish_conn c else pump_inbound now c
    end.

(** ** The server *)

Record NetherHttpServer := {
  signaler : HttpSignaler;
  session_local_addr : SocketAddr;
  advertised_addrs : list IpAddr;
  server_identity : option ServerIdentity;
  unsigned_allowed : bool;
  infer_candidates : bool;
  pending_limits : PendingLimits;
  timeouts : Timeouts;
  idle_timeout : Duration;
  server_tls : option TlsServerConfig;
  next_conn_id : Z;
  conns : gmap Z TcpConn;
  table : Table (X := option bytes);
}.

Definition server_new (c : HttpSignalerConfig) (local : SocketAddr) (advertised : list IpAddr)
    : NetherHttpServer := {|
  signaler := http_new c; session_local_addr := local; advertised_addrs := advertised;
  server_identity := None; unsigned_allowed := false; infer_candidates := true;
  pending_limits := PendingLimits_default; timeouts := Timeouts_default;
  idle_timeout := DEFAULT_IDLE_TIMEOUT; server_tls := None; next_conn_id := 0; conns := ∅;
  table := table_new |}.

(** The settings, replaced as a whole. *)
Record Settings := {
  s_identity : option ServerIdentity; s_unsigned : bool; s_infer : bool; s_limits : PendingLimits;
  s_timeouts : Timeouts; s_idle : Duration; s_tls : option TlsServerConfig;
}.

Definition settings (s : NetherHttpServer) : Settings := {|
  s_identity := server_identity s; s_unsigned := unsigned_allowed s; s_infer := infer_candidates s;
  s_limits := pending_limits s; s_timeouts := timeouts s; s_idle := idle_timeout s;
  s_tls := server_tls s |}.

Definition set_settings (x : Settings) (s : NetherHttpServer) : NetherHttpServer := {|
  signaler := signaler s; session_local_addr := session_local_addr s;
  advertised_addrs := advertised_addrs s; server_identity := s_identity x;
  unsigned_allowed := s_unsigned x; infer_candidates := s_infer x; pending_limits := s_limits x;
  timeouts := s_timeouts x; idle_timeout := s_idle x; server_tls := s_tls x;
  next_conn_id := next_conn_id s; conns := conns s; table := table s |}.

(** The state a frame works on, replaced as a whole. *)
Definition with_state (sig : HttpSignaler) (n : Z) (cs : gmap Z TcpConn) (t : Table)
    (s : NetherHttpServer) : NetherHttpServer := {|
  signaler := sig; session_local_addr := session_local_addr s;
  advertised_addrs := advertised_addrs s; server_identity := server_identity s;
  unsigned_allowed := unsigned_allowed s; infer_candidates := infer_candidates s;
  pending_limits := pending_limits s; timeouts := timeouts s; idle_timeout := idle_timeout s;
  server_tls := server_tls s; next_conn_id := n; conns := cs; table := t |}.

Definition set_signaler (x : HttpSignaler) (s : NetherHttpServer) : NetherHttpServer :=
  with_state x (next_conn_id s) (conns s) (table s) s.
Definition set_conns (x : gmap Z TcpConn) (s : NetherHttpServer) : NetherHttpServer :=
  with_state (signaler s) (next_conn_id s) x (table s) s.
Definition set_table (x : Table) (s : NetherHttpServer) : NetherHttpServer :=
  with_state (signaler s) (next_conn_id s) (conns s) x s.

(** [let _ = self.signaler.handle(..)]. *)
Definition feed (i : HttpSignalerInput) (s : NetherHttpServer) : Res unit NetherHttpServer :=
  match handle i (signaler s) with
  | (Panic, _) => Panic
  | (_, g) => Ok (set_signaler g s)
  end.

Fixpoint feed_list (l : list HttpSignalerInput) (s : NetherHttpServer) : Res unit NetherHttpServer :=
  match l with
  | [] => Ok s
  | i :: l => s ← feed i s; feed_list l s
  end.

(** One connection of the listener; without a peer address it is dropped. *)
Definition accept_one (socket : TcpStream) (peer : option SocketAddr) (now : Instant)
    (s : NetherHttpServer) : Res unit NetherHttpServer :=
  match peer with
  | None => Ok s
  | Some peer =>
      let id := next_conn_id s in
      if id =? u64_max then Panic
      else
        let c := {| stream := server_accept (server_tls s) socket; close_after_write := false;
                    requested := false; last_active := now |} in
        feed (Connected id peer now)
          (with_state (signaler s) (id + 1) (<[id := c]> (conns s)) (table s) s)
  end.

Fixpoint accept_all (l : list (TcpStream * option SocketAddr)) (now : Instant) (s : NetherHttpServer)
    : Res unit NetherHttpServer :=
  match l with
  | [] => Ok s
  | (socket, peer) :: l => s ← accept_one socket peer now s; accept_all l now s
  end.

Definition accept (l : list (TcpStream * option SocketAddr)) (now : Instant) (s : NetherHttpServer)
    : Res unit NetherHttpServer := accept_all (take MAX_ACCEPTS_PER_TICK l) now s.

(** The walk over the connections: the map as it is left, what was asked and who
    goes. *)
Fixpoint pump_walk (order : list Z) (now : Instant) (cs : gmap Z TcpConn)
    : Res unit (gmap Z TcpConn * list (Z * Request) * list Z) :=
  match order with
  | [] => Ok (cs, [], [])
  | id :: order =>
      match cs !! id with
      | None => pump_walk order now cs
      | Some c =>
          '(p, c) ← pump_conn now c;
          '(cs, asked, closed) ← pump_walk order now (<[id := c]> cs);
          Ok (cs, match p with Asks r => (id, r) :: asked | _ => asked end,
              match p with Goes => id :: closed | _ => closed end)
      end
  end.

(** The random connection id and the wall clock of a join. *)
Abbreviation JoinDraw := (Z * SystemTime)%type.

Fixpoint request_inputs (asked : list (Z * Request)) (now : Instant) (draws : nat -> JoinDraw)
    (i : nat) : list HttpSignalerInput :=
  match asked with
  | [] => []
  | (id, r) :: asked => IRequest id r now (draws i).1 (draws i).2 :: request_inputs asked now draws (S i)
  end.

Fixpoint close_all (ids : list Z) (s : NetherHttpServer) : Res unit NetherHttpServer :=
  match ids with
  | [] => Ok s
  | id :: ids => s ← feed (Closed id) (set_conns (delete id (conns s)) s); close_all ids s
  end.

Definition pump_connections (order : list Z) (now : Instant) (draws : nat -> JoinDraw)
    (s : NetherHttpServer) : Res unit (NetherHttpServer * list (Z * Request)) :=
  '(cs, asked, closed) ← pump_walk order now (conns s);
  s ← feed_list (request_inputs asked now draws 0) (set_conns cs s);
  s ← close_all closed s;
  Ok (s, asked).

(** ** Outputs of the signaler *)

(** The headers the signaler sets; [serialize] writes the length itself. *)
Definition response_headers (r : Response) : list Header :=
  match content_type r with
  | Some ct => [{| header_name := CONTENT_TYPE; header_value := ct |}]
  | None => []
  end ++ [{| header_name := CONTENT_LENGTH; header_value := dec (HttpSignaler.content_length r) |}].

Definition encode_response (r : Response) : bytes :=
  response_encode (response_status r) (response_headers r) (response_body r).

Definition offer_policy (s : NetherHttpServer) : OfferPolicy :=
  let policy := with_inferred_peer_candidates (infer_candidates s) (policy_new Full) in
  let policy := with_establish_deadline (Connection.establish (timeouts s)) policy in
  match server_identity s with
  | Some identity => with_identity identity policy
  | None => policy
  end.

Definition handle_offer (o : OfferInfo) (now : Instant) (draw : Draw) (s : NetherHttpServer)
    : Res unit NetherHttpServer :=
  let unavailable := Reject (offer_connection_id o) Unavailable in
  if bool_decide (server_identity s = None) && negb (unsigned_allowed s) then feed unavailable s
  else if negb (admits_offer (pending_ids (table s)) (offer_network_id o) (pending_limits s))
  then feed unavailable s
  else
    let '(admitted, _) :=
      policy_admit (offer_signal o) (offer_client_address o) (draw_wall draw) (offer_policy s) in
    match (a ← admitted;
           answer_advertising a (session_local_addr s) (advertised_addrs s) (draw_ufrag draw)
             (draw_pwd draw) (draw_random draw) (draw_clock draw) now) with
    | Panic => Panic
    | Err e => feed (Reject (offer_connection_id o) (RejectReason_from (code e))) s
    | Ok answered =>
        match signals answered with
        | [] => feed unavailable s
        | answer :: _ =>
            s ← feed (IAnswer (offer_connection_id o) (signal_data answer)) s;
            Ok (set_table
                  (open_session
                     {| sid_network := offer_network_id o; sid_connection := offer_connection_id o |}
                     {| ready := false; created := now; session_addr := None; session_rtt := None;
                        session_player := match answered_player answered with
                                          | Some p => Some p | None => offer_player o end;
                        extra := offer_host o |}
                     (Admission.connection answered) (Admission.local_ufrag answered) (table s)) s)
        end
    end.

Definition handle_output (o : HttpSignalerOutput) (now : Instant) (draw : Draw) (s : NetherHttpServer)
    : Res unit NetherHttpServer :=
  match o with
  | OResponse id response _ => Ok (set_conns (alter (queue_last (encode_response response)) id (conns s)) s)
  | Close id =>
      Ok (set_conns (alter (fun c => {| stream := stream c; close_after_write := true;
            requested := requested c; last_active := last_active c |}) id (conns s)) s)
  | OOffer offer => handle_offer offer now draw s
  | Wait _ => Ok s
  end.

(** [while let Some(output) = self.signaler.poll()], the [i]-th output with the
    [i]-th draw. *)
Definition output_body (now : Instant) (draws : nat -> Draw) (i : nat) (o : HttpSignalerOutput)
    (s : NetherHttpServer) : Res unit NetherHttpServer := handle_output o now (draws i) s.

Definition drain_outputs (rounds i : nat) (now : Instant) (draws : nat -> Draw) (s : NetherHttpServer)
    : Res unit NetherHttpServer :=
  drain_machine signaler set_signaler HttpSignaler.output (output_body now draws) rounds i s.

(** ** The frame *)

(** The connections without traffic, in the order the map is walked. *)
Definition idle_ids (order : list Z) (now : Instant) (s : NetherHttpServer) : list Z :=
  List.filter (fun id => match conns s !! id with
                         | Some c => idle_timeout s <=? saturating_duration_since now (last_active c)
                         | None => false
                         end) order.

(** [self.sessions.retain(..)]; the pool is not told. *)
Definition forget_unestablished (establish : Duration) (now : Instant) (t : Table (X := option bytes))
    : Table (X := option bytes) :=
  set_sessions (filter (fun '(_, e) => established_in_time establish now e = true) (sessions t)) t.

Record Frame := {
  f_now : Instant;
  f_arrivals : list (TcpStream * option SocketAddr);
  f_walk : list Z;
  f_joins : nat -> JoinDraw;
  f_overdue : list Z -> list Z;
  f_draws : nat -> Draw;
  f_msgs : list (NetherSessionId * ConnectionEvent);
  f_idle : list Z;
}.

(** A frame, with the requests it handed to the signaler. *)
(** The methods on the sessions. *)
Definition http_sessions (s : NetherHttpServer) : list NetherSessionId := ready_sessions (table s).
Definition http_player (s : NetherHttpServer) (id : NetherSessionId) : option PlayerInfo :=
  e ← sessions (table s) !! id; session_player e.
Definition http_host (s : NetherHttpServer) (id : NetherSessionId) : option bytes :=
  e ← sessions (table s) !! id; extra e.
Definition http_rtt (s : NetherHttpServer) (id : NetherSessionId) : option Duration :=
  e ← sessions (table s) !! id; session_rtt e.
Definition http_remote_addr (s : NetherHttpServer) (id : NetherSessionId) : option SocketAddr :=
  e ← sessions (table s) !! id; session_addr e.

Definition http_send_on (id : NetherSessionId) (channel : Channel) (data : bytes) (s : NetherHttpServer)
    : Res ProtocolError NetherHttpServer :=
  t ← send_on id channel data (table s);
  Ok (set_table t s).
Definition http_send (id : NetherSessionId) (data : bytes) (s : NetherHttpServer)
    : Res ProtocolError NetherHttpServer := http_send_on id Reliable data s.
Definition http_send_unreliable (id : NetherSessionId) (data : bytes) (s : NetherHttpServer)
    : Res ProtocolError NetherHttpServer := http_send_on id Unreliable data s.

Definition http_recv (s : NetherHttpServer) : option (NetherSessionId * bytes) * NetherHttpServer :=
  let '(m, t) := recv (table s) in (m, set_table t s).
Definition http_recv_unreliable (s : NetherHttpServer) : option (NetherSessionId * bytes) * NetherHttpServer :=
  let '(m, t) := recv_unreliable (table s) in (m, set_table t s).
Definition http_disconnect (id : NetherSessionId) (s : NetherHttpServer) : NetherHttpServer :=
  set_table (disconnect id (table s)) s.
Definition http_next_event (s : NetherHttpServer) : option ServerEvent * NetherHttpServer :=
  let '(ev, t) := next_event (table s) in (ev, set_table t s).
Definition http_drive_sessions (msgs : list (NetherSessionId * ConnectionEvent)) (s : NetherHttpServer)
    : NetherHttpServer := set_table (drive_sessions msgs (table s)) s.

Definition http_set_server_data (data : ServerData) (s : NetherHttpServer) : Res unit NetherHttpServer :=
  feed (SetServerData data) s.
Definition http_set_token_trust (trust : option TokenTrust) (s : NetherHttpServer) : Res unit NetherHttpServer :=
  feed (SetTokenTrust trust) s.

Definition update (f : Frame) (s : NetherHttpServer) : Res unit (NetherHttpServer * list (Z * Request)) :=
  s ← accept (f_arrivals f) (f_now f) s;
  '(s, asked) ← pump_connections (f_walk f) (f_now f) (f_joins f) s;
  s ← feed (Update (f_now f) (f_overdue f)) s;
  s ← drain_outputs 2 0 (f_now f) (f_draws f) s;
  let s := http_drive_sessions (f_msgs f) s in
  s ← close_all (idle_ids (f_idle f) (f_now f) s) s;
  Ok (set_table (forget_unestablished (Connection.establish (timeouts s)) (f_now f) (table s)) s, asked).

(** ** The server as a state machine *)

(** The methods that replace one setting. *)
Inductive Setting :=
| SetIdleTimeout (d : Duration)
| SetIdentity (identity : ServerIdentity)
| AllowUnsignedAnswers (allow : bool)
| SetTls (config : TlsServerConfig)
| SetTimeouts (t : Timeouts)
| SetPendingLimits (limits : PendingLimits)
| SetInferPeerCandidates (infer : bool).

Definition apply_setting (x : Setting) (s : NetherHttpServer) : NetherHttpServer :=
  let old := settings s in
  set_settings {|
    s_identity := match x with SetIdentity i => Some i | _ => s_identity old end;
    s_unsigned := match x with AllowUnsignedAnswers b => b | _ => s_unsigned old end;
    s_infer := match x with SetInferPeerCandidates b => b | _ => s_infer old end;
    s_limits := match x with SetPendingLimits l => l | _ => s_limits old end;
    s_timeouts := match x with SetTimeouts t => t | _ => s_timeouts old end;
    s_idle := match x with SetIdleTimeout d => d | _ => s_idle old end;
    s_tls := match x with SetTls c => Some c | _ => s_tls old end |} s.

Inductive ServerInput :=
| HFrame (f : Frame)
| HSend (id : NetherSessionId) (channel : Channel) (data : bytes)
| HRecv | HRecvUnreliable
| HDisconnect (id : NetherSessionId)
| HNextEvent
| HSetting (x : Setting)
| HSetServerData (data : ServerData)
| HSetTokenTrust (trust : option TokenTrust).

(** The event taken out, the requests served, and the next state. *)
Definition server_input (i : ServerInput) (s : NetherHttpServer)
    : Res unit (option ServerEvent * list (Z * Request) * NetherHttpServer) :=
  match i with
  | HFrame f => '(s, asked) ← update f s; Ok (None, asked, s)
  | HSend id Reliable data =>
      Ok (None, [], match http_send id data s with Ok s => s | _ => s end)
  | HSend id Unreliable data =>
      Ok (None, [], match http_send_unreliable id data s with Ok s => s | _ => s end)
  | HRecv => Ok (None, [], (http_recv s).2)
  | HRecvUnreliable => Ok (None, [], (http_recv_unreliable s).2)
  | HDisconnect id => Ok (None, [], http_disconnect id s)
  | HNextEvent => let '(ev, s) := http_next_event s in Ok (ev, [], s)
  | HSetting x => Ok (None, [], apply_setting x s)
  | HSetServerData data => s ← http_set_server_data data s; Ok (None, [], s)
  | HSetTokenTrust trust => s ← http_set_token_trust trust s; Ok (None, [], s)
  end.

(** A run with the inputs it was given, the events taken from it and the requests
    it has served. *)
Inductive server_run (s0 : NetherHttpServer)
    : list ServerInput -> list ServerEvent -> list (Z * Request) -> NetherHttpServer -> Prop :=
| srun_nil : server_run s0 [] [] [] s0
| srun_step inputs evs asked s i ev more s' :
    server_run s0 inputs evs asked s -> server_input i s = Ok (ev, more, s') ->
    server_run s0 (inputs ++ [i]) (evs ++ option_list ev) (asked ++ more) s'.

(** ** The steps a frame is made of *)

(** The requests served so far, and the server. *)
Abbreviation Logged := (list (Z * Request) * NetherHttpServer)%type.

Definition asks (id : Z) (p : Pumped) : list (Z * Request) :=
  match p with Asks r => [(id, r)] | _ => [] end.

Section steps.
Context (ok_trust : option TokenTrust -> Prop) (ok_limits : PendingLimits -> Prop).

(** The signaler is told of a request only when a connection has made it, and of
    new connections only as they are accepted. *)
Definition allowed (log : list (Z * Request)) (i : HttpSignalerInput) : Prop :=
  match i with
  | Connected _ _ _ => False
  | IRequest id r _ _ _ => (id, r) ∈ log
  | SetTokenTrust t => ok_trust t
  | _ => True
  end.

(** What keeps the sessions as they are, or drops some. *)
Inductive table_keeps : Table (X := option bytes) -> Table (X := option bytes) -> Prop :=
| tk_send id ch data t t' : send_on id ch data t = Ok t' -> table_keeps t t'
| tk_recv t : table_keeps t (recv t).2
| tk_recv_unreliable t : table_keeps t (recv_unreliable t).2
| tk_disconnect id t : table_keeps t (disconnect id t)
| tk_event t : table_keeps t (next_event t).2
| tk_drive msgs t : table_keeps t (drive_sessions msgs t)
| tk_forget est now t : table_keeps t (forget_unestablished est now t).

Inductive hstep : Logged -> Logged -> Prop :=
| h_accept log s socket peer now s' :
    accept_one socket (Some peer) now s = Ok s' -> hstep (log, s) (log, s')
| h_pump log s id c now p c' :
    conns s !! id = Some c -> pump_conn now c = Ok (p, c') ->
    hstep (log, s) (log ++ asks id p, set_conns (<[id := c']> (conns s)) s)
| h_feed log s i s' : allowed log i -> feed i s = Ok s' -> hstep (log, s) (log, s')
| h_drop log s id : hstep (log, s) (log, set_conns (delete id (conns s)) s)
| h_output log s o g now draw s' :
    poll (signaler s) = (Some o, g) -> handle_output o now draw (set_signaler g s) = Ok s' ->
    hstep (log, s) (log, s')
| h_table log s t : table_keeps (table s) t -> hstep (log, s) (log, set_table t s)
| h_setting log s x :
    ok_limits (pending_limits (apply_setting x s)) -> hstep (log, s) (log, apply_setting x s).

Lemma with_state_same (s : NetherHttpServer) : with_state (signaler s) (next_conn_id s) (conns s) (table s) s = s.
Proof. by destruct s. Qed.

Lemma accept_all_steps log now : forall l s s',
  accept_all l now s = Ok s' -> rtc hstep (log, s) (log, s').
Proof.
  induction l as [|[socket [peer|]] l IH]; intros s s'; cbn [accept_all];
    [by intros <-%Ok_inj| |intros (s1 & <-%Ok_inj & H2)%res_bind_inv; by apply IH].
  intros (s1 & H1 & H2%IH)%res_bind_inv. eapply rtc_l; [by eapply h_accept|exact H2].
Qed.

Lemma pump_walk_steps now order : forall log s cs asked closed,
  pump_walk order now (conns s) = Ok (cs, asked, closed) ->
  rtc hstep (log, s) (log ++ asked, set_conns cs s).
Proof.
  induction order as [|id order IH]; intros log s cs asked closed; cbn [pump_walk].
  { intros [= <- <- _]. rewrite app_nil_r. unfold set_conns. by rewrite with_state_same. }
  destruct (conns s !! id) as [c|] eqn:Ec; [|apply IH].
  intros ([p c'] & Hp & H1)%res_bind_inv. apply res_bind_inv in H1 as ([[cs1 a1] cl1] & H1 & [= <- <- _]).
  eapply rtc_l; [by eapply h_pump|].
  apply (IH (log ++ asks id p) (set_conns (<[id := c']> (conns s)) s)) in H1.
  replace (log ++ match p with Asks r => (id, r) :: a1 | _ => a1 end) with ((log ++ asks id p) ++ a1)
    by (rewrite <- app_assoc; by destruct p).
  exact H1.
Qed.

Lemma feed_list_steps log : forall l s s',
  Forall (allowed log) l -> feed_list l s = Ok s' -> rtc hstep (log, s) (log, s').
Proof.
  induction l as [|i l IH]; intros s s' Hl; cbn; [by intros <-%Ok_inj|].
  apply list.Forall_cons in Hl as [Hi Hl]. intros (s1 & H1 & H2)%res_bind_inv.
  eapply rtc_l; [by eapply h_feed|]. by apply IH.
Qed.

Lemma request_inputs_allowed log now draws asked : forall i,
  asked ⊆ log -> Forall (allowed log) (request_inputs asked now draws i).
Proof.
  induction asked as [|[id r] asked IH]; intros i Hs; cbn; constructor.
  - apply Hs. by left.
  - apply IH. set_solver.
Qed.

Lemma close_all_steps log : forall ids s s', close_all ids s = Ok s' -> rtc hstep (log, s) (log, s').
Proof.
  induction ids as [|id ids IH]; intros s s'; cbn [close_all]; [by intros <-%Ok_inj|].
  intros (s1 & H1 & H2)%res_bind_inv. eapply rtc_l; [apply (h_drop log s id)|].
  eapply rtc_l; [by eapply (h_feed log _ (Closed id))|]. by apply IH.
Qed.

Lemma drain_outputs_steps log now draws rounds i s s' :
  drain_outputs rounds i now draws s = Ok s' -> rtc hstep (log, s) (log, s').
Proof.
  intros Hd. apply (drain_machine_invariant _ _ _ _ (fun x => rtc hstep (log, s) (log, x))) in Hd; [done| | |done].
  - intros x g Hp Hx. cbn in Hp. unfold http_poll in Hp.
    destruct (HttpSignaler.output (signaler x)); [|done]. injection Hp as <-.
    unfold set_signaler. by rewrite with_state_same.
  - intros j x o g x' Hp Ho Hx. eapply rtc_r; [exact Hx|]. by eapply h_output.
Qed.

Lemma update_steps f log s s' asked :
  update f s = Ok (s', asked) -> rtc hstep (log, s) (log ++ asked, s').
Proof.
  unfold update. intros (s1 & H1 & Hu)%res_bind_inv.
  apply res_bind_inv in Hu as ([s2 a2] & H2 & Hu). apply res_bind_inv in Hu as (s3 & H3 & Hu).
  apply res_bind_inv in Hu as (s4 & H4 & Hu). apply res_bind_inv in Hu as (s5 & H5 & [= <- <-]).
  etrans; [by eapply accept_all_steps|]. unfold pump_connections in H2.
  apply res_bind_inv in H2 as ([[cs a] closed] & Hw & H2). apply res_bind_inv in H2 as (s6 & H6 & H2).
  apply res_bind_inv in H2 as (s7 & H7 & [= <- <-]).
  etrans; [by eapply pump_walk_steps|].
  etrans; [eapply feed_list_steps; [|exact H6]; apply request_inputs_allowed; set_solver|].
  etrans; [by eapply close_all_steps|].
  eapply rtc_l; [by eapply (h_feed _ _ (Update (f_now f) (f_overdue f)))|].
  etrans; [by eapply drain_outputs_steps|].
  eapply rtc_l; [apply h_table, tk_drive|]. etrans; [by eapply close_all_steps|].
  apply rtc_once, h_table, tk_forget.
Qed.

(** What a run must not be told. *)
Definition input_ok (i : ServerInput) : Prop :=
  match i with
  | HSetTokenTrust t => ok_trust t
  | HSetting (SetPendingLimits l) => ok_limits l
  | _ => True
  end.

Lemma server_input_steps i log s ev more s' :
  input_ok i -> ok_limits (pending_limits s) -> server_input i s = Ok (ev, more, s') ->
  rtc hstep (log, s) (log ++ more, s').
Proof.
  intros Hi Hl. destruct i as [f|id ch d| | |id| |x|d|t]; cbn [server_input].
  - intros ([s1 a] & Hu & [= _ <- <-])%res_bind_inv. by eapply update_steps.
  - unfold http_send, http_send_unreliable, http_send_on.
    destruct ch; (destruct (send_on _ _ _ _) eqn:E; intros [= _ <- <-]; rewrite app_nil_r; [|done..]);
      apply rtc_once, h_table; by eapply tk_send.
  - pose proof (tk_recv (table s)) as Ht. unfold http_recv. destruct (recv (table s)) as [m t].
    intros [= _ <- <-]. rewrite app_nil_r. by apply rtc_once, h_table.
  - pose proof (tk_recv_unreliable (table s)) as Ht. unfold http_recv_unreliable.
    destruct (recv_unreliable (table s)) as [m t]. intros [= _ <- <-]. rewrite app_nil_r. by apply rtc_once, h_table.
  - intros [= _ <- <-]. rewrite app_nil_r. apply rtc_once, h_table, tk_disconnect.
  - pose proof (tk_event (table s)) as Ht. unfold http_next_event. destruct (next_event (table s)) as [e t].
    intros [= _ <- <-]. rewrite app_nil_r. by apply rtc_once, h_table.
  - intros [= _ <- <-]. rewrite app_nil_r. apply rtc_once, h_setting. by destruct x.
  - intros (s1 & H1 & [= _ <- <-])%res_bind_inv. rewrite app_nil_r. by eapply rtc_once, (h_feed _ _ (SetServerData d)).
  - intros (s1 & H1 & [= _ <- <-])%res_bind_inv. rewrite app_nil_r. by eapply rtc_once, (h_feed _ _ (SetTokenTrust t)).
Qed.
End steps.
End server.
