(* ===== verification/HttpServerSafety.v ===== *)
(** * HttpServerSafety: what holds of every run of the HTTP server

    The theorems about [HttpServer.v]: a run is a sequence of the steps of
    [hstep], and each property is an invariant of these steps. *)
From S2P Require Import Prelude Text Errors SignalMsg ServerDataModel Discovery Endpoint IpRange Candidate Router Sans.
From S2P Require Import Identity ServerIdentity HttpSignaler HttpWire HttpStream Webrtc Framing Transports.
From S2P Require Import Session Connection Admission Pending Pool ServerSessions HttpServer.

Section safety.
Context `{b64 : Base64} `{serde : Serde} `{p384 : P384} `{rsa : Rsa} `{net : IpNetOps} `{Stun}.
Context {crypto : CryptoOps} {sdp : Sdp} {cand : IceCandidate} {cert : CertificateOps}
  {iceops : IceOps} {dtlsops : DtlsOps} {sctpops : SctpOps} {dcepops : DcepOps}.
Context {httparse : Httparse} {types : HttpTypes} {access : HttpAccess types} {tls : TlsOps}.

Lemma http_feed_inv i s s' : feed i s = Ok s' -> s' = set_signaler (handle i (signaler s)).2 s.
Proof. unfold feed. by destruct (handle i (signaler s)) as [[] g]; intros [= <-]. Qed.

Definition completes (i : HttpSignalerInput) : Prop :=
  (exists id reason, i = Reject id reason) \/ exists id text, i = IAnswer id text.

(** What an offer comes to: its join is completed, and a session may be opened,
    within the limits and with the player the signaler has found. *)
Lemma http_offer_cases o now draw s s' :
  handle_offer o now draw s = Ok s' ->
  exists i s1, completes i /\ feed i s = Ok s1 /\
    (s' = s1 \/
     admits_offer (pending_ids (table s)) (offer_network_id o) (pending_limits s) = true /\
     exists e conn u, ready e = false /\ session_player e = offer_player o /\
       s' = set_table (open_session {| sid_network := offer_network_id o;
                                       sid_connection := offer_connection_id o |} e conn u (table s1)) s1).
Proof.
  unfold handle_offer. destruct (_ && _).
  { intros Hf. eexists _, s'. split; [left; eauto|]. split; [exact Hf|by left]. }
  destruct (admits_offer _ _ _) eqn:Ea; cbn [negb].
  2:{ intros Hf. eexists _, s'. split; [left; eauto|]. split; [exact Hf|by left]. }
  destruct (policy_admit _ _ _ _) as [admitted p] eqn:Ep.
  destruct (admitted ≫= _) as [answered|e|] eqn:Ew; [| |done].
  - destruct (signals answered) as [|g rest].
    { intros Hf. eexists _, s'. split; [left; eauto|]. split; [exact Hf|by left]. }
    intros (s1 & Hf & <-%Ok_inj)%res_bind_inv. eexists _, s1. split; [right; eauto|]. split; [exact Hf|].
    right. split; [done|]. eexists _, _, _. split; [|split; [|reflexivity]]; [done|]. cbn [session_player].
    apply res_bind_inv in Ew as (a & -> & Hans). apply answer_advertising_player in Hans.
    apply policy_admit_no_trust in Ep; [by rewrite Hans, Ep|].
    unfold offer_policy. by destruct (server_identity s).
  - intros Hf. eexists _, s'. split; [left; eauto|]. split; [exact Hf|by left].
Qed.

(** A step of the outputs: connections are told to write or to close, or an offer
    is answered. *)
Lemma handle_output_cases o now draw s s' :
  handle_output o now draw s = Ok s' ->
  (exists f, s' = set_conns (f (conns s)) s /\
     forall id c, f (conns s) !! id = Some c ->
       exists c0, conns s !! id = Some c0 /\ requested c = requested c0) \/
  exists offer, o = OOffer offer /\ handle_offer offer now draw s = Ok s'.
Proof.
  assert (forall id g (cs : gmap Z TcpConn), (forall c, requested (g c) = requested c) ->
    forall i c, alter g id cs !! i = Some c -> exists c0, cs !! i = Some c0 /\ requested c = requested c0) as Halter.
  { intros id g cs Hg i c. destruct (decide (i = id)) as [->|].
    - rewrite lookup_alter_eq. destruct (cs !! id) as [c0|]; [|done]. cbn. intros [= <-]. eauto.
    - rewrite lookup_alter_ne by done. eauto. }
  destruct o as [id r k|id|offer|d]; cbn [handle_output].
  - intros <-%Ok_inj. left. eexists (alter _ id). split; [reflexivity|]. by apply Halter.
  - intros <-%Ok_inj. left. eexists (alter _ id). split; [reflexivity|]. by apply Halter.
  - intros Ho. right. by exists offer.
  - intros <-%Ok_inj. left. exists (fun x => x). split; [unfold set_conns; by rewrite with_state_same|eauto].
Qed.

(** A connection asks once: then it is marked, and a marked one does not ask. *)
Definition asks_once (c : TcpConn) (p : Pumped) (c' : TcpConn) : Prop :=
  (requested c' = requested c /\ forall id, asks id p = []) \/
  (requested c = false /\ requested c' = true /\ exists r, p = Asks r).

Lemma finish_conn_asks c p c' : finish_conn c = Ok (p, c') -> asks_once c p c'.
Proof.
  unfold finish_conn. destruct (HttpStream.close _) as [[[]| |] st]; try done; intros [= <- <-]; by left.
Qed.

Lemma read_request_asks c p c' : requested c = false -> read_request c = Ok (p, c') -> asks_once c p c'.
Proof.
  intros Hr. unfold read_request. destruct (request_parse _) as [[[h b]|]|e|]; try done.
  - destruct (text_body b); try done; intros [= <- <-]; [right; eauto|by left].
  - destruct (_ >? _); intros [= <- <-]; by left.
  - intros [= <- <-]; by left.
Qed.

Lemma pump_request_asks c p c' : pump_request c = Ok (p, c') -> asks_once c p c'.
Proof.
  unfold pump_request.
  destruct (HttpStream.establish _) as [[[]| |] st2]; try done; try (intros [= <- <-]; by left);
    (destruct (HttpStream.flush _) as [[| |] st3]; try done; [|intros [= <- <-]; by left]);
    (destruct (requested _) eqn:Er; [intros [= <- <-]; by left|]);
    intros Hq%read_request_asks; done.
Qed.

Lemma pump_inbound_asks now c p c' : pump_inbound now c = Ok (p, c') -> asks_once c p c'.
Proof.
  unfold pump_inbound. destruct (HttpStream.fill _) as [[[]| |] st1]; try done;
    try (intros [= <- <-]; by left); by intros Hq%pump_request_asks.
Qed.

Lemma pump_conn_asks now c p c' : pump_conn now c = Ok (p, c') -> asks_once c p c'.
Proof.
  unfold pump_conn. destruct (_ && _); [apply finish_conn_asks|].
  destruct (HttpStream.drain _) as [[[]| |] st]; try done; try by intros Hq%pump_inbound_asks.
  - destruct (close_after_write _); [by intros Hq%finish_conn_asks|by intros Hq%pump_inbound_asks].
  - intros [= <- <-]. by left.
Qed.

(** ** Runs are sequences of steps *)

Lemma feed_limits i s s' : feed i s = Ok s' -> pending_limits s' = pending_limits s.
Proof. by intros ->%http_feed_inv. Qed.

Lemma hstep_limits ok_trust ok_limits x y :
  hstep ok_trust ok_limits x y -> ok_limits (pending_limits x.2) -> ok_limits (pending_limits y.2).
Proof.
  destruct 1 as [log s socket peer now s' Ha|log s id c now p c' _ _|log s i s' _ Hf%feed_limits| |
                 log s o g now draw s' Hp Ho| |]; cbn [snd] in *; try done; try by rewrite Hf.
  - unfold accept_one in Ha. destruct (_ =? _); [done|]. by apply feed_limits in Ha as ->.
  - destruct (handle_output_cases _ _ _ _ _ Ho) as [(f & -> & _)|(offer & -> & Hh)]; [done|].
    destruct (http_offer_cases _ _ _ _ _ Hh) as (i & s1 & _ & Hf%feed_limits & [->|(_ & e & conn & u & _ & _ & ->)]);
      cbn in *; congruence.
Qed.

Lemma server_run_steps ok_trust ok_limits s0 inputs evs asked s :
  server_run s0 inputs evs asked s -> ok_limits (pending_limits s0) ->
  Forall (input_ok ok_trust ok_limits) inputs -> rtc (hstep ok_trust ok_limits) ([], s0) (asked, s).
Proof.
  intros Hrun H0. induction Hrun as [|inputs evs asked s i ev more s' _ IH Hi]; intros Hin; [constructor|].
  apply list.Forall_app in Hin as [Hin [Hok _]%list.Forall_cons]. specialize (IH Hin).
  assert (ok_limits (pending_limits s)) as Hl.
  { change s with (asked, s).2. eapply (rtc_ind_r (fun x => ok_limits (pending_limits x.2))); [|..|exact IH]; [exact H0|].
    intros x y _ Hxy. by apply (hstep_limits ok_trust). }
  etrans; [exact IH|]. by eapply server_input_steps.
Qed.

(** ** Connections and requests *)

Section connections.
Context (c : HttpSignalerConfig).

(** Ids are given out once: every connection, of the server and of the signaler,
    and every request that was served has an id below the next one; and a
    connection that has made its request is marked. *)
Record conns_ok (x : list (Z * Request) * NetherHttpServer) : Prop := {
  ok_signaler : rtc http_step (http_new c) (signaler x.2);
  ok_known id : is_Some (HttpSignaler.connections (signaler x.2) !! id) -> id < next_conn_id x.2;
  ok_conns id k : conns x.2 !! id = Some k ->
    id < next_conn_id x.2 /\ (requested k = false -> id ∉ x.1.*1);
  ok_log id : id ∈ x.1.*1 -> id < next_conn_id x.2;
  ok_once : NoDup x.1.*1;
}.

(** The signaler moves on, without new connections. *)
Lemma conns_ok_handle log s i :
  (forall id a now, i <> Connected id a now) ->
  conns_ok (log, s) -> conns_ok (log, set_signaler (handle i (signaler s)).2 s).
Proof.
  intros Hi [H1 H2 H3 H4 H5]. split; cbn [fst snd] in *; try done; cbn.
  - eapply rtc_r; [exact H1|]. apply http_step_handle. destruct i; try done. by destruct (Hi connection from now).
  - intros id [?|(a & now & ->)]%http_handle_connections; [by apply H2|]. by destruct (Hi id a now).
Qed.

Lemma conns_ok_feed log s s' i :
  (forall id a now, i <> Connected id a now) -> feed i s = Ok s' ->
  conns_ok (log, s) -> conns_ok (log, s').
Proof. intros Hi ->%http_feed_inv. by apply conns_ok_handle. Qed.

(** Connections are updated or dropped, and asked no more than before. *)
Lemma conns_ok_set log s cs :
  (forall id k, cs !! id = Some k -> exists k0, conns s !! id = Some k0 /\ requested k = requested k0) ->
  conns_ok (log, s) -> conns_ok (log, set_conns cs s).
Proof.
  intros Hcs [H1 H2 H3 H4 H5]. split; cbn [fst snd] in *; try done; cbn.
  intros id k (k0 & Hk & Hr)%Hcs. destruct (H3 _ _ Hk). split; [done|]. by rewrite Hr.
Qed.

Lemma conns_ok_poll log s g o :
  poll (signaler s) = (Some o, g) -> conns_ok (log, s) -> conns_ok (log, set_signaler g s).
Proof.
  intros Hp [H1 H2 H3 H4 H5].
  assert (g = (poll (signaler s)).2) as Hg by by rewrite Hp.
  split; cbn [fst snd] in *; try done; cbn; rewrite Hg.
  - eapply rtc_r; [exact H1|apply http_step_poll].
  - intros id. cbn. unfold http_poll. destruct (HttpSignaler.output (signaler s)); apply H2.
Qed.

Lemma conns_ok_pump log s id k now p k' :
  conns s !! id = Some k -> pump_conn now k = Ok (p, k') -> conns_ok (log, s) ->
  conns_ok (log ++ asks id p, set_conns (<[id := k']> (conns s)) s).
Proof.
  intros Hk Hp%pump_conn_asks [H1 H2 H3 H4 H5]. cbn [fst snd] in *.
  destruct (H3 _ _ Hk) as [Hid Hfresh].
  destruct Hp as [[Hr Hno]|(Hr & Hr' & r & ->)].
  - rewrite Hno, app_nil_r. split; cbn [fst snd]; try done; cbn.
    intros i x [[<- <-]|[_ Hx]]%lookup_insert_Some; [|by apply H3]. split; [done|]. by rewrite Hr.
  - specialize (Hfresh Hr). cbn [asks]. split; cbn [fst snd]; try done; cbn; rewrite ?fmap_app; cbn.
    + intros i x [[<- <-]|[Hne Hx]]%lookup_insert_Some; [split; [done|congruence]|].
      destruct (H3 _ _ Hx) as [Hi Hf]. split; [done|]. intros Hxr.
      rewrite elem_of_app, list_elem_of_singleton. intros [Hx1|Hx1]; [by apply (Hf Hxr)|by subst].
    + intros i. rewrite elem_of_app, list_elem_of_singleton. intros [Hi| ->]; auto.
    + apply list.NoDup_app. split_and!; [done| |apply list.NoDup_singleton].
      intros i Hi Hx%list_elem_of_singleton. by subst.
Qed.

Lemma conns_ok_accept log s socket peer now s' :
  accept_one socket (Some peer) now s = Ok s' -> conns_ok (log, s) -> conns_ok (log, s').
Proof.
  unfold accept_one. destruct (_ =? _); [done|]. intros ->%http_feed_inv [H1 H2 H3 H4 H5]. cbn [fst snd] in *.
  assert (HttpSignaler.connections (signaler s) !! next_conn_id s = None) as Hnew.
  { apply eq_None_not_Some. intros ?%H2. lia. }
  split; cbn [fst snd]; try done; cbn.
  - eapply rtc_r; [exact H1|]. by apply (http_step_handle (Connected (next_conn_id s) peer now)).
  - intros id Hid. apply (http_handle_connections (Connected (next_conn_id s) peer now)) in Hid.
    destruct Hid as [?%H2|(a & n & [= -> _ _])]; lia.
  - intros id k [[<- <-]|[_ Hk]]%lookup_insert_Some.
    + split; [lia|]. intros _ ?%H4. lia.
    + destruct (H3 _ _ Hk). split; [lia|done].
  - intros id ?%H4. lia.
Qed.

Lemma hstep_conns_ok x y : hstep (fun _ => True) (fun _ => True) x y -> conns_ok x -> conns_ok y.
Proof.
  intros Hs Hx. destruct Hs as [log s socket peer now s' Ha|log s id k now p k' Hk Hp|log s i s' Hi Hf|log s id|
                 log s o g now draw s' Hp Ho|log s t _|log s x _].
  - by eapply conns_ok_accept.
  - by eapply conns_ok_pump.
  - eapply conns_ok_feed; [|exact Hf|exact Hx]. by intros ? ? ? ->.
  - apply conns_ok_set; [|done]. intros i k [_ ?]%lookup_delete_Some. eauto.
  - eapply conns_ok_poll in Hp; [|exact Hx].
    destruct (handle_output_cases _ _ _ _ _ Ho) as [(f & -> & Hf)|(offer & -> & Hh)]; [by apply conns_ok_set|].
    destruct (http_offer_cases _ _ _ _ _ Hh) as (i & s1 & Hi & Hf & Hcase).
    assert (conns_ok (log, s1)) as H1.
    { eapply conns_ok_feed; [|exact Hf|exact Hp]. intros ? ? ? ->. by destruct Hi as [(?&?&?)|(?&?&?)]. }
    destruct Hcase as [->|(_ & e & conn & u & _ & _ & ->)]; [done|]. by destruct H1.
  - by destruct Hx.
  - by destruct Hx.
Qed.

Lemma server_run_conns_ok local advertised inputs evs asked s :
  server_run (server_new c local advertised) inputs evs asked s -> conns_ok (asked, s).
Proof.
  intros Hrun. eapply (server_run_steps (fun _ => True) (fun _ => True)) in Hrun; [|done|].
  - eapply (rtc_ind_r conns_ok); [|..|exact Hrun].
    + split; cbn [fst snd server_new signaler conns http_new HttpSignaler.connections fmap list_fmap];
        [done|by intros id [k Hk]|done|by intros id Hid%elem_of_nil|constructor].
    + intros x y _ Hxy. by apply hstep_conns_ok.
  - apply list.Forall_forall. intros i _. destruct i as [| | | | | |[]| |]; done.
Qed.
End connections.

(** ** Connections and what the signaler knows of them *)

(** The peers of the connections that were accepted: the connection with id [n]
    is the [n]-th of them. *)
Definition frame_peers (f : Frame) : list SocketAddr :=
  omap snd (take MAX_ACCEPTS_PER_TICK (f_arrivals f)).
Definition accepted_peers (inputs : list ServerInput) : list SocketAddr :=
  inputs ≫= fun i => match i with HFrame f => frame_peers f | _ => [] end.
Definition peer_of (peers : list SocketAddr) (id : Z) : option SocketAddr :=
  if id <? 0 then None else peers !! Z.to_nat id.

Lemma peer_of_last peers p : peer_of (peers ++ [p]) (Z.of_nat (length peers)) = Some p.
Proof.
  unfold peer_of. destruct (Z.ltb_spec (Z.of_nat (length peers)) 0); [lia|].
  by rewrite Nat2Z.id, list_lookup_middle.
Qed.

Lemma peer_of_app peers p id a : peer_of peers id = Some a -> peer_of (peers ++ [p]) id = Some a.
Proof. unfold peer_of. destruct (id <? 0); [done|]. apply lookup_app_l_Some. Qed.

(** A connection that is to be closed stays so. *)
Definition stays_closing (k k' : TcpConn) : Prop :=
  close_after_write k = true -> close_after_write k' = true.

Lemma finish_conn_closing k p k' : finish_conn k = Ok (p, k') -> stays_closing k k'.
Proof. unfold finish_conn. destruct (HttpStream.close _) as [[[]| |] st]; try done; by intros [= _ <-] ?. Qed.

Lemma read_request_closing k p k' : read_request k = Ok (p, k') -> stays_closing k k'.
Proof.
  unfold read_request. destruct (request_parse _) as [[[h b]|]|e|]; try done.
  - destruct (text_body b); try done; by intros [= _ <-] ?.
  - by destruct (_ >? _); intros [= _ <-] ?.
  - by intros [= _ <-] ?.
Qed.

Lemma pump_request_closing k p k' : pump_request k = Ok (p, k') -> stays_closing k k'.
Proof.
  unfold pump_request. destruct (HttpStream.establish _) as [[[]| |] st]; try done; try (by intros [= _ <-] ?);
    (destruct (HttpStream.flush _) as [[| |] st2]; try done; [|by intros [= _ <-] ?]);
    (destruct (requested _); [by intros [= _ <-] ?|]); by intros Hq%read_request_closing.
Qed.

Lemma pump_inbound_closing now k p k' : pump_inbound now k = Ok (p, k') -> stays_closing k k'.
Proof.
  unfold pump_inbound. destruct (HttpStream.fill _) as [[[]| |] st1]; try done; try (by intros [= _ <-] ?);
    by intros Hq%pump_request_closing.
Qed.

Lemma pump_conn_closing now k p k' : pump_conn now k = Ok (p, k') -> stays_closing k k'.
Proof.
  unfold pump_conn. destruct (_ && _); [apply finish_conn_closing|].
  destruct (HttpStream.drain _) as [[[]| |] st]; try done; try by intros Hq%pump_inbound_closing.
  - destruct (close_after_write _); [by intros Hq%finish_conn_closing|by intros Hq%pump_inbound_closing].
  - by intros [= _ <-] ?.
Qed.

(** The same connections, none of them reopened. *)
Definition conns_kept (cs cs' : gmap Z TcpConn) : Prop :=
  (forall id, is_Some (cs !! id) -> is_Some (cs' !! id)) /\
  forall id k', cs' !! id = Some k' -> exists k, cs !! id = Some k /\ stays_closing k k'.

Lemma conns_kept_refl cs : conns_kept cs cs.
Proof. split; [done|]. intros id k Hk. exists k. by split; [|intros ?]. Qed.

Lemma conns_kept_trans cs1 cs2 cs3 : conns_kept cs1 cs2 -> conns_kept cs2 cs3 -> conns_kept cs1 cs3.
Proof.
  intros [A1 A2] [B1 B2]. split; [auto|]. intros id k3 (k2 & (k1 & Hk1 & H1)%A2 & H2)%B2.
  exists k1. split; [done|]. intros Hc. auto.
Qed.

Lemma conns_kept_insert cs id k k' : cs !! id = Some k -> stays_closing k k' -> conns_kept cs (<[id := k']> cs).
Proof.
  intros Hk Hs. split.
  - intros i Hi. apply lookup_insert_is_Some'. by right.
  - intros i x [[<- <-]|[_ Hx]]%lookup_insert_Some; [by exists k|]. exists x. by split; [|intros ?].
Qed.

Lemma conns_kept_alter g id cs : (forall k, stays_closing k (g k)) -> conns_kept cs (alter g id cs).
Proof.
  intros Hg. split.
  - intros i Hi. by apply lookup_alter_is_Some.
  - intros i x. destruct (decide (i = id)) as [->|].
    + rewrite lookup_alter_eq. destruct (cs !! id) as [k|]; [|done]. cbn. intros [= <-]. by exists k.
    + rewrite lookup_alter_ne by done. exists x. by split; [|intros ?].
Qed.

Lemma pump_walk_kept now order : forall cs cs' asked closed,
  pump_walk order now cs = Ok (cs', asked, closed) -> conns_kept cs cs'.
Proof.
  induction order as [|id order IH]; intros cs cs' asked closed; cbn [pump_walk].
  { intros [= <- _ _]. apply conns_kept_refl. }
  destruct (cs !! id) as [k|] eqn:Ek; [|apply IH].
  intros ([p k'] & Hp%pump_conn_closing & H1)%res_bind_inv.
  apply res_bind_inv in H1 as ([[cs1 a1] cl1] & H1%IH & [= <- _ _]).
  eapply conns_kept_trans; [|exact H1]. by eapply conns_kept_insert.
Qed.

Section linked.
Context (c : HttpSignalerConfig).

(** What the signaler knows is open, under the address it was accepted from, and
    uncounted only for a proxy; and what is open is known to the signaler, is
    already to be closed, or the signaler is about to say so. *)
Record linked (peers : list SocketAddr) (s : NetherHttpServer) : Prop := {
  lk_next : next_conn_id s = Z.of_nat (length peers);
  lk_proxies : HttpSignaler.trusted_proxies (HttpSignaler.config (signaler s)) = trusted_proxies c;
  lk_entry id e : HttpSignaler.connections (signaler s) !! id = Some e ->
    is_Some (conns s !! id) /\ peer_of peers id = Some (connection_addr e) /\
    (counted e = false -> contains (trusted_proxies c) (normalize (ip (connection_addr e))) = true);
  lk_conn id k : conns s !! id = Some k ->
    is_Some (peer_of peers id) /\
    (close_after_write k = true \/ is_Some (HttpSignaler.connections (signaler s) !! id) \/
     Close id ∈ HttpSignaler.output (signaler s));
}.

Lemma linked_conns peers cs s : conns_kept (conns s) cs -> linked peers s -> linked peers (set_conns cs s).
Proof.
  intros [K1 K2] [H1 H2 H3 H4]. split; cbn; [done|done| |].
  - intros id e (Hc & ?)%H3. auto.
  - intros id k' (k & (Hp & Hk)%H4 & Hs)%K2. split; [done|]. destruct Hk as [Hk|Hk]; auto.
Qed.

Lemma linked_feed peers i s s' :
  (forall id a now, i <> Connected id a now) -> (forall id, i <> Closed id) ->
  feed i s = Ok s' -> linked peers s -> linked peers s'.
Proof.
  intros Hi Hj ->%http_feed_inv [H1 H2 H3 H4].
  destruct (http_handle_frame i (signaler s) Hi Hj) as (E1 & E2 & E3).
  split; cbn; [done|by rewrite E2|rewrite E1; apply H3|].
  intros id k (Hp & Hk)%H4. split; [done|]. rewrite E1. destruct Hk as [?|[?|?%E3]]; auto.
Qed.

Lemma linked_feed_list peers l : forall s s',
  Forall (fun i => (forall id a now, i <> Connected id a now) /\ forall id, i <> Closed id) l ->
  feed_list l s = Ok s' -> linked peers s -> linked peers s'.
Proof.
  induction l as [|i l IH]; intros s s' Hl; cbn; [by intros <-%Ok_inj|].
  apply list.Forall_cons in Hl as [[Hi Hj] Hl]. intros (s1 & H1 & H2)%res_bind_inv Hs.
  eapply IH; [done|exact H2|]. by eapply linked_feed.
Qed.

Lemma request_inputs_plain now draws asked : forall i,
  Forall (fun i => (forall id a now, i <> Connected id a now) /\ forall id, i <> Closed id)
    (request_inputs asked now draws i).
Proof. induction asked as [|[id r] asked IH]; intros i; cbn; constructor; [done|apply IH]. Qed.

Lemma linked_accept peers socket p now s s' :
  accept_one socket (Some p) now s = Ok s' -> linked peers s -> linked (peers ++ [p]) s'.
Proof.
  unfold accept_one. destruct (_ =? _); [done|]. intros ->%http_feed_inv [H1 H2 H3 H4].
  assert (peer_of (peers ++ [p]) (next_conn_id s) = Some p) as Hlast by (rewrite H1; apply peer_of_last).
  assert (forall id, is_Some (peer_of peers id) -> is_Some (peer_of (peers ++ [p]) id)) as Hmore
    by (intros id [a Ha]; eexists; by apply peer_of_app).
  set (s1 := with_state _ _ _ _ _).
  assert (forall id k, conns s1 !! id = Some k -> is_Some (peer_of (peers ++ [p]) id) /\
    (id <> next_conn_id s -> close_after_write k = true \/ is_Some (HttpSignaler.connections (signaler s) !! id) \/
     Close id ∈ HttpSignaler.output (signaler s))) as Hold.
  { cbn. intros id k [[<- <-]|[Hne (Hp & Hk)%H4]]%lookup_insert_Some; [by rewrite Hlast|auto]. }
  assert (forall id e, HttpSignaler.connections (signaler s) !! id = Some e ->
    is_Some (conns s1 !! id) /\ peer_of (peers ++ [p]) id = Some (connection_addr e) /\
    (counted e = false -> contains (trusted_proxies c) (normalize (ip (connection_addr e))) = true)) as Hent.
  { cbn. intros id e (Hc & Hp & Hn)%H3. split_and!; [|by apply peer_of_app|done].
    apply lookup_insert_is_Some'. by right. }
  assert (is_Some (conns s1 !! next_conn_id s)) as Hnew by (cbn; rewrite lookup_insert_eq; eauto).
  cbn [handle HttpSignaler_sans http_handle snd]. unfold HttpSignaler.connected. change (signaler s1) with (signaler s). rewrite H2.
  destruct (contains _ _) eqn:Ec; [|destruct (_ >? _)]; (split; cbn; [rewrite length_app; cbn; lia|done| |]).
  - intros id e [[<- <-]|[_ He]]%lookup_insert_Some; [by split_and!|by apply Hent].
  - intros id k [Hp Hk]%Hold. split; [done|]. rewrite lookup_insert_is_Some'. destruct (decide (id = next_conn_id s)); [auto|].
    destruct Hk as [?|[?|?]]; auto.
  - apply Hent.
  - intros id k [Hp Hk]%Hold. split; [done|]. rewrite elem_of_app, list_elem_of_singleton.
    destruct (decide (id = next_conn_id s)) as [->|]; [auto|]. destruct Hk as [?|[?|?]]; auto.
  - intros id e [[<- <-]|[_ He]]%lookup_insert_Some; [by split_and!|by apply Hent].
  - intros id k [Hp Hk]%Hold. split; [done|]. rewrite lookup_insert_is_Some'. destruct (decide (id = next_conn_id s)); [auto|].
    destruct Hk as [?|[?|?]]; auto.
Qed.

Lemma linked_accept_all now l : forall peers s s',
  accept_all l now s = Ok s' -> linked peers s -> linked (peers ++ omap snd l) s'.
Proof.
  induction l as [|[socket [p|]] l IH]; intros peers s s'; cbn [accept_all].
  - intros <-%Ok_inj. cbn. by rewrite app_nil_r.
  - intros (s1 & H1 & H2)%res_bind_inv Hs. change (omap snd ((socket, Some p) :: l)) with ([p] ++ omap snd l).
    rewrite app_assoc. eapply IH; [exact H2|]. by eapply linked_accept.
  - intros (s1 & <-%Ok_inj & H2)%res_bind_inv Hs. by eapply IH.
Qed.

(** Connections that go are gone from the signaler too, and nothing is queued. *)
Lemma linked_close_all peers ids : forall s s',
  close_all ids s = Ok s' -> linked peers s ->
  linked peers s' /\ HttpSignaler.output (signaler s') = HttpSignaler.output (signaler s).
Proof.
  induction ids as [|id ids IH]; intros s s'; cbn [close_all]; [by intros <-%Ok_inj|].
  intros (s1 & ->%http_feed_inv & H2)%res_bind_inv [A1 A2 A3 A4].
  destruct (closed_frame id (signaler s)) as (Ec & Ek & Eo).
  destruct (IH _ _ H2) as [HL Ho]; [|split; [done|by rewrite Ho]].
  split; cbn; [done|by rewrite Ec| |].
  - intros i e. rewrite Ek. intros [Hne (Hc & ?)%A3]%lookup_delete_Some. split; [|done]. by rewrite lookup_delete_ne.
  - intros i k [Hne (Hp & Hk)%A4]%lookup_delete_Some. split; [done|]. rewrite Ek, Eo, lookup_delete_ne by done. done.
Qed.

(** An output of the signaler is carried out. *)
Lemma linked_output peers o now draw s g s' :
  poll (signaler s) = (Some o, g) -> handle_output o now draw (set_signaler g s) = Ok s' ->
  linked peers s -> linked peers s'.
Proof.
  cbn. unfold http_poll. destruct (HttpSignaler.output (signaler s)) as [|o1 rest] eqn:Eo; [done|].
  intros [= -> <-] Ho [H1 H2 H3 H4].
  assert ((forall id, o <> Close id) -> linked peers (set_signaler (HttpSignaler.set_output rest (signaler s)) s)) as Hkeep.
  { intros Hn. split; cbn; [done..|]. intros id k (Hp & Hk)%H4. split; [done|]. rewrite Eo in Hk.
    destruct Hk as [?|[?|[Heq|?]%elem_of_cons]]; auto. by destruct (Hn id). }
  destruct o as [id r kp|id|offer|d]; cbn [handle_output] in Ho.
  - apply Ok_inj in Ho as <-. apply linked_conns; [|by apply Hkeep]. by apply conns_kept_alter.
  - apply Ok_inj in Ho as <-. split; cbn; [done|done| |].
    + intros i e (Hc & ?)%H3. split; [|done]. by apply lookup_alter_is_Some.
    + intros i k. destruct (decide (i = id)) as [->|Hne].
      * rewrite lookup_alter_eq. destruct (conns s !! id) as [k0|] eqn:Ek; [|done]. cbn. intros [= <-].
        split; [by destruct (H4 _ _ Ek)|by left].
      * rewrite lookup_alter_ne by done. intros (Hp & Hk)%H4. split; [done|]. rewrite Eo in Hk.
        destruct Hk as [?|[?|[Heq|?]%elem_of_cons]]; auto. congruence.
  - destruct (http_offer_cases _ _ _ _ _ Ho) as (i & s1 & Hi & Hf & Hcase).
    assert (linked peers s1) as Hs1.
    { eapply linked_feed; [..|exact Hf|by apply Hkeep]; intros; by destruct Hi as [(?&?&->)|(?&?&->)]. }
    destruct Hcase as [->|(_ & e & conn & u & _ & _ & ->)]; [done|]. by destruct Hs1.
  - apply Ok_inj in Ho as <-. by apply Hkeep.
Qed.

(** Between two inputs the signaler has nothing left to say. *)
Definition settled (peers : list SocketAddr) (s : NetherHttpServer) : Prop :=
  linked peers s /\ HttpSignaler.output (signaler s) = [].

Lemma settled_update peers f s s' asked :
  update f s = Ok (s', asked) -> settled peers s -> settled (peers ++ frame_peers f) s'.
Proof.
  unfold update. intros (s1 & H1 & Hu)%res_bind_inv [Hs _].
  apply res_bind_inv in Hu as ([s2 a2] & H2 & Hu). apply res_bind_inv in Hu as (s3 & H3 & Hu).
  apply res_bind_inv in Hu as (s4 & H4 & Hu). apply res_bind_inv in Hu as (s5 & H5 & [= <- _]).
  apply (linked_accept_all _ _ peers) in H1; [|done]. fold (frame_peers f) in H1.
  unfold pump_connections in H2. apply res_bind_inv in H2 as ([[cs a] closed] & Hw & H2).
  apply res_bind_inv in H2 as (s6 & H6 & H2). apply res_bind_inv in H2 as (s7 & H7 & [= <- _]).
  apply pump_walk_kept in Hw. apply (linked_conns _ _ _ Hw) in H1.
  eapply linked_feed_list in H6; [|apply request_inputs_plain|exact H1].
  eapply linked_close_all in H7 as [H7 _]; [|exact H6].
  eapply linked_feed in H3; [|done|done|exact H7].
  pose proof (drain_machine_empty _ _ _ _ _ _ _ _ H4) as Hempty.
  apply (drain_machine_invariant _ _ _ _ (linked (peers ++ frame_peers f))) in H4; [| | |exact H3].
  - eapply linked_close_all in H5 as [H5 Ho]; [|by destruct H4]. split; [by destruct H5|]. cbn. by rewrite Ho.
  - intros x g Hp Hx. cbn in Hp. unfold http_poll in Hp.
    destruct (HttpSignaler.output (signaler x)); [|done]. injection Hp as <-.
    unfold set_signaler. by rewrite with_state_same.
  - intros j x o g x' Hp Ho. by eapply linked_output.
Qed.

Lemma settled_input peers i s ev more s' :
  server_input i s = Ok (ev, more, s') -> settled peers s ->
  settled (peers ++ match i with HFrame f => frame_peers f | _ => [] end) s'.
Proof.
  assert (forall t, settled peers s -> settled (peers ++ []) (set_table t s)) as Ht.
  { intros t [[] ?]. rewrite app_nil_r. by split. }
  assert (forall j, (exists d, j = SetServerData d) \/ (exists t, j = SetTokenTrust t) -> feed j s = Ok s' ->
    settled peers s -> settled (peers ++ []) s') as Hf.
  { intros j Hj Hfeed [HL Ho]. rewrite app_nil_r. split.
    - eapply linked_feed; [..|exact Hfeed|done]; intros; by destruct Hj as [[? ->]|[? ->]].
    - apply http_feed_inv in Hfeed as ->. by destruct Hj as [[? ->]|[? ->]]. }
  assert (settled peers s -> settled (peers ++ []) s) as Hsame by by rewrite app_nil_r.
  destruct i as [f|id ch d| | |id| |x|d|t]; cbn [server_input].
  - intros ([s1 a] & Hu & [= _ _ <-])%res_bind_inv. by eapply settled_update.
  - unfold http_send, http_send_unreliable, http_send_on.
    destruct ch; (destruct (send_on _ _ _ _); intros [= _ _ <-]; [apply Ht|apply Hsame..]).
  - unfold http_recv. destruct (recv (table s)). intros [= _ _ <-]. apply Ht.
  - unfold http_recv_unreliable. destruct (recv_unreliable (table s)). intros [= _ _ <-]. apply Ht.
  - intros [= _ _ <-]. apply Ht.
  - unfold http_next_event. destruct (next_event (table s)). intros [= _ _ <-]. apply Ht.
  - intros [= _ _ <-] [[] ?]. rewrite app_nil_r. by split.
  - intros (s1 & H1 & [= _ _ <-])%res_bind_inv. by eapply Hf; [left; eauto|].
  - intros (s1 & H1 & [= _ _ <-])%res_bind_inv. by eapply Hf; [right; eauto|].
Qed.

Lemma server_run_settled local advertised inputs evs asked s :
  server_run (server_new c local advertised) inputs evs asked s -> settled (accepted_peers inputs) s.
Proof.
  induction 1 as [|inputs evs asked s i ev more s' _ IH Hi].
  - split; [|done]. by split.
  - unfold accepted_peers. rewrite bind_app. cbn. rewrite app_nil_r. by eapply settled_input.
Qed.
End linked.

(** The connections of an address that are open and not about to be closed. *)
Definition open_from (peers : list SocketAddr) (a : IpAddr) (s : NetherHttpServer) : Z :=
  Z.of_nat (size (filter (fun '(id, k) => close_after_write k = false /\
    (fun p => normalize (ip p)) <$> peer_of peers id = Some a) (conns s))).

(** C21: In every run of the HTTP server, after each input, the limits hold of the
    connections themselves.  A connection that is open and not marked to be closed
    is known to the signaler under the address it was accepted from, and the
    signaler knows no connection that is gone; so of each address that is not a
    trusted proxy, at most [max_connections_per_address] connections are open
    without being marked to be closed: one over the limit is marked in the frame
    that accepts it.  The joins that wait for an answer are within their limit
    too. *)
Theorem http_server_limits c local advertised inputs evs asked s :
  0 <= max_connections_per_address c -> 0 <= max_pending_joins c ->
  server_run (server_new c local advertised) inputs evs asked s ->
  (forall id k, conns s !! id = Some k -> exists peer, peer_of (accepted_peers inputs) id = Some peer /\
     (close_after_write k = false -> exists e,
        HttpSignaler.connections (signaler s) !! id = Some e /\ connection_addr e = peer)) /\
  (forall id, is_Some (HttpSignaler.connections (signaler s) !! id) -> is_Some (conns s !! id)) /\
  (forall a, contains (trusted_proxies c) a = false ->
     open_from (accepted_peers inputs) a s <= max_connections_per_address c) /\
  pending_joins (signaler s) <= max_pending_joins c.
Proof.
  intros Hc Hp Hrun. destruct (server_run_settled c _ _ _ _ _ _ Hrun) as [[_ _ Hent Hcon] Hout].
  apply (server_run_conns_ok c) in Hrun as [Hrun _ _ _ _]. cbn [snd] in Hrun.
  destruct (http_reachable_inv c _ Hc Hp Hrun) as [[_ H2 H3] [= E1 E2]]. rewrite E1, E2 in *.
  assert (forall id k, conns s !! id = Some k -> close_after_write k = false ->
    exists e, HttpSignaler.connections (signaler s) !! id = Some e) as Hknown.
  { intros id k (_ & [?|[[e He]|Hin]])%Hcon Hk; [congruence|eauto|]. rewrite Hout in Hin. by apply elem_of_nil in Hin. }
  split_and!; [| | |done].
  - intros id k Hk. destruct (Hcon _ _ Hk) as [[peer Hpeer] _]. exists peer. split; [done|].
    intros (e & He)%(Hknown _ _ Hk). exists e. split; [done|]. destruct (Hent _ _ He) as (_ & Hpe & _). congruence.
  - intros id [e (? & _)%Hent]. done.
  - intros a Ha. etrans; [|apply (H2 a)]. unfold open_from, held_by. apply inj_le.
    rewrite <- !size_dom. apply subseteq_size. intros id.
    rewrite !elem_of_dom. intros [k [Hk [Hcl Hpeer]]%map_lookup_filter_Some].
    destruct (Hknown _ _ Hk Hcl) as [e He]. exists e. apply map_lookup_filter_Some. split; [done|].
    destruct (Hent _ _ He) as (_ & Hpe & Hn). rewrite Hpe in Hpeer. cbn in Hpeer. injection Hpeer as Hpeer.
    split; [|done]. destruct (counted e); [done|]. specialize (Hn eq_refl). congruence.
Qed.

(** Each connection serves one request: in any run no connection id appears
    twice among the requests handed to the signaler, and a connection that is
    still open and has been served is marked as such. *)
Theorem http_one_request c local advertised inputs evs asked s :
  server_run (server_new c local advertised) inputs evs asked s ->
  NoDup asked.*1 /\
  forall id k, conns s !! id = Some k -> id ∈ asked.*1 -> requested k = true.
Proof.
  intros [_ _ Hc _ Hn]%(server_run_conns_ok c). split; [done|]. intros id k Hk Hin.
  destruct (Hc _ _ Hk) as [_ Hr]. destruct (requested k); [done|]. by destruct (Hr eq_refl).
Qed.

(** ** Limits on pending sessions *)

Lemma pending_submap (m m' : gmap NetherSessionId (SessionEntry (X := option bytes))) :
  m' ⊆ m -> pending_in m' ⊆+ pending_in m.
Proof.
  intros Hm%map_to_list_submseteq. destruct (submseteq_Permutation _ _ Hm) as [k Hk].
  unfold pending_in. rewrite Hk, list.filter_app, fmap_app. by apply submseteq_inserts_r.
Qed.

Lemma table_keeps_pending t t' : table_keeps t t' -> pending_ids t' ⊆+ pending_ids t.
Proof.
  destruct 1 as [id ch d t t' Hs|t|t|id t|t|msgs t|est now t].
  - unfold send_on in Hs. destruct (sessions t !! id); [|done]. by apply Ok_inj in Hs as <-.
  - unfold recv. by destruct (received t).
  - unfold recv_unreliable. by destruct (received_unreliable t).
  - apply pending_disconnect.
  - unfold next_event. by destruct (events t).
  - apply pending_drive.
  - apply pending_submap, map_filter_subseteq.
Qed.

Definition limited (limits : PendingLimits) (x : list (Z * Request) * NetherHttpServer) : Prop :=
  pending_limits x.2 = limits /\ pending_within limits (pending_ids (table x.2)).

Lemma accept_one_table socket peer now s s' :
  accept_one socket (Some peer) now s = Ok s' -> table s' = table s /\ pending_limits s' = pending_limits s.
Proof. unfold accept_one. destruct (_ =? _); [done|]. by intros ->%http_feed_inv. Qed.

Lemma hstep_limited ok_trust limits x y :
  hstep ok_trust (fun l => l = limits) x y -> limited limits x -> limited limits y.
Proof.
  intros Hs [Hl Hw]. destruct Hs as [log s socket peer now s' Ha|log s id k now p k' Hk Hp|log s i s' Hi Hf|log s id|
                 log s o g now draw s' Hp Ho|log s t Ht|log s x Hx]; cbn [snd] in *; try by split.
  - apply accept_one_table in Ha as [Et El]. split; cbn; [congruence|]. by rewrite Et.
  - apply http_feed_inv in Hf as ->. by split.
  - destruct (handle_output_cases _ _ _ _ _ Ho) as [(f & -> & Hf)|(offer & -> & Hh)]; [by split|].
    destruct (http_offer_cases _ _ _ _ _ Hh) as (i & s1 & Hi & ->%http_feed_inv & [->|(Ha & e & conn & u & Hr & _ & ->)]);
      [by split|]. split; [done|]. cbn in *. rewrite Hl in Ha.
    eapply pending_within_submseteq; [by apply pending_open_any|].
    by eapply pending_within_admitted; [reflexivity| |].
  - split; [done|]. cbn. eapply pending_within_submseteq; [by apply table_keeps_pending|done].
Qed.

(** However many requests arrive, an HTTP server whose limits are left alone
    never has more unestablished sessions than its limit, in all and from one
    network id. *)
Theorem http_pending_limits s0 inputs evs asked s :
  0 <= max_pending (pending_limits s0) -> 0 <= max_pending_per_network_id (pending_limits s0) ->
  table s0 = table_new -> (forall l, HSetting (SetPendingLimits l) ∉ inputs) ->
  server_run s0 inputs evs asked s -> pending_within (pending_limits s0) (pending_ids (table s)).
Proof.
  intros H1 H2 H0 Hi Hrun. set (lims := pending_limits s0) in *.
  eapply (server_run_steps (fun _ => True) (fun l => l = lims)) in Hrun; [|done|].
  - refine (proj2 (rtc_ind_r (limited lims) _ _ _ _ Hrun)).
    + split; [done|]. cbn [snd]. rewrite H0. split; [done|]. intros nid. done.
    + intros x y _ Hxy. by apply (hstep_limited (fun _ => True)).
  - apply list.Forall_forall. intros [| | | | | |[]| |] Hin; try done. by destruct (Hi limits).
Qed.

(** ** The loop over the signaler's outputs ends *)

Definition is_response (o : HttpSignalerOutput) : Prop := exists id r k, o = OResponse id r k.

(** The outputs of the signaler grow at the end, by responses. *)
Definition adds_responses (s s' : NetherHttpServer) : Prop :=
  exists outs, HttpSignaler.output (signaler s') = HttpSignaler.output (signaler s) ++ outs /\
    Forall is_response outs.

Lemma adds_no_response s s' :
  HttpSignaler.output (signaler s') = HttpSignaler.output (signaler s) -> adds_responses s s'.
Proof. intros E. exists []. by rewrite app_nil_r. Qed.

Lemma completes_adds i s s' : completes i -> feed i s = Ok s' -> adds_responses s s'.
Proof.
  intros Hi ->%http_feed_inv. destruct Hi as [(id & reason & ->)|(id & text & ->)]; cbn.
  - unfold reject. destruct (HttpSignaler.pending (signaler s) !! id); [|by apply adds_no_response].
    eexists [_]. split; [reflexivity|]. repeat constructor. by eexists _, _, _.
  - unfold HttpSignaler.answer. destruct (HttpSignaler.pending (signaler s) !! id); [|by apply adds_no_response].
    eexists [_]. split; [reflexivity|]. repeat constructor. by eexists _, _, _.
Qed.

Lemma handle_output_adds o now draw s s' : handle_output o now draw s = Ok s' -> adds_responses s s'.
Proof.
  intros [(f & -> & _)|(offer & -> & Hh)]%handle_output_cases; [by apply adds_no_response|].
  destruct (http_offer_cases _ _ _ _ _ Hh) as (i & s1 & Hi & Hf & [->|(_ & e & conn & u & _ & _ & ->)]);
    by apply (completes_adds i) in Hf.
Qed.

(** When the outputs that are there are handled without a panic, the loop of a
    frame ends within the two rounds [update] gives it, with nothing left to poll. *)
Lemma http_outputs_end i now draws s s1 :
  drain_turns signaler set_signaler (output_body now draws)
    (length (HttpSignaler.output (signaler s))) i s = Ok s1 ->
  exists s2, drain_outputs 2 i now draws s = Ok s2 /\ HttpSignaler.output (signaler s2) = [].
Proof.
  intros Hr. refine (drain_machine_ends signaler set_signaler HttpSignaler.output (output_body now draws)
    is_response _ _ _ _ i s s1 Hr); [done| | |].
  - intros g o rest Ho. cbn. unfold http_poll. rewrite Ho. by eexists.
  - intros j o x x'. apply handle_output_adds.
  - intros j o x (id & r & k & ->). by eexists.
Qed.

(** ** Who the sessions are *)

Context {blaws : Base64Laws b64} {slaws : SerdeLaws serde}.

(** A player has claims that are authentic, under such a trust, for the
    description of a join that a connection has asked for, under the network id
    its path names. *)
Definition joined (trusted : TokenTrust -> Prop) (log : list (Z * Request)) (network_id : bytes)
    (player : option PlayerInfo) : Prop :=
  exists t k r from wall claims,
    trusted t /\ (k, r) ∈ log /\ HttpSignaler.method r = POST /\
    HttpSignaler.path r = join_path network_id /\
    player = Some (player_info_new claims network_id from) /\
    authentic t (HttpSignaler.body r) wall claims.

Lemma joined_log trusted log log' nid p : joined trusted log nid p -> joined trusted (log ++ log') nid p.
Proof.
  intros (t & k & r & from & wall & claims & ? & Hin & ?). exists t, k, r, from, wall, claims.
  split; [done|]. split; [|done]. apply elem_of_app. by left.
Qed.

Section trusted.
Context (trusted : TokenTrust -> Prop).
Context (trusted_noted : forall t text wall, trusted t -> trusted (validate_sdp text wall t).2).

Record players_ok (x : list (Z * Request) * NetherHttpServer) : Prop := {
  ok_trusted : exists t, HttpSignaler.token_trust (HttpSignaler.config (signaler x.2)) = Some t /\ trusted t;
  ok_offers o : OOffer o ∈ HttpSignaler.output (signaler x.2) ->
    joined trusted x.1 (offer_network_id o) (offer_player o);
  ok_sessions id e : sessions (table x.2) !! id = Some e ->
    joined trusted x.1 (sid_network id) (session_player e);
}.

Definition given (t : option TokenTrust) : Prop := exists t', t = Some t' /\ trusted t'.

Lemma handle_players log s i :
  (allowed given log i \/ exists id a now, i = Connected id a now) ->
  players_ok (log, s) -> players_ok (log, set_signaler (handle i (signaler s)).2 s).
Proof.
  intros Hi [(t & Ht & Htr) Ho Hs]. cbn [fst snd] in *. split; cbn [fst snd]; [| |done].
  - cbn. assert ((exists x, i = SetTokenTrust x) \/ forall x, i <> SetTokenTrust x) as [[x ->]|Hn]
      by (destruct i; eauto; right; by intros ?).
    + destruct Hi as [Hi|(id & a & now & Hi)]; [exact Hi|done].
    + destruct (http_handle_trust i (signaler s) Hn) as [->|(t1 & text & wall & Ht1 & ->)]; [by exists t|].
      assert (t1 = t) as -> by congruence. eauto.
  - intros o Hin. cbn in Hin.
    assert ((exists k r now rnd wall, i = IRequest k r now rnd wall) \/
            forall k r now rnd wall, i <> IRequest k r now rnd wall) as [(k & r & now & rnd & wall & ->)|Hn]
      by (destruct i; eauto 10; right; by intros ?).
    2:{ apply Ho. by apply (http_handle_offers i). }
    destruct Hi as [Hi|(id & a & n & Hi)]; [cbn in Hi|done].
    pose proof (request_has_one_outcome k r now rnd wall (signaler s)) as Hone. cbn zeta in Hone.
    destruct (http_handle _ (signaler s)) as [res g]. cbn [snd] in Hin.
    destruct Hone as (_ & _ & [(_ & _ & resp & Hout & _)|[(_ & Hm & nid & pl & Hp & _ & Hacc & _ & Hout)|(_ & Hout & _)]]);
      rewrite Hout in Hin; [..|by apply Ho].
    + apply elem_of_app in Hin as [Hin|Hin%list_elem_of_singleton]; [by apply Ho|done].
    + apply elem_of_app in Hin as [Hin|Hin%list_elem_of_singleton]; [by apply Ho|]. injection Hin as ->.
      unfold HttpSignaler.accepted in Hacc. rewrite Ht in Hacc. destruct Hacc as (claims & t' & Hv & ->).
      apply validate_sdp_authentic in Hv as [_ Hauth]. cbn [offer_network_id offer_player].
      eexists t, k, r, _, wall, claims. by split_and!.
Qed.

Lemma feed_players log s s' i :
  (allowed given log i \/ exists id a now, i = Connected id a now) -> feed i s = Ok s' ->
  players_ok (log, s) -> players_ok (log, s').
Proof. intros Hi ->%http_feed_inv. by apply handle_players. Qed.

Lemma table_keeps_players t t' : table_keeps t t' -> players_kept t t'.
Proof.
  assert (forall t t' : Table (X := option bytes), sessions t' = sessions t -> players_kept t t') as Hsame
    by (intros ? ? E id e; rewrite E; eauto).
  destruct 1 as [id ch d t t' Hs|t|t|id t|t|msgs t|est now t].
  - unfold send_on in Hs. destruct (sessions t !! id); [|done]. apply Ok_inj in Hs as <-. by apply Hsame.
  - unfold recv. by apply Hsame; destruct (received t).
  - unfold recv_unreliable. by apply Hsame; destruct (received_unreliable t).
  - apply players_disconnect.
  - unfold next_event. by apply Hsame; destruct (events t).
  - apply players_drive.
  - intros id e [He _]%map_lookup_filter_Some. eauto.
Qed.

Lemma hstep_players ok_limits x y : hstep given ok_limits x y -> players_ok x -> players_ok y.
Proof.
  intros Hs Hx. destruct Hs as [log s socket peer now s' Ha|log s id k now p k' Hk Hp|log s i s' Hi Hf|log s id|
                 log s o g now draw s' Hp Ho|log s t Ht|log s x _].
  - unfold accept_one in Ha. destruct (_ =? _); [done|]. eapply feed_players; [|exact Ha|].
    + right. eauto.
    + by destruct Hx.
  - destruct Hx as [H1 H2 H3]. cbn [fst snd] in *. split; cbn; [done| |]; intros; apply joined_log; eauto.
  - eapply feed_players; [|exact Hf|exact Hx]. by left.
  - by destruct Hx.
  - cbn in Hp. unfold http_poll in Hp.
    destruct (HttpSignaler.output (signaler s)) as [|o1 rest] eqn:Eo; [done|]. injection Hp as -> <-.
    assert (players_ok (log, set_signaler (HttpSignaler.set_output rest (signaler s)) s)) as Hx'.
    { destruct Hx as [H1 H2 H3]. cbn [fst snd] in *. split; cbn; [done| |done].
      intros o1 Hin. apply H2. rewrite Eo. by right. }
    destruct (handle_output_cases _ _ _ _ _ Ho) as [(f & -> & _)|(offer & -> & Hh)]; [by destruct Hx'|].
    destruct (http_offer_cases _ _ _ _ _ Hh) as (i & s1 & Hi & Hf & Hcase).
    assert (joined trusted log (offer_network_id offer) (offer_player offer)) as Hj.
    { destruct Hx as [_ H2 _]. cbn [fst snd] in H2. apply H2. rewrite Eo. by left. }
    eapply feed_players in Hf; [| |exact Hx'].
    2:{ left. by destruct Hi as [(?&?&->)|(?&?&->)]. }
    destruct Hcase as [->|(_ & e & conn & u & _ & Hpl & ->)]; [done|].
    destruct Hf as [H1 H2 H3]. cbn [fst snd] in *. split; cbn; [done|done|].
    intros id e' [[<- <-]|[_ He]]%lookup_insert_Some; [|by apply H3]. cbn. by rewrite Hpl.
  - destruct Hx as [H1 H2 H3]. cbn [fst snd] in *. split; cbn; [done|done|].
    intros id e' (e & He & -> & _)%(table_keeps_players _ _ Ht). by apply H3.
  - by destruct Hx.
Qed.
End trusted.

(** A trust the server has been given, in the beginning or since, or what it has
    become by noting something. *)
Definition configured (c : HttpSignalerConfig) (inputs : list ServerInput) (t : TokenTrust) : Prop :=
  exists t0, (HttpSignaler.token_trust c = Some t0 \/ HSetTokenTrust (Some t0) ∈ inputs) /\ derived t0 t.

(** C20: On an HTTP server that has a token trust and is never told to skip
    validation, every session in the table, established or not, belongs to a
    player whose claims are authentic for the description of a join that one of
    its connections asked for under the session's network id, under a trust the
    server was given. *)
Theorem http_sessions_authentic c local advertised inputs evs asked s id e :
  is_Some (HttpSignaler.token_trust c) -> HSetTokenTrust None ∉ inputs ->
  server_run (server_new c local advertised) inputs evs asked s ->
  sessions (table s) !! id = Some e ->
  joined (configured c inputs) asked (sid_network id) (session_player e).
Proof.
  intros [t0 Ht0] Hnone Hrun. set (trusted := configured c inputs).
  eapply (server_run_steps (given trusted) (fun _ => True)) in Hrun; [|done|].
  - assert (players_ok trusted (asked, s)) as [_ _ Hs]; [|apply Hs].
    eapply (rtc_ind_r (players_ok trusted)); [|..|exact Hrun].
    + split; cbn; [|by intros o ?%elem_of_nil|done].
      exists t0. split; [done|]. exists t0. split; [by left|constructor].
    + intros x y _ Hxy. eapply (hstep_players trusted); [|exact Hxy].
      intros t text wall (t1 & Ht1 & Hd). exists t1. split; [done|]. by constructor.
  - apply list.Forall_forall. intros [| | | | | |[]| |[t|]] Hin; try done.
    exists t. split; [done|]. exists t. split; [by right|constructor].
Qed.
End safety.
