(* ===== verification/ServerInstance.v ===== *)
(** * ServerInstance: concrete servers

    The theorems of [ServerSessions.v] and [LanServer.v] on a session that
    becomes ready, and on a LAN server that admits an authenticated offer. *)
From S2P Require Import Prelude Text Errors Codec SignalMsg ServerDataModel Discovery Endpoint Router Sans.
From S2P Require Import LanSignaler Candidate Identity ServerIdentity IdentityInstance Webrtc WebrtcInstance.
From S2P Require Import Framing Transports Session SessionInstance Connection Admission AdmissionInstance.
From S2P Require Import Pending Pool PoolInstance ServerSessions LanServer.

#[local] Existing Instances toy_crypto toy_base64 toy_base64_laws toy_serde toy_serde_laws toy_p384
  toy_rsa pool_stun.

(** ** A session table *)

Definition sample_id : NetherSessionId := {| sid_network := str "peer"; sid_connection := 42 |}.

Definition new_entry : SessionEntry (X := unit) := {|
  ready := false; created := 0; session_addr := None; session_rtt := None; session_player := None;
  extra := tt |}.

Definition opened_table : Table (X := unit) :=
  open_session sample_id new_entry ready_connection (str "abcd") table_new.

Definition ready_table : Table (X := unit) := drive_sessions [(sample_id, EvReady None)] opened_table.

Lemma ready_run : table_run table_new [SessionConnected sample_id] (next_event ready_table).2.
Proof.
  apply (run_step _ [] ready_table (Some (SessionConnected sample_id))); [|apply (ts_event ready_table)].
  apply (run_step _ [] opened_table None); [|apply ts_drive].
  apply (run_step _ [] table_new None); [constructor|]. by apply ts_open.
Qed.

Lemma events_account_for_sessions_witness : sample_id ∈ connected [SessionConnected sample_id].
Proof.
  apply (events_account_for_sessions [SessionConnected sample_id] (next_event ready_table).2 sample_id ready_run).
  eexists. split; reflexivity.
Defined.

Definition opened_pool : Pool (K := NetherSessionId) :=
  {| entries := {[sample_id := ready_entry]};
     router := register_ufrag (str "abcd") sample_id router_default |}.

Lemma server_pool_reachable_witness : pool_reachable opened_pool.
Proof.
  apply (server_pool_reachable [SessionConnected sample_id] (next_event ready_table).2
    [Add sample_id ready_connection (str "abcd")] [] opened_pool ready_run); [reflexivity|].
  apply (runs_command [] 6 6 _ pool_new); [constructor|reflexivity].
Defined.

(** ** A LAN server *)

(** A codec that reads every text as one description and writes one text. *)
Definition tiny_sdp : Sdp := {|
  ATTR_KEY_CONNECTION_SETUP := str "setup";
  ATTR_KEY_END_OF_CANDIDATES := str "end-of-candidates";
  ATTR_KEY_EXTMAP_ALLOW_MIXED := str "extmap-allow-mixed";
  ATTR_KEY_GROUP := str "group";
  ATTR_KEY_IDENTITY := str "identity";
  ATTR_KEY_MAX_MESSAGE_SIZE := str "max-message-size";
  ATTR_KEY_MID := str "mid";
  ATTR_KEY_MSID_SEMANTIC := str "msid-semantic";
  role_to_string := @role_to_string toy_sdp;
  with_value_attribute := @with_value_attribute toy_sdp;
  with_ice_credentials := @with_ice_credentials toy_sdp;
  with_fingerprint := @with_fingerprint toy_sdp;
  with_candidate := @with_candidate toy_sdp;
  with_media := @with_media toy_sdp;
  media_attribute := @media_attribute toy_sdp;
  session_attribute := @session_attribute toy_sdp;
  marshal _ := str "v=0";
  unmarshal _ := Some (session (base_media sample_description) None 0);
|}.

#[local] Existing Instance tiny_sdp | 0.

Definition sample_draw : Draw := {|
  draw_ufrag := str "abcd"; draw_pwd := str "secret"; draw_random := str "r"; draw_wall := 0;
  draw_clock := 0 |}.

(** A server that trusts any token, with an offer waiting in its signaler. *)
Definition offered_server (trust : option TokenTrust) (text : bytes) : NetherServer := {|
  signaler := LanSignaler.push_back (OSignal (signal_offer 42 text (str "peer")))
                (lan_new 7 LanSignalerConfig_default);
  session_local_addr := sample_addr; advertised_addrs := []; server_identity := None;
  server_trust := trust; infer_candidates := false; timeouts := Timeouts_default;
  pending_limits := PendingLimits_default; table := table_new |}.

Definition frame : ServerInput := SUpdate [] 5 (fun _ => sample_draw) [] [].

(** Without a trust the whole frame evaluates. *)
Definition opens (r : Res unit (option ServerEvent * NetherServer)) : bool :=
  match r with
  | Ok (None, s') => bool_decide (is_Some (sessions (table s') !! sample_id))
  | _ => false
  end.

Lemma open_frame : opens (server_input frame (offered_server None (str "x"))) = true.
Proof. vm_compute. reflexivity. Qed.

Lemma opens_inv r : opens r = true -> exists s, r = Ok (None, s) /\ is_Some (sessions (table s) !! sample_id).
Proof.
  destruct r as [[[ev|] s]| |]; cbn [opens]; try done. intros Hs%bool_decide_eq_true. by exists s.
Qed.

Lemma open_run : exists s, server_run (offered_server None (str "x")) [frame] [] s /\
  is_Some (sessions (table s) !! sample_id).
Proof.
  destruct (opens_inv _ open_frame) as (s & E & Hs). exists s. split; [|exact Hs].
  exact (srun_step _ [] [] _ frame None s (srun_nil _) E).
Qed.

Lemma lan_server_refines_witness :
  exists s, is_Some (sessions (table s) !! sample_id) /\ table_run table_new [] (table s).
Proof.
  destruct open_run as (s & Hrun & Hs). exists s. split; [exact Hs|].
  exact (lan_server_refines (offered_server None (str "x")) [frame] [] s eq_refl Hrun).
Defined.

Lemma lan_pending_limits_witness :
  exists s, is_Some (sessions (table s) !! sample_id) /\
    pending_within PendingLimits_default (pending_ids (table s)).
Proof.
  destruct open_run as (s & Hrun & Hs). exists s. split; [exact Hs|].
  apply (lan_pending_limits (offered_server None (str "x")) [frame] [] s);
    [by vm_compute|by vm_compute|reflexivity| |exact Hrun].
  intros l Hl%list_elem_of_singleton. discriminate Hl.
Defined.

(** With a trust: a new server, and a frame that reads an offer with an identity
    from a datagram of the peer 3.  The signature scheme accepts any signature,
    so that the texts are short. *)
#[local] Instance loose_p384 : P384 := {|
  SigningKey := unit; VerifyingKey := unit; verifying_key _ := tt;
  try_sign _ m := Some m; signature_from_slice s := Some s; verify _ _ _ := true;
  from_sec1_bytes _ := Some tt; sec1_x _ := None; sec1_y _ := None;
  from_public_key_der _ := Some tt; to_public_key_der _ := Some [];
|}.

Definition short_token : bytes :=
  url_encode ES384_HEADER ++ [dot]
  ++ url_encode (value_to_string (VObject [(str "cpk", VString []); (str "exp", VU64 9)])) ++ [dot].

Definition short_offer : bytes := Eval vm_compute in
  IDENTITY_PREFIX ++ standard_encode (default [] (raw_to_string {|
    raw_idp := {| idp_domain := []; protocol := [] |};
    raw_assertion := default [] (assertion_to_string {|
      token := short_token; fingerprints := url_encode ES384_HEADER ++ [dot; dot] |}) |}))
  ++ crlf ++ str "a=fingerprint:sha-256 AB".

Definition trusting_server : NetherServer :=
  set_server_trust (Some AnyToken) (server_new 7 LanSignalerConfig_default sample_addr []).

Definition peer_addr : SocketAddr := {| ip := V4 192 168 1 3; port := 7551 |}.

Definition offer_datagram : bytes := Eval vm_compute in
  match encode (Discovery.Message (message_packet_new 7 (signal_to_string (signal_offer 42 short_offer (str "7"))))) 3 with
  | Ok buf => buf
  | _ => []
  end.

Definition offer_frame : ServerInput :=
  SUpdate [(offer_datagram, peer_addr)] 5 (fun _ => sample_draw) [] [].

Definition offered_id : NetherSessionId := {| sid_network := str "3"; sid_connection := 42 |}.

Definition admits (r : Res unit (option ServerEvent * NetherServer)) : bool :=
  match r with
  | Ok (None, s') =>
      match sessions (table s') !! offered_id with
      | Some e => bool_decide (session_player e ≫= remote_address = Some peer_addr)
      | None => false
      end
  | _ => false
  end.

Lemma admits_inv r : admits r = true -> exists s e, r = Ok (None, s) /\
  sessions (table s) !! offered_id = Some e /\ session_player e ≫= remote_address = Some peer_addr.
Proof.
  destruct r as [[[ev|] s]| |]; cbn [admits]; try done.
  destruct (sessions (table s) !! offered_id) as [e|] eqn:Ee; [|done]. intros Hs%bool_decide_eq_true.
  exists s, e. split; [reflexivity|]. by split.
Qed.

Lemma offer_admitted : admits (server_input offer_frame trusting_server) = true.
Proof. vm_compute. reflexivity. Qed.

Lemma lan_sessions_authentic_witness :
  exists s e, sessions (table s) !! offered_id = Some e /\
    session_player e ≫= remote_address = Some peer_addr /\
    session_authentic (configured trusting_server [offer_frame]) 7 [offer_frame] offered_id e.
Proof.
  destruct (admits_inv _ offer_admitted) as (s & e & Hrun & He & Ha). exists s, e.
  split; [exact He|]. split; [exact Ha|].
  apply (lan_sessions_authentic trusting_server 7 LanSignalerConfig_default [offer_frame] [] s offered_id e);
    [reflexivity|reflexivity|by eexists| | |exact He].
  - intros Hl%list_elem_of_singleton. discriminate Hl.
  - exact (srun_step _ [] [] _ offer_frame None s (srun_nil _) Hrun).
Defined.
