(* ===== verification/HttpServerInstance.v ===== *)
(** * HttpServerInstance: a concrete HTTP server

    The theorems of [HttpServerSafety.v] on a server that accepts a connection,
    reads a signed join from it and opens a session. *)
From S2P Require Import Prelude Text Errors SignalMsg ServerDataModel Discovery Endpoint IpRange Candidate Router Sans.
From S2P Require Import Identity ServerIdentity IdentityInstance HttpSignaler HttpWire HttpStream Webrtc WebrtcInstance.
From S2P Require Import Framing Transports Session SessionInstance Connection Admission AdmissionInstance.
From S2P Require Import Pending Pool PoolInstance ServerSessions ServerInstance HttpServer HttpServerSafety.

#[local] Existing Instances toy_crypto toy_base64 toy_base64_laws toy_serde toy_serde_laws toy_rsa
  simple_net pool_stun toy_http_types toy_tls.
#[local] Existing Instance tiny_sdp | 0.

(** One key, whose signatures are empty. *)
#[local] Instance tiny_p384 : P384 := {|
  SigningKey := unit; VerifyingKey := unit; verifying_key _ := tt;
  try_sign _ _ := Some []; signature_from_slice s := Some s; verify _ _ _ := true;
  from_sec1_bytes _ := Some tt; sec1_x _ := Some (replicate 48 x00); sec1_y _ := Some (replicate 48 x00);
  from_public_key_der _ := Some tt; to_public_key_der _ := Some [];
|}.

Definition tiny_identity : ServerIdentity := {|
  signing := tt; verifying := tt; domain := str "d"; lifetime := Some DEFAULT_TOKEN_LIFETIME;
  server_token := [] |}.

(** A signed description. *)
Definition signed_text : bytes :=
  match augment tiny_identity (str "a=fingerprint:x Y" ++ crlf ++ str "m=" ++ crlf) 0 with
  | Ok text => text
  | _ => []
  end.

(** A tokenizer that takes what it is given for the body of a join. *)
#[local] Instance join_httparse : Httparse := {|
  parse_chunk_size _ := Ok Partial;
  parse_headers _ _ := Ok Partial;
  parse_request _ buf :=
    match buf with
    | [] => (Ok Partial, (None, None, []))
    | _ => (Ok (Complete 0), (Some (str "POST"), Some (str "/v1/join/peer"),
              [{| header_name := str "Content-Length"; header_value := dec (blen buf) |}]))
    end;
  parse_response _ _ := (Ok Partial, (None, []));
|}.

#[local] Instance join_access : HttpAccess toy_http_types := {|
  head_method _ := POST; head_path _ := str "/v1/join/peer"; head_version _ := OtherVersion;
  head_text _ _ := None;
|}.

Definition join_config : HttpSignalerConfig := {|
  max_connections_per_address := 1; max_pending_joins := 1; answer_timeout := secs 10;
  trusted_proxies := range_set_empty; advertised_addresses := []; HttpSignaler.token_trust := Some AnyToken;
  serve_motd := true;
|}.

Definition fresh_server : NetherHttpServer := server_new join_config sample_addr [].

(** A frame in which a connection with a join arrives. *)
Definition join_frame : Frame := {|
  f_now := 5;
  f_arrivals := [({| reads := [Arrives signed_text]; writes := []; HttpStream.sent := [] |}, Some sample_addr)];
  f_walk := [0]; f_joins := fun _ => (42, 0); f_overdue := fun l => l;
  f_draws := fun _ => sample_draw; f_msgs := []; f_idle := [0];
|}.

Definition allowing : ServerInput := HSetting (AllowUnsignedAnswers true).

(** The session is open, and the connection has asked. *)
Definition joins (r : Res unit (option ServerEvent * list (Z * Request) * NetherHttpServer)) : bool :=
  match r with
  | Ok (None, [(0, _)], s) =>
      bool_decide (is_Some (sessions (table s) !! sample_id)) && bool_decide (is_Some (conns s !! 0))
  | _ => false
  end.

Lemma join_joins :
  joins (server_input (HFrame join_frame) (apply_setting (AllowUnsignedAnswers true) fresh_server)) = true.
Proof. vm_compute. reflexivity. Qed.

Lemma joins_inv r : joins r = true -> exists q s, r = Ok (None, [(0, q)], s) /\
  is_Some (sessions (table s) !! sample_id) /\ is_Some (conns s !! 0).
Proof.
  destruct r as [[[[ev|] [|[[] q] [|? ?]]] s]| |]; cbn [joins]; try done.
  intros [Hs Hc]%andb_true_iff. apply bool_decide_eq_true in Hs, Hc. by exists q, s.
Qed.

Lemma joined_run : exists q s,
  server_run fresh_server [allowing; HFrame join_frame] [] [(0, q)] s /\
  is_Some (sessions (table s) !! sample_id) /\ is_Some (conns s !! 0).
Proof.
  destruct (joins_inv _ join_joins) as (q & s & E & Hs). exists q, s. split; [|exact Hs].
  exact (srun_step _ [allowing] [] [] _ (HFrame join_frame) None [(0, q)] s
    (srun_step _ [] [] [] _ allowing None [] _ (srun_nil _) eq_refl) E).
Qed.

Lemma http_one_request_witness : exists s k, conns s !! 0 = Some k /\ requested k = true.
Proof.
  destruct joined_run as (q & s & Hrun & _ & k & Hk). exists s, k. split; [exact Hk|].
  refine (proj2 (http_one_request join_config sample_addr [] _ _ _ s Hrun) 0 k Hk _). by left.
Defined.

Lemma http_pending_limits_witness :
  exists s, is_Some (sessions (table s) !! sample_id) /\
    pending_within PendingLimits_default (pending_ids (table s)).
Proof.
  destruct joined_run as (q & s & Hrun & Hs & _). exists s. split; [exact Hs|].
  apply (http_pending_limits fresh_server _ _ _ s ltac:(by vm_compute) ltac:(by vm_compute) eq_refl) in Hrun;
    [exact Hrun|].
  intros l Hl. by repeat (apply elem_of_cons in Hl as [Hl|Hl]; [discriminate Hl|]); apply elem_of_nil in Hl.
Defined.

Lemma http_sessions_authentic_witness :
  exists q s e, sessions (table s) !! sample_id = Some e /\
    joined (configured join_config [allowing; HFrame join_frame]) [(0, q)] (str "peer") (session_player e).
Proof.
  destruct joined_run as (q & s & Hrun & [e He] & _). exists q, s, e. split; [exact He|].
  apply (http_sessions_authentic join_config sample_addr [] [allowing; HFrame join_frame] [] [(0, q)] s sample_id e);
    [by eexists| |exact Hrun|exact He].
  intros Hl. by repeat (apply elem_of_cons in Hl as [Hl|Hl]; [discriminate Hl|]); apply elem_of_nil in Hl.
Defined.

(** ** A connection over the limit *)

(** Two connections arrive from one address, which may hold one; the second
    brings a join with it. *)
Definition open_join_config : HttpSignalerConfig := {|
  max_connections_per_address := 1; max_pending_joins := 1; answer_timeout := secs 10;
  trusted_proxies := range_set_empty; advertised_addresses := []; HttpSignaler.token_trust := None;
  serve_motd := true;
|}.

Definition crowded_frame : Frame := {|
  f_now := 5;
  f_arrivals := [({| reads := []; writes := []; HttpStream.sent := [] |}, Some sample_addr);
                 ({| reads := [Arrives (str "v=0")]; writes := []; HttpStream.sent := [] |}, Some sample_addr)];
  f_walk := [0; 1]; f_joins := fun _ => (42, 0); f_overdue := fun l => l;
  f_draws := fun _ => sample_draw; f_msgs := []; f_idle := [];
|}.

Definition served_over_limit (r : Res unit (option ServerEvent * list (Z * Request) * NetherHttpServer)) : bool :=
  match r with
  | Ok (_, [(1, _)], s) =>
      bool_decide (HttpSignaler.connections (signaler s) !! 1 = None)
      && bool_decide (is_Some (sessions (table s) !! sample_id))
  | _ => false
  end.

(** The signaler refuses the second connection, but its request is read before the
    refusal is carried out: it is served, and a session is opened for it. *)
Example refused_connection_is_served :
  served_over_limit
    (server_input (HFrame crowded_frame)
       (apply_setting (AllowUnsignedAnswers true) (server_new open_join_config sample_addr []))) = true.
Proof. vm_compute. reflexivity. Qed.

(** Both connections are open at the end of the frame, and only the first is not
    about to be closed. *)
Definition holds_both (r : Res unit (option ServerEvent * list (Z * Request) * NetherHttpServer)) : bool :=
  match r with
  | Ok (None, _, s) =>
      match conns s !! 0, conns s !! 1 with
      | Some k0, Some k1 => negb (close_after_write k0) && close_after_write k1
      | _, _ => false
      end
  | _ => false
  end.

Lemma crowded_holds_both :
  holds_both (server_input (HFrame crowded_frame) (server_new open_join_config sample_addr [])) = true.
Proof. vm_compute. reflexivity. Qed.

Lemma holds_both_inv r : holds_both r = true -> exists asked s k0 k1, r = Ok (None, asked, s) /\
  conns s !! 0 = Some k0 /\ close_after_write k0 = false /\ conns s !! 1 = Some k1.
Proof.
  destruct r as [[[[ev|] asked] s]| |]; cbn [holds_both]; try done.
  destruct (conns s !! 0) as [k0|] eqn:E0; [|done]. destruct (conns s !! 1) as [k1|] eqn:E1; [|done].
  intros [H%negb_true_iff _]%andb_true_iff. by exists asked, s, k0, k1.
Qed.

Lemma http_server_limits_witness :
  exists s k0 e, accepted_peers [HFrame crowded_frame] = [sample_addr; sample_addr] /\
    conns s !! 0 = Some k0 /\ is_Some (conns s !! 1) /\
    HttpSignaler.connections (signaler s) !! 0 = Some e /\ connection_addr e = sample_addr /\
    open_from [sample_addr; sample_addr] (normalize (ip sample_addr)) s <= 1 /\ pending_joins (signaler s) <= 1.
Proof.
  destruct (holds_both_inv _ crowded_holds_both) as (asked & s & k0 & k1 & E & H0 & Hk0 & H1).
  destruct (http_server_limits open_join_config sample_addr [] [HFrame crowded_frame] [] asked s
    ltac:(by vm_compute) ltac:(by vm_compute)
    (srun_step _ [] [] [] _ (HFrame crowded_frame) None asked s (srun_nil _) E)) as (Hk & _ & Ho & Hp).
  destruct (Hk 0 k0 H0) as (peer & Epeer & He). destruct (He Hk0) as (e & He1 & He2).
  exists s, k0, e. split; [reflexivity|]. split; [exact H0|]. split; [by exists k1|]. split; [exact He1|].
  split; [|split; [|exact Hp]].
  - rewrite He2. injection Epeer as <-. reflexivity.
  - apply (Ho (normalize (ip sample_addr))). vm_compute. reflexivity.
Defined.
