(* ===== verification/ClientInstance.v ===== *)
(** * ClientInstance: a concrete LAN client

    The theorems of [LanClient.v] on a client that makes a second offer when the
    first is not answered, and on one that is given a signed answer. *)
From S2P Require Import Prelude Text Errors Codec SignalMsg ServerDataModel Discovery Endpoint Router Sans.
From S2P Require Import LanSignaler Candidate Identity ServerIdentity IdentityInstance Webrtc WebrtcInstance.
From S2P Require Import Framing Transports Session SessionInstance Connection Pool PoolInstance ServerSessions.
From S2P Require Import ServerInstance HttpServerInstance LanClient.

#[local] Existing Instances toy_crypto toy_base64 toy_base64_laws toy_serde toy_serde_laws tiny_p384
  toy_rsa pool_stun.
#[local] Existing Instance tiny_sdp | 0.

Definition attempt_draw : AttemptDraw := {|
  at_session := 0; at_ufrag := str "abcd"; at_pwd := str "secret"; at_random := str "r";
  at_connection_id := 42; at_describe := 0; at_now := 0; at_wall := 0 |}.

Definition lan_client : NetherClient := client_new 1 LanSignalerConfig_default sample_addr [].

Definition silent_frame (now : Instant) : Frame := {|
  f_now := now; f_datagrams := []; f_walls := fun _ => 0; f_msgs := []; f_attempt := attempt_draw |}.

(** ** A second attempt *)

Definition asked : Res unit unit * NetherClient := client_connect 9 attempt_draw lan_client.

Definition retries (r : Res unit NetherClient) : bool :=
  match r with Ok s => bool_decide (offers s = 2) | _ => false end.

Lemma retry_frame : retries (client_input (CFrame (silent_frame (secs 100))) asked.2) = true.
Proof. vm_compute. reflexivity. Qed.

Lemma retries_inv r : retries r = true -> exists s, r = Ok s /\ offers s = 2.
Proof. destruct r as [s| |]; [|done..]. intros Hs%bool_decide_eq_true. by exists s. Qed.

Lemma lan_client_attempts_witness : exists s, offers s = 2 /\ 2 <= Z.max DEFAULT_ATTEMPTS 1.
Proof.
  destruct (retries_inv _ retry_frame) as (s & E & Ho). exists s. split; [exact Ho|]. rewrite <- Ho.
  change (Z.max DEFAULT_ATTEMPTS 1) with (offers lan_client + Z.max (attempts lan_client) 1).
  apply (lan_client_attempts lan_client 9 attempt_draw asked.1 asked.2 [CFrame (silent_frame (secs 100))] s).
  - apply surjective_pairing.
  - exact (crun_step _ [] _ _ s (crun_nil _) E).
  - intros t d Hin%list_elem_of_singleton. discriminate Hin.
Defined.

(** ** A signed answer *)

Definition signed_answer : Signal := signal_answer 42 signed_text (str "9").

(** A client that was asked to connect, with an answer waiting in its signaler. *)
Definition answered_client : NetherClient :=
  set_server_trust (Some AnyToken)
    (set_signaler (LanSignaler.push_back (OSignal signed_answer) (signaler lan_client)) lan_client).

Definition answer_inputs : list ClientInput := [CConnect 9 attempt_draw; CFrame (silent_frame 5)].

Definition passes (r : Res unit NetherClient) : bool :=
  match r with
  | Ok s => existsb (fun c => match c with CmdSignal _ g => bool_decide (g = signed_answer) | _ => false end)
              (commands s)
  | _ => false
  end.

Lemma passes_inv r : passes r = true -> exists s, r = Ok s /\ CmdSignal tt signed_answer ∈ commands s.
Proof.
  destruct r as [s| |]; cbn [passes]; [|done..].
  intros (c & Hc & Hd)%existsb_exists. exists s. split; [done|].
  destruct c as [|[] g| |]; try done. apply bool_decide_eq_true in Hd as <-. by apply list_elem_of_In.
Qed.

Lemma answer_passes :
  passes (s ← client_input (CConnect 9 attempt_draw) answered_client;
          client_input (CFrame (silent_frame 5)) s) = true.
Proof. vm_compute. reflexivity. Qed.

Lemma lan_client_answers_authentic_witness :
  exists t wall claims, configured answered_client answer_inputs t /\ authentic t signed_text wall claims.
Proof.
  destruct (passes_inv _ answer_passes) as (s & E & Hg). apply res_bind_inv in E as (s1 & E1 & E2).
  apply (lan_client_answers_authentic answered_client answer_inputs s signed_answer);
    [reflexivity|by eexists| | |exact Hg|reflexivity].
  - unfold answer_inputs. rewrite elem_of_cons, list_elem_of_singleton. by intros [|].
  - exact (crun_step _ [_] _ _ _ (crun_step _ [] _ _ _ (crun_nil _) E1) E2).
Defined.
