(* ===== verification/HttpClientInstance.v ===== *)
(** * HttpClientInstance: a concrete HTTP client

    The theorems of [HttpClient.v] on a client that joins a server, takes its
    signed answer and becomes ready, and on one whose join is not answered. *)
From S2P Require Import Prelude Text Errors Codec SignalMsg ServerDataModel Discovery Endpoint Router Sans.
From S2P Require Import Identity ServerIdentity IdentityInstance HttpSignaler HttpWire HttpStream Webrtc WebrtcInstance.
From S2P Require Import Framing Transports Session SessionInstance Connection Pool PoolInstance ServerSessions.
From S2P Require Import ServerInstance HttpServerInstance JoinTarget HttpClient.

#[local] Existing Instances toy_crypto toy_base64 toy_base64_laws toy_serde toy_serde_laws tiny_p384
  toy_rsa pool_stun toy_tls toy_http_types.
#[local] Existing Instance tiny_sdp | 0.

(** A tokenizer that takes what it is given for the body of a response. *)
#[local] Instance answer_httparse : Httparse := {|
  parse_chunk_size _ := Ok Partial;
  parse_headers _ _ := Ok Partial;
  parse_request _ _ := (Ok Partial, (None, None, []));
  parse_response _ buf :=
    (Ok (Complete 0), (Some 200, [{| header_name := str "Content-Length"; header_value := dec (blen buf) |}]));
|}.

#[local] Instance answer_access : ResponseAccess toy_http_types := {| response_status _ := 200 |}.
#[local] Instance any_names : ServerNames := {| server_name h := Some h |}.
#[local] Instance no_status : StatusJson := {| serde_status _ := None |}.

(** A socket that takes the request, and gives the answer. *)
Definition answering_socket : TcpStream :=
  {| reads := [Arrives signed_text]; writes := [Takes 4000]; HttpStream.sent := [] |}.
Definition mute_socket : TcpStream := {| reads := []; writes := []; HttpStream.sent := [] |}.

Definition join_draw (socket : TcpStream) : JoinDraw := {|
  jd_resolved := Ok [sample_addr]; jd_media := Ok (sample_addr, []); jd_session := 0;
  jd_ufrag := str "abcd"; jd_pwd := str "secret"; jd_random := str "r"; jd_connection_id := 42;
  jd_describe := 0; jd_wall := 0;
  jd_dialing := {| dl_socket := Ok socket; dl_connect := Err ConnInProgress; dl_platform := Ok tt |};
  jd_now := 0 |}.

Definition client_frame (now : Instant) (msgs : list ConnectionEvent) : ClientInput :=
  HFrame {| f_now := now; f_wall := 0; f_msgs := msgs; f_join := join_draw mute_socket |}.

(** ** Running a client *)

Fixpoint run_inputs (l : list ClientInput) (s : NetherHttpClient) : Res unit (list (SocketAddr * bytes) * NetherHttpClient) :=
  match l with
  | [] => Ok ([], s)
  | i :: l =>
      match client_input i s with
      | Ok (_, sent, s) => '(more, s) ← run_inputs l s; Ok (sent ++ more, s)
      | Err e => Err e
      | Panic => Panic
      end
  end.

Lemma run_inputs_run l : forall s0 inputs log sent0 s sent s',
  client_run s0 inputs log sent0 s -> run_inputs l s = Ok (sent, s') ->
  exists log', client_run s0 (inputs ++ l) log' (sent0 ++ sent) s'.
Proof.
  induction l as [|i l IH]; intros s0 inputs log sent0 s sent s' Hr; cbn [run_inputs].
  - intros [= <- <-]. exists log. by rewrite !app_nil_r.
  - destruct (client_input i s) as [[[taken m] s1]|e|] eqn:Ei; [|done..].
    intros ([more s2] & H2 & [= <- <-])%res_bind_inv.
    destruct (IH s0 (inputs ++ [i]) (log ++ taken) (sent0 ++ m) s1 more s2) as [log' Hl];
      [by econstructor|done|]. exists log'. by rewrite <- !app_assoc in Hl.
Qed.

(** The inputs after which the client is connected. *)
Definition joining : list ClientInput :=
  [HConnect (str "peer") (str "http://server") (join_draw answering_socket);
   client_frame 1 []; client_frame 2 [EvReady None]].

Definition trusting_client : NetherHttpClient := set_server_trust (Some AnyToken) client_default.

Definition ends_connected (r : Res unit (list (SocketAddr * bytes) * NetherHttpClient)) : bool :=
  match r with
  | Ok ([_], s) => is_connected s &&
      match pool (link s) with Some [Add _ _ _] => true | _ => false end
  | _ => false
  end.

Lemma joining_connects : ends_connected (run_inputs joining trusting_client) = true.
Proof. vm_compute. reflexivity. Qed.

Lemma ends_connected_inv r : ends_connected r = true -> exists sent s conn u,
  r = Ok ([sent], s) /\ is_connected s = true /\ pool (link s) = Some [Add tt conn u].
Proof.
  destruct r as [[[|x [|y l]] s]| |]; cbn [ends_connected]; try done. intros [Hc Hp]%andb_true_iff.
  destruct (pool (link s)) as [[|[[] conn u| | |] [|]]|] eqn:Ep; try done. by exists x, s, conn, u.
Qed.

Lemma client_joined_run : exists log sent s conn u,
  client_run trusting_client joining log [sent] s /\ is_connected s = true /\ pool (link s) = Some [Add tt conn u].
Proof.
  destruct (ends_connected_inv _ joining_connects) as (sent & s & conn & u & E & Hc & Hp).
  destruct (run_inputs_run joining trusting_client [] [] [] _ _ _ (hrun_nil _) E) as [log Hl].
  exists log, sent, s, conn, u. split; [exact Hl|]. split; [exact Hc|exact Hp].
Qed.

Lemma http_client_answers_authentic_witness :
  exists conn, answered (configured trusting_client joining) conn.
Proof.
  destruct client_joined_run as (log & sent & s & conn & u & Hr & _ & Hp). exists conn.
  apply (http_client_answers_authentic trusting_client joining log [sent] s [Add tt conn u] conn u);
    [reflexivity|by eexists| |exact Hr|exact Hp|by left].
  unfold joining. rewrite !elem_of_cons. intros [|[|[|Hn%elem_of_nil]]]; done.
Defined.

(** ** Used well *)

Lemma run_inputs_well l : forall log s sent s',
  forallb (fun i => match i with HConnect _ _ _ => false | _ => true end) l = true ->
  well_run client_default log s -> run_inputs l s = Ok (sent, s') -> exists log', well_run client_default log' s'.
Proof.
  induction l as [|i l IH]; intros log s sent s' Hl Hr; cbn [run_inputs]; [intros [= _ <-]; by exists log|].
  cbn in Hl. apply andb_true_iff in Hl as [Hi Hl].
  destruct (client_input i s) as [[[taken m] s1]|e|] eqn:Ei; [|done..].
  intros ([more s2] & H2 & [= _ <-])%res_bind_inv. eapply IH; [done| |exact H2].
  eapply wrun_step; [exact Hr| |exact Ei]. by destruct i.
Qed.

Definition first_join : ClientInput := HConnect (str "peer") (str "http://server") (join_draw answering_socket).

Definition is_ready (r : Res unit (list (SocketAddr * bytes) * NetherHttpClient)) : bool :=
  match r with Ok (_, s) => is_connected s | _ => false end.

Definition begun : NetherHttpClient :=
  match client_input first_join client_default with Ok (_, _, s) => s | _ => client_default end.

Definition begun_ok (r : Res unit (list NetherHttpClientEvent * list (SocketAddr * bytes) * NetherHttpClient)) : bool :=
  match r with Ok _ => true | _ => false end.

Lemma begin_run : exists log, well_run client_default log begun.
Proof.
  assert (begun_ok (client_input first_join client_default) = true) as Hb by (vm_compute; reflexivity).
  unfold begun. destruct (client_input first_join client_default) as [[[taken m] s]|e|] eqn:E; [|done..].
  exists ([] ++ taken). eapply (wrun_step _ _ _ first_join); [apply wrun_nil|exact (eq_refl false)|exact E].
Qed.

Lemma ready_frames : is_ready (run_inputs [client_frame 1 []; client_frame 2 [EvReady None]] begun) = true.
Proof. vm_compute. reflexivity. Qed.

Lemma is_ready_inv r : is_ready r = true -> exists sent s, r = Ok (sent, s) /\ is_connected s = true.
Proof. destruct r as [[sent s]| |]; [|done..]. by exists sent, s. Qed.

Lemma well_connected : exists log s, well_run client_default log s /\ is_connected s = true.
Proof.
  destruct (is_ready_inv _ ready_frames) as (sent & s & E & Hc). destruct begin_run as [log Hr].
  eapply run_inputs_well in E as [log' Hl]; [|reflexivity|exact Hr]. by exists log', s.
Qed.

Lemma http_client_events_witness : exists log s, track (log ++ events (queues s)) = Some true.
Proof.
  destruct well_connected as (log & s & Hr & Hc). exists log, s. rewrite <- Hc.
  exact (http_client_events log s Hr).
Defined.

Lemma begun_joins : bool_decide (is_Some (join (link begun))) = true.
Proof. vm_compute. reflexivity. Qed.

(** A frame long after the request was sent. *)
Definition late_frame : Frame :=
  {| f_now := secs 100; f_wall := 0; f_msgs := []; f_join := join_draw mute_socket |}.

Definition survives (f : Frame) (s : NetherHttpClient) : bool :=
  match update_query (f_now f) s with
  | Ok s1 =>
      match update_join (f_now f) (f_wall f) s1 with
      | Ok s2 => match prepare_join (f_join f) (use_attempt (drive_pool (f_msgs f) s2)) with
                 | Panic => false | _ => true end
      | _ => false
      end
  | _ => false
  end.

Lemma survives_inv f s : survives f s = true -> frame_survives f s.
Proof.
  unfold survives, frame_survives. destruct (update_query (f_now f) s) as [s1| |]; [|done..].
  destruct (update_join (f_now f) (f_wall f) s1) as [s2| |] eqn:E2; [|done..]. intros Hp. exists s1, s2.
  split_and!; [done..|]. by destruct (prepare_join _ _).
Qed.

Lemma late_frame_survives : survives late_frame begun = true.
Proof. vm_compute. reflexivity. Qed.

Lemma begun_deadline :
  bool_decide (connecting_deadline (link begun) = Some (negotiation Timeouts_default)) = true.
Proof. vm_compute. reflexivity. Qed.

Lemma http_client_never_stuck_witness :
  is_Some (join (link begun)) /\ (ready (link begun) = true \/ is_Some (connecting_deadline (link begun))) /\
  exists sent s', update late_frame begun = Ok (sent, s') /\ deadline_met late_frame begun sent s'.
Proof.
  destruct begin_run as [log Hr].
  pose proof (bool_decide_eq_true_1 _ begun_joins) as Hj. split; [exact Hj|].
  destruct (http_client_never_stuck log begun Hr) as (H1 & H2 & _). split; [apply H1; by left|].
  apply (H2 (negotiation Timeouts_default) late_frame).
  - exact (bool_decide_eq_true_1 _ begun_deadline).
  - vm_compute. discriminate.
  - exact (survives_inv _ _ late_frame_survives).
Defined.

(** ** A second attempt *)

Definition unanswered : Res StartError (SocketAddr * bytes) * NetherHttpClient :=
  client_connect (str "peer") (str "http://server") (join_draw mute_socket) client_default.

Definition sends_again (r : Res unit (list (SocketAddr * bytes) * NetherHttpClient)) : bool :=
  is_ok unanswered.1 && match r with Ok ([_], _) => true | _ => false end.

Lemma second_request : sends_again (run_inputs [client_frame (secs 100) []] unanswered.2) = true.
Proof. vm_compute. reflexivity. Qed.

Lemma sends_again_inv r : sends_again r = true ->
  is_ok unanswered.1 = true /\ exists sent s, r = Ok ([sent], s).
Proof.
  unfold sends_again. intros [H1 H2]%andb_true_iff. split; [done|].
  destruct r as [[[|x [|y l]] s]| |]; try done. by exists x, s.
Qed.

Lemma http_client_attempts_witness : 1 + 1 <= Z.max DEFAULT_ATTEMPTS 1.
Proof.
  destruct (sends_again_inv _ second_request) as (H1 & sent & s & E).
  destruct (run_inputs_run _ _ [] [] [] _ _ _ (hrun_nil _) E) as [log Hl].
  pose proof (http_client_attempts client_default (str "peer") (str "http://server") (join_draw mute_socket)
    unanswered.1 unanswered.2 _ _ _ s ltac:(apply surjective_pairing) Hl) as H.
  rewrite H1 in H. apply H. intros nid url d Hin%list_elem_of_singleton. discriminate Hin.
Defined.
