(* ===== verification/TokioInstance.v ===== *)
(** * TokioInstance: concrete tasks

    The theorems of [TokioSession.v], [LanTask.v] and [HttpTask.v] on tasks that
    run a few rounds. *)
From S2P Require Import Prelude Text Errors Codec SignalMsg ServerDataModel Discovery Endpoint IpRange Candidate Router Sans.
From S2P Require Import Identity ServerIdentity IdentityInstance LanSignaler HttpSignaler Webrtc WebrtcInstance.
From S2P Require Import Framing Transports Session SessionInstance Connection ServerInstance HttpServerInstance.
From S2P Require Import SharedSocket TokioBase TokioSession LanTask HttpTask.

#[local] Existing Instances toy_crypto toy_base64 toy_base64_laws toy_serde toy_serde_laws tiny_p384
  toy_rsa simple_net.
#[local] Existing Instance tiny_sdp | 0.

(** ** A session that is answered *)

Definition answered_task : TokioSession.Task :=
  TokioSession.task_new {| c_session := sample_session; c_connection_id := 42;
    remote_network_id := str "peer"; remote_identity := None |} 0.

Definition quick_env (_ : nat) : OutputEnv :=
  {| reliable_open := true; unreliable_room := true; output_clock := 5 |}.

Definition answer_turn : TokioSession.Turn :=
  TCommand (Some (CmdSignal (signal_answer 42 signed_text (str "peer")))) 5.
Definition candidate_turn : TokioSession.Turn :=
  TCommand (Some (CmdSignal (signal_candidate 42 (str "candidate:111 x") (str "peer")))) 6.


(** The rounds end with the first check on its way to the candidate. *)
Definition checks (r : Res unit (TokioSession.Task * list TokioSession.Effect * bool)) : bool :=
  match r with Ok (_, FxSend _ to :: _, false) => bool_decide (to = toy_addr 7) | _ => false end.

Definition quiet (r : Res unit (TokioSession.Task * list TokioSession.Effect * bool)) : bool :=
  match r with Ok (_, [], false) => true | _ => false end.

Lemma answered_quiet : quiet (TokioSession.drive_round answer_turn quick_env answered_task) = true.
Proof. vm_compute. reflexivity. Qed.

Lemma candidate_checked :
  checks ('(t, _, _) ← TokioSession.drive_round answer_turn quick_env answered_task;
          TokioSession.drive_round candidate_turn quick_env t) = true.
Proof. vm_compute. reflexivity. Qed.

Lemma checks_inv r : checks r = true -> exists t data fx, r = Ok (t, FxSend data (toy_addr 7) :: fx, false).
Proof.
  destruct r as [[[t [|[data to| | | | |] fx]] []]| |]; cbn [checks]; try done.
  intros ->%bool_decide_eq_true. by exists t, data, fx.
Qed.

Lemma two_rounds t0 u1 u2 env t1 t2 fx :
  TokioSession.drive_round u1 env t0 = Ok (t1, [], false) ->
  TokioSession.drive_round u2 env t1 = Ok (t2, fx, false) -> TokioSession.drive_run t0 fx t2 false.
Proof.
  intros H1 H2. apply (TokioSession.drive_step t0 [] t1 u2 env fx t2); [|exact H2].
  apply (TokioSession.drive_step t0 [] t0 u1 env [] t1); [apply TokioSession.drive_start|exact H1].
Qed.

Lemma quiet_inv r : quiet r = true -> exists t, r = Ok (t, [], false).
Proof. destruct r as [[[t [|]] []]| |]; try discriminate. intros _. by exists t. Qed.

Lemma checked_run : exists t data fx,
  TokioSession.drive_run answered_task (FxSend data (toy_addr 7) :: fx) t false.
Proof.
  destruct (quiet_inv _ answered_quiet) as [t1 E]. pose proof candidate_checked as Hc.
  rewrite E in Hc. cbn [res_bind] in Hc. apply checks_inv in Hc as (t & data & fx & Ht). exists t, data, fx.
  exact (two_rounds answered_task answer_turn candidate_turn quick_env t1 t _ E Ht).
Qed.

Lemma session_task_faithful_witness :
  exists t outs data, trace sample_session outs (c_session (TokioSession.connection t)) /\
    OSend data (toy_addr 7) ∈ outs /\ (OEvent Failed ∉ outs).
Proof.
  destruct checked_run as (t & data & fx & Hrun).
  destruct (session_task_faithful sample_addr [] true (str "abcd") (str "secret") (str "r") 0 sample_session
    sample_local 42 (str "peer") None 0 _ t false sample_new Hrun) as (outs & Ht & Hc & _ & _ & _ & Hf).
  exists t, outs, data. split; [exact Ht|]. split; [|exact (Hf eq_refl)].
  apply list_elem_of_In, (proj1 (filter_In visible_output (OSend data (toy_addr 7)) outs)). rewrite <- Hc. by left.
Defined.

(** ** LAN signaling *)

Definition lan_task : LanTask.Task :=
  LanTask.task_new 1 (socket_addr_new LOCALHOST 0) LanSignalerConfig_default true 0.

(** A request of network 2 arrives at a dual-stack socket and is answered. *)
Definition request_turn : LanTask.Turn :=
  LTReceived (Some (forged_request, socket_addr_new (to_ipv6_mapped 192 168 1 2) 7551)) 5.

Definition peer_known (r : Res unit (LanTask.Task * list LanTask.Effect * bool)) : bool :=
  match r with Ok (t, _, false) => bool_decide (cached t !! 2 = Some sample_peer) | _ => false end.

Lemma request_known : peer_known (LanTask.drive_round request_turn (fun _ => 5) lan_task) = true.
Proof. vm_compute. reflexivity. Qed.

Lemma peer_known_inv r : peer_known r = true ->
  exists t fx, r = Ok (t, fx, false) /\ cached t !! 2 = Some sample_peer.
Proof.
  destruct r as [[[t fx] []]| |]; cbn [peer_known]; try done. intros Hc%bool_decide_eq_true. by exists t, fx.
Qed.

Lemma lan_task_faithful_witness :
  exists t, LanSignaler.output (LanTask.signaler t) = [] /\
    address (LanTask.signaler t) 2 = Some sample_peer.
Proof.
  destruct (peer_known_inv _ request_known) as (t & fx & Hr & Hc). exists t.
  destruct (lan_task_faithful 1 (socket_addr_new LOCALHOST 0) LanSignalerConfig_default true 0 ([] ++ fx) t)
    as (_ & Hq & Ha).
  - exact (ldrive_step _ [] lan_task request_turn (fun _ => 5) fx t false (ldrive_start _) Hr).
  - split; [exact Hq|]. specialize (Ha 2 0). cbn [LanTask.run_command] in Ha. rewrite Hc in Ha.
    injection Ha as Ha. symmetry. exact Ha.
Defined.

Lemma reply_reaches_source_witness :
  LanTask.socket_family (SharedSocket.canonical (socket_addr_new (to_ipv6_mapped 192 168 1 2) 7551)) true
  = socket_addr_new (to_ipv6_mapped 192 168 1 2) 7551.
Proof.
  apply (reply_reaches_source (socket_addr_new (to_ipv6_mapped 192 168 1 2) 7551)).
  - repeat split; vm_compute; congruence.
  - reflexivity.
Defined.

(** ** HTTP signaling *)

Definition unsigned_join_config : HttpSignalerConfig := {|
  max_connections_per_address := 1; max_pending_joins := 1; answer_timeout := secs 10;
  trusted_proxies := range_set_empty; advertised_addresses := []; HttpSignaler.token_trust := None;
  serve_motd := true;
|}.

Definition arrive_turn : HttpTask.Turn := HTCommand (Some (HConnected 1 sample_peer)) 5.

Definition admits (r : Res unit (HttpTask.Task * list HttpTask.Effect * bool)) : bool :=
  match r with
  | Ok (t, [HFxAdmitted 1 true], false) => bool_decide (is_Some (connections (HttpTask.signaler t) !! 1))
  | _ => false
  end.

Lemma arrival_admits :
  admits (HttpTask.drive_round arrive_turn (fun _ => 5) (HttpTask.task_new unsigned_join_config 0)) = true.
Proof. vm_compute. reflexivity. Qed.

Lemma arrival_inv r : admits r = true -> exists t, r = Ok (t, [HFxAdmitted 1 true], false) /\
  is_Some (connections (HttpTask.signaler t) !! 1).
Proof.
  unfold admits. intros Ha. repeat case_match; try discriminate Ha. apply bool_decide_eq_true in Ha. by eexists.
Qed.

(** A join on the connection, which is announced and then answered. *)
Definition unsigned_join : HttpSignaler.Request := {|
  method := POST; path := str "/v1/join/peer"; HttpSignaler.version := OtherVersion;
  header_text := fun _ => None; body := str "v=0" |}.

Definition ask_turn : HttpTask.Turn := HTCommand (Some (HRequest 1 unsigned_join 42 0)) 5.
Definition reply_turn : HttpTask.Turn := HTCommand (Some (HAnswer 42 (str "v=1"))) 6.

Definition http_clock (_ : nat) : Instant := 5.

(** The join, its answer, another join that is still waiting when the task ends. *)
Definition served_turns : list HttpTask.Turn :=
  [arrive_turn; ask_turn; reply_turn; HTCommand (Some (HRequest 1 unsigned_join 43 0)) 7; HTCancelled].

Fixpoint run_turns (l : list HttpTask.Turn) (fx : list HttpTask.Effect) (t : HttpTask.Task) (ended : bool)
    : Res unit (list HttpTask.Effect * HttpTask.Task * bool) :=
  match l with
  | [] => Ok (fx, t, ended)
  | u :: l =>
      if ended then Panic
      else match HttpTask.drive_round u http_clock t with
           | Ok (t, fx1, ended) => run_turns l (fx ++ fx1) t ended
           | _ => Panic
           end
  end.

Lemma run_turns_run l : forall t0 turns fx t b fx' t' b',
  HttpTask.drive_run t0 turns fx t b -> run_turns l fx t b = Ok (fx', t', b') ->
  HttpTask.drive_run t0 (turns ++ l) fx' t' b'.
Proof.
  induction l as [|u l IH]; intros t0 turns fx t b fx' t' b' Hr; cbn [run_turns].
  { intros [= <- <- <-]. by rewrite app_nil_r. }
  destruct b; [done|]. destruct (HttpTask.drive_round u http_clock t) as [[[t1 fx1] b1]| |] eqn:E; try done.
  intros Hl. rewrite (cons_middle u), app_assoc. eapply IH; [|exact Hl]. by eapply hdrive_step.
Qed.

Definition ends (r : Res unit (list HttpTask.Effect * HttpTask.Task * bool)) : bool :=
  match r with Ok (_, _, true) => true | _ => false end.

Lemma served_turns_end : ends (run_turns served_turns [] (HttpTask.task_new unsigned_join_config 0) false) = true.
Proof. vm_compute. reflexivity. Qed.

Lemma served_turns_run : exists fx t, HttpTask.drive_run (HttpTask.task_new unsigned_join_config 0) served_turns fx t true.
Proof.
  pose proof served_turns_end as He. destruct (run_turns _ _ _ _) as [[[fx t] []]| |] eqn:E; try discriminate He.
  exists fx, t. exact (run_turns_run _ _ _ _ _ _ _ _ _ (hdrive_start _) E).
Qed.

(** The first request is answered, the second is not. *)
Definition served_fates (l : list (option (option (HttpSignaler.Response * bool)))) : bool :=
  match l with
  | [Some (Some (response, keep)); Some None] =>
      HttpSignaler.response_status response =? HttpSignaler.OK
  | _ => false
  end.

Lemma served_fates_answer :
  served_fates (fates (run_log served_turns (http_new unsigned_join_config)).1) = true.
Proof. vm_compute. reflexivity. Qed.

Lemma served_fates_inv l : served_fates l = true ->
  exists response keep, l = [Some (Some (response, keep)); Some None] /\ HttpSignaler.response_status response = HttpSignaler.OK.
Proof.
  unfold served_fates. destruct l as [|[[[response keep]|]|] [|[[]|] [|]]]; try done.
  intros E%Z.eqb_eq. by exists response, keep.
Qed.

Lemma http_task_answers_once_witness :
  exists fx t response keep,
    HttpTask.drive_run (HttpTask.task_new unsigned_join_config 0) served_turns fx t true /\
    HttpSignaler.response_status response = HttpSignaler.OK /\
    outcomes 0 fx = [HFxResponse 0 response keep] /\ outcomes 1 fx = [HFxDropped 1] /\ requests t = 2%nat.
Proof.
  destruct served_turns_run as (fx & t & Hrun). exists fx, t.
  destruct (served_fates_inv _ served_fates_answer) as (response & keep & Ef & Hs). exists response, keep.
  pose proof (http_task_answers_once unsigned_join_config 0 served_turns fx t true Hrun) as Ha.
  destruct (run_log served_turns (http_new unsigned_join_config)) as [log s]. cbn [fst] in Ef.
  destruct Ha as (_ & Hn & Ho & _). rewrite Ef in Hn, Ho.
  split; [exact Hrun|]. split; [exact Hs|]. split; [exact (Ho 0%nat)|]. split; [exact (Ho 1%nat)|exact Hn].
Defined.

Lemma http_task_limits_witness :
  exists t (fx : list HttpTask.Effect), is_Some (connections (HttpTask.signaler t) !! 1) /\ HFxAdmitted 1 true ∈ fx /\
    forall a, HttpSignaler.held_by (connections (HttpTask.signaler t)) a <= 1.
Proof.
  destruct (arrival_inv _ arrival_admits) as (t & Hr & Hc). exists t, [HFxAdmitted 1 true]. split; [exact Hc|].
  destruct (http_task_limits unsigned_join_config 0 _ _ ltac:(by vm_compute) ltac:(by vm_compute)
    (serve_accept _ 0 [] (HttpTask.server_new unsigned_join_config 0) sample_peer 5 (fun _ => 5) _ t
       (serve_start _ 0) Hr)) as (Hh & _ & Ha & _).
  split; [exact (Ha 1 Hc)|exact Hh].
Defined.
