(* ===== verification/TokioServer.v ===== *)
(** * TokioServer: the server of the tokio front end
    ([nethernet-tokio/src/transport/server.rs], with the dispatch of
    [signaling/mod.rs])

    The server is a task that takes signals, and one task per session that waits
    until it is ready.  A step of the model is a turn of the first, the end of
    one of the second, or a call of the owner; what the other parts of the
    program answer (the signaling, the sockets, the clocks) comes with it.  The
    sessions are numbered in the order they are opened.  A forwarder only
    filters what is dispatched to its session, so it is part of the dispatch. *)
From S2P Require Import Prelude Text Errors SignalMsg Endpoint Discovery Identity ServerIdentity Webrtc.
From S2P Require Import Candidate Framing Transports Sans Session Connection Admission Pending ServerSessions TokioBase.

(** ** [signaling/mod.rs] *)

Inductive ServerSignaling := SgLan | SgHttp.

Definition disable_trickle_ice (sg : ServerSignaling) : bool :=
  match sg with SgLan => false | SgHttp => true end.

(** [player] and [host]: what the HTTP signaler has. *)
Definition signaled {A} (sg : ServerSignaling) (x : option A) : option A :=
  match sg with SgLan => None | SgHttp => x end.

Definition validates_offers (sg : ServerSignaling) : bool :=
  match sg with SgLan => false | SgHttp => true end.

Definition requires_identity (sg : ServerSignaling) : bool :=
  match sg with SgLan => false | SgHttp => true end.

(** A signal's place in the table of dispatchers. *)
Abbreviation ConnectionKey := (bytes * Z)%type.

Definition key_of (g : Signal) : ConnectionKey := (network_id g, connection_id g).

Section server.
Context `{b64 : Base64} `{serde : Serde} `{p384 : P384} `{rsa : Rsa}.
Context {crypto : CryptoOps} {sdp : Sdp} {cand : IceCandidate} {cert : CertificateOps}
  {iceops : IceOps} {dtlsops : DtlsOps} {sctpops : SctpOps} {dcepops : DcepOps}.

(** Where the cancellation of the settings' token finds the handling of an offer. *)
Inductive Cancel := BeforeAdmission | BeforeMedia | BeforeSignal (i : nat).

#[local] Instance Cancel_eq_dec : EqDecision Cancel.
Proof. solve_decision. Defined.

(** What handling an offer finds: the answers of the signaling, the socket that is
    bound, the interfaces, the draws of the session, the clocks and what sending
    each signal gives. *)
Record OfferEnv := {
  oe_address : option SocketAddr;
  oe_player : option PlayerInfo;
  oe_host : option bytes;
  oe_wall : SystemTime;
  oe_socket : Res unit Z;
  oe_probe : option IpAddr;
  oe_interfaces : list (IpAddr * bool);
  oe_ufrag : bytes; oe_pwd : bytes; oe_random : bytes;
  oe_clock : SystemTime;
  oe_now : Instant;
  oe_sent : nat -> Res NetherError unit;
  oe_cancelled : option Cancel;
}.

(** A session that was opened; [sp_route] is its fragment on a shared socket,
    [sp_waiting] whether its slot is held, [sp_open] whether it is not closed. *)
Record Spawned := {
  sp_key : ConnectionKey;
  sp_connection : Connection;
  sp_route : option bytes;
  sp_player : option PlayerInfo;
  sp_host : option bytes;
  sp_waiting : bool;
  sp_open : bool;
}.

(** The server with its tasks; [shared] is the address and the addresses to
    advertise of the shared socket. *)
Record NetherServer := {
  signaling : ServerSignaling;
  config : ConnectionConfig;
  shared : option (SocketAddr * list IpAddr);
  server_trust : option TokenTrust;
  dispatchers : gmap ConnectionKey nat;
  counts : Counts;
  spawned : list Spawned;
  incoming : list nat;
  running : bool;
}.

Inductive Effect :=
| VFxSignal (g : Signal)
| VFxCommand (session : nat) (g : Signal)
| VFxClose (session : nat)
| VFxSetTrust (t : option TokenTrust).

Definition set_trust (t : option TokenTrust) (s : NetherServer) : NetherServer := {|
  signaling := signaling s; config := config s; shared := shared s; server_trust := t;
  dispatchers := dispatchers s; counts := counts s; spawned := spawned s; incoming := incoming s;
  running := running s |}.
Definition set_dispatchers (m : gmap ConnectionKey nat) (s : NetherServer) : NetherServer := {|
  signaling := signaling s; config := config s; shared := shared s; server_trust := server_trust s;
  dispatchers := m; counts := counts s; spawned := spawned s; incoming := incoming s;
  running := running s |}.
Definition set_pending (c : Counts) (l : list Spawned) (s : NetherServer) : NetherServer := {|
  signaling := signaling s; config := config s; shared := shared s; server_trust := server_trust s;
  dispatchers := dispatchers s; counts := c; spawned := l; incoming := incoming s;
  running := running s |}.
Definition set_incoming (l : list nat) (b : bool) (s : NetherServer) : NetherServer := {|
  signaling := signaling s; config := config s; shared := shared s; server_trust := server_trust s;
  dispatchers := dispatchers s; counts := counts s; spawned := spawned s; incoming := l;
  running := b |}.

(** ** Binding *)

(** [bound] is what binding the shared socket gives. *)
Definition bind_with (sg : ServerSignaling) (c : ConnectionConfig)
    (bound : SocketAddr -> Res NetherError (SocketAddr * list IpAddr)) : Res NetherError NetherServer :=
  if requires_identity sg && negb (bool_decide (is_Some (cfg_identity c))) && negb (cfg_allow_unsigned_answers c)
  then Err IdentityRequired
  else
    shared ← match cfg_media_addr c with
             | Some addr => x ← bound addr; Ok (Some x)
             | None => Ok None
             end;
    Ok {| signaling := sg; config := c; shared := shared; server_trust := cfg_token_trust c;
          dispatchers := ∅; counts := ∅; spawned := []; incoming := []; running := true |}.

(** ** Offers *)

Definition offer_policy (s : NetherServer) : OfferPolicy :=
  let mode := if disable_trickle_ice (signaling s) then Full else Trickle in
  let p := with_inferred_peer_candidates (cfg_infer_peer_candidates (config s)) (policy_new mode) in
  let p := with_establish_deadline (establish (cfg_timeouts (config s))) p in
  let p := match cfg_identity (config s) with Some i => with_identity i p | None => p end in
  match server_trust s with
  | Some t => if validates_offers (signaling s) then p else with_token_trust t p
  | None => p
  end.

Definition peer_connection_failed : Failure := (Some FailedToCreatePeerConnection, NIo).

(** The address of the session and those it advertises. *)
Definition media (e : OfferEnv) (s : NetherServer) : Res Failure (SocketAddr * list IpAddr) :=
  match shared s with
  | Some x => Ok x
  | None =>
      port ← map_err (fun _ => peer_connection_failed) (oe_socket e);
      let primary := ip (local_bind_addr (oe_probe e)) in
      Ok (socket_addr_new primary port, advertisable_addresses primary (oe_interfaces e))
  end.

Definition cancel_at (c : Cancel) (e : OfferEnv) : Res Failure unit :=
  if bool_decide (oe_cancelled e = Some c) then Err (None, ConnectionClosed) else Ok tt.

(** The clone of the trust that the policy refers to shares its notes. *)
Definition prepare_answer (g : Signal) (e : OfferEnv) : SE NetherServer Failure Answered := fun s =>
  match cancel_at BeforeAdmission e with
  | Ok _ =>
      let '(admitted, policy) := policy_admit g (oe_address e) (oe_wall e) (offer_policy s) in
      let s := if validates_offers (signaling s) then s else set_trust (token_trust policy) s in
      ((a ← map_err (fun x => (Some (code x), NAdmission x)) admitted;
        _ ← cancel_at BeforeMedia e;
        '(bound_addr, advertised) ← media e s;
        map_err (fun x => (Some (code x), NAdmission x))
          (answer_advertising a bound_addr advertised (oe_ufrag e) (oe_pwd e) (oe_random e) (oe_clock e)
             (oe_now e))), s)
  | Err f => (Err f, s)
  | Panic => (Panic, s)
  end.

Definition cancelled_before (e : OfferEnv) (i : nat) : bool :=
  bool_decide (oe_cancelled e = Some (BeforeSignal i)).

(** Giving a slot back. *)
Definition drop_slot (slot : bytes) (s : NetherServer) : Res unit NetherServer :=
  c ← release slot (counts s); Ok (set_pending c (spawned s) s).

(** The session is opened, and signals for it go to it from now on. *)
Definition open_session (g : Signal) (e : OfferEnv) (a : Answered) (s : NetherServer) : NetherServer :=
  let sp := {|
    sp_key := key_of g; sp_connection := Admission.connection a;
    sp_route := match shared s with Some _ => Some (local_ufrag a) | None => None end;
    sp_player := match answered_player a with Some p => Some p | None => signaled (signaling s) (oe_player e) end;
    sp_host := signaled (signaling s) (oe_host e); sp_waiting := true; sp_open := true |} in
  let n := length (spawned s) in
  set_dispatchers (<[key_of g := n]> (dispatchers s)) (set_pending (counts s) (spawned s ++ [sp]) s).

Definition answer_offer (g : Signal) (e : OfferEnv) (s : NetherServer)
    : Res unit (Res Failure unit * NetherServer * list Effect) :=
  match try_admit (network_id g) (cfg_max_pending (config s)) (cfg_max_pending_per_network_id (config s))
          (counts s) with
  | (None, _) =>
      Ok (Err (Some IncomingConnectionIgnored, PendingCountExceeded (network_id g)), s, [])
  | (Some slot, c) =>
      match prepare_answer g e (set_pending c (spawned s) s) with
      | (Panic, _) => Panic
      | (Err f, s) => s ← drop_slot slot s; Ok (Err f, s, [])
      | (Ok answered, s) =>
          let '(sent, r) := send_signals 0 (cancelled_before e) (oe_sent e) (signals answered) in
          match r with
          | Ok _ => Ok (Ok tt, open_session g e answered s, VFxSignal <$> sent)
          | Err f => s ← drop_slot slot s; Ok (Err f, s, VFxSignal <$> sent)
          | Panic => Panic
          end
      end
  end.

(** [handle_offer]: a failure with a code is signaled to the peer. *)
Definition failure_signal (g : Signal) (r : Res Failure unit) : list Effect :=
  match r with
  | Err (Some code, _) => [VFxSignal (signal_error (connection_id g) code (network_id g))]
  | _ => []
  end.

Definition handle_offer (g : Signal) (e : OfferEnv) (s : NetherServer) : Res unit (NetherServer * list Effect) :=
  '(r, s, fx) ← answer_offer g e s;
  Ok (s, fx ++ failure_signal g r).

(** ** Dispatching *)

(** Whether the forwarder of the session still takes signals. *)
Definition forwards (s : NetherServer) (n : nat) : bool :=
  match spawned s !! n with Some sp => sp_open sp | None => false end.

Definition retain_dispatchers (s : NetherServer) : NetherServer :=
  set_dispatchers (filter (fun '(_, n) => forwards s n = true) (dispatchers s)) s.

(** The forwarder passes candidates on. *)
Definition dispatch (g : Signal) (s : NetherServer) : NetherServer * list Effect :=
  match dispatchers s !! key_of g with
  | None => (s, [])
  | Some n =>
      if forwards s n
      then (s, if bool_decide (signal_type g = SignalMsg.Candidate) then [VFxCommand n g] else [])
      else (set_dispatchers (delete (key_of g) (dispatchers s)) s, [])
  end.

Definition handle_signal (g : Signal) (e : OfferEnv) (s : NetherServer) : Res unit (NetherServer * list Effect) :=
  match signal_type g with
  | Offer => handle_offer g e (retain_dispatchers s)
  | _ => Ok (dispatch g s)
  end.

(** ** Waiting for a session *)

Definition set_sp (waiting open : bool) (sp : Spawned) : Spawned := {|
  sp_key := sp_key sp; sp_connection := sp_connection sp; sp_route := sp_route sp;
  sp_player := sp_player sp; sp_host := sp_host sp; sp_waiting := waiting; sp_open := open |}.

(** The end of the task that waits for session [n].  An accepted session that
    nobody can take any more is dropped, which closes it. *)
Definition finish_wait (n : nat) (o : WaitOutcome) (s : NetherServer) : Res unit (NetherServer * list Effect) :=
  match spawned s !! n with
  | Some sp =>
      if sp_waiting sp then
        c ← release (sp_key sp).1 (counts s);
        match wait_result o with
        | Ok _ =>
            if running s
            then Ok (set_incoming (incoming s ++ [n]) true
                       (set_pending c (<[n := set_sp false (sp_open sp) sp]> (spawned s)) s), [])
            else Ok (set_pending c (<[n := set_sp false false sp]> (spawned s)) s, [])
        | r =>
            Ok (set_pending c (<[n := set_sp false false sp]> (spawned s)) s,
                VFxClose n :: match r with
                              | Err (Some code, _) =>
                                  [VFxSignal (signal_error (sp_key sp).2 code (sp_key sp).1)]
                              | _ => []
                              end)
        end
      else Ok (s, [])
  | None => Ok (s, [])
  end.

(** ** The owner *)

Definition accept (s : NetherServer) : option nat * NetherServer :=
  match incoming s with
  | [] => (None, s)
  | n :: l => (Some n, set_incoming l (running s) s)
  end.

Definition close_session (n : nat) (s : NetherServer) : NetherServer :=
  match spawned s !! n with
  | Some sp => set_pending (counts s) (<[n := set_sp (sp_waiting sp) false sp]> (spawned s)) s
  | None => s
  end.

(** The queue is emptied, and with the handler its dispatchers go. *)
Definition close (s : NetherServer) : NetherServer * list Effect :=
  (set_dispatchers ∅ (set_incoming [] false (fold_left (fun s n => close_session n s) (incoming s) s)),
   VFxClose <$> incoming s).

Definition set_token_trust (t : option TokenTrust) (s : NetherServer) : NetherServer * list Effect :=
  match signaling s with
  | SgHttp => (s, [VFxSetTrust t])
  | SgLan => (set_trust t s, [])
  end.

Inductive ServerInput :=
| VSignal (g : Signal) (e : OfferEnv)
| VWaited (n : nat) (o : WaitOutcome)
| VSessionClosed (n : nat)
| VAccept
| VSetTokenTrust (t : option TokenTrust)
| VClose.

(** The session that is accepted, what is done and the state after. *)
Definition server_input (i : ServerInput) (s : NetherServer) : Res unit (option nat * list Effect * NetherServer) :=
  match i with
  | VSignal g e =>
      if running s then '(s, fx) ← handle_signal g e s; Ok (None, fx, s) else Ok (None, [], s)
  | VWaited n o => '(s, fx) ← finish_wait n o s; Ok (None, fx, s)
  | VSessionClosed n => Ok (None, [], close_session n s)
  | VAccept => let '(n, s) := accept s in Ok (n, [], s)
  | VSetTokenTrust t => let '(s, fx) := set_token_trust t s in Ok (None, fx, s)
  | VClose => let '(s, fx) := close s in Ok (None, fx, s)
  end.

(** The inputs, the sessions accepted and the effects of a run. *)
Inductive server_run (s0 : NetherServer) : list ServerInput -> list nat -> list Effect -> NetherServer -> Prop :=
| vrun_nil : server_run s0 [] [] [] s0
| vrun_step inputs acc fx s i n fx' s' :
    server_run s0 inputs acc fx s -> server_input i s = Ok (n, fx', s') ->
    server_run s0 (inputs ++ [i]) (acc ++ option_list n) (fx ++ fx') s'.

(** ** What the steps do *)

(** What handling an offer leaves alone; the trust may have noted something. *)
Definition same_base (s s' : NetherServer) : Prop :=
  signaling s' = signaling s /\ config s' = config s /\ shared s' = shared s /\
  incoming s' = incoming s /\ running s' = running s /\ noted (server_trust s) (server_trust s').

Lemma noted_refl (o : option TokenTrust) : noted o o.
Proof. by left. Qed.

Lemma tokio_policy_trust s :
  token_trust (offer_policy s) = if validates_offers (signaling s) then None else server_trust s.
Proof.
  unfold offer_policy. by destruct (cfg_identity (config s)), (server_trust s), (validates_offers (signaling s)).
Qed.

Lemma prepare_answer_cases g e s r s' :
  prepare_answer g e s = (r, s') ->
  same_base s s' /\ dispatchers s' = dispatchers s /\ counts s' = counts s /\ spawned s' = spawned s /\
  forall answered, r = Ok answered -> exists a p,
    policy_admit g (oe_address e) (oe_wall e) (offer_policy s) = (Ok a, p) /\
    answered_player answered = player a.
Proof.
  unfold prepare_answer. destruct (cancel_at BeforeAdmission e) as [u|f|]; [|intros [= <- <-]; repeat split; [by left|done]..].
  destruct (policy_admit g (oe_address e) (oe_wall e) (offer_policy s)) as [admitted p] eqn:Ep. intros [= Hr Hs].
  assert (noted (server_trust s) (token_trust p) \/ validates_offers (signaling s) = true) as Hn.
  { pose proof (policy_admit_trust (offer_policy s) g (oe_address e) (oe_wall e)) as Ht.
    rewrite Ep, tokio_policy_trust in Ht. destruct (validates_offers (signaling s)); [by right|]. left.
    destruct Ht as [Ht|(t & Ht & Ht')]; [by left|]. right. by eexists t, _, _. }
  split; [|split_and!].
  - subst s'. destruct (validates_offers (signaling s)); [repeat split; by left|]. destruct Hn as [Hn|]; [|done].
    by repeat split.
  - subst s'. by destruct (validates_offers (signaling s)).
  - subst s'. by destruct (validates_offers (signaling s)).
  - subst s'. by destruct (validates_offers (signaling s)).
  - intros answered ->. apply res_bind_inv in Hr as (a & Ha & Hr). destruct admitted as [x| |]; [|done..].
    apply Ok_inj in Ha as <-. apply res_bind_inv in Hr as (u1 & _ & Hr).
    apply res_bind_inv in Hr as ([addr adv] & _ & Hr). exists x, p. split; [done|].
    destruct (answer_advertising _ _ _ _ _ _ _ _) as [y| |] eqn:Ea; [|done..]. apply Ok_inj in Hr as <-.
    by eapply answer_advertising_player.
Qed.

Lemma drop_slot_spec slot s s' :
  drop_slot slot s = Ok s' -> release slot (counts s) = Ok (counts s') /\ s' = set_pending (counts s') (spawned s) s.
Proof. unfold drop_slot. by intros (c & Hc & <-%Ok_inj)%res_bind_inv. Qed.

(** Whether an offer gets a slot. *)
Definition gets_slot (g : Signal) (s : NetherServer) (c : Counts) : Prop :=
  try_admit (network_id g) (cfg_max_pending (config s)) (cfg_max_pending_per_network_id (config s)) (counts s)
  = (Some (network_id g), c).

(** An offer that is refused changes nothing but, perhaps, the trust. *)
Definition refuses (g : Signal) (s s' : NetherServer) : Prop :=
  same_base s s' /\ dispatchers s' = dispatchers s /\ spawned s' = spawned s /\
  (counts s' = counts s \/ exists c, gets_slot g s c /\ release (network_id g) c = Ok (counts s')).

(** An offer that is answered opens one session, with the player it was admitted for. *)
Definition opens (g : Signal) (e : OfferEnv) (s s' : NetherServer) (answered : Answered) : Prop :=
  exists s1 a p, same_base s s1 /\ dispatchers s1 = dispatchers s /\ spawned s1 = spawned s /\
    gets_slot g s (counts s1) /\ s' = open_session g e answered s1 /\
    policy_admit g (oe_address e) (oe_wall e) (offer_policy s) = (Ok a, p) /\
    answered_player answered = player a.

Lemma answer_offer_cases g e s r s' fx :
  answer_offer g e s = Ok (r, s', fx) ->
  (exists f sent, r = Err f /\ refuses g s s' /\ fx = VFxSignal <$> sent /\ (is_Some f.1 -> sent = [])) \/
  (exists answered, r = Ok tt /\ opens g e s s' answered /\ fx = VFxSignal <$> signals answered).
Proof.
  unfold answer_offer. destruct (try_admit _ _ _ _) as [[slot|] c] eqn:Et.
  2:{ intros [= <- <- <-]. left. eexists _, []. split_and!; try done. repeat split; by left. }
  assert (slot = network_id g) as -> by (unfold try_admit in Et; destruct (_ || _); by simplify_eq).
  destruct (prepare_answer g e (set_pending c (spawned s) s)) as [r1 s1] eqn:Ep.
  apply prepare_answer_cases in Ep as (Hb & Hd & Hc & Hsp & Ha). cbn in Hd, Hc, Hsp.
  assert (forall s2, drop_slot (network_id g) s1 = Ok s2 -> refuses g s s2) as Hdrop.
  { intros s2 [Hr Hs]%drop_slot_spec. rewrite Hs, Hc in *. split; [exact Hb|]. split; [exact Hd|]. split; [exact Hsp|].
    right. exists c. by split. }
  destruct r1 as [answered|f|]; [| |done].
  - destruct (send_signals 0 (cancelled_before e) (oe_sent e) (signals answered)) as [sent r2] eqn:Es. destruct r2 as [[]|f|]; [| |done].
    + intros [= <- <- <-]. right. exists answered. apply send_signals_all in Es as ->. split_and!; try done.
      destruct (Ha answered eq_refl) as (a & p & Hp & Hpl). exists s1, a, p. split_and!; try done.
      unfold gets_slot. by rewrite Hc, Et.
    + intros (s2 & Hs2 & [= <- <- <-])%res_bind_inv. left. exists f, sent. split_and!; try done; [by apply Hdrop|].
      apply send_signals_fails in Es as [-> _]. by intros [].
  - intros (s2 & Hs2 & [= <- <- <-])%res_bind_inv. left. exists f, []. split_and!; try done. by apply Hdrop.
Qed.

(** ** What an offer comes to *)

(** The answer the server has for an offer: there is a slot for it, the policy
    admits it, the session has an address, and the answer is drawn up for that
    address. *)
Definition answers (g : Signal) (e : OfferEnv) (s : NetherServer) (answered : Answered) : Prop :=
  exists c a p addr advertised,
    gets_slot g s c /\
    policy_admit g (oe_address e) (oe_wall e) (offer_policy s) = (Ok a, p) /\
    media e s = Ok (addr, advertised) /\
    answer_advertising a addr advertised (oe_ufrag e) (oe_pwd e) (oe_random e) (oe_clock e) (oe_now e)
    = Ok answered.

(** Why an offer is refused with a code. *)
Definition refused_with (g : Signal) (e : OfferEnv) (s : NetherServer) (k : SignalErrorCode) : Prop :=
  ((try_admit (network_id g) (cfg_max_pending (config s)) (cfg_max_pending_per_network_id (config s))
      (counts s)).1 = None /\ k = IncomingConnectionIgnored) \/
  (exists x p, policy_admit g (oe_address e) (oe_wall e) (offer_policy s) = (Err x, p) /\ k = code x) \/
  (shared s = None /\ (exists x, oe_socket e = Err x) /\ k = FailedToCreatePeerConnection) \/
  (exists a p addr advertised x,
     policy_admit g (oe_address e) (oe_wall e) (offer_policy s) = (Ok a, p) /\
     media e s = Ok (addr, advertised) /\
     answer_advertising a addr advertised (oe_ufrag e) (oe_pwd e) (oe_random e) (oe_clock e) (oe_now e)
     = Err x /\ k = code x).

Lemma prepare_answer_result g e s r s' c :
  gets_slot g s c -> prepare_answer g e (set_pending c (spawned s) s) = (r, s') ->
  match r with
  | Ok answered => answers g e s answered
  | Err (Some k, _) => refused_with g e s k
  | Err (None, _) => oe_cancelled e = Some BeforeAdmission \/ oe_cancelled e = Some BeforeMedia
  | Panic => True
  end.
Proof.
  intros Hg. unfold prepare_answer, cancel_at.
  case_bool_decide as Hc; [intros [= <- _]; by left|].
  change (offer_policy (set_pending c (spawned s) s)) with (offer_policy s).
  destruct (policy_admit g (oe_address e) (oe_wall e) (offer_policy s)) as [admitted p] eqn:Ep.
  intros [= <- _]. destruct admitted as [a|x|]; cbn [map_err]; [| |done].
  2:{ cbn. right. left. by exists x, p. }
  rewrite res_bind_Ok. case_bool_decide as Hc'; [cbn; by right|]. rewrite res_bind_Ok.
  match goal with |- context [media e ?t] => replace (media e t) with (media e s)
    by (by destruct (validates_offers (signaling s))) end.
  destruct (media e s) as [[addr adv]|f|] eqn:Em; [| |done].
  - rewrite res_bind_Ok. destruct (answer_advertising _ _ _ _ _ _ _ _) as [y|x|] eqn:Ea; cbn [map_err]; [| |done].
    + exists c, a, p, addr, adv. by split_and!.
    + right. right. right. exists a, p, addr, adv, x. by split_and!.
  - cbn. unfold media in Em. destruct (shared s) eqn:Es; [done|].
    destruct (oe_socket e) as [port|x|] eqn:Eo; cbn in Em; [done| |done]. injection Em as <-. cbn.
    right. right. left. split_and!; [done|by exists x|done].
Qed.

(** The offer is answered, refused with a code, or not answered to the end. *)
Lemma answer_offer_result g e s r s' fx :
  answer_offer g e s = Ok (r, s', fx) ->
  match r with
  | Ok _ => exists answered s1, answers g e s answered /\ fx = VFxSignal <$> signals answered /\
      same_base s s1 /\ spawned s1 = spawned s /\ s' = open_session g e answered s1
  | Err (Some k, _) => refused_with g e s k /\ fx = [] /\ spawned s' = spawned s
  | Err (None, _) => spawned s' = spawned s /\
      ((exists answered k x, answers g e s answered /\ oe_sent e k = Err x /\
          fx = VFxSignal <$> take (S k) (signals answered)) \/
       (exists answered k, answers g e s answered /\ oe_cancelled e = Some (BeforeSignal k) /\
          fx = VFxSignal <$> take k (signals answered)) \/
       ((oe_cancelled e = Some BeforeAdmission \/ oe_cancelled e = Some BeforeMedia) /\ fx = []))
  | Panic => False
  end.
Proof.
  unfold answer_offer. destruct (try_admit _ _ _ _) as [[slot|] c] eqn:Et.
  2:{ intros [= <- <- <-]. split; [|by split]. left. by rewrite Et. }
  assert (slot = network_id g) as -> by (unfold try_admit in Et; destruct (_ || _); by simplify_eq).
  destruct (prepare_answer g e (set_pending c (spawned s) s)) as [r1 s1] eqn:Ep.
  pose proof (prepare_answer_result _ _ _ _ _ _ Et Ep) as Hres.
  apply prepare_answer_cases in Ep as (Hb & _ & _ & Hsp & _). cbn in Hsp.
  assert (forall s2, drop_slot (network_id g) s1 = Ok s2 -> spawned s2 = spawned s) as Hdrop.
  { intros s2 [_ Hs]%drop_slot_spec. rewrite Hs. exact Hsp. }
  destruct r1 as [answered|f|]; [| |done].
  - destruct (send_signals 0 (cancelled_before e) (oe_sent e) (signals answered)) as [sent r2] eqn:Es.
    destruct r2 as [[]|f|]; [| |done].
    + intros [= <- <- <-]. apply send_signals_all in Es as ->. exists answered, s1. by split_and!.
    + intros (s2 & Hs2%Hdrop & [= <- <- <-])%res_bind_inv. pose proof (send_signals_fails _ _ _ _ _ _ Es) as [Hf _].
      apply send_signals_stops in Es as (k & _ & Hcase). destruct f as [k' err]. cbn in Hf. subst k'.
      split; [done|]. destruct Hcase as [[Hc ->]|(x & Hx & ->)].
      * apply bool_decide_eq_true in Hc. right. left. by exists answered, k.
      * left. by exists answered, k, x.
  - intros (s2 & Hs2%Hdrop & [= <- <- <-])%res_bind_inv. destruct f as [[k|] err]; [by split_and!|].
    split; [done|]. right. by right.
Qed.

Lemma retain_base s : same_base s (retain_dispatchers s).
Proof. repeat split. by left. Qed.

(** ** The limits *)

Definition waiting_id (sp : Spawned) : option bytes := if sp_waiting sp then Some (sp_key sp).1 else None.
Definition waiting_ids (s : NetherServer) : list bytes := omap waiting_id (spawned s).

Definition limits_of (s : NetherServer) : PendingLimits :=
  {| max_pending := cfg_max_pending (config s);
     max_pending_per_network_id := cfg_max_pending_per_network_id (config s) |}.

(** The counters count the sessions that wait, and these are within the limits. *)
Definition counted (s : NetherServer) : Prop :=
  represents (counts s) (waiting_ids s) /\ pending_within (limits_of s) (waiting_ids s).

(** Changing one session's entry. *)
Lemma omap_waiting_insert (l : list Spawned) n sp sp' :
  l !! n = Some sp ->
  omap waiting_id l ≡ₚ option_list (waiting_id sp) ++ omap waiting_id (take n l) ++ omap waiting_id (drop (S n) l) /\
  omap waiting_id (<[n := sp']> l) ≡ₚ
    option_list (waiting_id sp') ++ omap waiting_id (take n l) ++ omap waiting_id (drop (S n) l).
Proof.
  intros Hn.
  assert (forall x k, omap waiting_id (x :: k) = option_list (waiting_id x) ++ omap waiting_id k) as Hx
    by (intros x k; cbn; by destruct (waiting_id x)).
  split.
  - rewrite <- (take_drop_middle l n sp Hn) at 1. rewrite omap_app, Hx.
    rewrite !app_assoc. by rewrite (Permutation_app_comm (omap waiting_id (take n l))).
  - rewrite insert_take_drop by by eapply lookup_lt_Some. rewrite omap_app, Hx.
    rewrite !app_assoc. by rewrite (Permutation_app_comm (omap waiting_id (take n l))).
Qed.

(** An entry that waits no more or less than before. *)
Lemma waiting_same (l : list Spawned) n sp sp' :
  l !! n = Some sp -> waiting_id sp' = waiting_id sp -> omap waiting_id (<[n := sp']> l) ≡ₚ omap waiting_id l.
Proof. intros Hn Hw. destruct (omap_waiting_insert l n sp sp' Hn) as [-> ->]. by rewrite Hw. Qed.

Lemma counted_permutation s s' :
  counts s' = counts s -> config s' = config s -> waiting_ids s' ≡ₚ waiting_ids s -> counted s -> counted s'.
Proof.
  intros Hc Hf Hw [H1 H2]. split; [rewrite Hc; by eapply represents_permutation|].
  unfold limits_of. rewrite Hf. eapply pending_within_submseteq; [by rewrite Hw|exact H2].
Qed.

(** The slot of a session that stops waiting is free again. *)
Lemma counted_finish s n sp sp' :
  spawned s !! n = Some sp -> sp_waiting sp = true -> sp_waiting sp' = false -> counted s ->
  exists c, release (sp_key sp).1 (counts s) = Ok c /\ counted (set_pending c (<[n := sp']> (spawned s)) s).
Proof.
  intros Hn Hw Hw' [H1 H2]. destruct (omap_waiting_insert (spawned s) n sp sp' Hn) as [Hl Hl'].
  unfold waiting_id in Hl, Hl'. rewrite Hw in Hl. rewrite Hw' in Hl'. cbn [option_list app] in Hl, Hl'.
  destruct (release_represents (counts s) (omap waiting_id (take n (spawned s)) ++ omap waiting_id (drop (S n) (spawned s)))
    (sp_key sp).1) as (c & Hc & Hr); [eapply represents_permutation; [exact Hl|exact H1]|].
  exists c. split; [done|]. split.
  - eapply represents_permutation; [|exact Hr]. symmetry. exact Hl'.
  - change (limits_of (set_pending c (<[n:=sp']> (spawned s)) s)) with (limits_of s).
    eapply pending_within_submseteq; [|exact H2]. unfold waiting_ids. cbn. rewrite Hl', Hl.
    apply submseteq_cons. done.
Qed.

Lemma gets_slot_counted g s c :
  counted s -> gets_slot g s c ->
  admits_offer (waiting_ids s) (network_id g) (limits_of s) = true /\ represents c (network_id g :: waiting_ids s).
Proof.
  intros [H1 _] Hg. pose proof (try_admit_represents _ _ (network_id g) (limits_of s) H1) as Ht.
  destruct (admits_offer _ _ _); unfold gets_slot in Hg; cbn in Ht.
  - destruct Ht as (c' & Ht & Hr). rewrite Hg in Ht. by simplify_eq.
  - by rewrite Hg in Ht.
Qed.

Lemma refuses_counted g s s' : refuses g s s' -> counted s -> counted s'.
Proof.
  intros ((_ & Hf & _) & _ & Hsp & Hc) Hs.
  assert (waiting_ids s' = waiting_ids s) as Hw by (unfold waiting_ids; by rewrite Hsp).
  destruct Hc as [Hc|(c & Hg & Hr)]; [by eapply counted_permutation; [..|exact Hs]; rewrite ?Hw|].
  destruct (gets_slot_counted _ _ _ Hs Hg) as [_ Hrep].
  destruct (release_represents _ _ _ Hrep) as (c' & Hc' & Hrep'). rewrite Hr in Hc'. apply Ok_inj in Hc'.
  split; [by rewrite Hw, Hc'|]. unfold limits_of. rewrite Hf, Hw. apply Hs.
Qed.

Lemma opens_counted g e s s' a : opens g e s s' a -> counted s -> counted s'.
Proof.
  intros (s1 & adm & p & (_ & Hf & _) & _ & Hsp & Hg & -> & _) Hs.
  destruct (gets_slot_counted _ _ _ Hs Hg) as [Ha Hrep].
  assert (waiting_ids (open_session g e a s1) ≡ₚ network_id g :: waiting_ids s) as Hw.
  { unfold waiting_ids. cbn. rewrite Hsp, omap_app. cbn. by rewrite Permutation_app_comm. }
  split; [eapply represents_permutation; [by symmetry|exact Hrep]|].
  unfold limits_of. cbn. rewrite Hf. by eapply pending_within_admitted; [exact Hw|exact Ha|apply Hs].
Qed.

Lemma retain_counted s : counted s -> counted (retain_dispatchers s).
Proof. done. Qed.

Lemma close_session_counted n s : counted s -> counted (close_session n s).
Proof.
  intros Hs. unfold close_session. destruct (spawned s !! n) as [sp|] eqn:E; [|done].
  eapply (counted_permutation s); [done|done| |exact Hs]. unfold waiting_ids. cbn. by eapply waiting_same.
Qed.

(** Closing sessions keeps what they are otherwise. *)
Lemma close_fold (P : NetherServer -> Prop) l : (forall n s, P s -> P (close_session n s)) ->
  forall s, P s -> P (fold_left (fun s n => close_session n s) l s).
Proof. intros Hc. induction l as [|n l IH]; intros s Hs; cbn; [done|]. by apply IH, Hc. Qed.

Lemma finish_wait_counted n o s :
  counted s -> exists s' fx, finish_wait n o s = Ok (s', fx) /\ counted s'.
Proof.
  intros Hs. unfold finish_wait. destruct (spawned s !! n) as [sp|] eqn:E; [|by eexists _, _].
  destruct (sp_waiting sp) eqn:Ew; [|by eexists _, _].
  assert (forall b, exists c, release (sp_key sp).1 (counts s) = Ok c /\
    counted (set_pending c (<[n := set_sp false b sp]> (spawned s)) s)) as Hf
    by (intros b; by eapply counted_finish).
  destruct (Hf false) as (c & Hc & H0). destruct (Hf (sp_open sp)) as (c' & Hc' & H1).
  rewrite Hc in Hc'. apply Ok_inj in Hc' as <-. rewrite Hc, res_bind_Ok.
  destruct o; cbn [wait_result]; [destruct (running s)|..]; eexists _, _; (split; [done|]); first [exact H0|exact H1].
Qed.

(** The settings never change. *)
Lemma server_input_config i s n fx s' : server_input i s = Ok (n, fx, s') -> config s' = config s /\ signaling s' = signaling s.
Proof.
  intros Hi. destruct i as [g e|k o|k| |t|]; cbn [server_input] in Hi.
  - destruct (running s); [|by simplify_eq]. apply res_bind_inv in Hi as ([s1 fx1] & Hh & [= _ _ <-]).
    unfold handle_signal in Hh.
    assert (forall s' fx, dispatch g s = (s', fx) -> config s' = config s /\ signaling s' = signaling s) as Hd.
    { intros s2 fx2. unfold dispatch. destruct (dispatchers s !! key_of g) as [m|]; [|by intros [= <- _]].
      by destruct (forwards s m); intros [= <- _]. }
    destruct (signal_type g); [|apply Ok_inj in Hh; by eapply Hd..].
    unfold handle_offer in Hh. apply res_bind_inv in Hh as ([[r s2] fx2] & Ha & [= <- _]).
    apply answer_offer_cases in Ha as [(f & sent & _ & ((H1 & H2 & _) & _) & _)|(a & _ & (s3 & x & p & (H1 & H2 & _) & _ & _ & _ & -> & _) & _)];
      by split.
  - unfold finish_wait in Hi. destruct (spawned s !! k) as [sp|]; [|by simplify_eq/=].
    destruct (sp_waiting sp); [|by simplify_eq/=]. apply res_bind_inv in Hi as ([s1 fx1] & Hf & [= _ _ <-]).
    apply res_bind_inv in Hf as (c & _ & Hf). destruct o; cbn [wait_result] in Hf; [destruct (running s)|..]; by simplify_eq/=.
  - simplify_eq. unfold close_session. by destruct (spawned s !! k).
  - unfold accept in Hi. by destruct (incoming s); simplify_eq.
  - unfold set_token_trust in Hi. by destruct (signaling s) eqn:E; simplify_eq.
  - injection Hi as _ _ <-. unfold close. cbn [fst config signaling set_dispatchers set_incoming].
    apply (close_fold (fun x => config x = config s /\ signaling x = signaling s)); [|done].
    intros m x. unfold close_session. by destruct (spawned x !! m).
Qed.

Lemma handle_signal_counted g e s s' fx : handle_signal g e s = Ok (s', fx) -> counted s -> counted s'.
Proof.
  intros Hh Hs. unfold handle_signal in Hh.
  assert (forall s' fx, dispatch g s = (s', fx) -> counted s') as Hd.
  { intros s1 fx1. unfold dispatch. destruct (dispatchers s !! key_of g) as [n|]; [|by intros [= <- _]].
    by destruct (forwards s n); intros [= <- _]. }
  destruct (signal_type g); [|apply Ok_inj in Hh; by eapply Hd..].
  unfold handle_offer in Hh. apply res_bind_inv in Hh as ([[r s1] fx1] & Ha & [= <- _]).
  apply answer_offer_cases in Ha as [(f & sent & _ & Hr & _)|(a & _ & Ho & _)].
  - by eapply refuses_counted.
  - by eapply opens_counted.
Qed.

Lemma server_input_counted i s n fx s' : server_input i s = Ok (n, fx, s') -> counted s -> counted s'.
Proof.
  intros Hi Hs. destruct i as [g e|k o|k| |t|]; cbn [server_input] in Hi.
  - destruct (running s); [|by simplify_eq]. apply res_bind_inv in Hi as ([s1 fx1] & Hh & [= _ _ <-]).
    by eapply handle_signal_counted.
  - destruct (finish_wait_counted k o s Hs) as (s1 & fx1 & Hf & Hc). rewrite Hf, res_bind_Ok in Hi. by simplify_eq.
  - simplify_eq. by apply close_session_counted.
  - unfold accept in Hi. by destruct (incoming s); simplify_eq.
  - unfold set_token_trust in Hi. by destruct (signaling s); simplify_eq.
  - injection Hi as _ _ <-. apply (close_fold counted (incoming s) close_session_counted s Hs).
Qed.

(** C14: The server of the tokio front end keeps to its limits.  The sessions that
    are answered but not established, in all and of one network, never exceed
    them; the counters count exactly these sessions; and the task that waits for
    one always ends without a panic, whatever has become of it. *)
Theorem tokio_server_limits sg c bound s0 inputs acc fx s :
  0 <= cfg_max_pending c -> 0 <= cfg_max_pending_per_network_id c ->
  bind_with sg c bound = Ok s0 -> server_run s0 inputs acc fx s ->
  blen (waiting_ids s) <= cfg_max_pending c /\
  (forall nid, held_by nid (waiting_ids s) <= cfg_max_pending_per_network_id c) /\
  (forall nid, default 0 (counts s !! nid) = held_by nid (waiting_ids s)) /\
  (forall n o, exists s' fx', finish_wait n o s = Ok (s', fx')).
Proof.
  intros Hm Hp Hb Hrun. assert (counted s0 /\ config s0 = c) as [H0 Hc0].
  { unfold bind_with in Hb. destruct (_ && _); [done|]. apply res_bind_inv in Hb as (sh & _ & <-%Ok_inj).
    split; [|done]. split; [apply represents_empty|]. by split. }
  assert (counted s /\ config s = c) as [[H1 [H2 H3]] Hc].
  { induction Hrun as [|inputs acc fx s i n fx' s' _ [IH1 IH2] Hi]; [done|]. split; [by eapply server_input_counted|].
    rewrite <- IH2. by eapply (server_input_config i). }
  rewrite <- Hc. split; [exact H2|]. split; [exact H3|]. split; [intros nid; by apply represents_default|].
  intros n o. destruct (finish_wait_counted n o s) as (s' & fx' & Hf & _); [by split|]. by exists s', fx'.
Qed.

(** ** Sessions over time *)

(** A session keeps its key and its player, and does not start to wait again. *)
Definition keeps (l l' : list Spawned) : Prop := forall n sp, l !! n = Some sp ->
  exists sp', l' !! n = Some sp' /\ sp_key sp' = sp_key sp /\ sp_player sp' = sp_player sp /\
    (sp_waiting sp = false -> sp_waiting sp' = false).

#[local] Instance keeps_preorder : PreOrder keeps.
Proof.
  split.
  - intros l n sp Hn. by exists sp.
  - intros a b c Hab Hbc n sp Hn. destruct (Hab n sp Hn) as (sp1 & H1 & K1 & P1 & W1).
    destruct (Hbc n sp1 H1) as (sp2 & H2 & K2 & P2 & W2). exists sp2. split_and!; [done|congruence..|auto].
Qed.

Lemma keeps_app l x : keeps l (l ++ [x]).
Proof. intros n sp Hn. exists sp. by rewrite lookup_app_l by by eapply lookup_lt_Some. Qed.

Lemma keeps_insert l n sp b o :
  l !! n = Some sp -> (sp_waiting sp = false -> b = false) -> keeps l (<[n := set_sp b o sp]> l).
Proof.
  intros Hn Hb m x Hm. destruct (decide (m = n)) as [->|Hne].
  - rewrite Hn in Hm. apply Some_inj in Hm as <-. exists (set_sp b o sp).
    by rewrite list_lookup_insert_eq by by eapply lookup_lt_Some.
  - exists x. by rewrite list_lookup_insert_ne.
Qed.

(** What becomes of the queue of accepted sessions: at most one is taken from it
    or one that is ready enters it, or it is emptied. *)
Definition queue_step (i : ServerInput) (s s' : NetherServer) (n : option nat) : Prop :=
  (n = None /\ incoming s' = incoming s) \/
  (exists k, n = Some k /\ incoming s = k :: incoming s') \/
  (n = None /\ incoming s' = []) \/
  (exists k sp sp', n = None /\ incoming s' = incoming s ++ [k] /\ i = VWaited k WReady /\
     spawned s !! k = Some sp /\ sp_waiting sp = true /\
     spawned s' !! k = Some sp' /\ sp_waiting sp' = false).

(** Where signals go. *)
Definition dispatch_step (s s' : NetherServer) (fx : list Effect) : Prop :=
  (forall k m, dispatchers s' !! k = Some m ->
     dispatchers s !! k = Some m \/ exists sp, spawned s' !! m = Some sp /\ sp_key sp = k) /\
  (forall m g, VFxCommand m g ∈ fx -> signal_type g = SignalMsg.Candidate /\ dispatchers s !! key_of g = Some m).

Lemma no_commands (l : list Signal) m g : VFxCommand m g ∉ VFxSignal <$> l.
Proof. by intros (x & [=] & _)%list_elem_of_fmap. Qed.

Lemma handle_signal_steps g e s s' fx :
  handle_signal g e s = Ok (s', fx) ->
  keeps (spawned s) (spawned s') /\ incoming s' = incoming s /\ dispatch_step s s' fx.
Proof.
  unfold handle_signal.
  assert (forall s' fx, dispatch g s = (s', fx) ->
    keeps (spawned s) (spawned s') /\ incoming s' = incoming s /\ dispatch_step s s' fx) as Hd.
  { intros s2 fx2. unfold dispatch. destruct (dispatchers s !! key_of g) as [m|] eqn:Em.
    2:{ intros [= <- <-]. split_and!; [done|done|]. split; [by left|]. by intros ?? ?%elem_of_nil. }
    destruct (forwards s m); intros [= <- <-]; (split_and!; [done|done|]; split).
    - by left.
    - intros m' g'. case_bool_decide as Hc; [|by intros ?%elem_of_nil]. intros [= -> ->]%list_elem_of_singleton. by split.
    - cbn. intros k m' [_ Hk]%lookup_delete_Some. by left.
    - by intros ?? ?%elem_of_nil. }
  destruct (signal_type g); [|intros Hh%Ok_inj; by eapply Hd..].
  unfold handle_offer. intros ([[r s2] fx2] & Ha & [= <- <-])%res_bind_inv.
  assert (forall fx1, (exists l, fx1 = VFxSignal <$> l) -> forall m g', VFxCommand m g' ∈ fx1 ++ failure_signal g r ->
    signal_type g' = SignalMsg.Candidate /\ dispatchers s !! key_of g' = Some m) as Hno.
  { intros fx1 [l ->] m g' [Hin|Hin]%elem_of_app; [by apply no_commands in Hin|].
    destruct r as [| [[code|] x] |]; cbn in Hin;
      first [by apply list_elem_of_singleton in Hin|by apply elem_of_nil in Hin]. }
  assert (forall k m, dispatchers (retain_dispatchers s) !! k = Some m -> dispatchers s !! k = Some m) as Hret.
  { intros k m Hk. cbn in Hk. by apply map_lookup_filter_Some in Hk as [Hk _]. }
  apply answer_offer_cases in Ha as
    [(f & sent & _ & ((_ & _ & _ & Hi & _) & Hdi & Hsp & _) & -> & _)
    |(a & _ & (s3 & x & p & (_ & _ & _ & Hi & _) & Hdi & Hsp & _ & -> & _) & ->)].
  - split_and!; [by rewrite Hsp|done|]. split; [|by apply Hno; eexists]. intros k m Hk. left. rewrite Hdi in Hk. by apply Hret.
  - cbn. rewrite Hsp. cbn. split_and!; [apply keeps_app|done|]. split; [|by apply Hno; eexists].
    cbn. intros k m [[<- <-]|[_ Hk]]%lookup_insert_Some.
    + right. rewrite Hsp. cbn. rewrite lookup_app_r by lia. rewrite Nat.sub_diag. by eexists.
    + left. rewrite Hdi in Hk. by apply Hret.
Qed.

Lemma quiet_dispatch s s' fx :
  dispatchers s' = dispatchers s \/ dispatchers s' = ∅ -> (forall m g, VFxCommand m g ∉ fx) -> dispatch_step s s' fx.
Proof.
  intros Hd Hf. split; [|intros m g Hin; by apply Hf in Hin]. intros k m. destruct Hd as [-> | ->]; [by left|].
  by rewrite lookup_empty.
Qed.

Lemma close_session_keeps n s : keeps (spawned s) (spawned (close_session n s)).
Proof. unfold close_session. destruct (spawned s !! n) as [sp|] eqn:E; [|done]. by apply keeps_insert. Qed.

Lemma tokio_input_steps i s n fx s' :
  server_input i s = Ok (n, fx, s') ->
  keeps (spawned s) (spawned s') /\ queue_step i s s' n /\ dispatch_step s s' fx.
Proof.
  assert (forall m g, VFxCommand m g ∉ @nil Effect) as Hnil by by intros ?? ?%elem_of_nil.
  destruct i as [g e|k o|k| |t|]; cbn [server_input].
  - destruct (running s).
    + intros ([s1 fx1] & (Hk & Hi & Hd)%handle_signal_steps & [= <- <- <-])%res_bind_inv. split_and!; [done|by left|done].
    + intros [= <- <- <-]. split_and!; [done|by left|apply quiet_dispatch; auto].
  - unfold finish_wait. destruct (spawned s !! k) as [sp|] eqn:E.
    2:{ intros [= <- <- <-]. split_and!; [done|by left|apply quiet_dispatch; auto]. }
    destruct (sp_waiting sp) eqn:Ew.
    2:{ intros [= <- <- <-]. split_and!; [done|by left|apply quiet_dispatch; auto]. }
    intros ([s1 fx1] & (c & _ & Hf)%res_bind_inv & [= <- <- <-])%res_bind_inv.
    assert (forall b, keeps (spawned s) (<[k := set_sp false b sp]> (spawned s))) as Hk by (intros b; by apply keeps_insert).
    destruct o; cbn [wait_result] in Hf; [destruct (running s)|..]; injection Hf as <- <-;
      (split_and!; [apply Hk| |apply quiet_dispatch; [by left|]]); try (by left).
    + right. right. right. exists k, sp, (set_sp false (sp_open sp) sp). cbn. split_and!; try done.
      by apply list_lookup_insert_eq; eapply lookup_lt_Some.
    + done.
    + done.
    + intros m g [[=]|?%elem_of_nil]%elem_of_cons; done.
    + intros m g [[=]|[[=]|?%elem_of_nil]%elem_of_cons]%elem_of_cons; done.
    + intros m g [[=]|?%elem_of_nil]%elem_of_cons; done.
  - intros [= <- <- <-]. split_and!; [apply close_session_keeps|left|apply quiet_dispatch; [left|done]];
      unfold close_session; by destruct (spawned s !! k).
  - unfold accept. destruct (incoming s) as [|k l] eqn:E; intros [= <- <- <-].
    + split_and!; [done|by left|apply quiet_dispatch; auto].
    + split_and!; [done| |apply quiet_dispatch; auto]. right. left. exists k. by rewrite E.
  - unfold set_token_trust. destruct (signaling s); intros [= <- <- <-]; (split_and!; [done|by left|apply quiet_dispatch; auto]).
    by intros m g ?%list_elem_of_singleton.
  - intros [= <- <- <-]. split_and!.
    + cbn. apply (close_fold (fun x => keeps (spawned s) (spawned x))); [|done].
      intros m x Hx. etrans; [exact Hx|]. apply close_session_keeps.
    + right. right. by left.
    + apply quiet_dispatch; [by right|]. by intros m g (x & [=] & _)%list_elem_of_fmap.
Qed.

(** The sessions that were accepted or wait to be. *)
Record accepting (inputs : list ServerInput) (acc : list nat) (s : NetherServer) : Prop := {
  ac_once : NoDup (acc ++ incoming s);
  ac_ready : forall n, n ∈ acc ++ incoming s -> VWaited n WReady ∈ inputs;
  ac_done : forall n, n ∈ acc ++ incoming s -> exists sp, spawned s !! n = Some sp /\ sp_waiting sp = false;
}.

Lemma accepting_step inputs acc s i n fx s' :
  server_input i s = Ok (n, fx, s') -> accepting inputs acc s -> accepting (inputs ++ [i]) (acc ++ option_list n) s'.
Proof.
  intros (Hk & Hq & _)%tokio_input_steps [A1 A2 A3].
  assert (forall l : list nat, (forall x, x ∈ l -> x ∈ acc ++ incoming s) ->
    (forall x, x ∈ l -> VWaited x WReady ∈ inputs ++ [i]) /\
    (forall x, x ∈ l -> exists sp, spawned s' !! x = Some sp /\ sp_waiting sp = false)) as Hold.
  { intros l Hl. split; intros x Hx%Hl; [apply elem_of_app; left; by apply A2|].
    destruct (A3 x Hx) as (sp & Hsp & Hw). destruct (Hk x sp Hsp) as (sp' & Hsp' & _ & _ & Hw'). eauto. }
  destruct Hq as [[-> Hq]|[(k & -> & Hq)|[[-> Hq]|(k & sp & sp' & -> & Hq & -> & Hsp & Hw & Hsp' & Hw')]]];
    cbn [option_list]; rewrite ?app_nil_r.
  - rewrite <- Hq in *. destruct (Hold (acc ++ incoming s')) as [H1 H2]; [done|]. by split.
  - destruct (Hold ((acc ++ [k]) ++ incoming s')) as [H1 H2]; [intros x; by rewrite Hq, <- app_assoc|].
    split; [|done|done]. rewrite Hq in A1. by rewrite <- app_assoc.
  - destruct (Hold (acc ++ incoming s')) as [H1 H2]; [intros x; rewrite Hq, app_nil_r, elem_of_app; by left|].
    split; [|done|done]. rewrite Hq, app_nil_r. by apply list.NoDup_app in A1 as [A1 _].
  - assert (k ∉ acc ++ incoming s) as Hnew. { intros (x & Hx & Hf)%A3. simplify_eq. congruence. }
    destruct (Hold (acc ++ incoming s)) as [H1 H2]; [done|].
    assert (acc ++ incoming s' = (acc ++ incoming s) ++ [k]) as Hl by by rewrite Hq, app_assoc.
    split; rewrite Hl.
    + apply list.NoDup_app. split; [done|]. split; [|apply list.NoDup_singleton]. by intros x Hx ->%list_elem_of_singleton.
    + intros x [Hx| ->%list_elem_of_singleton]%elem_of_app; [by apply H1|]. apply elem_of_app. right. by left.
    + intros x [Hx| ->%list_elem_of_singleton]%elem_of_app; [by apply H2|]. by exists sp'.
Qed.

(** C15: The sessions a server hands out were opened by it, became ready, and are
    handed out once each; what it has handed out and what waits to be taken has
    no session twice, and none of them holds a pending slot any more. *)
Theorem tokio_accepts_once sg c bound s0 inputs acc fx s :
  bind_with sg c bound = Ok s0 -> server_run s0 inputs acc fx s ->
  NoDup (acc ++ incoming s) /\
  forall n, n ∈ acc ++ incoming s -> VWaited n WReady ∈ inputs /\
    exists sp, spawned s !! n = Some sp /\ sp_waiting sp = false.
Proof.
  intros Hb Hrun. assert (accepting inputs acc s) as [A1 A2 A3]; [|split; [done|]; auto].
  induction Hrun as [|inputs acc fx s i n fx' s' _ IH Hi]; [|by eapply accepting_step].
  unfold bind_with in Hb. destruct (_ && _); [done|]. apply res_bind_inv in Hb as (sh & _ & <-%Ok_inj).
  split; [constructor|by intros n ?%elem_of_nil..].
Qed.

(** A signal of a peer reaches only a session that this peer opened under the
    connection id it names, and only a candidate does: whatever is passed on to a
    session carries the network id and the connection id of the offer it answered. *)
Theorem tokio_signals_routed sg c bound s0 inputs acc fx s n g :
  bind_with sg c bound = Ok s0 -> server_run s0 inputs acc fx s -> VFxCommand n g ∈ fx ->
  signal_type g = SignalMsg.Candidate /\
  exists sp, spawned s !! n = Some sp /\ sp_key sp = (network_id g, connection_id g).
Proof.
  intros Hb Hrun. enough ((forall k m, dispatchers s !! k = Some m -> exists sp, spawned s !! m = Some sp /\ sp_key sp = k) /\
    forall n g, VFxCommand n g ∈ fx -> signal_type g = SignalMsg.Candidate /\
      exists sp, spawned s !! n = Some sp /\ sp_key sp = key_of g) as [_ H] by apply H.
  induction Hrun as [|inputs acc fx s i k fx' s' _ [IH1 IH2] (Hk & _ & Hd1 & Hd2)%tokio_input_steps].
  - unfold bind_with in Hb. destruct (_ && _); [done|]. apply res_bind_inv in Hb as (sh & _ & <-%Ok_inj).
    split; [by intros k m|by intros n' g' ?%elem_of_nil].
  - assert (forall m key, (exists sp, spawned s !! m = Some sp /\ sp_key sp = key) ->
      exists sp, spawned s' !! m = Some sp /\ sp_key sp = key) as Hkeep.
    { intros m key (sp & Hsp & <-). destruct (Hk m sp Hsp) as (sp' & Hsp' & Hkey & _). by exists sp'. }
    split.
    + intros key m [Hm|Hm]%Hd1; [|done]. by apply Hkeep, IH1.
    + intros m g' [Hin|Hin]%elem_of_app.
      * destruct (IH2 m g' Hin) as [H1 H2]. split; [done|]. by apply Hkeep.
      * destruct (Hd2 m g' Hin) as [H1 H2]. split; [done|]. by apply Hkeep, IH1.
Qed.

(** C16: An offer has one outcome.  Either it is answered: exactly the signals of
    the answer that the policy and the session's address give for this offer are
    sent, all of them and in order, and one session is opened for that answer,
    with its player, which waits to become ready and to which later signals
    under the same ids go.  Or no session is opened, and either the peer is told,
    with one error signal under its ids and before anything else is sent, the
    code of the very reason (no slot, the error of the admission, no socket, the
    error of the answer), or the signaling failed at some signal of the answer
    or the server was cancelled, and what was sent is the signals of the answer
    before that. *)
Theorem tokio_offer_outcome g e s s' fx :
  signal_type g = Offer -> handle_signal g e s = Ok (s', fx) ->
  (exists answered sp, answers g e s answered /\ fx = VFxSignal <$> signals answered /\
     spawned s' = spawned s ++ [sp] /\ sp_key sp = key_of g /\ sp_waiting sp = true /\ sp_open sp = true /\
     sp_connection sp = Admission.connection answered /\
     sp_player sp = match answered_player answered with
                    | Some p => Some p
                    | None => signaled (signaling s) (oe_player e)
                    end /\
     dispatchers s' !! key_of g = Some (length (spawned s))) \/
  (spawned s' = spawned s /\
     ((exists k, refused_with g e s k /\
         fx = [VFxSignal (signal_error (connection_id g) k (network_id g))]) \/
      (exists answered k x, answers g e s answered /\ oe_sent e k = Err x /\
         fx = VFxSignal <$> take (S k) (signals answered)) \/
      (exists answered k, answers g e s answered /\ oe_cancelled e = Some (BeforeSignal k) /\
         fx = VFxSignal <$> take k (signals answered)) \/
      ((oe_cancelled e = Some BeforeAdmission \/ oe_cancelled e = Some BeforeMedia) /\ fx = []))).
Proof.
  intros Hg. unfold handle_signal. rewrite Hg. unfold handle_offer. intros ([[r s1] fx1] & Ha & [= <- <-])%res_bind_inv.
  apply answer_offer_result in Ha. destruct r as [u|[[k|] err]|]; cbn [failure_signal].
  - left. destruct Ha as (answered & s2 & Hans & -> & (Hsg & _) & Hsp & ->). exists answered. eexists.
    rewrite app_nil_r. cbn. rewrite Hsp, Hsg. cbn.
    split_and!; try done. apply lookup_insert_eq.
  - right. destruct Ha as (Hr & -> & Hsp). split; [done|]. left. by exists k.
  - right. destruct Ha as (Hsp & Hcase). split; [done|]. rewrite app_nil_r. by right.
  - done.
Qed.

(** ** Authentication *)

(** A trust that was configured, with what it has noted since. *)
Definition configured (s0 : NetherServer) (inputs : list ServerInput) (t : TokenTrust) : Prop :=
  exists t1, (server_trust s0 = Some t1 \/ VSetTokenTrust (Some t1) ∈ inputs) /\ derived t1 t.

(** The session numbered [n] was opened by one input of the run, an offer with its
    key: before it there were [n] sessions and after it one more.  The session's
    player has the claims that are authentic for the description of that offer,
    under the trust in force when it was handled and at the clock read for it, and
    the address the signaling gave for it. *)
Definition spawned_authentic (trusted : TokenTrust -> Prop) (s0 : NetherServer) (inputs : list ServerInput)
    (n : nat) (sp : Spawned) : Prop :=
  exists pre offer e post acc fx s1 fx1 s2 t claims,
    inputs = pre ++ VSignal offer e :: post /\ server_run s0 pre acc fx s1 /\
    server_input (VSignal offer e) s1 = Ok (None, fx1, s2) /\
    length (spawned s1) = n /\ length (spawned s2) = S n /\
    signal_type offer = Offer /\ key_of offer = sp_key sp /\
    server_trust s1 = Some t /\ trusted t /\
    sp_player sp = Some (player_info_new claims (network_id offer) (oe_address e)) /\
    authentic t (signal_data offer) (oe_wall e) claims.

Lemma spawned_authentic_later trusted s0 inputs i n sp sp' :
  sp_key sp' = sp_key sp -> sp_player sp' = sp_player sp ->
  spawned_authentic trusted s0 inputs n sp -> spawned_authentic trusted s0 (inputs ++ [i]) n sp'.
Proof.
  intros Hk Hp (pre & offer & e & post & acc & fx & s1 & fx1 & s2 & t & claims & -> & H).
  exists pre, offer, e, (post ++ [i]), acc, fx, s1, fx1, s2, t, claims. rewrite Hk, Hp.
  split; [by rewrite <- app_assoc|exact H].
Qed.

(** What an input does to the number of sessions: it stays, or an offer opens one. *)
Lemma input_opens i s n fx s' :
  server_input i s = Ok (n, fx, s') ->
  (length (spawned s') = length (spawned s) /\
   (noted (server_trust s) (server_trust s') \/ exists t, i = VSetTokenTrust t /\ server_trust s' = t)) \/
  (exists g e a, i = VSignal g e /\ signal_type g = Offer /\ n = None /\ opens g e (retain_dispatchers s) s' a).
Proof.
  assert (forall x : option TokenTrust, noted x x) as Hn by by left.
  intros Hi. destruct i as [g e|k o|k| |t|]; cbn [server_input] in Hi.
  - destruct (running s); [|simplify_eq; auto]. apply res_bind_inv in Hi as ([s1 fx1] & Hh & [= <- _ <-]).
    unfold handle_signal in Hh.
    assert (forall s' fx, dispatch g s = (s', fx) ->
      length (spawned s') = length (spawned s) /\ server_trust s' = server_trust s) as Hd.
    { intros s2 fx2. unfold dispatch. destruct (dispatchers s !! key_of g) as [m|]; [|by intros [= <- _]].
      by destruct (forwards s m); intros [= <- _]. }
    destruct (signal_type g) eqn:Eg; [|apply Ok_inj, Hd in Hh as [? ->]; auto..].
    unfold handle_offer in Hh. apply res_bind_inv in Hh as ([[r s2] fx2] & Ha & [= <- _]).
    apply answer_offer_cases in Ha as [(f & sent & _ & ((_ & _ & _ & _ & _ & Hn') & _ & Hsp & _) & _)|(a & _ & Ho & _)].
    + left. cbn in Hsp, Hn'. rewrite Hsp. auto.
    + right. exists g, e, a. by split_and!.
  - unfold finish_wait in Hi. destruct (spawned s !! k) as [sp|]; [|simplify_eq/=; auto].
    destruct (sp_waiting sp); [|simplify_eq/=; auto]. apply res_bind_inv in Hi as ([s1 fx1] & Hf & [= _ _ <-]).
    apply res_bind_inv in Hf as (c & _ & Hf). left.
    destruct o; cbn [wait_result] in Hf; [destruct (running s)|..]; injection Hf as <- _; cbn; rewrite length_insert; auto.
  - simplify_eq. left. unfold close_session. destruct (spawned s !! k); cbn; rewrite ?length_insert; auto.
  - unfold accept in Hi. left. destruct (incoming s); simplify_eq; auto.
  - unfold set_token_trust in Hi. left. destruct (signaling s); simplify_eq; cbn; eauto.
  - injection Hi as _ _ <-. left. cbn.
    apply (close_fold (fun x => length (spawned x) = length (spawned s) /\
      (noted (server_trust s) (server_trust x) \/ exists t, VClose = VSetTokenTrust t /\ server_trust x = t))); [|auto].
    intros m x. unfold close_session. by destruct (spawned x !! m); cbn; rewrite ?length_insert.
Qed.

Section trusted.
Context `{blaws : !Base64Laws b64} `{slaws : !SerdeLaws serde}.
Context (trusted : TokenTrust -> Prop) (s0 : NetherServer).
Context (trusted_noted : forall t text wall, trusted t -> trusted (validate_sdp text wall t).2).

Record sessions_authentic (inputs : list ServerInput) (s : NetherServer) : Prop := {
  sa_lan : signaling s = SgLan;
  sa_trust : exists t, server_trust s = Some t /\ trusted t;
  sa_spawned n sp : spawned s !! n = Some sp -> spawned_authentic trusted s0 inputs n sp;
}.

(** The session an offer opens. *)
Lemma opens_authentic inputs acc fx s g e fx1 s' a :
  server_run s0 inputs acc fx s -> server_input (VSignal g e) s = Ok (None, fx1, s') ->
  signal_type g = Offer -> opens g e (retain_dispatchers s) s' a -> sessions_authentic inputs s ->
  exists sp, spawned s' = spawned s ++ [sp] /\
    spawned_authentic trusted s0 (inputs ++ [VSignal g e]) (length (spawned s)) sp.
Proof.
  intros Hrun Hi Hoff (s1 & adm & p & (Hg & _) & _ & Hsp & _ & -> & Hadm & Hpl) [H1 (t & Ht & Htr) _].
  cbn in Hsp, Hg. cbn. rewrite Hsp. cbn. eexists. split; [reflexivity|].
  apply policy_admit_inv in Hadm as (_ & _ & _ & _ & _ & Hplayer).
  rewrite tokio_policy_trust in Hplayer. cbn [retain_dispatchers set_dispatchers signaling server_trust] in Hplayer.
  rewrite H1, Ht in Hplayer. destruct Hplayer as (claims & Hplayer & Hauth).
  eexists inputs, g, e, [], acc, fx, s, fx1, _, t, claims. cbn. rewrite Hpl, Hplayer.
  split_and!; try done. cbn. rewrite Hsp, length_app. cbn. lia.
Qed.

Lemma server_input_authentic inputs acc fx0 i s n fx s' :
  server_run s0 inputs acc fx0 s ->
  (forall x, i = VSetTokenTrust x -> exists t, x = Some t /\ trusted t) ->
  server_input i s = Ok (n, fx, s') -> sessions_authentic inputs s -> sessions_authentic (inputs ++ [i]) s'.
Proof.
  intros Hrun Hset Hi Hs. pose proof (server_input_config _ _ _ _ _ Hi) as [_ Hg].
  pose proof (tokio_input_steps _ _ _ _ _ Hi) as (Hk & _). pose proof Hs as [H1 Ht H3].
  assert (forall k sp sp', spawned s !! k = Some sp -> spawned s' !! k = Some sp' ->
    spawned_authentic trusted s0 (inputs ++ [i]) k sp') as Hold.
  { intros k sp sp' Hsp Hsp'. destruct (Hk k sp Hsp) as (x & Hx & Hkey & Hp & _). simplify_eq.
    by eapply spawned_authentic_later, H3. }
  destruct (input_opens _ _ _ _ _ Hi) as [[Hl Hn]|(g & e & a & -> & Hoff & -> & Ho)].
  - split; [congruence| |].
    + destruct Hn as [Hn|(t & -> & ->)]; [by eapply noted_trusted|]. by apply Hset.
    + intros k sp' Hsp'. destruct (spawned s !! k) as [sp|] eqn:E; [by eapply Hold|].
      apply lookup_ge_None in E. apply lookup_lt_Some in Hsp'. lia.
  - destruct (opens_authentic _ _ _ _ _ _ _ _ _ Hrun Hi Hoff Ho Hs) as (sp & Hsp & Hauth). split; [congruence| |].
    + destruct Ho as (s1 & adm & p & (_ & _ & _ & _ & _ & Hn) & _ & _ & _ & -> & _). by eapply noted_trusted.
    + intros k sp' Hsp'. destruct (spawned s !! k) as [sp1|] eqn:E; [by eapply Hold|].
      rewrite Hsp in Hsp'. apply lookup_ge_None in E. rewrite lookup_app_r in Hsp' by done.
      destruct (k - length (spawned s))%nat as [|m] eqn:Em; [|done]. cbn in Hsp'. simplify_eq.
      by replace k with (length (spawned s)) by lia.
Qed.
End trusted.

(** C13: On a server over LAN signaling that has a token trust and is never told to
    skip validation, every session it has ever opened was opened by one offer of
    the run, which names the session by its network id and connection id; the
    player of the session has claims that are authentic for the description of
    that very offer, under the trust in force when the offer was handled, one the
    server was given, and at the clock read for it. *)
Theorem tokio_sessions_authentic `{blaws : !Base64Laws b64} `{slaws : !SerdeLaws serde}
    c bound s0 inputs acc fx s n sp :
  bind_with SgLan c bound = Ok s0 -> is_Some (cfg_token_trust c) -> VSetTokenTrust None ∉ inputs ->
  server_run s0 inputs acc fx s -> spawned s !! n = Some sp ->
  spawned_authentic (configured s0 inputs) s0 inputs n sp.
Proof.
  intros Hb [t0 Ht0] Hnone Hrun. enough (sessions_authentic (configured s0 inputs) s0 inputs s) as [_ _ H] by apply H.
  assert (signaling s0 = SgLan /\ server_trust s0 = Some t0 /\ spawned s0 = []) as (Hg & Ht & Hs0).
  { unfold bind_with in Hb. cbn in Hb. apply res_bind_inv in Hb as (sh & _ & <-%Ok_inj). done. }
  remember (configured s0 inputs) as trusted eqn:Etr.
  assert (forall x, VSetTokenTrust x ∈ inputs -> exists t, x = Some t /\ trusted t) as Hset.
  { intros [t|] Hx; [|done]. exists t. split; [done|]. rewrite Etr. exists t. split; [by right|constructor]. }
  assert (sessions_authentic trusted s0 [] s0) as H0.
  { split; [done| |by rewrite Hs0]. exists t0. split; [done|]. rewrite Etr. exists t0. split; [by left|constructor]. }
  assert (forall t text wall, trusted t -> trusted (validate_sdp text wall t).2) as Hn.
  { intros t text wall. rewrite Etr. intros (t1 & Ht1 & Hd). exists t1. split; [done|]. by constructor. }
  clear Hnone Ht Ht0 Etr. induction Hrun as [|inputs acc fx s i k fx' s' Hrun IH Hi]; [done|].
  eapply (server_input_authentic trusted s0 Hn inputs); [exact Hrun| |exact Hi|].
  - intros x ->. apply Hset, elem_of_app. right. by left.
  - apply IH. intros x Hx. apply Hset, elem_of_app. by left.
Qed.
End server.
