(* ===== verification/TokioServerInstance.v ===== *)
(** * TokioServerInstance: a concrete tokio server

    The theorems of [TokioServer.v] on a server over LAN signaling with a token
    trust that answers a signed offer, passes a candidate on and hands the
    session out. *)
From S2P Require Import Prelude Text Errors SignalMsg Endpoint Discovery Identity ServerIdentity IdentityInstance.
From S2P Require Import Webrtc WebrtcInstance Candidate Framing Transports Sans Session SessionInstance Connection Admission.
From S2P Require Import Pending ServerSessions ServerInstance HttpServerInstance TokioBase TokioServer.

#[local] Existing Instances toy_crypto toy_base64 toy_base64_laws toy_serde toy_serde_laws tiny_p384 toy_rsa.
#[local] Existing Instance tiny_sdp | 0.

Definition lan_settings : ConnectionConfig := {|
  cfg_timeouts := Timeouts_default; cfg_attempts := 3; cfg_identity := None;
  cfg_allow_unsigned_answers := false; cfg_token_trust := Some AnyToken; cfg_server_trust := None;
  cfg_infer_peer_candidates := false; cfg_max_pending := 4; cfg_max_pending_per_network_id := 1;
  cfg_media_addr := None |}.

Definition bound_server : NetherServer := {|
  signaling := SgLan; config := lan_settings; shared := None; server_trust := Some AnyToken;
  dispatchers := ∅; counts := ∅; spawned := []; incoming := []; running := true |}.

Definition no_socket (_ : SocketAddr) : Res NetherError (SocketAddr * list IpAddr) := Err NIo.

Lemma server_bound : bind_with SgLan lan_settings no_socket = Ok bound_server.
Proof. vm_compute. reflexivity. Qed.

Definition offer_env : OfferEnv := {|
  oe_address := None; oe_player := None; oe_host := None; oe_wall := 0; oe_socket := Ok 40000;
  oe_probe := None; oe_interfaces := []; oe_ufrag := str "abcd"; oe_pwd := str "secret";
  oe_random := str "r"; oe_clock := 0; oe_now := 0; oe_sent := fun _ => Ok tt; oe_cancelled := None |}.

Definition signed_offer : Signal := signal_offer 42 signed_text (str "peer").
Definition peer_candidate : Signal := signal_candidate 42 (str "candidate:111 x") (str "peer").

Definition serving : list ServerInput :=
  [VSignal signed_offer offer_env; VSignal peer_candidate offer_env; VWaited 0 WReady; VAccept].

Fixpoint run_inputs (l : list ServerInput) (acc : list nat) (fx : list Effect) (s : NetherServer)
    : Res unit (list nat * list Effect * NetherServer) :=
  match l with
  | [] => Ok (acc, fx, s)
  | i :: l =>
      match server_input i s with
      | Ok (n, fx', s) => run_inputs l (acc ++ option_list n) (fx ++ fx') s
      | _ => Panic
      end
  end.

Lemma server_inputs_run l : forall s0 inputs acc fx s acc' fx' s',
  server_run s0 inputs acc fx s -> run_inputs l acc fx s = Ok (acc', fx', s') ->
  server_run s0 (inputs ++ l) acc' fx' s'.
Proof.
  induction l as [|i l IH]; intros s0 inputs acc fx s acc' fx' s' Hr; cbn [run_inputs].
  - intros [= <- <- <-]. by rewrite app_nil_r.
  - destruct (server_input i s) as [[[n fx1] s1]| |] eqn:E; try done. intros Hl.
    change (i :: l) with ([i] ++ l). rewrite app_assoc. eapply IH; [|exact Hl]. by eapply vrun_step.
Qed.

(** The session is handed out, and the candidate has gone to it. *)
Definition served (r : Res unit (list nat * list Effect * NetherServer)) : bool :=
  match r with
  | Ok (acc, fx, s) =>
      bool_decide (acc = [0%nat]) &&
      existsb (fun e => match e with VFxCommand n g => bool_decide (n = 0%nat /\ connection_id g = 42) | _ => false end) fx &&
      bool_decide (length (spawned s) = 1%nat)
  | _ => false
  end.

Lemma serving_served : served (run_inputs serving [] [] bound_server) = true.
Proof. vm_compute. reflexivity. Qed.

Lemma served_inv r : served r = true -> exists fx s g sp, r = Ok ([0%nat], fx, s) /\
  VFxCommand 0 g ∈ fx /\ connection_id g = 42 /\ spawned s !! 0%nat = Some sp.
Proof.
  destruct r as [[[acc fx] s]| |]; cbn [served]; try discriminate. intros H.
  apply andb_true_iff in H as [H H3]. apply andb_true_iff in H as [H1 H2].
  apply bool_decide_eq_true in H1, H3. apply existsb_exists in H2 as (x & Hx & Hg). subst acc.
  destruct x as [|n g| |]; try discriminate Hg. apply bool_decide_eq_true in Hg as [-> Hg].
  destruct (spawned s) as [|sp l] eqn:E; [discriminate H3|].
  exists fx, s, g, sp. split; [done|]. split; [by apply list_elem_of_In|]. by rewrite E.
Qed.

Lemma served_run : exists fx s g sp, server_run bound_server serving [0%nat] fx s /\
  VFxCommand 0 g ∈ fx /\ connection_id g = 42 /\ spawned s !! 0%nat = Some sp.
Proof.
  destruct (served_inv _ serving_served) as (fx & s & g & sp & Hr & Hg). exists fx, s, g, sp. split; [|exact Hg].
  exact (server_inputs_run serving bound_server [] [] [] bound_server _ _ _ (vrun_nil _) Hr).
Qed.

Lemma tokio_server_limits_witness : exists s, spawned s <> [] /\ blen (waiting_ids s) <= 4.
Proof.
  destruct served_run as (fx & s & g & sp & Hrun & _ & _ & Hsp). exists s. split.
  - intros E. rewrite E in Hsp. discriminate Hsp.
  - refine (proj1 (tokio_server_limits SgLan lan_settings no_socket bound_server serving _ fx s _ _ server_bound Hrun));
      by vm_compute.
Defined.

Lemma tokio_accepts_once_witness : exists s sp, spawned s !! 0%nat = Some sp /\ sp_waiting sp = false.
Proof.
  destruct served_run as (fx & s & g & sp & Hrun & _). exists s.
  apply (proj2 (tokio_accepts_once SgLan lan_settings no_socket bound_server serving [0%nat] fx s server_bound Hrun) 0%nat).
  apply elem_of_app. left. by left.
Defined.

Lemma tokio_signals_routed_witness : exists s sp, spawned s !! 0%nat = Some sp /\ (sp_key sp).2 = 42.
Proof.
  destruct served_run as (fx & s & g & sp & Hrun & Hg & Hid & _).
  destruct (tokio_signals_routed SgLan lan_settings no_socket bound_server serving [0%nat] fx s 0%nat g server_bound Hrun Hg)
    as (_ & sp1 & Hsp & Hkey).
  exists s, sp1. split; [exact Hsp|]. rewrite Hkey. exact Hid.
Defined.

Lemma tokio_sessions_authentic_witness :
  exists s sp, spawned s !! 0%nat = Some sp /\
    spawned_authentic (configured bound_server serving) bound_server serving 0 sp.
Proof.
  destruct served_run as (fx & s & g & sp & Hrun & _ & _ & Hsp). exists s, sp. split; [exact Hsp|].
  apply (tokio_sessions_authentic lan_settings no_socket bound_server serving [0%nat] fx s 0%nat sp server_bound);
    [by eexists| |exact Hrun|exact Hsp].
  intros Hl. by repeat (apply elem_of_cons in Hl as [Hl|Hl]; [discriminate Hl|]); apply elem_of_nil in Hl.
Defined.

(** An offer from a network whose slot is taken is refused. *)
Definition second_offer : Signal := signal_offer 43 signed_text (str "peer").
Definition full_server : NetherServer := set_pending {[ str "peer" := 1 ]} [] bound_server.

(** What handling an offer gives: whether a session was opened, and the signals. *)
Definition handled (opened : nat) (first : SignalType) (r : Res unit (NetherServer * list Effect)) : bool :=
  match r with
  | Ok (s, VFxSignal g :: _) => bool_decide (signal_type g = first /\ length (spawned s) = opened)
  | _ => false
  end.

Lemma first_answered : handled 1 Answer (handle_signal signed_offer offer_env bound_server) = true.
Proof. vm_compute. reflexivity. Qed.

Lemma second_refused : handled 0 Error (handle_signal second_offer offer_env full_server) = true.
Proof. vm_compute. reflexivity. Qed.

Lemma handled_inv n ty r : handled n ty r = true ->
  exists s fx, r = Ok (s, fx) /\ fx <> [] /\ length (spawned s) = n.
Proof.
  destruct r as [[s [|[g| | |] fx]]| |]; try done. intros [_ H]%bool_decide_eq_true. by eexists _, _.
Qed.

(** The first offer is answered with the signals of its answer, the second one
    refused for the reason it is told. *)
Lemma tokio_offer_outcome_witness :
  (exists s fx answered, handle_signal signed_offer offer_env bound_server = Ok (s, fx) /\
     answers signed_offer offer_env bound_server answered /\
     fx = VFxSignal <$> signals answered /\ fx <> [] /\ length (spawned s) = 1%nat) /\
  (exists s k, handle_signal second_offer offer_env full_server
     = Ok (s, [VFxSignal (signal_error 43 k (str "peer"))]) /\
     refused_with second_offer offer_env full_server k).
Proof.
  split.
  - destruct (handled_inv _ _ _ first_answered) as (s & fx & Hh & Hfx & Hl).
    destruct (tokio_offer_outcome signed_offer offer_env bound_server s fx eq_refl Hh)
      as [(answered & sp & Ha & Hf & _)|[Hs _]].
    + exists s, fx, answered. exact (conj Hh (conj Ha (conj Hf (conj Hfx Hl)))).
    + rewrite Hs in Hl. discriminate Hl.
  - destruct (handled_inv _ _ _ second_refused) as (s & fx & Hh & _ & Hl).
    destruct (tokio_offer_outcome second_offer offer_env full_server s fx eq_refl Hh)
      as [(answered & sp & _ & _ & Hs & _)|[_ [(k & Hr & Hf)|[(answered & k & x & _ & Hx & _)|
          [(answered & k & _ & Hc & _)|[[Hc|Hc] _]]]]]].
    + rewrite Hs in Hl. discriminate Hl.
    + exists s, k. split; [rewrite Hh, Hf; reflexivity|exact Hr].
    + discriminate Hx.
    + discriminate Hc.
    + discriminate Hc.
    + discriminate Hc.
Defined.
