(* ===== verification/TokioClient.v ===== *)
(** * TokioClient: the client of the tokio front end
    ([nethernet-tokio/src/transport/client.rs])

    An attempt offers, takes the signals of the peer until the session can be
    started and waits until it is ready.  What an attempt finds and draws comes as
    an argument: the socket, the interfaces, the clocks, what sending gives, and
    the signals that arrive before the deadline of the negotiation. *)
From S2P Require Import Prelude Text Errors SignalMsg Endpoint Discovery Identity ServerIdentity Webrtc.
From S2P Require Import Candidate Framing Transports Sans Session Connection Admission ServerSessions TokioBase.

Section client.
Context `{b64 : Base64} `{serde : Serde} `{p384 : P384} `{rsa : Rsa}.
Context {crypto : CryptoOps} {sdp : Sdp} {cand : IceCandidate} {cert : CertificateOps}
  {iceops : IceOps} {dtlsops : DtlsOps} {sctpops : SctpOps} {dcepops : DcepOps}.

(** What comes while an answer is awaited: a signal, with the clocks at which it is
    handled, the end of the stream of signals, or the cancellation.  When nothing
    is left the deadline has passed. *)
Inductive Arrival :=
| ASignal (g : Signal) (wall : SystemTime) (now : Instant)
| AEnd
| ACancelled.

Record AttemptEnv := {
  ae_connection_id : Z;
  ae_cancelled : bool;
  ae_socket : Res unit Z;
  ae_probe : option IpAddr;
  ae_interfaces : list (IpAddr * bool);
  ae_ufrag : bytes; ae_pwd : bytes; ae_random : bytes;
  ae_session : Instant;
  ae_describe : SystemTime;
  ae_wall : SystemTime;
  ae_stop : nat -> bool;
  ae_sent : nat -> Res NetherError unit;
  ae_arrivals : list Arrival;
  ae_ready : WaitOutcome;
}.

(** ** The offer *)

Definition check_answer (g : Signal) (wall : SystemTime) (trust : option TokenTrust)
    : Res Failure unit * option TokenTrust :=
  let '(r, trust) := verify_answer (signal_data g) wall trust in
  (match r with
   | Ok _ => Ok tt
   | Err e => Err (Some FailedToSetRemoteDescription, NIdentity e)
   | Panic => Panic
   end, trust).

(** The connection and the signals to send, the offer first. *)
Definition prepare_offer (mode : IceMode) (c : ConnectionConfig) (remote : bytes) (e : AttemptEnv)
    : Res Failure (Connection * list Signal) :=
  port ← map_err (fun _ => (None, NIo)) (ae_socket e);
  let primary := ip (local_bind_addr (ae_probe e)) in
  '(session, description) ←
    map_err (fun x => (Some FailedToCreatePeerConnection, NProtocol x))
      (session_with_advertised (socket_addr_new primary port) (advertisable_addresses primary (ae_interfaces e))
         true (ae_ufrag e) (ae_pwd e) (ae_random e) (ae_session e));
  let session := set_establish_deadline (establish (cfg_timeouts c)) session in
  let '(connection, signals) := connect session description (ae_connection_id e) remote mode (ae_describe e) in
  match signals with
  | [] => Panic
  | offer :: trickled =>
      data ← match cfg_identity c with
             | Some i => map_err (fun x => (Some FailedToCreateOffer, NIdentity x))
                           (augment i (signal_data offer) (ae_wall e))
             | None => Ok (signal_data offer)
             end;
      Ok (connection, signal_offer (ae_connection_id e) data remote :: trickled)
  end.

(** ** The negotiation *)

Record Dial := { d_connection : Connection; d_need_candidate : bool; d_trust : option TokenTrust }.

Definition feed (g : Signal) (now : Instant) (code : SignalErrorCode) (d : Dial) : Res Failure Dial :=
  match handle (CSignal g now) (d_connection d) with
  | (Ok _, conn) => Ok {| d_connection := conn; d_need_candidate := d_need_candidate d; d_trust := d_trust d |}
  | (Err x, _) => Err (Some code, NProtocol x)
  | (Panic, _) => Panic
  end.

(** Whether the loop is left after an answer or a candidate. *)
Definition can_start (d : Dial) : bool :=
  bool_decide (is_Some (connection_remote_addr (d_connection d))) && negb (d_need_candidate d).

(** A signal of the peer: whether the loop is left, and the trust that has noted
    something even if it is refused. *)
Definition dial_signal (g : Signal) (wall : SystemTime) (now : Instant) (d : Dial)
    : Res Failure (Dial * bool) * option TokenTrust :=
  match signal_type g with
  | Answer =>
      let '(r, trust) := check_answer g wall (d_trust d) in
      ((_ ← r;
        d ← feed g now FailedToSetRemoteDescription
              {| d_connection := d_connection d; d_need_candidate := d_need_candidate d; d_trust := trust |};
        Ok (d, negb (d_need_candidate d) || can_start d)), trust)
  | SignalMsg.Candidate =>
      ((d ← feed g now Ice d;
        let d := {| d_connection := d_connection d; d_need_candidate := false; d_trust := d_trust d |} in
        Ok (d, can_start d)), d_trust d)
  | Error => (Err (None, Signaled (parse_error_code (signal_data g))), d_trust d)
  | Offer => (Err (Some IncomingConnectionIgnored, NOther (str "received offer while dialing")), d_trust d)
  end.

Definition is_ours (remote : bytes) (cid : Z) (g : Signal) : bool :=
  (connection_id g =? cid) && bytes_eqb (network_id g) remote.

(** The loop over what arrives. *)
Fixpoint dial_loop (remote : bytes) (cid : Z) (l : list Arrival) (d : Dial)
    : Res Failure Dial * option TokenTrust :=
  match l with
  | [] => (Err (Some NegotiationTimeoutWaitingForResponse, NTimeout), d_trust d)
  | AEnd :: _ => (Err (None, ConnectionClosed), d_trust d)
  | ACancelled :: _ => (Err (None, ConnectionClosed), d_trust d)
  | ASignal g wall now :: l =>
      if is_ours remote cid g then
        match dial_signal g wall now d with
        | (Ok (d, true), trust) => (Ok d, trust)
        | (Ok (d, false), _) => dial_loop remote cid l d
        | (Err f, trust) => (Err f, trust)
        | (Panic, trust) => (Panic, trust)
        end
      else dial_loop remote cid l d
  end.

(** [negotiate]: the signals that are sent, what it gives, and the trust. *)
Definition negotiate (mode : IceMode) (c : ConnectionConfig) (remote : bytes) (trust : option TokenTrust)
    (e : AttemptEnv) : list Signal * (Res Failure Connection * option TokenTrust) :=
  if ae_cancelled e then ([], (Err (None, ConnectionClosed), trust))
  else
    match prepare_offer mode c remote e with
    | Err f => ([], (Err f, trust))
    | Panic => ([], (Panic, trust))
    | Ok (connection, signals) =>
        let '(sent, r) := send_signals 0 (ae_stop e) (ae_sent e) signals in
        (sent,
         match r with
         | Err f => (Err f, trust)
         | Panic => (Panic, trust)
         | Ok _ =>
             let need := match mode with Trickle => true | Full => false end in
             let '(r, trust) := dial_loop remote (ae_connection_id e) (ae_arrivals e)
               {| d_connection := connection; d_need_candidate := need; d_trust := trust |} in
             ((d ← r; _ ← wait_result (ae_ready e); Ok (d_connection d)), trust)
         end)
    end.

(** ** The attempts *)

Definition failure_signal (remote : bytes) (e : AttemptEnv) (f : Failure) : list Signal :=
  match f.1 with Some code => [signal_error (ae_connection_id e) code remote] | None => [] end.

Definition is_timeout (x : NetherError) : bool := match x with NTimeout => true | _ => false end.

(** The attempts from the [i]-th on, [n] of them; with each goes what it sent. *)
Fixpoint connect_loop (n i : nat) (mode : IceMode) (c : ConnectionConfig) (remote : bytes)
    (trust : option TokenTrust) (envs : nat -> AttemptEnv)
    : list (list Signal) * Res NetherError (Connection * nat) :=
  match n with
  | O => ([], Err NTimeout)
  | S n =>
      let '(sent, (r, trust)) := negotiate mode c remote trust (envs i) in
      match r with
      | Ok connection => ([sent], Ok (connection, i))
      | Panic => ([sent], Panic)
      | Err f =>
          let told := sent ++ failure_signal remote (envs i) f in
          if negb (is_timeout f.2) || bool_decide (n = 0%nat) then ([told], Err f.2)
          else let '(more, r) := connect_loop n (S i) mode c remote trust envs in (told :: more, r)
      end
  end.

Definition connect_with (mode : IceMode) (c : ConnectionConfig) (remote : bytes) (envs : nat -> AttemptEnv)
    : list (list Signal) * Res NetherError (Connection * nat) :=
  connect_loop (Z.to_nat (Z.max (cfg_attempts c) 1)) 0 mode c remote (cfg_server_trust c) envs.

(** The forwarder of later signals. *)
Definition forwarded (remote : bytes) (cid : Z) (g : Signal) : bool :=
  is_ours remote cid g && bool_decide (signal_type g = SignalMsg.Candidate).

(** ** What the connection of a dialed session was given *)

Section trusted.
Context `{blaws : !Base64Laws b64} `{slaws : !SerdeLaws serde}.
Context (trusted : TokenTrust -> Prop).
Context (trusted_noted : forall t text wall, trusted t -> trusted (validate_sdp text wall t).2).

(** Candidates and answers of the peer; the answers are authentic. *)
Inductive fed (remote : bytes) (cid : Z) (c0 : Connection) : Connection -> Prop :=
| fed_start : fed remote cid c0 c0
| fed_candidate conn g now :
    fed remote cid c0 conn -> is_ours remote cid g = true -> signal_type g = SignalMsg.Candidate ->
    fed remote cid c0 (handle (CSignal g now) conn).2
| fed_answer conn g wall now t claims :
    fed remote cid c0 conn -> is_ours remote cid g = true -> signal_type g = Answer ->
    trusted t -> authentic t (signal_data g) wall claims ->
    fed remote cid c0 (handle (CSignal g now) conn).2.

Definition has_trust (o : option TokenTrust) : Prop := exists t, o = Some t /\ trusted t.

Lemma check_answer_trust g wall o r o' :
  check_answer g wall o = (r, o') -> has_trust o ->
  has_trust o' /\ (r = Ok tt -> exists t claims, trusted t /\ authentic t (signal_data g) wall claims).
Proof.
  unfold check_answer. intros Hc (t & -> & Ht). pose proof (verify_answer_noted (signal_data g) wall (Some t)) as Hn.
  pose proof (verify_answer_authentic (signal_data g) wall t) as Ha.
  destruct (verify_answer (signal_data g) wall (Some t)) as [v o1]. injection Hc as Hr <-. cbn [fst snd] in *.
  split; [eapply noted_trusted; [done|exact Hn|by exists t]|]. intros ->.
  destruct v as [v| |]; [|done..]. destruct (Ha eq_refl) as [claims Hcl]. by exists t, claims.
Qed.

Lemma feed_handle g now code d d' :
  feed g now code d = Ok d' -> d' = {| d_connection := (handle (CSignal g now) (d_connection d)).2;
                                       d_need_candidate := d_need_candidate d; d_trust := d_trust d |}.
Proof. unfold feed. destruct (handle (CSignal g now) (d_connection d)) as [[] conn]; [by intros [= <-]|done..]. Qed.

Lemma dial_signal_fed remote cid c0 g wall now d r o :
  dial_signal g wall now d = (r, o) -> is_ours remote cid g = true -> has_trust (d_trust d) ->
  fed remote cid c0 (d_connection d) ->
  has_trust o /\ forall d' b, r = Ok (d', b) -> d_trust d' = o /\ fed remote cid c0 (d_connection d').
Proof.
  unfold dial_signal. intros Hd Ho Ht Hf. destruct (signal_type g) eqn:Eg.
  - injection Hd as <- <-. by split.
  - destruct (check_answer g wall (d_trust d)) as [x o1] eqn:Ec. injection Hd as Hr <-.
    destruct (check_answer_trust _ _ _ _ _ Ec Ht) as [Ht1 Ha]. split; [done|]. intros d' b ->.
    apply res_bind_inv in Hr as ([] & -> & (d1 & ->%feed_handle & [= <- _])%res_bind_inv). cbn. split; [done|].
    destruct (Ha eq_refl) as (t & claims & Htr & Hauth). by eapply fed_answer.
  - injection Hd as Hr <-. split; [done|]. intros d' b ->.
    apply res_bind_inv in Hr as (d1 & ->%feed_handle & [= <- _]). cbn. split; [done|]. by apply fed_candidate.
  - injection Hd as <- <-. by split.
Qed.

Lemma dial_loop_fed remote cid c0 l : forall d r o,
  dial_loop remote cid l d = (r, o) -> has_trust (d_trust d) -> fed remote cid c0 (d_connection d) ->
  has_trust o /\ forall d', r = Ok d' -> fed remote cid c0 (d_connection d').
Proof.
  induction l as [|[g wall now| |] l IH]; intros d r o; cbn [dial_loop]; try (intros [= <- <-]; by split).
  destruct (is_ours remote cid g) eqn:Eo; [|by apply IH]. intros Hd Ht Hf.
  destruct (dial_signal g wall now d) as [x o1] eqn:Es.
  destruct (dial_signal_fed remote cid c0 _ _ _ _ _ _ Es Eo Ht Hf) as [Ht1 Hn].
  destruct x as [[d1 []]|f|]; [| |by injection Hd as <- <-; split..].
  - injection Hd as <- <-. split; [done|]. intros d' [= <-]. by eapply Hn.
  - destruct (Hn d1 false eq_refl) as [<- Hf1]. by eapply IH.
Qed.

Lemma negotiate_fed mode c remote o e sent r o' :
  negotiate mode c remote o e = (sent, (r, o')) -> has_trust o ->
  has_trust o' /\ forall conn, r = Ok conn -> ae_ready e = WReady /\
    exists c0 signals, prepare_offer mode c remote e = Ok (c0, signals) /\ fed remote (ae_connection_id e) c0 conn.
Proof.
  unfold negotiate. destruct (ae_cancelled e); [by intros [= _ <- <-]|].
  destruct (prepare_offer mode c remote e) as [[c0 signals]| |]; [|by intros [= _ <- <-]..].
  destruct (send_signals _ _ _ _) as [sent1 []]; [|by intros [= _ <- <-]..].
  destruct (dial_loop _ _ _ _) as [x o1] eqn:Ed. intros [= _ Hr <-] Ht.
  apply (dial_loop_fed _ _ c0) in Ed as [Ht1 Hf]; [|done|constructor]. split; [done|]. intros conn ->.
  apply res_bind_inv in Hr as (d & -> & (u & Hw & [= <-])%res_bind_inv).
  split; [by destruct (ae_ready e)|]. exists c0, signals. split; [done|]. by apply Hf.
Qed.

Lemma connect_loop_fed n mode c remote envs : forall i o sent conn k,
  connect_loop n i mode c remote o envs = (sent, Ok (conn, k)) -> has_trust o ->
  ae_ready (envs k) = WReady /\
  exists c0 signals, prepare_offer mode c remote (envs k) = Ok (c0, signals) /\
    fed remote (ae_connection_id (envs k)) c0 conn.
Proof.
  induction n as [|n IH]; intros i o sent conn k; cbn [connect_loop]; [done|].
  destruct (negotiate mode c remote o (envs i)) as [sent1 [r o1]] eqn:En. intros Hc Ht.
  destruct (negotiate_fed _ _ _ _ _ _ _ _ En Ht) as [Ht1 Hf]. destruct r as [conn1|f|]; [| |done].
  - injection Hc as _ <- <-. by apply Hf.
  - destruct (_ || _); [done|]. destruct (connect_loop n (S i) mode c remote o1 envs) as [more r] eqn:El.
    injection Hc as _ ->. by eapply IH.
Qed.
End trusted.

(** C26: With a server trust the client only gets a session that was negotiated
    with the server it has authenticated: the connection of the session was given
    nothing but candidates and answers under the ids of this attempt, and every
    answer it was given carries a token that was trusted and unexpired when it
    arrived, and whose key signed the fingerprints of that very answer; and the
    session had become ready. *)
Theorem tokio_client_authentic `{blaws : !Base64Laws b64} `{slaws : !SerdeLaws serde}
    mode c remote envs sent conn i t0 :
  cfg_server_trust c = Some t0 -> connect_with mode c remote envs = (sent, Ok (conn, i)) ->
  ae_ready (envs i) = WReady /\
  exists c0 signals, prepare_offer mode c remote (envs i) = Ok (c0, signals) /\
    fed (derived t0) remote (ae_connection_id (envs i)) c0 conn.
Proof.
  intros Ht Hc. eapply connect_loop_fed; [|exact Hc|].
  - intros t text wall Hd. by constructor.
  - exists t0. split; [done|]. constructor.
Qed.

(** ** Attempts *)

Definition addressed (remote : bytes) (cid : Z) (g : Signal) : Prop := network_id g = remote /\ connection_id g = cid.

Definition count (t : SignalType) (l : list Signal) : nat :=
  length (List.filter (fun g => bool_decide (signal_type g = t)) l).

(** The signals of an attempt: one offer, then candidates. *)
Lemma prepare_offer_signals mode c remote e conn signals :
  prepare_offer mode c remote e = Ok (conn, signals) ->
  exists data trickled, signals = signal_offer (ae_connection_id e) data remote :: trickled /\
    Forall (fun g => signal_type g = SignalMsg.Candidate /\ addressed remote (ae_connection_id e) g) trickled.
Proof.
  unfold prepare_offer. intros (port & _ & ([session d] & _ & H)%res_bind_inv)%res_bind_inv.
  unfold connect, describe in H. cbn [fst snd] in H. apply res_bind_inv in H as (data & _ & [= _ <-]).
  eexists data, _. split; [done|]. destruct mode; [constructor|]. apply Forall_fmap, Forall_true. by intros x.
Qed.

Lemma count_prefix t (l l' : list Signal) : (count t l <= count t (l ++ l'))%nat.
Proof. unfold count. rewrite List.filter_app, length_app. lia. Qed.

Lemma count_none t (l : list Signal) u : t <> u -> Forall (fun g => signal_type g = u) l -> count t l = 0%nat.
Proof.
  intros Hne. induction 1 as [|g l Hg _ IH]; [done|]. unfold count in *. cbn [List.filter].
  rewrite bool_decide_eq_false_2 by congruence. exact IH.
Qed.

Lemma negotiate_signals mode c remote o e sent x :
  negotiate mode c remote o e = (sent, x) ->
  Forall (addressed remote (ae_connection_id e)) sent /\ (count Offer sent <= 1)%nat /\ count Error sent = 0%nat.
Proof.
  assert (Forall (addressed remote (ae_connection_id e)) [] /\ (count Offer [] <= 1)%nat /\ count Error [] = 0%nat) as Hnil
    by (split_and!; [constructor|cbn; lia|done]).
  unfold negotiate. destruct (ae_cancelled e); [by intros [= <- _]|].
  destruct (prepare_offer mode c remote e) as [[conn signals]| |] eqn:Ep; [|by intros [= <- _]..].
  apply prepare_offer_signals in Ep as (data & trickled & -> & Ht).
  destruct (send_signals_prefix (ae_stop e) (ae_sent e) (signal_offer (ae_connection_id e) data remote :: trickled) 0)
    as [rest Hrest].
  destruct (send_signals _ _ _ _) as [sent1 r1]. cbn [fst] in Hrest. intros [= <- _].
  assert (Forall (addressed remote (ae_connection_id e)) (sent1 ++ rest) /\
    count Offer (sent1 ++ rest) = 1%nat /\ count Error (sent1 ++ rest) = 0%nat) as (H1 & H2 & H3).
  { rewrite Hrest. assert (Forall (fun g => signal_type g = SignalMsg.Candidate) trickled) as Hc
      by (eapply Forall_impl; [|exact Ht]; by intros g []).
    split_and!.
    - constructor; [done|]. eapply Forall_impl; [|exact Ht]. by intros g [].
    - change (S (count Offer trickled) = 1%nat). by rewrite (count_none Offer trickled SignalMsg.Candidate).
    - change (count Error trickled = 0%nat). by rewrite (count_none Error trickled SignalMsg.Candidate). }
  pose proof (count_prefix Offer sent1 rest). pose proof (count_prefix Error sent1 rest).
  split; [by apply Forall_app in H1 as [H1 _]|]. split; lia.
Qed.

Lemma connect_loop_attempts mode c remote envs n : forall i o sent r,
  connect_loop n i mode c remote o envs = (sent, r) ->
  (length sent <= n)%nat /\
  (forall k l, sent !! k = Some l -> Forall (addressed remote (ae_connection_id (envs (i + k)%nat))) l /\
     (count Offer l <= 1)%nat /\ (count Error l <= 1)%nat) /\
  match r with
  | Ok (_, k) => (i + length sent)%nat = S k
  | Err x => is_timeout x = true -> length sent = n
  | Panic => True
  end.
Proof.
  induction n as [|n IH]; intros i o sent r; cbn [connect_loop]; [by intros [= <- <-]; split_and!|].
  destruct (negotiate mode c remote o (envs i)) as [sent1 [x o1]] eqn:En.
  apply negotiate_signals in En as (H1 & H2 & H3).
  assert (forall f, Forall (addressed remote (ae_connection_id (envs i))) (sent1 ++ failure_signal remote (envs i) f) /\
    (count Offer (sent1 ++ failure_signal remote (envs i) f) <= 1)%nat /\
    (count Error (sent1 ++ failure_signal remote (envs i) f) <= 1)%nat) as Hf.
  { intros [[code|] err]; cbn [failure_signal fst]; [|rewrite app_nil_r; split_and!; [done|lia..]].
    split; [apply Forall_app; split; [done|]; by repeat constructor|].
    assert (forall t l l', count t (l ++ l') = (count t l + count t l')%nat) as Happ
      by (intros t l l'; unfold count; by rewrite List.filter_app, length_app).
    assert (forall cid nid, count Offer [signal_error cid code nid] = 0%nat /\ count Error [signal_error cid code nid] = 1%nat) as He
      by done.
    rewrite !Happ, H3. destruct (He (ae_connection_id (envs i)) remote) as [-> ->]. lia. }
  destruct x as [conn|f|].
  - intros [= <- <-]. split; [cbn; lia|]. split; [|cbn; lia]. intros [|k] l; cbn; [|done]. intros [= <-].
    rewrite Nat.add_0_r. split_and!; [done|lia..].
  - destruct (_ || _) eqn:E.
    + intros [= <- <-]. split; [cbn; lia|]. split.
      * intros [|k] l; cbn; [|done]. intros [= <-]. rewrite Nat.add_0_r. apply Hf.
      * intros Ht. rewrite Ht in E. cbn in E. apply bool_decide_eq_true in E. by subst.
    + destruct (connect_loop n (S i) mode c remote o1 envs) as [more r1] eqn:El. intros [= <- <-].
      destruct (IH _ _ _ _ El) as (I1 & I2 & I3). split; [cbn; lia|]. split.
      * intros [|k] l; cbn; [intros [= <-]; rewrite Nat.add_0_r; apply Hf|]. rewrite Nat.add_succ_r. apply (I2 k l).
      * cbn [length]. destruct r1 as [[conn k]| |]; [lia| |done]. intros Ht. by rewrite I3.
  - intros [= <- <-]. split; [cbn; lia|]. split; [|done]. intros [|k] l; cbn; [|done]. intros [= <-].
    rewrite Nat.add_0_r. split_and!; [done|lia..].
Qed.

(** Connecting makes at most the configured number of attempts, and at least
    one is allowed.  Each sends at most one offer, under a connection id of its
    own, and tells the peer at most once that it has failed; everything it sends
    carries its ids.  The one that succeeds is the last, and the client gives up
    with a timeout only when all attempts are used. *)
Theorem tokio_client_attempts mode c remote envs sent r :
  connect_with mode c remote envs = (sent, r) ->
  Z.of_nat (length sent) <= Z.max (cfg_attempts c) 1 /\
  (forall i l, sent !! i = Some l -> Forall (addressed remote (ae_connection_id (envs i))) l /\
     (count Offer l <= 1)%nat /\ (count Error l <= 1)%nat) /\
  match r with
  | Ok (_, i) => length sent = S i
  | Err x => is_timeout x = true -> Z.of_nat (length sent) = Z.max (cfg_attempts c) 1
  | Panic => True
  end.
Proof.
  intros (H1 & H2 & H3)%connect_loop_attempts. split; [lia|]. split; [exact H2|].
  destruct r as [[conn i]| |]; [exact H3| |done]. intros Ht%H3. lia.
Qed.

(** ** Starting over trickled candidates *)

(** After the answer a candidate does not end the negotiation by itself: unless the
    connection already has the address of its peer, which no datagram can have
    given it, the loop goes on until the next answer or the deadline. *)
Lemma candidates_keep_waiting remote cid l : forall d,
  (forall conn g now, connection_remote_addr conn = None ->
     connection_remote_addr (handle (CSignal g now) conn).2 = None) ->
  connection_remote_addr (d_connection d) = None ->
  Forall (fun a => exists g wall now, a = ASignal g wall now /\ signal_type g = SignalMsg.Candidate) l ->
  forall d', (dial_loop remote cid l d).1 <> Ok d'.
Proof.
  induction l as [|a l IH]; intros d Hn Hd Hl d'; cbn [dial_loop]; [done|].
  apply list.Forall_cons in Hl as [(g & wall & now & -> & Hg) Hl].
  destruct (is_ours remote cid g); [|by apply IH]. unfold dial_signal. rewrite Hg.
  destruct (feed g now Ice d) as [d1| |] eqn:Ef; [|done..]. apply feed_handle in Ef as ->. rewrite res_bind_Ok.
  unfold can_start. cbn [d_connection d_need_candidate negb].
  rewrite (Hn (d_connection d) g now Hd), bool_decide_eq_false_2 by by intros []. cbn [andb].
  apply IH; [done|by apply Hn|done].
Qed.
End client.

(** ** [AsyncWrite] *)

Inductive Poll (A : Type) := PReady (r : A) | PPending.
Arguments PReady {A} _.
Arguments PPending {A}.

(** [send_future] holds the send that has not finished, by its data; [w_sends] are
    the messages given to the session, in order, and [w_closed] whether it was
    told to close. *)
Record Writer := { send_future : option bytes; shutdown_future : bool; w_sends : list bytes; w_closed : bool }.

Definition writer_new : Writer :=
  {| send_future := None; shutdown_future := false; w_sends := []; w_closed := false |}.

Definition set_send (f : option bytes) (w : Writer) : Writer :=
  {| send_future := f; shutdown_future := shutdown_future w; w_sends := w_sends w; w_closed := w_closed w |}.

(** [earlier] is what polling the unfinished send gives, [fresh] what the first poll
    of the new one gives, with which the message goes to the session. *)
Definition poll_write (buf : bytes) (earlier fresh : Poll (Res NetherError unit)) (w : Writer)
    : Poll (Res NetherError Z) * Writer :=
  let send w :=
    let w := {| send_future := None; shutdown_future := shutdown_future w; w_sends := w_sends w ++ [buf];
                w_closed := w_closed w |} in
    match fresh with
    | PReady (Ok _) => (PReady (Ok (blen buf)), w)
    | PReady (Err e) => (PReady (Err e), w)
    | PReady Panic => (PReady Panic, w)
    | PPending => (PReady (Ok (blen buf)), set_send (Some buf) w)
    end in
  match send_future w with
  | Some _ =>
      match earlier with
      | PReady (Ok _) => send w
      | PReady (Err e) => (PReady (Err e), set_send None w)
      | PReady Panic => (PReady Panic, set_send None w)
      | PPending => (PPending, w)
      end
  | None => send w
  end.

Definition poll_flush (earlier : Poll (Res NetherError unit)) (w : Writer) : Poll (Res NetherError unit) * Writer :=
  match send_future w with
  | Some _ => match earlier with PPending => (PPending, w) | r => (r, set_send None w) end
  | None => (PReady (Ok tt), w)
  end.

(** [close] is what polling the end of the session gives. *)
Definition poll_shutdown (earlier close : Poll (Res NetherError unit)) (w : Writer)
    : Poll (Res NetherError unit) * Writer :=
  match poll_flush earlier w with
  | (PReady (Ok _), w) =>
      let w b := {| send_future := send_future w; shutdown_future := b; w_sends := w_sends w; w_closed := true |} in
      match close with PPending => (PPending, w true) | r => (r, w false) end
  | r => r
  end.

Inductive WriteOp :=
| WWrite (buf : bytes) (earlier fresh : Poll (Res NetherError unit))
| WFlush (earlier : Poll (Res NetherError unit))
| WShutdown (earlier close : Poll (Res NetherError unit)).

(** What a call gives: the bytes it has taken, for a write. *)
Definition write_op (op : WriteOp) (w : Writer) : Poll (Res NetherError Z) * Writer :=
  let count '(r, w) := (match r with
                        | PReady (Ok _) => PReady (Ok 0)
                        | PReady (Err e) => PReady (Err e)
                        | PReady Panic => PReady Panic
                        | PPending => PPending
                        end, w) in
  match op with
  | WWrite buf e f => poll_write buf e f w
  | WFlush e => count (poll_flush e w)
  | WShutdown e c => count (poll_shutdown e c w)
  end.

Inductive write_run : list (WriteOp * Poll (Res NetherError Z)) -> Writer -> Prop :=
| wrun_nil : write_run [] writer_new
| wrun_op log w op r w' : write_run log w -> write_op op w = (r, w') -> write_run (log ++ [(op, r)]) w'.

(** The buffers whose bytes were taken. *)
Definition taken (x : WriteOp * Poll (Res NetherError Z)) : option bytes :=
  match x with (WWrite buf _ _, PReady (Ok _)) => Some buf | _ => None end.

Definition goes_well (x : WriteOp * Poll (Res NetherError Z)) : bool :=
  match x.2 with PReady (Ok _) | PPending => true | _ => false end.

(** What one call does. *)
Lemma write_op_spec op w r w' :
  write_op op w = (r, w') -> goes_well (op, r) = true ->
  w_sends w' = w_sends w ++ option_list (taken (op, r)) /\
  (forall buf e f n, op = WWrite buf e f -> r = PReady (Ok n) -> n = blen buf) /\
  (forall e, op = WFlush e -> r <> PPending -> send_future w' = None) /\
  (w_closed w' = true -> w_closed w = true \/ send_future w' = None).
Proof.
  destruct op as [buf e f|e|e c]; cbn [write_op].
  - unfold poll_write. destruct (send_future w) as [d|]; [destruct e as [[[]|x|]|]|]; try destruct f as [[[]|x'|]|];
      intros [= <- <-]; try done; intros _; cbn; rewrite ?app_nil_r; split_and!; try done; try (by left);
      by intros ???? [= <- _ _] [= <-].
  - unfold poll_flush. destruct (send_future w) as [d|] eqn:E; [destruct e as [[[]|x|]|]|]; intros [= <- <-]; try done;
      intros _; cbn; rewrite ?app_nil_r; split_and!; try done; by left.
  - unfold poll_shutdown, poll_flush. destruct (send_future w) as [d|] eqn:E; [destruct e as [[[]|x|]|]|];
      try destruct c as [[[]|x'|]|]; intros [= <- <-]; try done; intros _; cbn; rewrite ?app_nil_r; split_and!;
      try done; first [by left|by right].
Qed.

(** Writing through the client loses nothing and repeats nothing: as long as no
    call fails, the messages given to the session are exactly the buffers whose
    writes were reported as done, whole and in order.  A write that is reported
    as done has taken all of its buffer, a flush that is has left no send
    unfinished, and the session is told to close only when none is. *)
Theorem tokio_write_exact log w op r w' :
  write_run log w -> forallb goes_well log = true -> write_op op w = (r, w') -> goes_well (op, r) = true ->
  w_sends w' = omap taken (log ++ [(op, r)]) /\
  (forall buf e f n, op = WWrite buf e f -> r = PReady (Ok n) -> n = blen buf) /\
  (forall e, op = WFlush e -> r <> PPending -> send_future w' = None) /\
  (w_closed w' = true -> w_closed w = true \/ send_future w' = None).
Proof.
  intros Hrun Hlog Hop Hr. destruct (write_op_spec _ _ _ _ Hop Hr) as (H1 & H2).
  assert (forall x, omap taken [x] = option_list (taken x)) as Hone by (intros x; cbn; by destruct (taken x)).
  split; [|exact H2]. rewrite H1, omap_app, Hone. f_equal.
  clear Hop Hr H1 H2. revert Hlog. induction Hrun as [|log w op1 r1 w1 _ IH Hop]; [done|].
  rewrite forallb_app. cbn. rewrite andb_true_r. intros [Hl Hw]%andb_true_iff.
  destruct (write_op_spec _ _ _ _ Hop Hw) as (H1 & _). by rewrite H1, omap_app, (IH Hl), Hone.
Qed.

Lemma tokio_write_exact_witness :
  exists r w', write_op (WFlush (PReady (Ok tt))) (write_op (WWrite (str "abc") PPending PPending) writer_new).2 = (r, w') /\
    w_sends w' = [str "abc"] /\ send_future w' = None.
Proof.
  eexists _, _. split; [reflexivity|].
  destruct (tokio_write_exact [(WWrite (str "abc") PPending PPending, PReady (Ok 3))]
    (write_op (WWrite (str "abc") PPending PPending) writer_new).2 (WFlush (PReady (Ok tt))) (PReady (Ok 0))
    (write_op (WFlush (PReady (Ok tt))) (write_op (WWrite (str "abc") PPending PPending) writer_new).2).2)
    as (H1 & _ & H3 & _).
  - apply (wrun_op [] writer_new); [apply wrun_nil|reflexivity].
  - reflexivity.
  - reflexivity.
  - reflexivity.
  - split; [exact H1|]. exact (H3 _ eq_refl ltac:(discriminate)).
Defined.
