(* ===== verification/TokioClientInstance.v ===== *)
(** * TokioClientInstance: a concrete tokio client

    The theorems of [TokioClient.v] on a client whose first attempt times out and
    whose second is answered by a server that it can authenticate. *)
From S2P Require Import Prelude Text Errors SignalMsg Endpoint Discovery Identity ServerIdentity IdentityInstance.
From S2P Require Import Webrtc WebrtcInstance Candidate Framing Transports Sans Session SessionInstance Connection Admission.
From S2P Require Import ServerSessions ServerInstance HttpServerInstance TokioBase TokioClient.

#[local] Existing Instances toy_crypto toy_base64 toy_base64_laws toy_serde toy_serde_laws tiny_p384 toy_rsa.
#[local] Existing Instance tiny_sdp | 0.

Definition trusting : ConnectionConfig := {|
  cfg_timeouts := Timeouts_default; cfg_attempts := 3; cfg_identity := None;
  cfg_allow_unsigned_answers := false; cfg_token_trust := None; cfg_server_trust := Some AnyToken;
  cfg_infer_peer_candidates := false; cfg_max_pending := 4; cfg_max_pending_per_network_id := 1;
  cfg_media_addr := None |}.

Definition attempt (i : nat) : AttemptEnv := {|
  ae_connection_id := 42 + Z.of_nat i; ae_cancelled := false; ae_socket := Ok 40000; ae_probe := None;
  ae_interfaces := []; ae_ufrag := str "abcd"; ae_pwd := str "secret"; ae_random := str "r";
  ae_session := 0; ae_describe := 0; ae_wall := 0; ae_stop := fun _ => false; ae_sent := fun _ => Ok tt;
  ae_arrivals := match i with
                 | O => []
                 | _ => [ASignal (signal_answer (42 + Z.of_nat i) signed_text (str "peer")) 0 5]
                 end;
  ae_ready := WReady |}.

(** Two attempts were made, and the second gave the session. *)
Definition connects (r : list (list Signal) * Res NetherError (Connection * nat)) : bool :=
  match r with (sent, Ok (_, i)) => bool_decide (i = 1%nat) && bool_decide (length sent = 2%nat) | _ => false end.

Lemma second_connects : connects (connect_with Full trusting (str "peer") attempt) = true.
Proof. vm_compute. reflexivity. Qed.

Lemma connects_inv r : connects r = true -> exists sent conn, r = (sent, Ok (conn, 1%nat)) /\ length sent = 2%nat.
Proof.
  destruct r as [sent [[conn i]| |]]; cbn [connects]; try discriminate.
  intros [H1 H2]%andb_true_iff. apply bool_decide_eq_true in H1, H2. subst i. by exists sent, conn.
Qed.

Lemma tokio_client_authentic_witness :
  exists conn c0 signals, prepare_offer Full trusting (str "peer") (attempt 1) = Ok (c0, signals) /\
    fed (derived AnyToken) (str "peer") 43 c0 conn.
Proof.
  destruct (connects_inv _ second_connects) as (sent & conn & Hc & _). exists conn.
  exact (proj2 (tokio_client_authentic Full trusting (str "peer") attempt sent conn 1 AnyToken eq_refl Hc)).
Defined.

Lemma tokio_client_attempts_witness :
  exists sent : list (list Signal), length sent = 2%nat /\ Z.of_nat (length sent) <= 3.
Proof.
  destruct (connects_inv _ second_connects) as (sent & conn & Hc & Hl). exists sent. split; [exact Hl|].
  exact (proj1 (tokio_client_attempts Full trusting (str "peer") attempt sent _ Hc)).
Defined.
