(* ===== verification/Jwks.v ===== *)
(** * Jwks: the keys that are fetched and shared
    ([nethernet-tokio/src/util/jwks.rs])

    The handles, a task that watches the keys and the servers that validate tokens
    share one key set.  A lock on the time of the last fetch is held across a
    request, so that one request is under way at a time.  Every move of a party is
    an input of [step]: a call that finds the lock taken waits, and takes it in a
    later input.  The response to a request is an input, and so are the clocks.  A
    caller may give up its [refresh], and the application, which has been handed the
    shared set, may replace the keys itself. *)
From S2P Require Import Prelude Text Errors Identity TokioBase.
From Stdlib Require Import Sorted.

Definition MIN_INTERVAL : Duration := secs 60.
Definition FETCH_TIMEOUT : Duration := secs 10.
Definition WATCH_INTERVAL : Duration := secs 5.
Definition MAX_AGE : Duration := secs (60 * 60).

Section jwks.
Context `{b64 : Base64} `{serde : Serde} `{p384 : P384} `{rsa : Rsa}.

(** The two fields of [Inner] that change; the URL and the HTTP client do not. *)
Record Inner := { inner_keys : MinecraftKeys; fetched_at : option Instant }.

(** How the request for the keys ends: it fails or has an error status, its body is
    no key set, or it is one. *)
Inductive Fetched := FetchFailed | FetchUnreadable | FetchKeys (set : JwkSet).

(** [Instant::elapsed], which saturates at zero. *)
Definition elapsed (now at_ : Instant) : Duration := Z.max 0 (now - at_).

(** Whether [Inner::refresh] asks for the keys. *)
Definition wants_fetch (min_interval : Duration) (now : Instant) (i : Inner) : bool :=
  negb (match fetched_at i with Some at_ => elapsed now at_ <? min_interval | None => false end).

(** The rest of [Inner::refresh], once the request has ended. *)
Definition finish_refresh (r : Fetched) (now : Instant) (i : Inner) : Res NetherError unit * Inner :=
  match r with
  | FetchFailed => (Err (NOther (str "fetch keys: ")), i)
  | FetchUnreadable => (Err (NOther (str "read keys: ")), i)
  | FetchKeys set => (Ok tt, {| inner_keys := replace_keys set (inner_keys i); fetched_at := Some now |})
  end.

(** [Inner::refresh] without anything in between. *)
Definition refresh (min_interval : Duration) (r : Fetched) (start now : Instant) (i : Inner)
    : Res NetherError unit * Inner :=
  if wants_fetch min_interval start i then finish_refresh r now i else (Ok tt, i).

Definition is_due (max_age : Duration) (now : Instant) (i : Inner) : bool :=
  match fetched_at i with Some at_ => max_age <=? elapsed now at_ | None => true end.

Definition inner_new : Inner :=
  {| inner_keys := minecraft_keys_new {| keys := [] |}; fetched_at := None |}.

(** [Jwks::keys], [Jwks::trust], [Jwks::contains]. *)
Definition jwks_keys (i : Inner) : JwkSet := snapshot (inner_keys i).
Definition jwks_trust (i : Inner) : TokenTrust := Minecraft (inner_keys i).
Definition jwks_contains (kid : bytes) (i : Inner) : bool := jwk_contains (snapshot (inner_keys i)) kid.

(** ** The parties *)

(** Where the watcher is: it sleeps; it has taken a flag that was down, and asks
    whether the keys are old; it wants a refresh; its request is under way; after a
    refresh for a flag that was up it looks, for a log line, whether the keys are
    new; it has ended, since no handle is left.  [missed] is the flag it took. *)
Inductive Watcher := WSleep | WCheck | WWant (missed : bool) | WFetch (missed : bool) | WLook | WEnded.

(** [user_fetch]: whether a handle's [refresh] has a request under way. *)
Record Jwks := { inner : Inner; user_fetch : bool; watcher : Watcher }.

Definition locked (s : Jwks) : bool :=
  user_fetch s || match watcher s with WFetch _ => true | _ => false end.

Inductive Input :=
| ICheck (i : Identity) (wall : SystemTime)
| IRefresh
| IGiveUp
| IReplace (set : JwkSet)
| IResponse (r : Fetched)
| IWatch (alive : bool).

(** A request is sent; it ends with keys, without, or is given up; the application
    replaces the keys. *)
Inductive Event := Requested | Received (set : JwkSet) | NoKeys | GivenUp | Replaced (set : JwkSet).

Definition set_watcher (w : Watcher) (s : Jwks) : Jwks :=
  {| inner := inner s; user_fetch := user_fetch s; watcher := w |}.

(** A validator checks a token against the shared keys. *)
Definition check_token (i : Identity) (wall : SystemTime) (s : Jwks) : Jwks :=
  {| inner := {| inner_keys := match (trust_claims i wall (jwks_trust (inner s))).2 with
                               | Minecraft k => k
                               | AnyToken => inner_keys (inner s)
                               end;
                 fetched_at := fetched_at (inner s) |};
     user_fetch := user_fetch s; watcher := watcher s |}.

(** Where the watcher goes from a refresh with this result. *)
Definition after_refresh (missed : bool) (result : Res NetherError unit) : Watcher :=
  if missed && is_ok result then WLook else WSleep.

(** [watch] and [refresh_if_needed], up to the next point where they wait. *)
Definition watch_step (alive : bool) (now : Instant) (s : Jwks) : Jwks * list Event :=
  match watcher s with
  | WSleep =>
      if alive then
        let '(missed, k) := take_missed (inner_keys (inner s)) in
        ({| inner := {| inner_keys := k; fetched_at := fetched_at (inner s) |}; user_fetch := user_fetch s;
            watcher := if missed then WWant true else WCheck |}, [])
      else (set_watcher WEnded s, [])
  | WCheck =>
      if locked s then (s, [])
      else (set_watcher (if is_due MAX_AGE now (inner s) then WWant false else WSleep) s, [])
  | WWant missed =>
      if locked s then (s, [])
      else if wants_fetch MIN_INTERVAL now (inner s) then (set_watcher (WFetch missed) s, [Requested])
      else (set_watcher (after_refresh missed (Ok tt)) s, [])
  | WLook => if locked s then (s, []) else (set_watcher WSleep s, [])
  | WFetch _ | WEnded => (s, [])
  end.

(** The party whose request it is goes on. *)
Definition respond (r : Fetched) (now : Instant) (s : Jwks) : Jwks * list Event :=
  if locked s then
    let '(result, i) := finish_refresh r now (inner s) in
    ({| inner := i; user_fetch := false;
        watcher := match watcher s with WFetch missed => after_refresh missed result | w => w end |},
     [match r with FetchKeys set => Received set | FetchFailed | FetchUnreadable => NoKeys end])
  else (s, []).

Definition step (now : Instant) (i : Input) (s : Jwks) : Jwks * list Event :=
  match i with
  | ICheck id wall => (check_token id wall s, [])
  | IRefresh =>
      if locked s then (s, [])
      else if wants_fetch MIN_INTERVAL now (inner s)
      then ({| inner := inner s; user_fetch := true; watcher := watcher s |}, [Requested])
      else (s, [])
  | IGiveUp =>
      if user_fetch s then ({| inner := inner s; user_fetch := false; watcher := watcher s |}, [GivenUp])
      else (s, [])
  | IReplace set =>
      ({| inner := {| inner_keys := replace_keys set (inner_keys (inner s)); fetched_at := fetched_at (inner s) |};
          user_fetch := user_fetch s; watcher := watcher s |}, [Replaced set])
  | IResponse r => respond r now s
  | IWatch alive => watch_step alive now s
  end.

(** Each event with the time it happens at. *)
Fixpoint run (l : list (Instant * Input)) (s : Jwks) : Jwks * list (Instant * Event) :=
  match l with
  | [] => (s, [])
  | (now, i) :: l =>
      let '(s, ev) := step now i s in
      let '(s, evs) := run l s in
      (s, map (pair now) ev ++ evs)
  end.

(** [Jwks::fetch]: the first fetch must succeed, and then the watcher starts. *)
Definition fetch (r : Fetched) (start now : Instant) : Res NetherError Jwks :=
  match refresh MIN_INTERVAL r start now inner_new with
  | (Ok _, i) => Ok {| inner := i; user_fetch := false; watcher := WSleep |}
  | (Err e, _) => Err e
  | (Panic, _) => Panic
  end.

(** ** Properties *)

(** Times do not go back. *)
Fixpoint monotone (t : Instant) (l : list (Instant * Input)) : Prop :=
  match l with [] => True | (now, _) :: l => t <= now /\ monotone now l end.

(** Validating a token leaves the keys and the time of their fetch alone. *)
Lemma check_token_keys i wall s :
  snapshot (inner_keys (inner (check_token i wall s))) = snapshot (inner_keys (inner s)) /\
  fetched_at (inner (check_token i wall s)) = fetched_at (inner s) /\
  watcher (check_token i wall s) = watcher s /\ user_fetch (check_token i wall s) = user_fetch s /\
  (missed (inner_keys (inner s)) = true -> missed (inner_keys (inner (check_token i wall s))) = true).
Proof.
  unfold check_token, trust_claims, jwks_trust. cbn. destruct (_ ≫= _) as [[jws c]|e|]; cbn; [|done..].
  repeat match goal with |- context [if ?b then _ else _] => destruct b; cbn; try done end.
Qed.

(** The two requests exclude each other. *)
Definition exclusive (s : Jwks) : Prop := user_fetch s = true -> forall m, watcher s <> WFetch m.

(** When keys were received last, and the keys that were put in last. *)
Definition note (p : Instant * JwkSet) (e : Instant * Event) : Instant * JwkSet :=
  match e.2 with
  | Received set => (e.1, set)
  | Replaced set => (p.1, set)
  | _ => p
  end.

Definition newest (t0 : Instant) (set0 : JwkSet) (evs : list (Instant * Event)) : Instant * JwkSet :=
  fold_left note evs (t0, set0).

(** Requests and their ends take turns; [Some true] while one is under way. *)
Definition turn (under_way : option bool) (e : Instant * Event) : option bool :=
  match under_way, e.2 with
  | Some false, Requested => Some true
  | Some true, (Received _ | NoKeys | GivenUp) => Some false
  | Some b, Replaced _ => Some b
  | _, _ => None
  end.

Definition holds (p : Instant * JwkSet) (s : Jwks) : Prop :=
  fetched_at (inner s) = Some p.1 /\ snapshot (inner_keys (inner s)) = p.2 /\ exclusive s.

(** A step without an event that leaves the lock alone. *)
Definition silently (s : Jwks) (x : Jwks * list Event) : Prop :=
  x.2 = [] /\ fetched_at (inner x.1) = fetched_at (inner s) /\
  snapshot (inner_keys (inner x.1)) = snapshot (inner_keys (inner s)) /\
  user_fetch x.1 = user_fetch s /\ ((exists m, watcher x.1 = WFetch m) <-> exists m, watcher s = WFetch m).

(** A step without events, or with one that fits the state. *)
Definition fits (now : Instant) (p : Instant * JwkSet) (s : Jwks) (x : Jwks * list Event) : Prop :=
  let evs := map (pair now) x.2 in
  holds (fold_left note evs p) x.1 /\ fold_left turn evs (Some (locked s)) = Some (locked x.1) /\
  (x.2 = [] \/ (x.2 = [Requested] /\ p.1 + MIN_INTERVAL <= now) \/ exists e, x.2 = [e] /\ e <> Requested).

Lemma fetching (s : Jwks) :
  match watcher s with WFetch _ => true | _ => false end = true <-> exists m, watcher s = WFetch m.
Proof. destruct (watcher s); split; try done; try (by intros [? ?]); eauto. Qed.

Lemma silently_fits now p s x : silently s x -> holds p s -> fits now p s x.
Proof.
  destruct x as [s' evs]. intros (E0 & Ef & Ek & Eu & Ew) (Hf & Hk & Hx). cbn [fst snd] in *. subst evs.
  assert (locked s' = locked s) as El.
  { unfold locked. rewrite Eu. f_equal. apply eq_bool_prop_intro. rewrite !Is_true_true. by rewrite !fetching. }
  unfold fits. cbn. split_and!; [|by rewrite El|by left]. split_and!; cbn; [congruence..|].
  intros Hu m Hm. rewrite Eu in Hu. destruct Ew as [Ew _]. destruct Ew as [m' Hm']; [eauto|]. by apply (Hx Hu m').
Qed.

Lemma watch_step_fits alive now p s :
  (wants_fetch MIN_INTERVAL now (inner s) = true -> p.1 + MIN_INTERVAL <= now) ->
  holds p s -> fits now p s (watch_step alive now s).
Proof.
  intros Hw Hh. unfold watch_step.
  assert (forall w, (forall m, w <> WFetch m) -> (forall m, watcher s <> WFetch m) ->
    silently s (set_watcher w s, [])) as Hset.
  { intros w H1 H2. split_and!; try done. cbn. split; intros [m Hm]; [by destruct (H1 m)|by destruct (H2 m)]. }
  assert (silently s (s, [])) as Hsame by by split_and!.
  destruct (watcher s) as [| |m|m| |] eqn:Ew.
  - destruct alive; [|by apply silently_fits, Hh; apply Hset; intros ?; rewrite ?Ew].
    apply silently_fits; [|done]. split_and!; try done. cbn. rewrite Ew.
    split; intros [m Hm]; [by destruct (missed _)|done].
  - destruct (locked s); [by apply silently_fits|]. apply silently_fits; [|done].
    apply Hset; intros m; [by destruct (is_due _ _ _)|by rewrite ?Ew].
  - destruct (locked s) eqn:El; [by apply silently_fits|]. destruct (wants_fetch _ _ _) eqn:E.
    + destruct Hh as (Hf & Hk & Hx). unfold fits. cbn. rewrite El. unfold locked. cbn. rewrite orb_true_r.
      split_and!; [|done|right; left; auto]. split_and!; [done|done|]. intros Hu. unfold locked in El.
      cbn in Hu. by rewrite Hu in El.
    + apply silently_fits; [|done]. apply Hset; intros ?; [by destruct m|by rewrite ?Ew].
  - by apply silently_fits.
  - destruct (locked s); [by apply silently_fits|]. apply silently_fits; [|done]. apply Hset; intros ?; by rewrite ?Ew.
  - by apply silently_fits.
Qed.

Lemma step_fits now i s p : holds p s -> fits now p s (step now i s).
Proof.
  intros Hh. pose proof Hh as (Hf & Hk & Hx).
  assert (wants_fetch MIN_INTERVAL now (inner s) = true -> p.1 + MIN_INTERVAL <= now) as Hw.
  { unfold wants_fetch. rewrite Hf. unfold elapsed, MIN_INTERVAL, secs. intros E. to_props. lia. }
  assert (silently s (s, [])) as Hsame by by split_and!.
  destruct i as [id wall| | |set|r|alive]; cbn [step].
  - apply silently_fits; [|done]. destruct (check_token_keys id wall s) as (E1 & E2 & E3 & E4 & _).
    split_and!; [done..|]. cbn [fst]. by rewrite E3.
  - destruct (locked s) eqn:El; [by apply silently_fits|].
    destruct (wants_fetch _ _ _) eqn:E; [|by apply silently_fits].
    unfold fits. cbn. rewrite El. split_and!; [|done|right; left; auto]. split_and!; [done|done|]. intros _ m Hm.
    cbn in Hm. unfold locked in El. rewrite Hm, orb_true_r in El. done.
  - destruct (user_fetch s) eqn:Eu; [|by apply silently_fits].
    unfold fits. cbn. unfold locked at 1. rewrite Eu. cbn. split_and!; [by split_and!| |right; right; eauto].
    f_equal. unfold locked. cbn. destruct (watcher s) as [| | |m| |] eqn:Ew; try done. by destruct (Hx Eu m).
  - unfold fits. cbn. split_and!; [by split_and!| |right; right; eauto]. by destruct (locked s) eqn:El; rewrite <- El.
  - unfold respond. destruct (locked s) eqn:El; [|by apply silently_fits]. unfold fits.
    assert (forall w, locked {| inner := inner s; user_fetch := false;
      watcher := match watcher s with WFetch m => after_refresh m w | w => w end |} = false) as Hun.
    { intros w. unfold locked, after_refresh. cbn. destruct (watcher s) as [| | |m| |]; try done. by destruct (_ && _). }
    destruct r as [| |set]; cbn; rewrite El; unfold locked in Hun |- *; cbn in Hun |- *; rewrite ?Hun;
      (split_and!; [by split_and!|done|right; right; eauto]).
  - by apply watch_step_fits.
Qed.

(** A request comes a minute or more after every set that was received before it. *)
Definition apart (a b : Instant * Event) : Prop :=
  forall set, a.2 = Received set -> b.2 = Requested -> a.1 + MIN_INTERVAL <= b.1.

Lemma apart_request a (t : Instant) e : (forall set, e <> Received set) -> apart (t, e) a.
Proof. intros He set E. by destruct (He set). Qed.

Lemma run_holds l : forall t p s s' evs, run l s = (s', evs) ->
  holds p s -> p.1 <= t -> monotone t l ->
  holds (fold_left note evs p) s' /\ fold_left turn evs (Some (locked s)) = Some (locked s') /\
  StronglySorted apart ((p.1, Received p.2) :: evs).
Proof.
  induction l as [|[now i] l IH]; intros t p s s' evs; cbn [run monotone].
  { intros [= <- <-] Hh _ _. split; [done|]. split; [done|]. by repeat constructor. }
  destruct (step now i s) as [s1 ev] eqn:Es. destruct (run l s1) as [s2 evs2] eqn:Er.
  intros [= <- <-] Hh Hp [Ht Hm].
  pose proof (step_fits now i s p Hh) as Hq. rewrite Es in Hq. destruct Hq as (Hh1 & Ht1 & Hev). cbn [fst snd] in *.
  rewrite !fold_left_app, Ht1.
  assert ((fold_left note (map (pair now) ev) p).1 <= now) as Hp1.
  { destruct Hev as [->|[[-> _]|(e & -> & _)]]; cbn; [lia..|]. destruct e; cbn; lia. }
  destruct (IH now _ s1 s2 evs2 Er Hh1 Hp1 Hm) as (Hl & Hu & [Hs Ha]%StronglySorted_inv).
  split; [done|]. split; [done|].
  assert (Forall (apart (p.1, Received p.2)) evs2) as Hp2.
  { eapply list.Forall_impl; [exact Ha|]. intros b Hb set' _ Hr. specialize (Hb _ eq_refl Hr). cbn in Hb |- *.
    destruct Hev as [->|[[-> _]|(e & -> & _)]]; cbn in Hb; [done..|]. destruct e; cbn in Hb; lia. }
  destruct Hev as [->|[[-> Hle]|(e & -> & Hne)]]; cbn.
  - by constructor.
  - repeat constructor; auto.
    + apply list.Forall_true. intros b. by apply apart_request.
    + by intros set' _ _.
  - repeat constructor; auto.
    + destruct e; try (apply list.Forall_true; intros b; by apply apart_request).
      eapply list.Forall_impl; [exact Ha|]. intros b Hb set' _ Hr. exact (Hb _ eq_refl Hr).
    + intros set' _ Hr. by destruct Hne.
Qed.

(** C29: From a first fetch on, whatever the order in which the watcher, the handles,
    the validators and an application that replaces the keys move, the keys that
    everyone shares are those that came or were put in last, and the time kept is
    that of the last keys that came.  A request is sent only when the one before it
    has ended, and a minute or more after every key set that was received before
    it.  A request that ends without keys, or is given up, does not count: another
    may follow it at once. *)
Theorem jwks_rate_limited r start t0 s0 l s evs :
  fetch r start t0 = Ok s0 -> monotone t0 l -> run l s0 = (s, evs) ->
  exists set0, r = FetchKeys set0 /\
  fetched_at (inner s) = Some (newest t0 set0 evs).1 /\ jwks_keys (inner s) = (newest t0 set0 evs).2 /\
  fold_left turn evs (Some false) = Some (locked s) /\
  StronglySorted apart ((t0, Received set0) :: evs).
Proof.
  intros Hf Hm Hr. destruct r as [| |set0]; [done..|]. apply Ok_inj in Hf as <-.
  destruct (run_holds l t0 (t0, set0) _ _ _ Hr) as ((H1 & H2 & _) & Ht & Hs); [done|cbn; lia|done|].
  exists set0. by split_and!.
Qed.

(** Requests follow each other at once when they end without keys. *)
Lemma failures_not_limited now s at_ :
  locked s = false -> fetched_at (inner s) = Some at_ -> at_ + MIN_INTERVAL <= now ->
  (run [(now, IRefresh); (now, IResponse FetchFailed); (now, IRefresh); (now, IResponse FetchUnreadable);
        (now, IRefresh)] s).2
  = [(now, Requested); (now, NoKeys); (now, Requested); (now, NoKeys); (now, Requested)].
Proof.
  intros Hl Hf Ht. pose proof Hl as [Hu Hw]%orb_false_iff. cbn [run step]. rewrite Hl.
  assert (wants_fetch MIN_INTERVAL now (inner s) = true) as E.
  { unfold wants_fetch, elapsed. rewrite Hf, negb_true_iff, Z.ltb_ge. lia. }
  rewrite E. unfold respond, locked. cbn. destruct (watcher s); try done; cbn; rewrite E; cbn; by rewrite E.
Qed.

(** The watcher has done what it does between two sleeps, but for the log line. *)
Definition rests (w : Watcher) : Prop := w = WSleep \/ w = WLook.

(** When the watcher is done, unless its request has failed, the keys are less than
    an hour old; if it had found that a token named a key that is not published, or
    had asked for the keys, they are less than a minute old. *)
Theorem watcher_keeps_fresh now i s :
  ~ rests (watcher s) -> rests (watcher (step now i s).1) ->
  (forall r, i = IResponse r -> exists set, r = FetchKeys set) ->
  exists at_, fetched_at (inner (step now i s).1) = Some at_ /\ elapsed now at_ < MAX_AGE /\
    (watcher s <> WCheck -> elapsed now at_ < MIN_INTERVAL).
Proof.
  assert (MIN_INTERVAL < MAX_AGE) as Hmm by done.
  destruct i as [id wall| | |set|r|alive]; cbn [step].
  - cbn [fst]. by destruct (check_token_keys id wall s) as (_ & _ & -> & _).
  - by repeat case_match.
  - by repeat case_match.
  - done.
  - intros Hw Hw' Hr. destruct (Hr r eq_refl) as [set ->]. unfold respond in *.
    destruct (locked s); [|done]. exists now. cbn. unfold elapsed. rewrite Z.sub_diag. split; [done|]. by split; [|intros _].
  - intros Hw Hw' _. unfold watch_step in *. destruct (watcher s) as [| |m|m| |] eqn:Ew.
    + destruct Hw. by left.
    + destruct (locked s); [by cbn in Hw'; rewrite Ew in Hw'|].
      unfold is_due in *. cbn in *. destruct (fetched_at (inner s)) as [at_|]; [|by destruct Hw'].
      exists at_. split; [done|]. destruct (MAX_AGE <=? _) eqn:E; [by destruct Hw'|]. to_props. split; [lia|done].
    + destruct (locked s); [by cbn in Hw'; rewrite Ew in Hw'|].
      unfold wants_fetch in *. destruct (fetched_at (inner s)) as [at_|] eqn:Ef; [|by destruct Hw'].
      destruct (elapsed now at_ <? MIN_INTERVAL) eqn:E; [|by destruct Hw']. to_props. cbn. exists at_. split; [done|]. lia.
    + cbn in Hw'. by rewrite Ew in Hw'.
    + destruct Hw. by right.
    + cbn in Hw'. by rewrite Ew in Hw'.
Qed.

(** A token in date, signed with RS256, of which no key may be the one is refused,
    and the flag is raised. *)
Lemma check_token_marks i wall s jws claims :
  jws_parse (token (assertion i)) = Ok jws -> jws_claims jws = Ok claims -> check_expiry claims wall = Ok tt ->
  alg (header jws) = str "RS256" -> jwk_candidates (jwks_keys (inner s)) (kid (header jws)) = [] ->
  missed (inner_keys (inner (check_token i wall s))) = true.
Proof.
  intros Hj Hc He Ha Hk. unfold check_token, trust_claims, jwks_trust, jwks_keys in *. cbn [inner].
  rewrite Hj. cbn [mbind res_bind]. rewrite Hc. cbn [mbind res_bind]. rewrite He. cbn [mbind res_bind].
  by rewrite Ha, Hk.
Qed.

(** When a check raises the flag and the keys are a minute old, the next two moves
    of the watcher ask for the keys, and the response puts them where every
    validator reads them. *)
Lemma missed_key_refetched s i wall t1 t2 t3 t4 t5 at_ set :
  missed (inner_keys (inner (check_token i wall s))) = true ->
  watcher s = WSleep -> user_fetch s = false -> fetched_at (inner s) = Some at_ -> at_ + MIN_INTERVAL <= t3 ->
  let '(s', evs) := run [(t1, ICheck i wall); (t2, IWatch true); (t3, IWatch true); (t4, IResponse (FetchKeys set)); (t5, IWatch true)] s in
  jwks_trust (inner s') = Minecraft {| key_set := set; missed := false |} /\ watcher s' = WSleep /\
  evs = [(t3, Requested); (t4, Received set)].
Proof.
  intros Hr Hw Hu Hf Ht. destruct (check_token_keys i wall s) as (_ & Hf1 & Hw1 & Hu1 & _).
  cbn [run step]. revert Hr Hf1 Hw1 Hu1. generalize (check_token i wall s). intros s1 Hm Hf1 Hw1 Hu1.
  unfold watch_step at 1. rewrite Hw1, Hw. cbn [take_missed]. unfold take_missed. rewrite Hm.
  unfold watch_step, locked, respond, locked, wants_fetch, elapsed. cbn. rewrite Hu1, Hu, Hf1, Hf. cbn.
  rewrite (proj2 (Z.ltb_ge _ _)) by lia. done.
Qed.

(** When the keys are younger than that, the watcher takes the flag down and does
    not ask for them: the flag must be raised again to have an effect. *)
Lemma missed_flag_lost s t1 t2 t3 at_ :
  missed (inner_keys (inner s)) = true -> watcher s = WSleep -> user_fetch s = false ->
  fetched_at (inner s) = Some at_ -> t2 < at_ + MIN_INTERVAL ->
  let '(s', evs) := run [(t1, IWatch true); (t2, IWatch true); (t3, IWatch true)] s in
  watcher s' = WSleep /\ missed (inner_keys (inner s')) = false /\ jwks_keys (inner s') = jwks_keys (inner s) /\ evs = [].
Proof.
  intros Hm Hw Hu Hf Ht. cbn [run step]. unfold watch_step at 1. rewrite Hw. unfold take_missed. rewrite Hm.
  unfold watch_step, locked, wants_fetch, elapsed. cbn. rewrite Hu, Hf. cbn.
  assert (0 < MIN_INTERVAL) by done. by rewrite (proj2 (Z.ltb_lt _ _)) by lia.
Qed.
End jwks.
