(* ===== verification/KeyFile.v ===== *)
(** * KeyFile: the file that holds the server's key
    ([nethernet-tokio/src/util/identity.rs])

    Files are a map from a path to a text and its mode, which other processes may
    change between two calls into the system; a path may also not be readable, and
    making the directory, opening the file and writing it may fail. *)
From S2P Require Import Prelude Text Errors Identity ServerIdentity TokioBase.

Record File := { contents : bytes; mode : Z }.

Abbreviation Files := (gmap bytes File).

(** How the system answers, apart from what the files say: [io_write] is how much of
    a text was written when writing it failed. *)
Record Io := { io_read : bool; io_directory : bool; io_open : bool; io_write : option nat }.

Definition KEY_MODE : Z := 6 * 64.

Section key_file.
Context `{b64 : Base64} `{serde : Serde} `{p384 : P384} `{rsa : Rsa} `{pem : !Pem}.

Inductive ReadError := NotFound | ReadOther.

(** [tokio::fs::read_to_string]. *)
Definition read_to_string (io : Io) (path : bytes) (fs : Files) : Res ReadError bytes :=
  if negb (io_read io) then Err ReadOther
  else match fs !! path with
       | None => Err NotFound
       | Some f => if utf8_valid (contents f) then Ok (contents f) else Err ReadOther
       end.

(** [write] on Unix: [create_new] opens no file that exists. *)
Definition write (io : Io) (path text : bytes) (fs : Files) : Res NetherError unit * Files :=
  if negb (io_directory io && io_open io) then (Err NIo, fs)
  else match fs !! path with
       | Some _ => (Err NIo, fs)
       | None =>
           match io_write io with
           | None => (Ok tt, <[path := {| contents := text; mode := KEY_MODE |}]> fs)
           | Some n => (Err NIo, <[path := {| contents := take n text; mode := KEY_MODE |}]> fs)
           end
       end.

(** [at_read] are the files when the path is read and [at_write] when it is written,
    if it is. *)
Definition from_pem_or_create (io : Io) (path domain : bytes) (random : SigningKey) (now : SystemTime)
    (at_read at_write : Files) : Res NetherError ServerIdentity * Files :=
  match read_to_string io path at_read with
  | Ok text => (map_err NIdentity (from_pem text domain now), at_write)
  | Err NotFound =>
      match (created ← generate random domain now; text ← to_pem created; Ok (created, text)) with
      | Ok (created, text) =>
          let '(r, fs) := write io path text at_write in
          (_ ← r; Ok created, fs)
      | Err e => (Err (NIdentity e), at_write)
      | Panic => (Panic, at_write)
      end
  | Err ReadOther => (Err NIo, at_write)
  | Panic => (Panic, at_write)
  end.

Definition from_pem_file (io : Io) (path domain : bytes) (now : SystemTime) (fs : Files) : Res NetherError ServerIdentity :=
  text ← map_err (fun _ => NIo) (read_to_string io path fs);
  map_err NIdentity (from_pem text domain now).

(** ** Properties *)

(** A PEM that was written is read as the key it was written for, and is text. *)
Class PemLaws := {
  pem_roundtrip : forall key text, secret_to_pem key = Some text -> secret_from_pem text = Some key;
  pem_text : forall key text, secret_to_pem key = Some text -> utf8_valid text = true;
}.

Lemma write_keeps io path text fs : fs ⊆ (write io path text fs).2.
Proof.
  unfold write. destruct (negb _); [done|]. destruct (fs !! path) eqn:E; [done|].
  destruct (io_write io); by apply insert_subseteq.
Qed.

Lemma from_key_signing key domain now lifetime si : from_key key domain now lifetime = Ok si -> signing si = key.
Proof. unfold from_key. intros H. invert_binds H. by simplify_eq/=. Qed.

(** A file that exists is never changed, whatever other processes do between
    the reading and the writing.  An identity that is returned has the key of the
    file: one that was read, or one that was written at the mode 0600 where there
    was none, and from then on every call that can read the file and mint a token
    returns the same key. *)
Theorem key_file_kept `{!PemLaws} io path domain random now at_read at_write r fs :
  from_pem_or_create io path domain random now at_read at_write = (r, fs) ->
  at_write ⊆ fs /\
  forall si, r = Ok si ->
    (exists f, at_read !! path = Some f /\ fs = at_write /\ secret_from_pem (contents f) = Some (signing si)) \/
    (at_read !! path = None /\ at_write !! path = None /\ signing si = random /\
     exists f, fs !! path = Some f /\ mode f = KEY_MODE /\
     forall io' random' domain' now' later si' fs', io_read io' = true -> fs ⊆ later ->
       from_pem_or_create io' path domain' random' now' later later = (Ok si', fs') ->
       signing si' = signing si /\ fs' = later).
Proof.
  unfold from_pem_or_create at 1. destruct (read_to_string io path at_read) as [text|[|]|] eqn:Er.
  - intros [= <- <-]. split; [done|]. intros si Hs. left.
    unfold read_to_string in Er. destruct (negb _); [done|]. destruct (at_read !! path) as [f|] eqn:Ef; [|done].
    destruct (utf8_valid _) eqn:Eu; [|done]. apply Ok_inj in Er as <-. exists f. split; [done|]. split; [done|].
    unfold from_pem, from_pem_with_expiry in Hs. destruct (secret_from_pem (contents f)) as [k|]; [|done].
    cbn [ok_or mbind res_bind] in Hs. destruct (from_key k _ _ _) as [x| |] eqn:Ek; [|done..].
    apply Ok_inj in Hs as <-. by rewrite (from_key_signing _ _ _ _ _ Ek).
  - destruct (generate random domain now) as [created| |] eqn:Eg; cbn [mbind res_bind]; [|by intros [= <- <-]..].
    destruct (to_pem created) as [text| |] eqn:Et; cbn [mbind res_bind]; [|by intros [= <- <-]..].
    destruct (write io path text at_write) as [w fs'] eqn:Ew. intros [= <- <-].
    assert (at_write ⊆ fs') as Hsub by (pose proof (write_keeps io path text at_write) as Hw; by rewrite Ew in Hw).
    split; [done|]. intros si Hs. right. destruct w as [[]| |]; [|done..]. apply Ok_inj in Hs as <-.
    apply from_key_signing in Eg as Hk. unfold to_pem in Et. rewrite Hk in Et.
    destruct (secret_to_pem random) as [t|] eqn:Ep; [|done]. apply Ok_inj in Et as ->.
    assert (at_read !! path = None) as Hn.
    { unfold read_to_string in Er. by repeat case_match. }
    unfold write in Ew. destruct (negb _); [done|]. destruct (at_write !! path) eqn:Ef; [done|].
    destruct (io_write io); [done|]. injection Ew as <-. split_and!; [done..|].
    eexists. split; [apply lookup_insert_eq|]. split; [done|].
    intros io' random' domain' now' later si' fs' Hio Hl. unfold from_pem_or_create, read_to_string. rewrite Hio. cbn [negb].
    rewrite (lookup_weaken _ _ path _ (lookup_insert_eq _ _ _) Hl). cbn [contents].
    rewrite (pem_text _ _ Ep). unfold from_pem, from_pem_with_expiry. rewrite (pem_roundtrip _ _ Ep).
    cbn [ok_or mbind res_bind]. destruct (from_key random _ _ _) as [x| |] eqn:Ek; [|done..].
    intros [= <- <-]. by rewrite (from_key_signing _ _ _ _ _ Ek), Hk.
  - intros [= <- <-]. by split.
  - intros [= <- <-]. by split.
Qed.
End key_file.

(** ** [util/tls.rs]: the TLS configuration from PEM files *)

(** [rustls_pemfile] and the builder of [rustls]. *)
Class TlsPem := {
  CertificateDer : Type;
  PrivateKeyDer : Type;
  ServerConfig : Type;
  pem_certs : bytes -> option (list CertificateDer);
  pem_private_key : bytes -> option (option PrivateKeyDer);
  with_single_cert : list CertificateDer -> PrivateKeyDer -> option ServerConfig;
}.

Section tls.
Context `{TlsPem}.

Definition from_pem_bytes (certificate_chain private_key : bytes) : Res NetherError ServerConfig :=
  chain ← ok_or (NOther (str "read certificate chain: ")) (pem_certs certificate_chain);
  if bool_decide (chain = []) then Err (NOther (str "the certificate chain holds no certificate"))
  else
    key ← ok_or (NOther (str "read private key: ")) (pem_private_key private_key);
    key ← ok_or (NOther (str "the PEM holds no private key")) key;
    ok_or (NOther (str "build the TLS configuration: ")) (with_single_cert chain key).

(** The files are read before anything is parsed; [None] is a path that cannot be read. *)
Definition tls_from_pem (certificate_chain private_key : bytes) (read : bytes -> option bytes)
    : Res NetherError ServerConfig :=
  chain ← ok_or NIo (read certificate_chain);
  key ← ok_or NIo (read private_key);
  from_pem_bytes chain key.

(** A configuration is made exactly from a chain that is not empty and a key that
    the builder takes together. *)
Lemma from_pem_bytes_Ok chain_pem key_pem c :
  from_pem_bytes chain_pem key_pem = Ok c <->
  exists chain key, pem_certs chain_pem = Some chain /\ chain <> [] /\
    pem_private_key key_pem = Some (Some key) /\ with_single_cert chain key = Some c.
Proof.
  unfold from_pem_bytes. split.
  - intros (chain & Hc%ok_or_inv & Hr)%res_bind_inv. case_bool_decide as He; [done|].
    apply res_bind_inv in Hr as (k & Hk%ok_or_inv & Hr). apply res_bind_inv in Hr as (key & ->%ok_or_inv & Hr%ok_or_inv).
    by exists chain, key.
  - intros (chain & key & -> & Hne & -> & Hb). cbn [ok_or]. rewrite res_bind_Ok, bool_decide_eq_false_2 by done.
    rewrite !res_bind_Ok. cbn [ok_or]. rewrite res_bind_Ok. by rewrite Hb.
Qed.
End tls.
