(* ===== verification/HttpJoin.v ===== *)
(** * HttpJoin: joining over HTTP from the tokio front end
    ([nethernet-tokio/src/signaling/http/client.rs])

    An offer is posted to the server that a URL names, and the body of the response
    is delivered as the answer.  URLs are those of the [url] crate, and the response
    to a request is an argument: its status, its declared length and its body, chunk
    by chunk.  The text of a foreign error is left out of messages. *)
From S2P Require Import Prelude Text Errors SignalMsg ServerDataModel HttpSignaler TokioBase.

(** [url::Url], as far as it is used. *)
Class UrlOps := {
  Url : Type;
  url_parse : bytes -> option Url;
  url_scheme : Url -> bytes;
  url_port : Url -> option Z;
  url_join : Url -> bytes -> option Url;
  url_set_path : bytes -> Url -> Url;
}.

(** A port that is the default of the scheme is not kept, as [Url::port] documents. *)
Class UrlLaws (u : UrlOps) := {
  url_port_http : forall x, url_scheme x = str "http" -> url_port x <> Some 80;
  url_port_https : forall x, url_scheme x = str "https" -> url_port x <> Some 443;
}.

Definition CLIENT_USER_AGENT : bytes := str "libhttpclient/1.0.0.0".

Section join.
Context {urls : UrlOps} `{json : StatusJson}.

(** A request as it is handed to the HTTP client: where it goes, and the type and
    the text of its body if it has one. *)
Record Outgoing := { out_url : Url; out_agent : bytes; out_body : option (bytes * bytes) }.

(** A chunk of the body, or an error in its place. *)
Record Incoming := { in_status : Z; in_length : option Z; in_chunks : list (option bytes) }.

(** ** Where requests go *)

Definition join_url (own : bytes) (network_id : bytes) : Res NetherError Url :=
  u ← ok_or (NOther (str "parse network ID as URL: ")) (url_parse network_id);
  if negb (bool_decide (url_scheme u = str "http") || bool_decide (url_scheme u = str "https"))
     || bool_decide (url_port u = None)
  then Err (NOther (str "network ID must be a HTTP/HTTPS URL with a port: " ++ network_id))
  else ok_or (NOther (str "build join URL: ")) (url_join u (join_path own)).

Definition status_url (own : bytes) (network_id : bytes) : Res NetherError Url :=
  u ← join_url own network_id;
  Ok (url_set_path STATUS_PATH u).

(** ** Reading a body *)

Definition exceeded (what : bytes) : NetherError :=
  NOther (what ++ str " exceeds the " ++ dec MAX_ANSWER_SIZE ++ str "-byte limit").

(** The loop over the chunks: [body] is what was read so far. *)
Fixpoint read_chunks (what : bytes) (body : bytes) (l : list (option bytes)) : Res NetherError bytes :=
  match l with
  | [] => Ok body
  | None :: _ => Err (NOther (str "read " ++ what ++ str ": "))
  | Some chunk :: l =>
      if blen body + blen chunk >? MAX_ANSWER_SIZE then Err (exceeded what) else read_chunks what (body ++ chunk) l
  end.

Definition read_capped (r : Incoming) (what : bytes) : Res NetherError bytes :=
  if match in_length r with Some len => len >? MAX_ANSWER_SIZE | None => false end then Err (exceeded what)
  else read_chunks what [] (in_chunks r).

(** ** Requests *)

(** [response] is what sending a request gives. *)
Definition server_data (own network_id : bytes) (response : Outgoing -> option Incoming)
    : option Outgoing * Res NetherError ServerData :=
  match status_url own network_id with
  | Ok u =>
      let request := {| out_url := u; out_agent := CLIENT_USER_AGENT; out_body := None |} in
      (Some request,
       r ← ok_or (NOther (str "request server data: ")) (response request);
       body ← read_capped r (str "server data");
       map_err NStatus (validate_status_response (in_status r) body))
  | Err e => (None, Err e)
  | Panic => (None, Panic)
  end.

Definition rejected (e : JoinResponseError) : NetherError :=
  match e with
  | JoinRejected code => Signaled code
  | JoinStatus code => NOther (str "server answered with status " ++ dec code)
  | Empty => NOther (str "server sent no answer")
  | BodySizeExceeded n => NOther (str "the answer of " ++ dec n ++ str " bytes exceeds the size limit")
  end.

Definition join (own : bytes) (signal : Signal) (response : Outgoing -> option Incoming)
    : option Outgoing * Res NetherError bytes :=
  match join_url own (network_id signal) with
  | Ok u =>
      let request := {| out_url := u; out_agent := CLIENT_USER_AGENT;
                        out_body := Some (JOIN_CONTENT_TYPE, signal_data signal) |} in
      (Some request,
       r ← ok_or (NOther (str "signal offer: ")) (response request);
       body ← read_capped r (str "answer");
       let body := from_utf8_lossy body in
       _ ← map_err rejected (validate_join_response (in_status r) body);
       Ok body)
  | Err e => (None, Err e)
  | Panic => (None, Panic)
  end.

(** What is sent, what is delivered to the streams of signals, and the result. *)
Definition signal (own : bytes) (g : Signal) (response : Outgoing -> option Incoming)
    : option Outgoing * list Signal * Res NetherError unit :=
  match signal_type g with
  | Offer =>
      match join own g response with
      | (sent, Ok answer) =>
          (sent, [signal_answer (connection_id g) answer (network_id g)], Ok tt)
      | (sent, Err e) => (sent, [], Err e)
      | (sent, Panic) => (sent, [], Panic)
      end
  | Error => (None, [], Ok tt)
  | t => (None, [], Err (NOther (as_str t ++ str " is not supported over HTTP signaling")))
  end.

(** ** Properties *)

(** What is read is the chunks, one after the other, and never more than the limit. *)
Lemma read_chunks_spec what l : forall body out, read_chunks what body l = Ok out <->
  (exists chunks, l = map Some chunks /\ out = body ++ concat chunks) /\
  (l = [] \/ blen out <= MAX_ANSWER_SIZE).
Proof.
  induction l as [|[chunk|] l IH]; intros body out; cbn [read_chunks].
  - split.
    + intros <-%Ok_inj. split; [|by left]. exists []. by rewrite app_nil_r.
    + intros [(chunks & Hm & ->) _]. destruct chunks; [|done]. by rewrite app_nil_r.
  - assert (forall chunks, blen (body ++ chunk ++ concat chunks) = blen body + blen chunk + blen (concat chunks)) as Hl
      by (intros; rewrite !blen_app; lia).
    split.
    + destruct (_ >? _) eqn:E; [done|]. intros Hr. apply IH in Hr as [(chunks & -> & ->) Hb]. to_props.
      split; [exists (chunk :: chunks); by rewrite <- app_assoc|]. right.
      destruct Hb as [Hb|Hb]; [|done]. destruct chunks; [|done]. cbn. rewrite app_nil_r, blen_app. lia.
    + intros [(chunks & Hm & ->) Hb]. destruct chunks as [|c chunks]; [done|]. injection Hm as -> ->.
      destruct Hb as [Hb|Hb]; [done|]. cbn [concat] in *. rewrite Hl in Hb.
      assert (0 <= blen (concat chunks)) by (unfold blen; lia).
      destruct (_ >? _) eqn:E; [to_props; lia|]. apply IH. split; [exists chunks; by rewrite <- app_assoc|].
      right. by rewrite Hl.
  - split; [done|]. intros [(chunks & Hm & _) _]. by destruct chunks.
Qed.

Lemma read_capped_spec r what body : read_capped r what = Ok body <->
  (forall len, in_length r = Some len -> len <= MAX_ANSWER_SIZE) /\
  (exists chunks, in_chunks r = map Some chunks /\ body = concat chunks) /\ blen body <= MAX_ANSWER_SIZE.
Proof.
  unfold read_capped. destruct (match in_length r with Some _ => _ | None => _ end) eqn:E.
  - split; [done|]. intros [Hl _]. destruct (in_length r) as [len|]; [|done]. specialize (Hl len eq_refl). to_props. lia.
  - assert (forall len, in_length r = Some len -> len <= MAX_ANSWER_SIZE) as Hl.
    { intros len Hr. rewrite Hr in E. to_props. lia. }
    rewrite read_chunks_spec. split.
    + intros [Hc Hb]. split; [done|]. split; [done|]. destruct Hb as [Hb|Hb]; [|done].
      destruct Hc as (chunks & Hm & ->). rewrite Hb in Hm. by destruct chunks.
    + intros (_ & Hc & Hb). split; [done|by right].
Qed.

Lemma validate_join_ok status body : validate_join_response status body = Ok tt <->
  200 <= status < 300 /\ body <> [] /\ blen body <= MAX_ANSWER_SIZE /\ parse_uint u32_max (trim body) = None.
Proof.
  unfold validate_join_response, blen. split.
  - repeat case_match; try done. intros _. to_props. split_and!; try lia; try done. by intros ->.
  - intros (Hs & Hb & Hl & Hp). rewrite Hp. destruct body as [|b body]; [done|]. cbn [length] in *.
    repeat case_match; try done; to_props; lia.
Qed.

Lemma join_url_ok own nid u : join_url own nid = Ok u <->
  exists base, url_parse nid = Some base /\ (url_scheme base = str "http" \/ url_scheme base = str "https") /\
    url_port base <> None /\ url_join base (join_path own) = Some u.
Proof.
  unfold join_url. destruct (url_parse nid) as [base|]; cbn [ok_or mbind res_bind].
  - destruct (negb _ || _) eqn:E.
    + split; [done|]. intros (b & [= <-] & Hs & Hp & _). apply orb_true_iff in E as [E|E].
      * apply negb_true_iff, orb_false_iff in E as [E1%bool_decide_eq_false E2%bool_decide_eq_false]. by destruct Hs.
      * by apply bool_decide_eq_true in E.
    + apply orb_false_iff in E as [E1%negb_false_iff%orb_true_iff E2%bool_decide_eq_false].
      rewrite !bool_decide_eq_true in E1. split.
      * intros Hj. exists base. destruct (url_join base _) as [v|]; [|done]. by apply Ok_inj in Hj as <-.
      * intros (b & [= <-] & _ & _ & ->). done.
  - split; [done|]. by intros (b & Hb & _).
Qed.

(** Nothing is delivered. *)
Ltac undelivered :=
  intros [= <- <- <-]; split_and!; [split; [done|intros [? ?]; congruence]|try done; by eauto|done].

(** C27: An answer is delivered exactly when posting an offer has succeeded.  The
    offer went, unchanged, to the server that its network id names, which is an
    HTTP(S) URL with a port; the answer names the same connection and peer and is
    the text of the whole body of a response of success, at most the limit, and not
    a code.  Nothing else is ever sent or delivered. *)
Theorem http_join_exact own g response sent delivered res :
  signal own g response = (sent, delivered, res) ->
  (delivered <> [] <-> signal_type g = Offer /\ res = Ok tt) /\
  (forall request, sent = Some request ->
    signal_type g = Offer /\ join_url own (network_id g) = Ok (out_url request) /\
    out_body request = Some (JOIN_CONTENT_TYPE, signal_data g)) /\
  (delivered <> [] -> exists request r chunks, sent = Some request /\ response request = Some r /\
    in_chunks r = map Some chunks /\ blen (concat chunks) <= MAX_ANSWER_SIZE /\ 200 <= in_status r < 300 /\
    parse_uint u32_max (trim (from_utf8_lossy (concat chunks))) = None /\
    delivered = [signal_answer (connection_id g) (from_utf8_lossy (concat chunks)) (network_id g)]).
Proof.
  unfold signal. destruct (signal_type g) eqn:Et.
  2-4: undelivered.
  unfold join. destruct (join_url own (network_id g)) as [u|e|] eqn:Eu.
  2-3: undelivered.
  set (request := {| out_url := u; out_agent := _; out_body := _ |}).
  assert (forall r, Some request = Some r -> Offer = Offer /\ Ok u = Ok (E := NetherError) (out_url r) /\
    out_body r = Some (JOIN_CONTENT_TYPE, signal_data g)) as Hreq by (by intros r [= <-]).
  destruct (response request) as [r|] eqn:Er; cbn [ok_or mbind res_bind].
  2: undelivered.
  destruct (read_capped r _) as [body|e|] eqn:Eb; cbn [mbind res_bind].
  2-3: undelivered.
  destruct (validate_join_response _ _) as [[]|e|] eqn:Ev; cbn [map_err mbind res_bind].
  2-3: undelivered.
  intros [= <- <- <-]. split_and!; [done|done|]. intros _.
  apply read_capped_spec in Eb as (_ & (chunks & Hc & ->) & Hb). apply validate_join_ok in Ev as ([Hs1 Hs2] & _ & _ & Hp).
  exists request, r, chunks. by split_and!.
Qed.

(** An answer that a server sends whole, however the transport cuts it into
    chunks, arrives as the same text; a code in its place arrives as the error it
    stands for. *)
Theorem http_join_roundtrip own g u text chunks len response :
  signal_type g = Offer -> join_url own (network_id g) = Ok u ->
  concat chunks = text -> is_ascii text = true -> text <> [] -> blen text <= MAX_ANSWER_SIZE ->
  (forall n, len = Some n -> n <= MAX_ANSWER_SIZE) ->
  (forall request, out_url request = u ->
    response request = Some {| in_status := OK; in_length := len; in_chunks := map Some chunks |}) ->
  exists request,
  signal own g response = match parse_uint u32_max (trim text) with
    | None => (Some request, [signal_answer (connection_id g) text (network_id g)], Ok tt)
    | Some n => (Some request, [], Err (Signaled (SignalErrorCode_from_u32 n)))
    end.
Proof.
  intros Ht Hu Hc Ha Hn Hb Hl Hr. unfold signal, join. rewrite Ht, Hu. eexists.
  rewrite Hr by done. cbn [ok_or mbind res_bind in_status].
  rewrite (proj2 (read_capped_spec {| in_status := OK; in_length := len; in_chunks := map Some chunks |} (str "answer") text))
    by (split_and!; [done|by exists chunks|done]).
  cbn [mbind res_bind]. rewrite from_utf8_lossy_ascii by done.
  destruct (parse_uint u32_max (trim text)) as [n|] eqn:Ep.
  - unfold validate_join_response. rewrite Ep. destruct text as [|b text]; [done|].
    rewrite (proj2 (Z.eqb_neq _ _)) by (unfold blen; cbn; lia).
    destruct (_ >? MAX_ANSWER_SIZE) eqn:E; [to_props; lia|done].
  - by rewrite (proj2 (validate_join_ok OK text)).
Qed.

(** Only URLs with a port other than the default of their scheme are joined. *)
Lemma join_url_port `{!UrlLaws urls} own nid u : join_url own nid = Ok u ->
  exists base p, url_parse nid = Some base /\ url_port base = Some p /\
    (url_scheme base = str "http" /\ p <> 80 \/ url_scheme base = str "https" /\ p <> 443).
Proof.
  intros (base & Hb & Hs & Hp & _)%join_url_ok. destruct (url_port base) as [p|] eqn:E; [|done]. exists base, p.
  split_and!; [done..|]. destruct Hs as [Hs|Hs]; [left|right]; (split; [done|]); intros ->.
  - by apply (url_port_http _ Hs).
  - by apply (url_port_https _ Hs).
Qed.
End join.
