(* ===== verification/UtilInstance.v ===== *)
(** * UtilInstance: keys, a key file and a join on concrete inputs

    The theorems of [Jwks.v], [KeyFile.v] and [HttpJoin.v] on concrete keys, files
    and responses. *)
From S2P Require Import Prelude Text Errors SignalMsg Identity ServerIdentity IdentityInstance HttpSignaler.
From S2P Require Import HttpServerInstance TokioBase Jwks KeyFile HttpJoin.
From Stdlib Require Import Sorted.

#[local] Existing Instances toy_base64 toy_serde toy_rsa.

(** ** Keys *)

#[local] Existing Instance tiny_p384 | 5.

Definition key_named (k : bytes) : JwkSet :=
  {| keys := [{| kty := str "RSA"; jwk_kid := Some k; rsa_n := None; rsa_e := None |}] |}.

(** A request that fails, and another at once that brings keys. *)
Definition refreshed : list (Instant * Input) :=
  [(secs 70, IWatch true); (secs 70, IWatch true); (secs 71, IRefresh); (secs 72, IResponse FetchFailed);
   (secs 72, IRefresh); (secs 72, IResponse (FetchKeys (key_named (str "b"))))].

Definition refreshed_events : list (Instant * Event) :=
  [(secs 71, Requested); (secs 72, NoKeys); (secs 72, Requested); (secs 72, Received (key_named (str "b")))].

Lemma jwks_rate_limited_witness :
  exists s, jwks_keys (inner s) = key_named (str "b") /\ fetched_at (inner s) = Some (secs 72) /\
    fold_left turn refreshed_events (Some false) = Some (locked s) /\
    StronglySorted apart ((secs 1, Received (key_named (str "a"))) :: refreshed_events).
Proof.
  destruct (fetch (FetchKeys (key_named (str "a"))) 0 (secs 1)) as [s0|e|] eqn:Ef; [|discriminate..].
  destruct (run refreshed s0) as [s evs] eqn:Er.
  assert (monotone (secs 1) refreshed) as Hm by (cbn; unfold secs; lia).
  destruct (jwks_rate_limited _ _ _ _ _ _ _ Ef Hm Er) as (set0 & Hset & Hf & Hk & Ht & Hs).
  injection Hset as <-. exists s.
  assert (evs = refreshed_events) as ->.
  { apply Ok_inj in Ef as <-. vm_compute in Er. injection Er as _ <-. vm_compute. reflexivity. }
  split; [exact Hk|]. split; [exact Hf|]. split; [exact Ht|exact Hs].
Defined.

(** The watcher finds keys of a minute old. *)
Definition checking : Jwks :=
  {| inner := {| inner_keys := minecraft_keys_new (key_named (str "a")); fetched_at := Some (secs 10) |};
     user_fetch := false; watcher := WCheck |}.

Lemma watcher_keeps_fresh_witness :
  exists at_, fetched_at (inner (step (secs 70) (IWatch true) checking).1) = Some at_ /\ elapsed (secs 70) at_ < MAX_AGE.
Proof.
  destruct (watcher_keeps_fresh (secs 70) (IWatch true) checking) as (at_ & H1 & H2 & _);
    [by intros [?|?]|by left|discriminate|].
  exists at_. split; assumption.
Defined.

(** ** The key file *)

(** Keys that their PEM tells apart. *)
#[local] Instance named_p384 : P384 | 0 := {|
  SigningKey := bool; VerifyingKey := unit; verifying_key _ := tt;
  try_sign _ _ := Some []; signature_from_slice s := Some s; verify _ _ _ := true;
  from_sec1_bytes _ := Some tt; sec1_x _ := Some (replicate 48 x00); sec1_y _ := Some (replicate 48 x00);
  from_public_key_der _ := Some tt; to_public_key_der _ := Some [];
|}.

#[local] Instance named_pem : Pem := {|
  secret_from_pem text :=
    if bytes_eqb text (str "one") then Some true else if bytes_eqb text (str "two") then Some false else None;
  secret_to_pem (k : SigningKey) := Some (if (k : bool) then str "one" else str "two");
|}.

#[local] Instance named_pem_laws : PemLaws.
Proof. split; intros [] text [= <-]; reflexivity. Qed.

Definition working : Io := {| io_read := true; io_directory := true; io_open := true; io_write := None |}.

Definition creates (r : Res NetherError ServerIdentity * Files) : bool :=
  match r with
  | (Ok si, fs) => bool_decide (option_map contents (fs !! str "key.pem") = Some (str "two"))
  | _ => false
  end.

Lemma key_is_created : creates (from_pem_or_create working (str "key.pem") (str "d") false 0 ∅ ∅) = true.
Proof. vm_compute. reflexivity. Qed.

Lemma creates_inv r : creates r = true -> exists si fs, r = (Ok si, fs).
Proof. destruct r as [[si| |] fs]; cbn [creates]; [eauto|discriminate..]. Qed.

Lemma key_file_kept_witness :
  exists si fs, from_pem_or_create working (str "key.pem") (str "d") false 0 ∅ ∅ = (Ok si, fs) /\ signing si = false /\
    exists f, fs !! str "key.pem" = Some f /\ mode f = KEY_MODE.
Proof.
  destruct (creates_inv _ key_is_created) as (si & fs & Hc). exists si, fs. split; [exact Hc|].
  destruct (key_file_kept _ _ _ _ _ _ _ _ _ Hc) as [_ Hs]. destruct (Hs si eq_refl) as [(f & Hf & _)|(_ & _ & Hr & f & Hf & Hm & _)].
  - discriminate Hf.
  - split; [exact Hr|]. exists f. split; assumption.
Defined.

(** ** A join *)

(** URLs that are their text; those of the example have the port 19132. *)
#[local] Instance text_url : UrlOps := {|
  Url := bytes; url_parse s := if blen s =? 0 then None else Some s; url_scheme _ := str "http";
  url_port _ := Some 19132; url_join u p := Some (u ++ p); url_set_path p u := u ++ p;
|}.

#[local] Instance text_url_laws : UrlLaws text_url.
Proof. split; intros x _; discriminate. Qed.

Definition posted : Signal := signal_offer 7 (str "v=0") (str "http://host:19132").

Definition answering (text : list bytes) (_ : Outgoing) : option Incoming :=
  Some {| in_status := OK; in_length := None; in_chunks := map Some text |}.

Lemma http_join_exact_witness :
  exists request, signal (str "1") posted (answering [str "v="; str "1"])
    = (Some request, [signal_answer 7 (str "v=1") (str "http://host:19132")], Ok tt) /\
    out_body request = Some (JOIN_CONTENT_TYPE, str "v=0").
Proof.
  destruct (signal (str "1") posted (answering [str "v="; str "1"])) as [[sent delivered] res] eqn:E.
  destruct (http_join_exact _ _ _ _ _ _ E) as (_ & Hs & _).
  assert ((sent, delivered, res) = (Some {| out_url := str "http://host:19132/v1/join/1"; out_agent := CLIENT_USER_AGENT;
    out_body := Some (JOIN_CONTENT_TYPE, str "v=0") |}, [signal_answer 7 (str "v=1") (str "http://host:19132")], Ok tt)) as H
    by (rewrite <- E; vm_compute; reflexivity).
  injection H as -> -> ->. eexists. split; [reflexivity|]. exact (proj2 (proj2 (Hs _ eq_refl))).
Defined.

Lemma http_join_roundtrip_witness :
  exists request, signal (str "1") posted (answering [str "v="; str "1"])
    = (Some request, [signal_answer 7 (str "v=1") (str "http://host:19132")], Ok tt).
Proof.
  destruct (http_join_roundtrip (urls := text_url) (str "1") posted (str "http://host:19132/v1/join/1") (str "v=1") [str "v="; str "1"] None
    (answering [str "v="; str "1"])) as [request H]; try reflexivity; try discriminate.
  exists request. exact H.
Defined.
