(* ===== verification/HttpExchange.v ===== *)
(** * HttpExchange: a join from the client's request to the client's answer
    (the writers and readers of [bevy-nethernet/src/http_wire.rs], the server of
    [http_server.rs] and the client of [http_client.rs], over one TCP stream)

    What the client writes is read by the server, and what the server writes is
    read by the client, however the stream cuts it.  The tokenizer is a parameter;
    on heads of plain text it does what its documentation says: it takes a whole
    head apart and asks for more on a part of one. *)
From S2P Require Import Prelude Text Errors SignalMsg Endpoint IpRange Candidate Sans Identity HttpSignaler HttpWire HttpStream.
From S2P Require Import HttpServer HttpClient.

(** ** Plain heads *)

Definition token_byte (b : byte) : bool :=
  in_range b 48 57 || in_range b 65 90 || in_range b 97 122 || byte_eqb b x2d.
Definition target_byte (b : byte) : bool :=
  token_byte b || byte_eqb b x2f || byte_eqb b x2e || byte_eqb b x5f || byte_eqb b x7e.
(** A space may stand inside a value, not at its ends. *)
Definition value_byte (b : byte) : bool := visible b || byte_eqb b space.

Definition is_token (s : bytes) : bool := negb (blen s =? 0) && forallb token_byte s.
Definition is_target (s : bytes) : bool := negb (blen s =? 0) && forallb target_byte s.
Definition is_value (s : bytes) : bool :=
  match s, rev s with
  | b :: _, e :: _ => visible b && visible e && forallb value_byte s
  | _, _ => false
  end.
Definition is_header (h : Header) : bool := is_token (header_name h) && is_value (header_value h).

Definition header_line (h : Header) : bytes := header_name h ++ str ": " ++ header_value h ++ crlf.
Definition header_lines (hs : list Header) : bytes := concat (header_line <$> hs).

Definition request_text (method target : bytes) (hs : list Header) : bytes :=
  request_line method target ++ header_lines hs ++ crlf.
(** The reason after the code may be empty. *)
Definition response_text (code : Z) (reason : bytes) (hs : list Header) : bytes :=
  (HTTP_VERSION ++ [space] ++ dec code ++ [space] ++ reason ++ crlf) ++ header_lines hs ++ crlf.

(** Documented behaviour of the tokenizer on plain heads. *)
Class HeadLaws (ops : Httparse) := {
  parse_request_text m method target hs rest :
    is_token method = true -> is_target target = true -> forallb is_header hs = true -> (length hs <= m)%nat ->
    parse_request m (request_text method target hs ++ rest)
    = (Ok (Complete (blen (request_text method target hs))), (Some method, Some target, hs));
  parse_request_part m method target hs p q :
    is_token method = true -> is_target target = true -> forallb is_header hs = true -> (length hs <= m)%nat ->
    p ++ q = request_text method target hs -> q <> [] -> (parse_request m p).1 = Ok Partial;
  parse_response_text m code reason hs rest :
    100 <= code <= 999 -> forallb value_byte reason = true -> forallb is_header hs = true -> (length hs <= m)%nat ->
    parse_response m (response_text code reason hs ++ rest)
    = (Ok (Complete (blen (response_text code reason hs))), (Some code, hs));
  parse_response_part m code reason hs p q :
    100 <= code <= 999 -> forallb value_byte reason = true -> forallb is_header hs = true -> (length hs <= m)%nat ->
    p ++ q = response_text code reason hs -> q <> [] -> (parse_response m p).1 = Ok Partial;
}.

(** ** What is written *)

(** The headers a message is written with. *)
Definition written_headers (hs : list Header) (body : bytes) : list Header :=
  List.filter keeps_header hs
  ++ [{| header_name := CONTENT_LENGTH; header_value := dec (blen body) |};
      {| header_name := CONNECTION; header_value := str "close" |}].

Lemma value_bytes_ascii s : forallb value_byte s = true -> is_ascii s = true.
Proof.
  unfold is_ascii. rewrite !forallb_forall. intros H b Hb. specialize (H b Hb).
  unfold value_byte, visible, in_range, space in H. apply orb_true_iff in H as [H|H].
  - to_props. lia.
  - apply byte_eqb_eq in H as ->. done.
Qed.

Lemma is_value_bytes s : is_value s = true -> forallb value_byte s = true.
Proof. unfold is_value. destruct s as [|b s]; [done|]. destruct (rev (b :: s)); [done|]. by intros [_ H]%andb_true_iff. Qed.

Lemma push_header_line h : is_header h = true -> push_header (header_name h) (header_value h) = header_line h.
Proof.
  intros [_ Hv]%andb_true_iff. unfold push_header, header_line.
  by rewrite from_utf8_lossy_ascii by by apply value_bytes_ascii, is_value_bytes.
Qed.

Lemma header_lines_push hs : forallb is_header hs = true ->
  concat ((fun h => push_header (header_name h) (header_value h)) <$> hs) = header_lines hs.
Proof.
  unfold header_lines. induction hs as [|h hs IH]; [done|]. cbn [forallb]. intros [Hh Hs]%andb_true_iff.
  cbn [fmap list_fmap concat]. by rewrite push_header_line, <- IH.
Qed.

Lemma header_lines_app a b : header_lines (a ++ b) = header_lines a ++ header_lines b.
Proof. unfold header_lines. by rewrite fmap_app, concat_app. Qed.

Lemma visible_value s : s <> [] -> Forall (fun b => visible b = true) s -> is_value s = true.
Proof.
  intros Hn Hs. unfold is_value. destruct s as [|b s]; [done|].
  destruct (rev (b :: s)) as [|e r] eqn:Er; [by apply (f_equal length) in Er; rewrite length_rev in Er|].
  assert (Forall (fun b => visible b = true) (e :: r)) as Hr by (rewrite <- Er; by apply Forall_rev).
  apply list.Forall_cons in Hr as [-> _]. pose proof Hs as Hs'. apply list.Forall_cons in Hs' as [-> _].
  apply forallb_forall. intros x Hx. unfold value_byte.
  rewrite list.Forall_forall in Hs. by rewrite (Hs x) by by apply list_elem_of_In.
Qed.

Lemma dec_value n : 0 <= n -> is_value (dec n) = true.
Proof.
  intros Hn. apply visible_value; [apply dec_not_nil|].
  eapply list.Forall_impl; [apply (dec_all_digits n Hn)|]. intros b. unfold is_ascii_digit, visible, in_range.
  intros H. to_props. apply andb_true_iff. split; apply Z.leb_le; lia.
Qed.

Lemma written_headers_ok hs body : forallb is_header hs = true -> forallb is_header (written_headers hs body) = true.
Proof.
  intros Hh. unfold written_headers. rewrite forallb_app. apply andb_true_iff. split.
  - rewrite forallb_forall in Hh |- *. intros h [Hin _]%filter_In. by apply Hh.
  - cbn [forallb]. unfold is_header at 1. cbn [header_name header_value].
    by rewrite dec_value by apply blen_nonneg.
Qed.

Lemma serialize_text line hs body : forallb is_header hs = true ->
  serialize line hs body = (line ++ header_lines (written_headers hs body) ++ crlf) ++ body.
Proof.
  intros Hh. unfold serialize.
  assert (forallb is_header (List.filter keeps_header hs) = true) as Hf.
  { rewrite forallb_forall in Hh |- *. intros h [Hin _]%filter_In. by apply Hh. }
  rewrite header_lines_push by done. unfold written_headers. rewrite header_lines_app.
  pose proof (push_header_line {| header_name := CONTENT_LENGTH; header_value := dec (blen body) |}) as H1.
  pose proof (push_header_line {| header_name := CONNECTION; header_value := str "close" |}) as H2.
  cbn [header_name header_value] in H1, H2. rewrite H1, H2; [|done|].
  - unfold header_lines at 3. cbn [fmap list_fmap concat]. by rewrite app_nil_r, <- !(assoc_L (++)).
  - unfold is_header. cbn [header_name header_value]. by rewrite dec_value by apply blen_nonneg.
Qed.

(** Headers that leave the framing to the writer. *)
Definition plain_header (h : Header) : bool :=
  is_header h && negb (eq_ignore_ascii_case (header_name h) TRANSFER_ENCODING)
  && (negb (eq_ignore_ascii_case (header_name h) CONTENT_LENGTH) || bytes_eqb (header_name h) CONTENT_LENGTH).

Lemma plain_headers_ok hs : forallb plain_header hs = true -> forallb is_header hs = true.
Proof. rewrite !forallb_forall. intros H h Hh. specialize (H h Hh). unfold plain_header in H. by to_props. Qed.

Lemma find_app {A} (f : A -> bool) a b : List.find f (a ++ b) = match List.find f a with Some x => Some x | None => List.find f b end.
Proof. induction a as [|x a IH]; [done|]. cbn. by destruct (f x). Qed.

Lemma kept_header_absent (f : Header -> bool) hs :
  (forall h, plain_header h = true -> keeps_header h = true -> f h = false) ->
  forallb plain_header hs = true -> List.find f (List.filter keeps_header hs) = None.
Proof.
  intros Hf. induction hs as [|h hs IH]; [done|]. cbn [forallb List.filter]. intros [Hh Hs]%andb_true_iff.
  destruct (keeps_header h) eqn:Ek; [|by apply IH]. cbn [List.find]. rewrite Hf by done. by apply IH.
Qed.

Lemma written_encoding hs body : forallb plain_header hs = true ->
  find_header TRANSFER_ENCODING (written_headers hs body) = None.
Proof.
  intros Hh. unfold find_header, written_headers. rewrite find_app, kept_header_absent by
    (try done; intros h Hp _; unfold plain_header in Hp; to_props; done). done.
Qed.

Lemma content_length_dec n : 0 <= n <= u64_max -> content_length (dec n) = Some n.
Proof.
  intros Hn. unfold content_length. rewrite is_ascii_utf8 by (apply dec_ascii; lia). rewrite trim_visible.
  - by apply parse_uint_dec.
  - eapply list.Forall_impl; [apply (dec_all_digits n); lia|]. intros b. unfold is_ascii_digit, visible, in_range.
    intros H. to_props. apply andb_true_iff. split; apply Z.leb_le; lia.
Qed.

Lemma written_framing hs body : forallb plain_header hs = true -> blen body <= MAX_BODY ->
  framing_of (written_headers hs body) = Ok (Some (Length (blen body))).
Proof.
  intros Hh Hb. unfold framing_of. rewrite written_encoding by done.
  unfold find_header, written_headers. rewrite find_app, kept_header_absent.
  - cbn [List.find header_name]. change (eq_ignore_ascii_case CONTENT_LENGTH CONTENT_LENGTH) with true. cbn match.
    cbn [header_value]. pose proof (blen_nonneg body). rewrite content_length_dec.
    + cbn [ok_or mbind res_bind]. destruct (_ >? _) eqn:E; [to_props; lia|done].
    + unfold MAX_BODY in Hb. split; [lia|]. etrans; [exact Hb|]. by vm_compute.
  - intros h Hp Hk. unfold plain_header, keeps_header in *. destruct (eq_ignore_ascii_case _ CONTENT_LENGTH); [|done].
    rewrite orb_false_l in Hp. apply andb_true_iff in Hp as [_ Hp]. by rewrite Hp in Hk.
  - done.
Qed.

Lemma written_length hs body : (length hs <= 98)%nat -> (length (written_headers hs body) <= MAX_HEADERS)%nat.
Proof.
  intros Hl. unfold written_headers, MAX_HEADERS. rewrite length_app. cbn [length].
  pose proof (filter_length_le keeps_header hs). lia.
Qed.

(** A part of [a ++ b] is a part of [a], or [a] and a part of [b]. *)
Lemma part_of_app (a b p q : bytes) : p ++ q = a ++ b -> q <> [] ->
  (exists q', q' <> [] /\ p ++ q' = a) \/ exists b', p = a ++ b' /\ b' ++ q = b.
Proof.
  intros He Hq. apply app_eq_inv in He as [(k & -> & ->)|(k & -> & ->)].
  - right. by exists k.
  - destruct k as [|x k]; [right; exists []; by rewrite !app_nil_r|]. left. by exists (x :: k).
Qed.

Section readers.
Context {ops : Httparse} {laws : HttparseLaws ops} {heads : HeadLaws ops} {types : HttpTypes}.

Lemma framing_read_whole body rest : framing_read (Length (blen body)) (body ++ rest) = Ok (Some (body, blen body)).
Proof.
  cbn [framing_read]. pose proof (blen_nonneg rest). destruct (_ >=? _) eqn:E.
  - unfold blen. by rewrite Nat2Z.id, take_app_length.
  - rewrite Z.geb_leb in E. to_props. rewrite blen_app in E. lia.
Qed.

Lemma framing_read_part body p q : p ++ q = body -> q <> [] -> framing_read (Length (blen body)) p = Ok None.
Proof.
  intros <- Hq. cbn [framing_read]. destruct (_ >=? _) eqn:E; [|done]. rewrite Z.geb_leb in E. to_props.
  rewrite blen_app in E. destruct q as [|x q]; [done|]. rewrite blen_cons in E. pose proof (blen_nonneg q). lia.
Qed.

(** ** Requests *)

(** A request whose head is plain is read whole, with whatever follows, and on a
    part of it the reader waits. *)
Lemma request_parse_written method target hs body rest head :
  is_token method = true -> is_target target = true -> forallb plain_header hs = true -> (length hs <= 98)%nat ->
  blen body <= MAX_BODY -> request_head method target (written_headers hs body) = Some head ->
  request_parse (serialize (request_line method target) hs body ++ rest) = Ok (Complete (head, body)).
Proof.
  intros Hm Ht Hh Hl Hb Hhead. rewrite serialize_text by by apply plain_headers_ok.
  change (request_line method target ++ header_lines (written_headers hs body) ++ crlf)
    with (request_text method target (written_headers hs body)).
  rewrite <- (assoc_L (++)). unfold request_parse.
  rewrite parse_request_text; [|done|done|by apply written_headers_ok, plain_headers_ok|apply written_length; lia].
  cbn [map_err]. rewrite res_bind_Ok, has_header_find, written_encoding by done.
  rewrite written_framing by done. cbn [map_err]. rewrite res_bind_Ok, slice_from_app, res_bind_Ok.
  cbn [from_option]. unfold id. rewrite framing_read_whole. cbn [map_err]. rewrite res_bind_Ok. cbn [ok_or]. rewrite !res_bind_Ok.
  by rewrite Hhead.
Qed.

Lemma request_parse_part method target hs body p q :
  is_token method = true -> is_target target = true -> forallb plain_header hs = true -> (length hs <= 98)%nat ->
  blen body <= MAX_BODY -> p ++ q = serialize (request_line method target) hs body -> q <> [] ->
  request_parse p = Ok Partial.
Proof.
  intros Hm Ht Hh Hl Hb Hp Hq. rewrite serialize_text in Hp by by apply plain_headers_ok.
  apply part_of_app in Hp as [(q' & Hq' & Hp)|(b' & -> & Hp)]; [| |done]; unfold request_parse.
  - pose proof (parse_request_part MAX_HEADERS method target _ p q' Hm Ht
      (written_headers_ok hs body (plain_headers_ok _ Hh)) ltac:(apply written_length; lia) Hp Hq') as Hr.
    destruct (parse_request MAX_HEADERS p) as [st [[? ?] ?]]. cbn in Hr. by subst st.
  - change (request_line method target ++ header_lines (written_headers hs body) ++ crlf)
      with (request_text method target (written_headers hs body)).
    rewrite parse_request_text; [|done|done|by apply written_headers_ok, plain_headers_ok|apply written_length; lia].
    cbn [map_err]. rewrite res_bind_Ok, has_header_find, written_encoding by done.
    rewrite written_framing by done. cbn [map_err]. rewrite res_bind_Ok, slice_from_app, res_bind_Ok.
    cbn [from_option]. unfold id. by rewrite (framing_read_part body b' q).
Qed.

(** ** Responses *)

Lemma response_parse_written code reason hs body rest head :
  100 <= code <= 999 -> forallb value_byte reason = true -> default [] (canonical_reason code) = reason ->
  forallb plain_header hs = true -> (length hs <= 98)%nat ->
  blen body <= MAX_BODY -> response_head code (written_headers hs body) = Some head ->
  response_parse (response_encode code hs body ++ rest) = Ok (Complete (head, body)).
Proof.
  intros Hc Hv Hr Hh Hl Hb Hhead. unfold response_encode, status_line. rewrite Hr, serialize_text by by apply plain_headers_ok.
  change ((HTTP_VERSION ++ [space] ++ dec code ++ [space] ++ reason ++ crlf) ++
    header_lines (written_headers hs body) ++ crlf) with (response_text code reason (written_headers hs body)).
  rewrite <- (assoc_L (++)). unfold response_parse.
  rewrite parse_response_text; [|done|done|by apply written_headers_ok, plain_headers_ok|apply written_length; lia].
  cbn [map_err]. rewrite res_bind_Ok, written_framing by done. cbn [map_err].
  rewrite res_bind_Ok. cbn [ok_or]. rewrite res_bind_Ok, slice_from_app, res_bind_Ok, framing_read_whole. cbn [map_err].
  rewrite res_bind_Ok. cbn [ok_or]. rewrite res_bind_Ok. by rewrite Hhead.
Qed.

Lemma response_parse_part code reason hs body p q :
  100 <= code <= 999 -> forallb value_byte reason = true -> default [] (canonical_reason code) = reason ->
  forallb plain_header hs = true -> (length hs <= 98)%nat ->
  blen body <= MAX_BODY -> p ++ q = response_encode code hs body -> q <> [] ->
  response_parse p = Ok Partial.
Proof.
  intros Hc Hv Hr Hh Hl Hb Hp Hq. unfold response_encode, status_line in Hp.
  rewrite Hr, serialize_text in Hp by by apply plain_headers_ok.
  change ((HTTP_VERSION ++ [space] ++ dec code ++ [space] ++ reason ++ crlf) ++
    header_lines (written_headers hs body) ++ crlf) with (response_text code reason (written_headers hs body)) in Hp.
  apply part_of_app in Hp as [(q' & Hq' & Hp)|(b' & -> & Hp)]; [| |done]; unfold response_parse.
  - pose proof (parse_response_part MAX_HEADERS code reason _ p q' Hc Hv
      (written_headers_ok hs body (plain_headers_ok _ Hh)) ltac:(apply written_length; lia) Hp Hq') as Hs.
    destruct (parse_response MAX_HEADERS p) as [st [? ?]]. cbn in Hs. by subst st.
  - rewrite parse_response_text; [|done|done|by apply written_headers_ok, plain_headers_ok|apply written_length; lia].
    cbn [map_err]. rewrite res_bind_Ok, written_framing by done. cbn [map_err].
    rewrite res_bind_Ok. cbn [ok_or]. rewrite res_bind_Ok, slice_from_app, res_bind_Ok. by rewrite (framing_read_part body b' q).
Qed.
End readers.

(** ** One join *)

(** The longest URI the [http] crate takes. *)
Definition MAX_URI : Z := 65534.

Definition is_path (s : bytes) : Prop := is_target s = true /\ head s = Some x2f /\ blen s <= MAX_URI.

(** What the builders and accessors of the [http] crate do with plain parts. *)
Class HttpLaws (types : HttpTypes) (access : HttpAccess types) (answers : ResponseAccess types) := {
  plain_target s : is_path s -> parse_target s = Some s;
  plain_value s : is_value s = true -> valid_header_value s = true;
  plain_reason code : forallb value_byte (default [] (canonical_reason code)) = true;
  plain_request target hs : is_path target -> forallb is_header hs = true ->
    exists h, request_head (str "POST") target hs = Some h /\ head_method h = POST /\ head_path h = target /\
      head_text h HOST = header_value <$> find_header HOST hs;
  plain_response code hs : 100 <= code <= 999 -> forallb is_header hs = true ->
    exists h, response_head code hs = Some h /\ HttpClient.response_status h = code;
}.

Section exchange.
Context {ops : Httparse} {laws : HttparseLaws ops} {heads : HeadLaws ops} {types : HttpTypes}
  {access : HttpAccess types} {answers : ResponseAccess types} {http : HttpLaws types access answers}.
Context `{b64 : Base64} `{serde : Serde} `{p384 : P384} `{rsa : Rsa} `{net : IpNetOps} {tls : TlsOps}.

Definition join_headers (host : bytes) : list Header :=
  [{| header_name := HOST; header_value := host |};
   {| header_name := USER_AGENT; header_value := HttpWire.CLIENT_USER_AGENT |};
   {| header_name := CONTENT_TYPE; header_value := JOIN_CONTENT_TYPE |}].

Lemma join_headers_plain host : is_value host = true -> forallb plain_header (join_headers host) = true.
Proof. intros Hh. cbn [join_headers forallb]. unfold plain_header at 1, is_header. cbn [header_name header_value]. by rewrite Hh. Qed.

Lemma request_post_plain host path body : is_value host = true -> is_path path ->
  request_post host path JOIN_CONTENT_TYPE body = Ok (serialize (request_line (str "POST") path) (join_headers host) body).
Proof.
  intros Hh Hp. unfold request_post, common_headers, header_value_from_str, request_encode.
  rewrite !plain_value by done. rewrite !res_bind_Ok. by rewrite plain_target by done.
Qed.

(** A network id as it can stand in the path of a join. *)
Definition is_segment (s : bytes) : bool :=
  is_target s && negb (existsb (byte_eqb x2f) s) && (blen (join_path s) <=? MAX_URI).

Lemma join_path_target nid : is_segment nid = true -> is_path (join_path nid).
Proof.
  intros [[Hn _]%andb_true_iff Hlen]%andb_true_iff. apply andb_true_iff in Hn as [Hl Hn].
  split; [|split; [done|by apply Z.leb_le]].
  unfold is_target, join_path. rewrite !forallb_app, Hn, !blen_app. apply andb_true_iff. split; [|done].
  apply negb_true_iff, Z.eqb_neq. pose proof (blen_nonneg nid). change (blen JOIN_PATH) with 8. change (blen (str "/")) with 1. lia.
Qed.

Lemma join_network_path nid : is_segment nid = true -> join_network (join_path nid) = Some nid.
Proof.
  intros [[Hn Hs]%andb_true_iff _]%andb_true_iff. apply andb_true_iff in Hn as [Hl _]. unfold join_network, join_path.
  change (JOIN_PATH ++ str "/" ++ nid) with (str "/v1/join/" ++ nid). rewrite strip_prefix_app. by rewrite Hl, Hs.
Qed.

(** A join is handled as one for the network its path names. *)
Lemma handle_join_request connection request nid now random wall s :
  is_segment nid = true -> HttpSignaler.path request = join_path nid -> HttpSignaler.method request = POST ->
  handle_request connection request now random wall s
  = HttpSignaler.join connection nid request (keep_alive request) now random wall s.
Proof.
  intros Hn Hp Hm. unfold handle_request. rewrite Hp, Hm, join_network_path by done.
  unfold bytes_eqb. rewrite bool_decide_eq_false_2; [done|].
  intros E%(f_equal blen). unfold join_path in E. rewrite !blen_app in E. change (blen (str "/")) with 1 in E.
  pose proof (blen_nonneg nid). lia.
Qed.

(** What the server makes of a part of the client's request, and of all of it. *)
Lemma read_request_part host nid offer c p q text :
  is_value host = true -> is_segment nid = true -> blen offer <= MAX_BODY ->
  request_post host (join_path nid) JOIN_CONTENT_TYPE offer = Ok text ->
  p ++ q = text -> q <> [] -> inbound (HttpServer.stream c) = p ->
  read_request c = Ok (Stays, if blen p >? MAX_BODY then refuse PAYLOAD_TOO_LARGE c else c).
Proof.
  intros Hh Hn Hb Hr Hp Hq Hi. pose proof (join_path_target nid Hn) as Ht. pose proof (proj1 Ht) as Htt.
  rewrite request_post_plain in Hr by done. apply Ok_inj in Hr as <-.
  unfold read_request. rewrite Hi.
  rewrite (request_parse_part (str "POST") (join_path nid) (join_headers host) offer p q);
    [|done|done|by apply join_headers_plain|cbn; lia|done|done|done].
  by destruct (blen p >? MAX_BODY).
Qed.

Lemma read_request_whole host nid offer c text rest :
  is_value host = true -> is_segment nid = true -> blen offer <= MAX_BODY -> utf8_valid offer = true ->
  request_post host (join_path nid) JOIN_CONTENT_TYPE offer = Ok text -> inbound (HttpServer.stream c) = text ++ rest ->
  exists request c', read_request c = Ok (Asks request, c') /\ requested c' = true /\
    inbound (HttpServer.stream c') = [] /\
    HttpSignaler.method request = POST /\ HttpSignaler.path request = join_path nid /\
    HttpSignaler.body request = offer /\ header_text request HOST = Some host.
Proof.
  intros Hh Hn Hb Hu Hr Hi. pose proof (join_path_target nid Hn) as Ht. pose proof (proj1 Ht) as Htt.
  rewrite request_post_plain in Hr by done. apply Ok_inj in Hr as <-.
  pose proof (join_headers_plain host Hh) as Hp.
  destruct (plain_request (join_path nid) (written_headers (join_headers host) offer)) as (h & Hhead & Hm & Hpath & Hhost);
    [done|by apply written_headers_ok, plain_headers_ok|].
  unfold read_request. rewrite Hi.
  rewrite (request_parse_written (str "POST") (join_path nid) (join_headers host) offer rest h);
    [|done|done|done|cbn; lia|done|done].
  unfold text_body. rewrite Hu. eexists _, _. split; [reflexivity|].
  by split_and!.
Qed.

(** A response that the signaler makes: its parts are plain. *)
Definition plain_answer (r : Response) : bool :=
  (100 <=? HttpSignaler.response_status r) && (HttpSignaler.response_status r <=? 999)
  && match HttpSignaler.content_type r with Some ct => is_value ct | None => true end
  && (0 <=? HttpSignaler.content_length r) && (blen (response_body r) <=? MAX_BODY) && utf8_valid (response_body r).

Lemma answer_headers_plain r : plain_answer r = true ->
  forallb plain_header (response_headers r) = true /\ (length (response_headers r) <= 98)%nat.
Proof.
  intros Hr. unfold plain_answer in Hr. to_props. unfold response_headers.
  destruct (HttpSignaler.content_type r) as [ct|]; cbn [app forallb length]; unfold plain_header, is_header;
    cbn [header_name header_value]; (split; [|lia]).
  - rewrite dec_value by done. match goal with H : is_value ct = true |- _ => by rewrite H end.
  - by rewrite dec_value.
Qed.

(** The client waits for the rest of a response, and takes it as the server made it
    once it is there. *)
Lemma drive_join_part r x x' p q :
  plain_answer r = true -> p ++ q = encode_response r -> q <> [] ->
  fill x = (Ok Received, x') -> inbound x' = p ->
  drive_join (JReceiving x) = Ok (if blen p >? MAX_BODY then JFailed else JPending (JReceiving x')).
Proof.
  intros Hr Hp Hq Hf Hi. destruct (answer_headers_plain r Hr) as [Hh Hl]. unfold plain_answer in Hr. to_props.
  cbn [drive_join]. rewrite Hf, Hi.
  rewrite (response_parse_part (HttpSignaler.response_status r) (default [] (canonical_reason (HttpSignaler.response_status r)))
    (response_headers r) (response_body r) p q); [|done|apply plain_reason|done..].
  by destruct (blen p >? MAX_BODY).
Qed.

Lemma drive_join_whole r x x' rest :
  plain_answer r = true -> fill x = (Ok Received, x') -> inbound x' = encode_response r ++ rest ->
  drive_join (JReceiving x) = Ok (JDone (HttpSignaler.response_status r) (response_body r)).
Proof.
  intros Hr Hf Hi. destruct (answer_headers_plain r Hr) as [Hh Hl]. unfold plain_answer in Hr. to_props.
  destruct (plain_response (HttpSignaler.response_status r) (written_headers (response_headers r) (response_body r)))
    as (h & Hhead & Hs); [done|by apply written_headers_ok, plain_headers_ok|].
  cbn [drive_join]. rewrite Hf, Hi. unfold encode_response.
  rewrite (response_parse_written (HttpSignaler.response_status r)
    (default [] (canonical_reason (HttpSignaler.response_status r))) (response_headers r) (response_body r) rest h);
    [|done|apply plain_reason|done..].
  unfold text_body. match goal with H : utf8_valid _ = true |- _ => rewrite H end. by rewrite Hs.
Qed.

(** C23: A join over one connection, from end to end.  The request that the client
    writes for an offer is read by the server as a join of the network it names,
    with the offer as it was and the host the client asked for, as soon as all of
    it has come and not before, however the stream cuts it; the signaler takes it
    as a join of that network.  The response the server writes is read by the
    client with the same status and the same text, as soon as all of it has come
    and not before. *)
Theorem http_join_exchange host nid offer r :
  is_value host = true -> is_segment nid = true -> utf8_valid offer = true -> plain_answer r = true ->
  exists text, request_post host (join_path nid) JOIN_CONTENT_TYPE offer = Ok text /\
  (blen text <= MAX_BODY -> forall c : TcpConn,
     (forall p q, p ++ q = text -> q <> [] -> inbound (HttpServer.stream c) = p -> read_request c = Ok (Stays, c)) /\
     (inbound (HttpServer.stream c) = text -> exists request c', read_request c = Ok (Asks request, c') /\
        HttpSignaler.body request = offer /\ header_text request HOST = Some host /\
        forall connection now random wall s, handle_request connection request now random wall s
          = HttpSignaler.join connection nid request (keep_alive request) now random wall s)) /\
  (blen (encode_response r) <= MAX_BODY -> forall x x', fill x = (Ok Received, x') ->
     (forall p q, p ++ q = encode_response r -> q <> [] -> inbound x' = p ->
        drive_join (JReceiving x) = Ok (JPending (JReceiving x'))) /\
     (inbound x' = encode_response r ->
        drive_join (JReceiving x) = Ok (JDone (HttpSignaler.response_status r) (response_body r)))).
Proof.
  intros Hh Hn Hu Hr. pose proof (join_path_target nid Hn) as Ht. pose proof (proj1 Ht) as Htt.
  pose proof (request_post_plain host (join_path nid) offer Hh Ht) as Hpost. eexists. split; [exact Hpost|].
  assert (forall p q (t : bytes), p ++ q = t -> blen t <= MAX_BODY -> (blen p >? MAX_BODY) = false) as Hpart.
  { intros p q t <- Hl. rewrite blen_app in Hl. pose proof (blen_nonneg q). rewrite Z.gtb_ltb. apply Z.ltb_ge. lia. }
  split.
  - intros Hl c. assert (blen offer <= MAX_BODY) as Hb.
    { rewrite serialize_text in Hl by by apply plain_headers_ok, join_headers_plain. rewrite blen_app in Hl.
      pose proof (blen_nonneg (request_line (str "POST") (join_path nid) ++
        header_lines (written_headers (join_headers host) offer) ++ crlf)). lia. }
    split.
    + intros p q Hp Hq Hi. rewrite (read_request_part host nid offer c p q _ Hh Hn Hb Hpost Hp Hq Hi).
      by rewrite (Hpart _ _ _ Hp Hl).
    + intros Hi. rewrite <- (app_nil_r (serialize _ _ _)) in Hi.
      destruct (read_request_whole host nid offer c _ [] Hh Hn Hb Hu Hpost Hi)
        as (request & c' & Hread & _ & _ & Hm & Hp & Hbody & Hhost).
      exists request, c'. split_and!; try done. intros. by apply handle_join_request.
  - intros Hl x x' Hf. split.
    + intros p q Hp Hq Hi. rewrite (drive_join_part r x x' p q Hr Hp Hq Hf Hi). by rewrite (Hpart _ _ _ Hp Hl).
    + intros Hi. apply (drive_join_whole r x x' [] Hr Hf). by rewrite app_nil_r.
Qed.

(** A request with a body within the limit is refused as too large when more than
    the limit has come, head included, and not all of it; when all of it comes at
    once it is served. *)
Lemma large_request_depends_on_arrival host nid offer text c c' p q :
  is_value host = true -> is_segment nid = true -> blen offer <= MAX_BODY -> utf8_valid offer = true ->
  request_post host (join_path nid) JOIN_CONTENT_TYPE offer = Ok text ->
  p ++ q = text -> q <> [] -> MAX_BODY < blen p ->
  inbound (HttpServer.stream c) = p -> inbound (HttpServer.stream c') = text ->
  read_request c = Ok (Stays, refuse PAYLOAD_TOO_LARGE c) /\
  exists request c'', read_request c' = Ok (Asks request, c'') /\ HttpSignaler.body request = offer.
Proof.
  intros Hh Hn Hb Hu Hr Hp Hq Hl Hi Hi'. split.
  - rewrite (read_request_part host nid offer c p q text) by done. by rewrite (proj2 (Z.gtb_lt _ _)) by lia.
  - rewrite <- (app_nil_r text) in Hi'.
    destruct (read_request_whole host nid offer c' text [] Hh Hn Hb Hu Hr Hi') as (request & c'' & H1 & _ & _ & _ & _ & H2 & _).
    by exists request, c''.
Qed.
End exchange.
