(* ===== verification/HttpExchangeInstance.v ===== *)
(** * HttpExchangeInstance: a tokenizer of HTTP heads, and a join over it

    A small tokenizer that satisfies the laws of [HttpWire.v] and [HttpExchange.v],
    and the exchange of a concrete offer and answer. *)
From S2P Require Import Prelude Text Errors SignalMsg Endpoint IpRange IdentityInstance Sans Identity HttpSignaler HttpWire HttpStream.
From S2P Require Import HttpServer HttpClient HttpExchange.

(** ** Lines *)

(** The text up to the first line end, and what follows it. *)
Fixpoint take_line (s : bytes) : option (bytes * bytes) :=
  match s with
  | [] => None
  | b :: s =>
      if byte_eqb b x0d then match s with c :: r => if byte_eqb c x0a then Some ([], r) else None | [] => None end
      else match take_line s with Some (l, r) => Some (b :: l, r) | None => None end
  end.

Definition no_cr (b : byte) : bool := negb (byte_eqb b x0d).

Lemma take_line_app l rest : forallb no_cr l = true -> take_line (l ++ crlf ++ rest) = Some (l, rest).
Proof.
  induction l as [|b l IH]; [done|]. cbn [forallb app take_line]. intros [Hb Hl]%andb_true_iff.
  unfold no_cr in Hb. apply negb_true_iff in Hb. rewrite Hb. by rewrite IH.
Qed.

Lemma take_line_short l : forall p q, forallb no_cr l = true -> p ++ q = l ++ crlf -> q <> [] -> take_line p = None.
Proof.
  induction l as [|b l IH]; intros p q Hl He Hq.
  - destruct p as [|x [|y p]]; [done| |].
    + cbn in He. injection He as -> _. done.
    + exfalso. cbn in He. injection He as -> -> E. by apply app_nil in E as [_ ->].
  - destruct p as [|x p]; [done|]. cbn [app forallb take_line] in *. injection He as -> He.
    apply andb_true_iff in Hl as [Hb Hl]. unfold no_cr in Hb. apply negb_true_iff in Hb. rewrite Hb. by rewrite (IH p q).
Qed.

Lemma take_line_part l rest p q : forallb no_cr l = true -> p ++ q = l ++ crlf ++ rest -> q <> [] ->
  take_line p = None \/ exists p', take_line p = Some (l, p') /\ p' ++ q = rest.
Proof.
  intros Hl He Hq. rewrite (assoc_L (++)) in He. apply part_of_app in He as [(q' & Hq' & He)|(p' & -> & He)]; [| |done].
  - left. by eapply take_line_short.
  - right. exists p'. rewrite <- (assoc_L (++)). by rewrite take_line_app.
Qed.

Lemma take_line_Some s : forall l r, take_line s = Some (l, r) -> blen s = blen l + 2 + blen r.
Proof.
  induction s as [|b s IH]; intros l r; cbn [take_line]; [done|]. destruct (byte_eqb b x0d).
  - destruct s as [|c s]; [done|]. destruct (byte_eqb c x0a); [|done]. intros [= <- <-]. rewrite !blen_cons, blen_nil. lia.
  - destruct (take_line s) as [[l' r']|]; [|done]. intros [= <- <-]. rewrite !blen_cons, (IH l' r' eq_refl). lia.
Qed.

(** ** Fields *)

Definition colon : byte := x3a.

Fixpoint parse_fields (m : nat) (s : bytes) : Res HttparseError (Status (Z * list Header)) :=
  match take_line s with
  | None => Ok Partial
  | Some ([], _) => Ok (Complete (2, []))
  | Some (l, r) =>
      match m with
      | O => Err TooManyHeaders
      | S m =>
          match split_once (is_byte colon) l with
          | None => Err OtherHttparseError
          | Some (n, v) =>
              match parse_fields m r with
              | Ok (Complete (k, hs)) =>
                  Ok (Complete (blen l + 2 + k,
                        {| header_name := n; header_value := default v (strip_prefix [space] v) |} :: hs))
              | x => x
              end
          end
      end
  end.

Definition field_text (h : Header) : bytes := header_name h ++ str ": " ++ header_value h.

Lemma header_line_text h : header_line h = field_text h ++ crlf.
Proof. unfold header_line, field_text. by rewrite <- !(assoc_L (++)). Qed.

Lemma token_byte_plain b : token_byte b = true -> no_cr b = true /\ is_byte colon b = false /\ is_byte space b = false.
Proof. by destruct b. Qed.
Lemma target_byte_plain b : target_byte b = true -> no_cr b = true /\ is_byte space b = false.
Proof. by destruct b. Qed.
Lemma value_byte_plain b : value_byte b = true -> no_cr b = true.
Proof. by destruct b. Qed.

Lemma forallb_impl {A} (f g : A -> bool) l : (forall x, f x = true -> g x = true) -> forallb f l = true -> forallb g l = true.
Proof. intros H. rewrite !forallb_forall. auto. Qed.

Lemma bytes_sep_free (f : byte -> bool) c l :
  (forall b, f b = true -> is_byte c b = false) -> forallb f l = true -> sep_free (is_byte c) l.
Proof. intros H Hl. apply list.Forall_forall. intros b Hb%list_elem_of_In. rewrite forallb_forall in Hl. auto. Qed.

Lemma token_bytes s : is_token s = true -> s <> [] /\ forallb token_byte s = true.
Proof. unfold is_token. intros [Hn Hs]%andb_true_iff. split; [|done]. by intros ->. Qed.

Lemma target_bytes s : is_target s = true -> s <> [] /\ forallb target_byte s = true.
Proof. unfold is_target. intros [Hn Hs]%andb_true_iff. split; [|done]. by intros ->. Qed.

Lemma field_text_ok h : is_header h = true ->
  field_text h <> [] /\ forallb no_cr (field_text h) = true /\
  split_once (is_byte colon) (field_text h) = Some (header_name h, space :: header_value h).
Proof.
  intros [[Hn Ht]%token_bytes Hv%is_value_bytes]%andb_true_iff. unfold field_text. split_and!.
  - by destruct (header_name h).
  - rewrite !forallb_app. rewrite (forallb_impl _ _ _ (fun b H => proj1 (token_byte_plain b H)) Ht).
    by rewrite (forallb_impl _ _ _ value_byte_plain Hv).
  - change (str ": " ++ header_value h) with (colon :: space :: header_value h). apply split_once_app; [|done].
    by apply (bytes_sep_free token_byte); [apply token_byte_plain|].
Qed.

Lemma parse_fields_lines hs rest : forall m, forallb is_header hs = true -> (length hs <= m)%nat ->
  parse_fields m (header_lines hs ++ crlf ++ rest) = Ok (Complete (blen (header_lines hs ++ crlf), hs)).
Proof.
  induction hs as [|h hs IH]; intros m Hh Hl.
  - by destruct m.
  - destruct m as [|m]; [cbn in Hl; lia|]. cbn [forallb] in Hh. apply andb_true_iff in Hh as [Hh Hs].
    destruct (field_text_ok h Hh) as (Hn & Hc & Hsp).
    change (header_lines (h :: hs)) with (header_line h ++ header_lines hs). rewrite header_line_text, <- !(assoc_L (++)).
    cbn [parse_fields]. rewrite take_line_app by done. destruct (field_text h) as [|b l] eqn:Ef; [done|].
    rewrite Hsp, IH by (try done; cbn in Hl; lia). change (strip_prefix [space] (space :: header_value h)) with (Some (header_value h)).
    cbn [default from_option]. unfold id. rewrite !blen_app. change (blen crlf) with 2. do 2 f_equal. f_equal; [lia|].
    by destruct h.
Qed.

Lemma parse_fields_part hs : forall m p q, forallb is_header hs = true -> (length hs <= m)%nat ->
  p ++ q = header_lines hs ++ crlf -> q <> [] -> parse_fields m p = Ok Partial.
Proof.
  induction hs as [|h hs IH]; intros m p q Hh Hl He Hq.
  - assert (take_line p = None) as Ht by by apply (take_line_short [] p q). destruct m; cbn [parse_fields]; by rewrite Ht.
  - destruct m as [|m]; [cbn in Hl; lia|]. cbn [forallb] in Hh. apply andb_true_iff in Hh as [Hh Hs].
    destruct (field_text_ok h Hh) as (Hn & Hc & Hsp).
    change (header_lines (h :: hs)) with (header_line h ++ header_lines hs) in He.
    rewrite header_line_text, <- !(assoc_L (++)) in He. cbn [parse_fields].
    destruct (take_line_part _ _ _ _ Hc He Hq) as [->|(p' & -> & He')]; [done|].
    destruct (field_text h) as [|b l] eqn:Ef; [done|]. rewrite Hsp.
    by rewrite (IH m p' q) by (try done; cbn in Hl; lia).
Qed.

Lemma parse_fields_no_panic m : forall s, parse_fields m s <> Panic.
Proof.
  induction m as [|m IH]; intros s; cbn [parse_fields]; destruct (take_line s) as [[[|b l] r]|]; try done.
  destruct (split_once _ _) as [[n v]|]; [|done]. specialize (IH r). by destruct (parse_fields m r) as [[[]|]| |].
Qed.

Lemma parse_fields_bounds m : forall s k hs, parse_fields m s = Ok (Complete (k, hs)) -> 0 < k <= blen s.
Proof.
  induction m as [|m IH]; intros s k hs; cbn [parse_fields]; destruct (take_line s) as [[[|b l] r]|] eqn:Et; try done.
  - intros [= <- <-]. apply take_line_Some in Et. rewrite blen_nil in Et. pose proof (blen_nonneg r). lia.
  - intros [= <- <-]. apply take_line_Some in Et. rewrite blen_nil in Et. pose proof (blen_nonneg r). lia.
  - destruct (split_once _ _) as [[n v]|]; [|done].
    destruct (parse_fields m r) as [[[k' hs']|]| |] eqn:Ep; try done. intros [= <- <-].
    apply IH in Ep. apply take_line_Some in Et. pose proof (blen_nonneg (b :: l)). lia.
Qed.

(** ** The tokenizer *)

Definition start_line {A} (nothing : A) (m : nat) (s : bytes) (read : bytes -> option (list Header -> A))
    : Res HttparseError (Status Z) * A :=
  match take_line s with
  | None => (Ok Partial, nothing)
  | Some (l, r) =>
      match read l with
      | None => (Err OtherHttparseError, nothing)
      | Some f =>
          match parse_fields m r with
          | Ok (Complete (k, hs)) => (Ok (Complete (blen l + 2 + k)), f hs)
          | Ok Partial => (Ok Partial, f [])
          | Err e => (Err e, f [])
          | Panic => (Panic, f [])
          end
      end
  end.

Definition read_request_line (l : bytes) : option (list Header -> option bytes * option bytes * list Header) :=
  match splitn (is_byte space) 3 l with [m; t; _] => Some (fun hs => (Some m, Some t, hs)) | _ => None end.

Definition read_status_line (l : bytes) : option (list Header -> option Z * list Header) :=
  match splitn (is_byte space) 3 l with
  | [_; c; _] => match parse_uint 999 c with Some n => Some (fun hs => (Some n, hs)) | None => None end
  | _ => None
  end.

#[local] Instance line_httparse : Httparse := {|
  parse_chunk_size := toy_chunk_size 0 0;
  parse_headers := parse_fields;
  parse_request m s := start_line (None, None, []) m s read_request_line;
  parse_response m s := start_line (None, []) m s read_status_line;
|}.

Lemma start_line_no_panic {A} (x : A) m s read : (start_line x m s read).1 <> Panic.
Proof.
  unfold start_line. destruct (take_line s) as [[l r]|]; [|done]. destruct (read l); [|done].
  pose proof (parse_fields_no_panic m r). by destruct (parse_fields m r) as [[[]|]| |].
Qed.

Lemma start_line_bounds {A} (x : A) m s read n y : start_line x m s read = (Ok (Complete n), y) -> 0 < n <= blen s.
Proof.
  unfold start_line. destruct (take_line s) as [[l r]|] eqn:Et; [|done]. destruct (read l); [|done].
  destruct (parse_fields m r) as [[[k hs]|]| |] eqn:Ep; try done. intros [= <- _].
  apply parse_fields_bounds in Ep. apply take_line_Some in Et. pose proof (blen_nonneg l). lia.
Qed.

#[local] Instance line_httparse_laws : HttparseLaws line_httparse.
Proof.
  split; cbn -[toy_chunk_size parse_fields start_line].
  - intros. apply toy_chunk_size_no_panic.
  - intros. apply parse_fields_no_panic.
  - intros. apply start_line_no_panic.
  - intros. apply start_line_no_panic.
  - intros buf n size Hc. apply toy_chunk_size_bounds in Hc; [done|lia|by split].
  - intros m buf n hs. apply parse_fields_bounds.
  - intros m buf n r. apply start_line_bounds.
  - intros m buf n r. apply start_line_bounds.
  - intros s n rest Hn Hl. destruct s as [|b s]; [done|].
    refine (toy_chunk_size_line (b :: s) rest 0 0 n _ _ _ _); try done; [unfold blen; lia|by right].
Qed.

Lemma start_line_text {A} (x : A) m l hs rest read f :
  forallb no_cr l = true -> read l = Some f -> forallb is_header hs = true -> (length hs <= m)%nat ->
  start_line x m (((l ++ crlf) ++ header_lines hs ++ crlf) ++ rest) read
  = (Ok (Complete (blen ((l ++ crlf) ++ header_lines hs ++ crlf))), f hs).
Proof.
  intros Hl Hr Hh Hm. unfold start_line. rewrite <- !(assoc_L (++)), take_line_app by done.
  rewrite Hr, parse_fields_lines by done. rewrite !blen_app. change (blen crlf) with 2. do 3 f_equal. lia.
Qed.

Lemma start_line_part {A} (x : A) m l hs p q read f :
  forallb no_cr l = true -> read l = Some f -> forallb is_header hs = true -> (length hs <= m)%nat ->
  p ++ q = (l ++ crlf) ++ header_lines hs ++ crlf -> q <> [] -> (start_line x m p read).1 = Ok Partial.
Proof.
  intros Hl Hr Hh Hm He Hq. unfold start_line. rewrite <- (assoc_L (++) l) in He.
  destruct (take_line_part _ _ _ _ Hl He Hq) as [->|(p' & -> & He')]; [done|]. rewrite Hr.
  by rewrite (parse_fields_part hs m p' q).
Qed.

Lemma splitn_three a b c : sep_free (is_byte space) a -> sep_free (is_byte space) b ->
  splitn (is_byte space) 3 (a ++ [space] ++ b ++ [space] ++ c) = [a; b; c].
Proof.
  intros Ha Hb. cbn [splitn app]. rewrite split_once_app by done. by rewrite split_once_app by done.
Qed.

Lemma request_line_read method target : is_token method = true -> is_target target = true ->
  let l := method ++ [space] ++ target ++ [space] ++ HTTP_VERSION in
  forallb no_cr l = true /\ read_request_line l = Some (fun hs => (Some method, Some target, hs)).
Proof.
  intros [_ Hm]%token_bytes [_ Ht]%target_bytes l. split.
  - unfold l. rewrite !forallb_app. rewrite (forallb_impl _ _ _ (fun b H => proj1 (token_byte_plain b H)) Hm).
    by rewrite (forallb_impl _ _ _ (fun b H => proj1 (target_byte_plain b H)) Ht).
  - unfold read_request_line, l. rewrite splitn_three; [done| |].
    + by apply (bytes_sep_free token_byte); [apply token_byte_plain|].
    + by apply (bytes_sep_free target_byte); [apply target_byte_plain|].
Qed.

Lemma digit_token b : is_ascii_digit b = true -> token_byte b = true.
Proof. by destruct b. Qed.

Lemma status_line_read code reason : 100 <= code <= 999 -> forallb value_byte reason = true ->
  let l := HTTP_VERSION ++ [space] ++ dec code ++ [space] ++ reason in
  forallb no_cr l = true /\ read_status_line l = Some (fun hs => (Some code, hs)).
Proof.
  intros Hc Hr l. assert (forallb token_byte (dec code) = true) as Hd.
  { apply forallb_forall. intros b Hb%list_elem_of_In. apply digit_token.
    pose proof (dec_all_digits code ltac:(lia)) as Ha. rewrite list.Forall_forall in Ha. by apply Ha. }
  split.
  - unfold l. rewrite !forallb_app. rewrite (forallb_impl _ _ _ (fun b H => proj1 (token_byte_plain b H)) Hd).
    by rewrite (forallb_impl _ _ _ value_byte_plain Hr).
  - unfold read_status_line, l. rewrite splitn_three; [by rewrite parse_uint_dec by lia| |].
    + by repeat constructor.
    + by apply (bytes_sep_free token_byte); [apply token_byte_plain|].
Qed.

Lemma request_text_lines method target hs :
  request_text method target hs = ((method ++ [space] ++ target ++ [space] ++ HTTP_VERSION) ++ crlf) ++ header_lines hs ++ crlf.
Proof. unfold request_text, request_line. by rewrite <- !(assoc_L (++)). Qed.

Lemma response_text_lines code reason hs :
  response_text code reason hs = ((HTTP_VERSION ++ [space] ++ dec code ++ [space] ++ reason) ++ crlf) ++ header_lines hs ++ crlf.
Proof. unfold response_text. by rewrite <- !(assoc_L (++)). Qed.

#[local] Instance line_head_laws : HeadLaws line_httparse.
Proof.
  split.
  - intros m method target hs rest Hm Ht Hh Hl. destruct (request_line_read method target Hm Ht) as [H1 H2].
    rewrite request_text_lines. by apply (start_line_text _ _ _ _ _ _ _ H1 H2).
  - intros m method target hs p q Hm Ht Hh Hl He Hq. destruct (request_line_read method target Hm Ht) as [H1 H2].
    rewrite request_text_lines in He. by apply (start_line_part _ _ _ _ _ _ _ _ H1 H2 Hh Hl He).
  - intros m code reason hs rest Hc Hr Hh Hl. destruct (status_line_read code reason Hc Hr) as [H1 H2].
    rewrite response_text_lines. by apply (start_line_text _ _ _ _ _ _ _ H1 H2).
  - intros m code reason hs p q Hc Hr Hh Hl He Hq. destruct (status_line_read code reason Hc Hr) as [H1 H2].
    rewrite response_text_lines in He. by apply (start_line_part _ _ _ _ _ _ _ _ H1 H2 Hh Hl He).
Qed.

(** ** Heads as they were built *)

#[local] Instance record_types : HttpTypes := {|
  RequestHead := bytes * bytes * list Header; ResponseHead := Z;
  request_head m t hs := Some (m, t, hs); response_head c _ := Some c;
  valid_header_value s := forallb value_byte s; parse_target s := Some s;
  canonical_reason _ := None;
|}.

#[local] Instance record_access : HttpAccess record_types := {|
  head_method (h : RequestHead) := if bytes_eqb h.1.1 (str "POST") then POST else if bytes_eqb h.1.1 (str "GET") then GET
                   else OtherMethod h.1.1;
  head_path h := h.1.2; head_version _ := OtherVersion;
  head_text h name := header_value <$> find_header name h.2;
|}.

#[local] Instance record_answers : ResponseAccess record_types := {| HttpClient.response_status (h : ResponseHead) := h |}.

#[local] Instance record_laws : HttpLaws record_types record_access record_answers.
Proof.
  split; try done.
  - intros s Hs. by apply is_value_bytes.
  - intros target hs _ _. by eexists.
  - intros code hs _ _. by eexists.
Qed.

#[local] Existing Instances toy_base64 toy_serde toy_p384 toy_rsa simple_net toy_tls.

Definition sample_response : Response := {|
  HttpSignaler.response_status := OK; HttpSignaler.content_type := Some (str "application/sdp");
  HttpSignaler.content_length := 3; response_body := str "v=1" |}.

Lemma http_join_exchange_witness :
  exists text, request_post (str "host:80") (join_path (str "peer")) JOIN_CONTENT_TYPE (str "v=0") = Ok text /\
    (forall c : TcpConn, inbound (HttpServer.stream c) = text ->
       exists request c', read_request c = Ok (Asks request, c') /\ HttpSignaler.body request = str "v=0") /\
    (forall x x', fill x = (Ok Received, x') -> inbound x' = encode_response sample_response ->
       drive_join (JReceiving x) = Ok (JDone 200 (str "v=1"))).
Proof.
  destruct (http_join_exchange (str "host:80") (str "peer") (str "v=0") sample_response)
    as (text & Hp & Hs & Hc); [vm_compute; reflexivity..|].
  assert (blen text <= MAX_BODY) as Hl.
  { vm_compute in Hp. injection Hp as <-. vm_compute. discriminate. }
  exists text. split; [exact Hp|]. split.
  - intros c Hi. destruct (proj2 (Hs Hl c) Hi) as (request & c' & H1 & H2 & _). exists request, c'. split; assumption.
  - intros x x' Hf Hi. refine (proj2 (Hc _ x x' Hf) Hi). vm_compute. discriminate.
Defined.
