(* ===== verification/Handshake.v ===== *)
(** * Handshake: a signed offer and a signed answer, from one peer to the other
    ([connection.rs], [admission.rs], [identity/] and [protocol/webrtc/description.rs]
    together)

    A peer writes its description, signs it by inserting a line into the text, and
    the other peer parses the same text and validates its signature.  Signing works
    on lines and parsing on the grammar of SDP, so this file also relies on the text
    that the SDP crate writes: lines ended by CRLF, in the order of RFC 8866. *)
From S2P Require Import Prelude Text Errors SignalMsg Endpoint Discovery Identity ServerIdentity Webrtc.
From S2P Require Import Candidate Framing Transports Sans Session Connection Admission.

(** ** The text of a description *)

Definition terminate (lines : list bytes) : bytes := concat ((fun l => l ++ crlf) <$> lines).

(** The line of an attribute; the crate decides how an empty value is written. *)
Class SdpText (sdp : Sdp) := {
  attr_line : Attribute -> bytes;
  attr_line_flag k : attr_line {| attr_key := k; attr_value := None |} = str "a=" ++ k;
  attr_line_value k v : v <> [] -> attr_line (attr k v) = str "a=" ++ k ++ str ":" ++ v;
  attr_line_empty k : attr_line (attr k []) = str "a=" ++ k \/ attr_line (attr k []) = str "a=" ++ k ++ str ":";
  marshal_text id attributes media_attrs :
    is_u64 id -> Forall attr_text attributes -> Forall attr_text media_attrs ->
    marshal (with_media (push_attributes media_attrs empty_media) (session_frame id attributes))
    = terminate ([str "v=0"; str "o=- " ++ dec id ++ str " 2 IN IP4 127.0.0.1"; str "s=-"; str "t=0 0"]
                 ++ (attr_line <$> attributes)
                 ++ [str "m=application 9 UDP/DTLS/SCTP webrtc-datachannel"; str "c=IN IP4 0.0.0.0"]
                 ++ (attr_line <$> media_attrs));
}.

(** The empty text decodes to itself, and is not JSON. *)
Class IdentityText (b64 : Base64) (serde : Serde) := {
  decode_empty : standard_decode [] = Some [];
  raw_empty : raw_from_str [] = None;
}.

(** An agent keeps the credentials it is configured with. *)
Class CredentialLaws `(ops : IceOps) := {
  agent_new_credentials now config provider a : agent_new now config provider = Some a ->
    get_local_credentials a = {| ufrag := config_ufrag config; pwd := config_pwd config |};
  add_local_candidate_credentials c a :
    get_local_credentials (add_local_candidate c a).2 = get_local_credentials a;
}.

(** ** Lines *)

Definition no_eol (l : bytes) : Prop := sep_free is_eol l.

Lemma terminate_app a b : terminate (a ++ b) = terminate a ++ terminate b.
Proof. unfold terminate. by rewrite fmap_app, concat_app. Qed.

Lemma terminate_cons l ls : terminate (l :: ls) = l ++ crlf ++ terminate ls.
Proof. unfold terminate. cbn [fmap list_fmap concat]. by rewrite <- (assoc_L (++)). Qed.

Lemma split_inclusive_line l s : no_eol l -> split_inclusive (l ++ crlf ++ s) = (l ++ crlf) :: split_inclusive s.
Proof.
  induction l as [|b l IH]; [done|]. intros [Hb Hl]%list.Forall_cons. cbn [app split_inclusive].
  assert (byte_eqb b newline = false) as ->.
  { unfold is_eol in Hb. apply orb_false_iff in Hb as [_ Hb]. apply byte_eqb_neq. apply byte_eqb_neq in Hb.
    intros ->. by apply Hb. }
  by rewrite (IH Hl).
Qed.

Lemma split_inclusive_terminate ls : Forall no_eol ls -> split_inclusive (terminate ls) = (fun l => l ++ crlf) <$> ls.
Proof.
  induction 1 as [|l ls Hl _ IH]; [done|]. rewrite terminate_cons, split_inclusive_line by done. by rewrite IH.
Qed.

(** The pieces between line breaks: each line, and an empty one after it. *)
Lemma split_on_terminate ls : Forall no_eol ls ->
  split_on is_eol (terminate ls) = concat ((fun l => [l; []]) <$> ls) ++ [[]].
Proof.
  induction 1 as [|l ls Hl _ IH]; [done|]. rewrite terminate_cons. cbn [crlf app].
  rewrite split_on_app by done. cbn [split_on]. change (is_eol x0a) with true. cbn iota. rewrite IH. done.
Qed.

(** Searches over the pieces are searches over the lines. *)
Lemma omap_pieces {A} (f : bytes -> option A) ls : f [] = None ->
  omap f (concat ((fun l => [l; []]) <$> ls) ++ [[]]) = omap f ls.
Proof.
  intros Hf. induction ls as [|l ls IH]; cbn; [by rewrite Hf|]. cbn in IH. rewrite Hf. by destruct (f l); rewrite IH.
Qed.

Lemma find_map_pieces {A} (f : bytes -> option A) ls : f [] = None ->
  find_map f (concat ((fun l => [l; []]) <$> ls) ++ [[]]) = find_map f ls.
Proof. intros Hf. induction ls as [|l ls IH]; cbn; [by rewrite Hf|]. rewrite Hf. by destruct (f l). Qed.

(** Inserting before the media line. *)
Lemma insert_identity_media a pre m post : forall out,
  Forall (fun l => is_media l = false) pre -> is_media m = true ->
  insert_identity a crlf (pre ++ m :: post) false out = out ++ concat pre ++ a ++ crlf ++ m ++ concat post.
Proof.
  induction pre as [|l pre IH]; intros out Hp Hm; cbn [app insert_identity negb andb].
  - rewrite Hm, insert_identity_done. by rewrite <- !(assoc_L (++)).
  - apply list.Forall_cons in Hp as [-> Hp]. rewrite IH by done. cbn [concat]. by rewrite <- !(assoc_L (++)).
Qed.

Lemma contains_crlf l s : contains_text crlf (l ++ crlf ++ s) = true.
Proof.
  induction l as [|b l IH]; cbn [app contains_text].
  - assert (starts_with crlf (crlf ++ s) = true) as H by (apply starts_with_true; by exists s).
    destruct (crlf ++ s) as [|b t]; cbn [contains_text]; by rewrite H.
  - by rewrite IH, orb_true_r.
Qed.

Lemma trim_ends b m e : visible b = true -> visible e = true -> trim (b :: m ++ [e]) = b :: m ++ [e].
Proof.
  intros Hb He. unfold trim, trim_start, trim_end.
  rewrite (trim_with_stuck ws_prefix_rest) by by apply ws_prefix_rest_visible.
  change (b :: m ++ [e]) with ((b :: m) ++ [e]). rewrite rev_app_distr. cbn [rev app].
  rewrite trim_with_stuck by by apply ws_suffix_rest_visible.
  change (e :: rev m ++ [b]) with ([e] ++ rev (b :: m)).
  by rewrite rev_app_distr, rev_involutive.
Qed.

(** A text of visible bytes. *)
Definition visible_text (s : bytes) : Prop := s <> [] /\ Forall (fun b => visible b = true) s.

Lemma trim_two a b : visible_text a -> visible_text b -> trim (a ++ [space] ++ b) = a ++ [space] ++ b.
Proof.
  intros [Ha Hav] [Hb Hbv]. destruct a as [|x a]; [done|]. destruct b as [|e b] using rev_ind; [done|].
  apply list.Forall_cons in Hav as [Hx _]. apply list.Forall_app in Hbv as [_ [He _]%list.Forall_cons].
  change ((x :: a) ++ [space] ++ b ++ [e]) with (x :: a ++ [space] ++ b ++ [e]).
  rewrite !(assoc_L (++)). by apply trim_ends.
Qed.

Section texts.
Context {sdp : Sdp} {sdp_laws : SdpLaws sdp} {text_laws : SdpText sdp} {ice_ops : IceCandidate}
  {ice_laws : IceCandidateLaws ice_ops}.

(** Everything after the key is the value. *)
Lemma attr_line_form a : exists x, attr_line a = str "a=" ++ attr_key a ++ x.
Proof.
  destruct a as [k [[|b v]|]].
  - change {| attr_key := k; attr_value := Some [] |} with (attr k []).
    destruct (attr_line_empty k) as [->| ->]; [exists []; by rewrite app_nil_r|by eexists].
  - change {| attr_key := k; attr_value := Some (b :: v) |} with (attr k (b :: v)). rewrite attr_line_value by done. by eexists.
  - rewrite attr_line_flag. exists []. cbn. by rewrite app_nil_r.
Qed.

Lemma attr_line_no_eol a : attr_text a -> no_eol (attr_line a).
Proof.
  intros (Hk & He & _ & Hv). unfold no_eol. destruct a as [k [v|]]; cbn [attr_key attr_value] in *.
  - change {| attr_key := k; attr_value := Some v |} with (attr k v). destruct v as [|b v].
    + destruct (attr_line_empty k) as [->| ->]; rewrite !sep_free_app; repeat split; try done; by repeat constructor.
    + rewrite attr_line_value by done. rewrite !sep_free_app. repeat split; try done; by repeat constructor.
  - rewrite attr_line_flag, sep_free_app. split; [by repeat constructor|done].
Qed.

(** The attributes of the media section after the common ones. *)
Definition media_tail (mode : IceMode) (d : Description) (cs : list Webrtc.Candidate) : list Attribute :=
  match mode with
  | Full => candidate_attrs 0 cs (ufrag (ice d)) ++ [attr (str "end-of-candidates") []]
  | Trickle => [attr (str "ice-options") (str "trickle")]
  end.

Definition describe_text (mode : IceMode) (d : Description) (cs : list Webrtc.Candidate) (now : SystemTime) : bytes :=
  match mode with Full => encode_full d cs now | Trickle => encode_trickle d now end.

Definition front_lines (id : Z) : list bytes :=
  [str "v=0"; str "o=- " ++ dec id ++ str " 2 IN IP4 127.0.0.1"; str "s=-"; str "t=0 0"].
Definition media_line : bytes := str "m=application 9 UDP/DTLS/SCTP webrtc-datachannel".

Definition sdp_lines (mode : IceMode) (d : Description) (cs : list Webrtc.Candidate) (now : SystemTime) : list bytes :=
  front_lines (session_id now) ++ (attr_line <$> base_attributes (desc_identity d))
  ++ media_line :: str "c=IN IP4 0.0.0.0" :: (attr_line <$> base_attrs d ++ media_tail mode d cs).

Lemma media_tail_text mode d cs : description_ok d -> Forall attr_text (media_tail mode d cs).
Proof.
  intros (Hu & _). destruct mode; cbn [media_tail].
  - apply list.Forall_app. split; [by apply candidate_attrs_text|]. repeat constructor; try done; by apply sep_free_bool.
  - repeat constructor; try done; by apply sep_free_bool.
Qed.

Lemma describe_text_lines mode d cs now : description_ok d ->
  describe_text mode d cs now = terminate (sdp_lines mode d cs now).
Proof.
  intros Hd. pose proof Hd as (_ & _ & _ & _ & _ & _ & Hi).
  assert (describe_text mode d cs now = marshal (with_media (push_attributes (base_attrs d ++ media_tail mode d cs) empty_media)
    (session_frame (session_id now) (base_attributes (desc_identity d))))) as ->.
  { destruct mode; cbn [describe_text media_tail]; unfold encode_full, encode_trickle, session.
    - by rewrite add_candidates_spec, base_media_spec, with_value_attribute_spec, !push_attributes_app, end_of_candidates_key.
    - by rewrite base_media_spec, with_value_attribute_spec, push_attributes_app. }
  rewrite marshal_text; [done|apply session_id_u64|by apply base_attributes_text|].
  apply list.Forall_app. split; [by apply base_attrs_text|by apply media_tail_text].
Qed.

Lemma frame_lines_no_eol id attributes media_attrs :
  is_u64 id -> Forall attr_text attributes -> Forall attr_text media_attrs ->
  Forall no_eol (front_lines id ++ (attr_line <$> attributes)
    ++ media_line :: str "c=IN IP4 0.0.0.0" :: (attr_line <$> media_attrs)).
Proof.
  intros Hid Ha Hm. unfold is_u64 in Hid.
  assert (forall l, Forall attr_text l -> Forall no_eol (attr_line <$> l)) as Hl.
  { intros l Hl. apply list.Forall_fmap. eapply list.Forall_impl; [exact Hl|]. apply attr_line_no_eol. }
  unfold front_lines. rewrite !list.Forall_app, !list.Forall_cons. split_and!; try (by apply sep_free_bool); auto.
  unfold no_eol. rewrite !sep_free_app. split_and!; try (by apply sep_free_bool).
  apply sep_free_dec; [lia|apply digit_not_eol].
Qed.

Lemma sdp_lines_no_eol mode d cs now : description_ok d -> Forall no_eol (sdp_lines mode d cs now).
Proof.
  intros Hd. pose proof Hd as (_ & _ & _ & _ & _ & _ & Hi). apply frame_lines_no_eol.
  - apply session_id_u64.
  - by apply base_attributes_text.
  - apply list.Forall_app. split; [by apply base_attrs_text|by apply media_tail_text].
Qed.

(** ** What the lines say *)

(** No attribute of the list is read under the prefix, whatever its value. *)
Definition unread (prefix : bytes) (l : list Attribute) : Prop :=
  Forall (fun a => forall x, strip_prefix prefix (str "a=" ++ attr_key a ++ x) = None) l.

Lemma unread_line prefix a : (forall x, strip_prefix prefix (str "a=" ++ attr_key a ++ x) = None) ->
  strip_prefix prefix (attr_line a) = None.
Proof. intros H. destruct (attr_line_form a) as [x ->]. apply H. Qed.

Lemma unread_omap prefix l : unread prefix l -> omap (strip_prefix prefix) (attr_line <$> l) = [].
Proof. induction 1 as [|a l Ha _ IH]; [done|]. cbn. by rewrite unread_line. Qed.

Lemma omap_nil_find {A B} (f : A -> option B) l : omap f l = [] -> find_map f l = None.
Proof. induction l as [|x l IH]; [done|]. cbn. by destruct (f x). Qed.

Lemma unread_candidates prefix cs u : (forall x, strip_prefix prefix (str "a=candidate" ++ x) = None) ->
  forall i, unread prefix (candidate_attrs i cs u).
Proof. intros H. induction cs as [|c cs IH]; intros i; constructor; [exact H|apply IH]. Qed.

Lemma media_tail_unread mode d cs :
  unread FINGERPRINT_PREFIX (media_tail mode d cs) /\ unread IDENTITY_PREFIX (media_tail mode d cs).
Proof.
  destruct mode; cbn [media_tail]; split; try (by repeat constructor);
    (apply list.Forall_app; split; [by apply unread_candidates|by repeat constructor]).
Qed.

Lemma base_attributes_unread i : unread FINGERPRINT_PREFIX (base_attributes i).
Proof.
  unfold base_attributes. rewrite group_key, extmap_key, msid_key, identity_key.
  apply list.Forall_app. split; [by repeat constructor|]. destruct i; by repeat constructor.
Qed.

Lemma base_attributes_no_identity : unread IDENTITY_PREFIX (base_attributes None).
Proof. unfold base_attributes. rewrite group_key, extmap_key, msid_key. by repeat constructor. Qed.

Lemma front_unread id : omap (strip_prefix FINGERPRINT_PREFIX) (front_lines id) = [] /\
  omap (strip_prefix IDENTITY_PREFIX) (front_lines id) = [].
Proof. done. Qed.

(** The fingerprint of a description is on its only fingerprint line. *)
Lemma fingerprint_lines mode d cs now :
  omap (strip_prefix FINGERPRINT_PREFIX) (sdp_lines mode d cs now)
  = [(desc_fingerprint d).1 ++ [space] ++ (desc_fingerprint d).2].
Proof.
  unfold sdp_lines. rewrite !omap_app, (proj1 (front_unread _)), unread_omap by apply base_attributes_unread.
  cbn [app]. change (media_line :: str "c=IN IP4 0.0.0.0" :: ?l) with ([media_line; str "c=IN IP4 0.0.0.0"] ++ l).
  rewrite omap_app. change (omap _ [media_line; _]) with (@nil bytes). cbn [app].
  rewrite fmap_app, omap_app, (unread_omap _ (media_tail mode d cs)) by apply media_tail_unread. rewrite app_nil_r.
  unfold base_attrs.
  change (?a :: ?b :: ?c :: ?r) with ([a; b] ++ [c] ++ r). rewrite !fmap_app, !omap_app.
  rewrite (unread_omap _ [_; _]), (unread_omap _ (attr (str "setup") _ :: _)) by by repeat constructor.
  cbn [app fmap list_fmap omap list_omap]. rewrite attr_line_value; [|by destruct (desc_fingerprint d).1].
  change (str "a=" ++ str "fingerprint" ++ str ":" ++ ?v) with (FINGERPRINT_PREFIX ++ v).
  by rewrite strip_prefix_app.
Qed.

Lemma identity_lines mode d cs now : desc_identity d = None ->
  find_map (strip_prefix IDENTITY_PREFIX) (sdp_lines mode d cs now) = None.
Proof.
  intros Hi. apply omap_nil_find. unfold sdp_lines. rewrite Hi.
  rewrite !omap_app, (proj2 (front_unread _)), unread_omap by apply base_attributes_no_identity.
  cbn [app]. change (media_line :: str "c=IN IP4 0.0.0.0" :: ?l) with ([media_line; str "c=IN IP4 0.0.0.0"] ++ l).
  rewrite omap_app. change (omap _ [media_line; _]) with (@nil bytes). cbn [app].
  apply unread_omap, list.Forall_app. split; [by repeat constructor|apply media_tail_unread].
Qed.

Lemma describe_text_fingerprints mode d cs now : description_ok d ->
  visible_text (desc_fingerprint d).1 -> visible_text (desc_fingerprint d).2 ->
  sdp_fingerprints (describe_text mode d cs now) = Ok [desc_fingerprint d].
Proof.
  intros Hd Ha Hv. unfold sdp_fingerprints. rewrite describe_text_lines, split_on_terminate by eauto using sdp_lines_no_eol.
  rewrite omap_pieces, fingerprint_lines by done. cbn [read_fingerprints]. rewrite trim_two by done.
  pose proof Hd as (_ & _ & Hs & _). change ([space] ++ ?x) with (space :: x). rewrite split_once_app by done.
  rewrite res_bind_Ok. by destruct (desc_fingerprint d).
Qed.

Lemma describe_text_no_identity mode d cs now : description_ok d -> desc_identity d = None ->
  find_map (strip_prefix IDENTITY_PREFIX) (split_on is_eol (describe_text mode d cs now)) = None.
Proof.
  intros Hd Hi. rewrite describe_text_lines, split_on_terminate by eauto using sdp_lines_no_eol.
  rewrite find_map_pieces by done. by apply identity_lines.
Qed.

(** The parsed text, whatever the mode; a trickled description has no candidates. *)
Lemma describe_text_parse mode d cs now : description_ok d ->
  exists cs', parse_description (describe_text mode d cs now) = Ok (announced d, cs') /\
    endpoint_of <$> cs' = match mode with Full => endpoint_of <$> cs | Trickle => [] end.
Proof.
  intros Hd. destruct (parse_encoded d cs now Hd) as [(cs' & Hp & He) Ht].
  destruct mode; [by exists cs'|by exists []].
Qed.

(** ** Signing a description *)

Definition signed (d : Description) (value : bytes) : Description :=
  {| ice := ice d; dtls_role := dtls_role d; desc_fingerprint := desc_fingerprint d;
     sctp_max_message_size := sctp_max_message_size d; desc_identity := Some value |}.

Lemma signed_ok d value : description_ok d -> no_eol value -> description_ok (signed d value).
Proof. by intros (? & ? & ? & ? & ? & ? & _) Hv. Qed.

(** The lines before the media section, and those from it on. *)
Definition head_lines (now : SystemTime) : list bytes :=
  front_lines (session_id now) ++ (attr_line <$> base_attributes None).
Definition media_lines (mode : IceMode) (d : Description) (cs : list Webrtc.Candidate) : list bytes :=
  str "c=IN IP4 0.0.0.0" :: (attr_line <$> base_attrs d ++ media_tail mode d cs).

Lemma sdp_lines_unsigned mode d cs now : desc_identity d = None ->
  sdp_lines mode d cs now = head_lines now ++ media_line :: media_lines mode d cs.
Proof. intros Hi. unfold sdp_lines, head_lines. by rewrite Hi, <- (assoc_L (++)). Qed.

Lemma sdp_lines_signed mode d cs now value : value <> [] ->
  sdp_lines mode (signed d value) cs now
  = head_lines now ++ (IDENTITY_PREFIX ++ value) :: media_line :: media_lines mode d cs.
Proof.
  intros Hv. unfold sdp_lines, head_lines, base_attributes. cbn [desc_identity signed]. rewrite app_nil_r.
  rewrite fmap_app, <- !(assoc_L (++)). cbn [fmap list_fmap app]. by rewrite identity_key, (attr_line_value _ value) by done.
Qed.

Lemma head_lines_not_media now : Forall (fun l => is_media (l ++ crlf) = false) (head_lines now).
Proof.
  apply list.Forall_app. split; [by repeat constructor|]. apply list.Forall_fmap, list.Forall_true. intros a. cbn.
  destruct (attr_line_form a) as [x ->]. done.
Qed.

Context {b64 : Base64} {serde : Serde} {p384 : P384} {rsa : Rsa}.

(** Signing the text of a description writes the text of the signed description:
    the inserted line is the identity attribute where [session] puts it. *)
Lemma augment_text si mode d cs now wall value :
  description_ok d -> desc_identity d = None -> value <> [] -> no_eol value ->
  identity_value si (describe_text mode d cs now) wall = Ok value ->
  augment si (describe_text mode d cs now) wall = Ok (describe_text mode (signed d value) cs now).
Proof.
  intros Hd Hi Hv Hn Hval. unfold augment. rewrite Hval, res_bind_Ok. f_equal.
  rewrite (describe_text_lines mode (signed d value)) by by apply signed_ok.
  rewrite describe_text_lines, sdp_lines_signed by done.
  rewrite split_inclusive_terminate by by apply sdp_lines_no_eol. rewrite sdp_lines_unsigned by done.
  rewrite (terminate_app (head_lines now)), terminate_cons.
  assert (contains_text crlf (terminate (head_lines now) ++ media_line ++ crlf ++ terminate (media_lines mode d cs)) = true)
    as -> by (rewrite (assoc_L (++)); apply contains_crlf).
  rewrite fmap_app, fmap_cons, insert_identity_media; [|apply list.Forall_fmap, head_lines_not_media|done].
  rewrite !terminate_app, !terminate_cons. unfold terminate. by rewrite <- !(assoc_L (++)).
Qed.
End texts.

(** ** The description of a new session *)

Lemma visible_free s : visible_text s -> sep_free is_eol s /\ sep_free (is_byte space) s.
Proof. intros [_ Hs]. split; (eapply list.Forall_impl; [exact Hs|]); intros b Hb; by destruct b. Qed.

Lemma colon_hex_visible digest : digest <> [] -> visible_text (colon_hex digest).
Proof.
  intros Hd. split.
  - destruct digest as [|b [|c digest]]; done.
  - clear Hd. unfold colon_hex. assert (forall b, Forall (fun x => visible x = true) (hex2 b)) as H2
      by (intros []; by repeat constructor).
    induction digest as [|b [|c digest] IH]; [constructor|apply H2|].
    change (intercalate (str ":") (hex2 <$> b :: c :: digest))
      with (hex2 b ++ str ":" ++ intercalate (str ":") (hex2 <$> c :: digest)).
    rewrite !list.Forall_app. split_and!; [apply H2|by repeat constructor|exact IH].
Qed.

Section session_description.
Context {crypto : CryptoOps} {crypto_laws : CryptoLaws crypto} {ice_ops : IceCandidate}
  {cert : CertificateOps} {iceops : IceOps} {credential_laws : CredentialLaws iceops}
  {dtlsops : DtlsOps} {sctpops : SctpOps} {dcepops : DcepOps}.

Lemma add_hosts_credentials addr ips : forall a,
  get_local_credentials (add_hosts addr ips a).2 = get_local_credentials a.
Proof.
  induction ips as [|i ips IH]; intros a; [done|]. cbn [add_hosts]. cbv [mbind se_bind lift_res foreign].
  destruct (ok_or _ _) as [c| |]; [|done..].
  pose proof (add_local_candidate_credentials c a) as Hc.
  destruct (add_local_candidate c a) as [[[]|[]|] a']; cbn [snd] in Hc; [|done..]. etrans; [apply IH|done].
Qed.

(** What a new session announces: the drawn credentials, its certificate and no identity. *)
Lemma session_description addr advertised controlling u pw random now s d :
  session_with_advertised addr advertised controlling u pw random now = Ok (s, d) ->
  word u -> no_eol pw ->
  description_ok d /\ desc_identity d = None /\
  visible_text (desc_fingerprint d).1 /\ visible_text (desc_fingerprint d).2.
Proof.
  unfold session_with_advertised.
  intros (i & Hi & (c & _ & (fp & Hfp & Heq)%res_bind_inv)%res_bind_inv)%res_bind_inv Hu Hp.
  apply Ok_inj in Heq as [= _ <-].
  assert (local_credentials i = {| ufrag := u; pwd := pw |}) as Hc.
  { revert Hi. unfold ice_with_advertised. intros (pr & _ & (a & Ha%ok_or_inv & Heq)%res_bind_inv)%res_bind_inv.
    apply agent_new_credentials in Ha. cbn in Ha.
    pose proof (add_hosts_credentials addr (announce [ip addr] advertised) a) as Hh.
    destruct (add_hosts _ _ _) as [[[]| |] a']; try done. apply Ok_inj in Heq as <-. unfold local_credentials.
    cbn [agent snd] in Hh |- *. by rewrite Hh. }
  assert (visible_text fp.1 /\ visible_text fp.2) as [H1 H2].
  { revert Hfp. unfold fingerprint. intros (der & _ & Heq)%res_bind_inv. apply Ok_inj in Heq as <-. cbn [fst snd].
    split; [split; [done|by repeat constructor]|]. apply colon_hex_visible. intros E.
    pose proof (sha256_length der) as Hl. by rewrite E in Hl. }
  destruct (visible_free _ H1) as [He1 Hs1]. destruct (visible_free _ H2) as [He2 _].
  split; [|done]. unfold description_ok. cbn [ice desc_fingerprint sctp_max_message_size desc_identity]. rewrite Hc.
  split_and!; try done; vm_compute; lia || done.
Qed.
End session_description.

(** ** Signing, sending and validating *)

Section handshake.
Context {b64 : Base64} {blaws : Base64Laws b64} {serde : Serde} {slaws : SerdeLaws serde}
  {itext : IdentityText b64 serde} {p384 : P384} {plaws : P384Laws p384} {rsa : Rsa}.
Context {crypto : CryptoOps} {crypto_laws : CryptoLaws crypto} {sdp : Sdp} {sdp_laws : SdpLaws sdp}
  {text_laws : SdpText sdp} {cand : IceCandidate} {cand_laws : IceCandidateLaws cand} {cert : CertificateOps}
  {iceops : IceOps} {credential_laws : CredentialLaws iceops} {dtlsops : DtlsOps} {sctpops : SctpOps}
  {dcepops : DcepOps}.

(** An identity that can sign, with tokens that live [l]. *)
Record signer (si : ServerIdentity) (l : Duration) : Prop := {
  signer_key : verifying si = verifying_key (signing si);
  signer_domain : domain si <> [];
  signer_lifetime : lifetime si = Some l;
  signer_total m : is_Some (try_sign (signing si) m);
}.

(** A token signed at [wall] is within the clock's range, and [later] is after its life. *)
Definition in_range (wall : SystemTime) (l : Duration) : Prop := seconds (wall + l) + 60 <= i64_max.
Definition expired (wall : SystemTime) (l : Duration) (later : SystemTime) : Prop :=
  secs (seconds (wall + l) + 60) < later.

Lemma from_base64_empty i : from_base64 [] <> Ok i.
Proof.
  unfold from_base64. change (trim []) with (@nil byte). rewrite decode_empty. cbn [ok_or]. rewrite res_bind_Ok.
  change (utf8_valid []) with true. cbn iota. rewrite res_bind_Ok. unfold from_json. by rewrite raw_empty.
Qed.

(** A text vouches for a description until the token of its identity has expired:
    it parses to the description with an identity and to candidates at the given
    endpoints, and it validates with claims that carry the signer's key. *)
Definition vouches (si : ServerIdentity) (d : Description) (endpoints : list (bytes * Z))
    (expired : SystemTime -> Prop) (text value : bytes) : Prop :=
  (exists cs, parse_description text = Ok (announced (signed d value), cs) /\ endpoint_of <$> cs = endpoints) /\
  forall later, ~ expired later -> exists claims,
    validate_sdp text later AnyToken = (Ok claims, AnyToken) /\
    client_public_key claims = Ok (verifying si) /\ issuer claims = Some (domain si).

(** The candidates a description embeds. *)
Definition embedded (mode : IceMode) (cs : list Webrtc.Candidate) : list (bytes * Z) :=
  match mode with Full => endpoint_of <$> cs | Trickle => [] end.

Lemma signed_text si l mode d cs now wall :
  signer si l -> in_range wall l -> description_ok d -> desc_identity d = None ->
  visible_text (desc_fingerprint d).1 -> visible_text (desc_fingerprint d).2 ->
  exists text value,
    augment si (describe_text mode d cs now) wall = Ok text /\
    vouches si d (embedded mode cs) (expired wall l) text value.
Proof.
  intros [Hk Hdom Hl Hs] Hr Hd Hi H1 H2.
  pose proof (describe_text_fingerprints mode d cs now Hd H1 H2) as Hf.
  destruct (identity_value_reads si (describe_text mode d cs now) [desc_fingerprint d] wall l)
    as (value & identity & jws & fjws & Hval & Hfree & Hid & _); try done; [unfold in_range in Hr; lia|].
  assert (value <> []) as Hv by (intros ->; by apply from_base64_empty in Hid).
  pose proof (augment_text si mode d cs now wall value Hd Hi Hv Hfree Hval) as Ha.
  assert (has_room (split_inclusive (describe_text mode d cs now))) as Hroom.
  { left. rewrite describe_text_lines, split_inclusive_terminate, sdp_lines_unsigned by eauto using sdp_lines_no_eol.
    rewrite fmap_app, existsb_app. cbn. apply orb_true_r. }
  eexists _, value. split; [exact Ha|]. split.
  - exact (describe_text_parse mode (signed d value) cs now (signed_ok d value Hd Hfree)).
  - intros later Hlater.
    destruct (augment_validate si (describe_text mode d cs now) [desc_fingerprint d] wall later l)
      as (out & claims & Ho & _ & Hc); try done; [by apply describe_text_no_identity|unfold expired in Hlater; lia|].
    rewrite Ha in Ho. apply Ok_inj in Ho as <-. eauto.
Qed.

(** The first signal of a description carries its text. *)
Lemma describe_first session d mode cid nid kind wall : exists g rest,
  describe session d mode cid nid kind wall = g :: rest /\ signal_type g = kind_type kind /\
  connection_id g = cid /\ network_id g = nid /\
  signal_data g = describe_text mode d (local_candidates session) wall.
Proof. unfold describe. by destruct kind; eexists _, _. Qed.

Lemma map_err_Ok {E F A} (f : E -> F) (m : Res E A) x : map_err f m = Ok x -> m = Ok x.
Proof. destruct m; cbn; by try intros <-%Ok_inj. Qed.

(** An answer for this connection that parses is handed to the session. *)
Lemma answer_signal (c : Connection) (g : Signal) d cs later :
  signal_type g = Answer -> parse_description (signal_data g) = Ok (d, cs) ->
  connection_id g = c_connection_id c ->
  handle (CSignal (from_network (remote_network_id c) g) later) c
  = on_session (handle (IRemoteDescription d cs later)) (set_remote_identity (desc_identity d) c).
Proof.
  intros Ht Hp Hid. cbn [handle connection_sans connection_handle]. unfold handle_signal, addressed.
  cbn [from_network signal_new connection_id network_id signal_type signal_data].
  rewrite Hid, Z.eqb_refl, Ht. unfold bytes_eqb. rewrite bool_decide_eq_true_2 by done.
  cbn [andb negb]. cbv [mbind se_bind lift_res modify]. by rewrite Hp.
Qed.

(** C5: A signed offer is admitted.  The offer of a new session, whose credentials
    are a word and a line of text, can be signed by any identity that is able to
    sign; a server that trusts any token admits the signed offer until sixty
    seconds after the token expires, under whatever network id and address it
    arrives from: it sees the client's description as announced, with its
    identity, the client's candidates if they are embedded, and a player whose
    claims carry the client's own key. *)
Theorem signed_offer_admitted addr advertised u pw random now0 (s : Session) (d : Description)
    (ci : ServerIdentity) (l : Duration) (cid : Z) (nid : bytes) (mode : IceMode) (clock wall : SystemTime) :
  session_with_advertised addr advertised true u pw random now0 = Ok (s, d) ->
  word u -> no_eol pw -> signer ci l -> in_range wall l ->
  exists offer rest text value,
    (connect s d cid nid mode clock).2 = offer :: rest /\
    augment ci (signal_data offer) wall = Ok text /\
    forall (p : OfferPolicy) seen from later, token_trust p = Some AnyToken -> ~ expired wall l later ->
      exists a claims,
        policy_admit (signal_offer cid text seen) from later p = (Ok a, p) /\
        remote_description a = announced (signed d value) /\
        endpoint_of <$> remote_candidates a = embedded mode (local_candidates s) /\
        player a = Some (player_info_new claims seen from) /\
        client_public_key claims = Ok (verifying ci) /\ issuer claims = Some (domain ci).
Proof.
  intros Hnew Hu Hp Hs Hr. destruct (session_description _ _ _ _ _ _ _ _ _ Hnew Hu Hp) as (Hd & Hi & H1 & H2).
  destruct (describe_first s d mode cid nid KOffer clock) as (offer & rest & Eo & _ & _ & _ & Edata).
  destruct (signed_text ci l mode d (local_candidates s) clock wall Hs Hr Hd Hi H1 H2)
    as (text & value & Ha & (cs & Hparse & Hend) & Hval).
  exists offer, rest, text, value. split; [exact Eo|]. split; [by rewrite Edata|].
  intros p seen from later Ht Hlater. destruct (Hval later Hlater) as (claims & Hc & Hkey & Hiss).
  eexists _, claims. unfold policy_admit, parse_offer.
  change (expect_offer (signal_offer cid text seen)) with (Ok (E := ProtocolError) tt). rewrite res_bind_Ok.
  change (signal_data (signal_offer cid text seen)) with text. rewrite Hparse. cbn [map_err]. rewrite Ht, Hc.
  cbn [map_err]. assert (set_token_trust (Some AnyToken) p = p) as -> by (destruct p; cbn in Ht; by subst).
  split; [reflexivity|]. by split_and!.
Qed.

(** The session that answers, once it knows the offer. *)
Definition answering_session (a : Admitted_) (s : Session) (now : Instant) : Session :=
  (handle (IRemoteDescription (remote_description a) (remote_candidates a) now)
     (match policy_deadline (a_policy a) with Some within => set_establish_deadline within s | None => s end)).2.

(** C6: A signed answer is accepted.  When a server that has an identity answers an
    admitted offer, the first signal is an answer that the client's check accepts
    until sixty seconds after the token expires, with claims that carry the
    server's own key; a client connection with the offer's connection id that is
    handed the answer records the identity and feeds its session the server's
    description as announced, and the candidates the answer embeds. *)
Theorem signed_answer_accepted (a : Admitted_) local advertised u pw random clock now (answered : Answered)
    (si : ServerIdentity) (l : Duration) :
  answer_advertising a local advertised u pw random clock now = Ok answered ->
  policy_identity (a_policy a) = Some si -> word u -> no_eol pw -> signer si l -> in_range (a_wall a) l ->
  exists s d reply rest value cs,
    session_with_advertised local advertised false u pw random now = Ok (s, d) /\
    signals answered = reply :: rest /\ signal_type reply = Answer /\
    connection_id reply = connection_id (a_offer a) /\ network_id reply = network_id (a_offer a) /\
    endpoint_of <$> cs = embedded (policy_ice_mode (a_policy a)) (local_candidates (answering_session a s now)) /\
    (forall later, ~ expired (a_wall a) l later -> exists claims,
       verify_answer (signal_data reply) later (Some AnyToken) = (Ok (Some claims), Some AnyToken) /\
       client_public_key claims = Ok (verifying si) /\ issuer claims = Some (domain si)) /\
    (forall (c : Connection) later, c_connection_id c = connection_id (a_offer a) ->
       handle (CSignal (from_network (remote_network_id c) reply) later) c
       = on_session (handle (IRemoteDescription (announced (signed d value)) cs later))
           (set_remote_identity (Some value) c)).
Proof.
  intros Ha Hpi Hu Hp Hs Hr. unfold answer_advertising in Ha. rewrite Hpi in Ha.
  apply res_bind_inv in Ha as ([s d] & Hnew & Ha). apply res_bind_inv in Ha as ([conn ls] & Hacc & Ha).
  apply res_bind_inv in Ha as (ls' & Hsign & Ha).
  assert (signals answered = ls') as Hsig by (destruct (infer_loop _ _ _ _ _) as [[]]; try done; by apply Ok_inj in Ha as <-).
  clear Ha. apply map_err_Ok in Hnew, Hacc.
  destruct (session_description _ _ _ _ _ _ _ _ _ Hnew Hu Hp) as (Hd & Hi & H1 & H2).
  revert Hacc. unfold accept. intros (_ & _ & Hacc)%res_bind_inv.
  destruct (handle (IRemoteDescription _ _ now) _) as [[[]| |] s'] eqn:Eh; try done.
  apply Ok_inj in Hacc. injection Hacc as _ <-.
  destruct (describe_first s' d (policy_ice_mode (a_policy a)) (connection_id (a_offer a)) (network_id (a_offer a))
    KAnswer clock) as (g & rest & Eg & Ety & Eid & Enid & Edata). rewrite Eg in Hsign.
  destruct (signed_text si l (policy_ice_mode (a_policy a)) d (local_candidates s') clock (a_wall a) Hs Hr Hd Hi H1 H2)
    as (text & value & Haug & (cs & Hparse & Hend) & Hval).
  cbn [sign_answer] in Hsign. rewrite Edata, Haug in Hsign. cbn [map_err] in Hsign. rewrite res_bind_Ok in Hsign.
  apply Ok_inj in Hsign as <-. eexists s, d, _, rest, value, cs.
  split; [exact Hnew|]. split; [exact Hsig|]. split; [exact Ety|]. split; [exact Eid|]. split; [exact Enid|].
  split; [unfold answering_session; rewrite Eh; exact Hend|]. split.
  - intros later Hlater. destruct (Hval later Hlater) as (claims & Hc & Hkey). exists claims.
    unfold verify_answer. cbn [signal_new signal_data]. by rewrite Hc.
  - intros c later Hcid. rewrite (answer_signal c _ (announced (signed d value)) cs); [done|exact Ety|exact Hparse|].
    cbn [signal_new connection_id]. congruence.
Qed.
End handshake.
