(* ===== verification/HandshakeInstance.v ===== *)
(** * HandshakeInstance: an SDP text form for the handshake theorems

    Descriptions are written as lines and read back from them, as RFC 8866 has it,
    so the laws on the text and those on the parsed values hold of one instance;
    the transports and the identity code are those of the other instances. *)
From S2P Require Import Prelude Text Errors SignalMsg Endpoint Discovery Identity ServerIdentity IdentityInstance.
From S2P Require Import Webrtc WebrtcInstance Framing Transports Sans Session SessionInstance.
From S2P Require Import Connection Admission AdmissionInstance Handshake.

(** ** Writing *)

Definition attribute_line (a : Attribute) : bytes :=
  str "a=" ++ attr_key a ++ match attr_value a with Some v => str ":" ++ v | None => [] end.

Definition origin_line (o : Origin) : bytes :=
  str "o=" ++ intercalate [space] [username o; dec (origin_session_id o); dec (session_version o);
    o_network_type o; o_address_type o; unicast_address o].

Definition connection_line (c : ConnectionInformation) : bytes :=
  str "c=" ++ intercalate [space] ([ci_network_type c; ci_address_type c]
    ++ match ci_address c with Some a => [addr_address a] | None => [] end).

Definition media_section (m : MediaDescription) : list bytes :=
  let n := media_name m in
  [str "m=" ++ intercalate [space] ([media n; dec (port_value (media_port n)); intercalate (str "/") (protos n)] ++ formats n)]
  ++ match connection_information m with Some c => [connection_line c] | None => [] end
  ++ (attribute_line <$> media_attributes m).

Definition text_marshal (s : SessionDescription) : bytes :=
  terminate ([str "v=" ++ dec (version s); origin_line (origin s); str "s=" ++ session_name s]
    ++ replicate (time_descriptions s) (str "t=0 0")
    ++ (attribute_line <$> session_attributes s)
    ++ concat (media_section <$> media_descriptions s)).

(** ** Reading *)

Definition read_attribute (s : bytes) : Attribute :=
  match split_once (is_byte x3a) s with
  | Some (k, v) => attr k v
  | None => {| attr_key := s; attr_value := None |}
  end.

(** The attributes before the first media line, and those of each media section. *)
Fixpoint read_sections (lines : list bytes) : list Attribute * list (list Attribute) :=
  match lines with
  | [] => ([], [])
  | l :: lines =>
      let '(a, ms) := read_sections lines in
      if is_media l then ([], a :: ms)
      else match strip_prefix (str "a=") l with
           | Some s => (read_attribute s :: a, ms)
           | None => (a, ms)
           end
  end.

Definition text_unmarshal (s : bytes) : option SessionDescription :=
  let '(a, ms) := read_sections (split_on is_eol s) in
  Some {| version := 0; origin := origin (session_frame 0 []); session_name := str "-"; time_descriptions := 1;
          session_attributes := a;
          media_descriptions := (fun l => push_attributes l empty_media) <$> ms |}.

Definition text_sdp : Sdp := {|
  ATTR_KEY_CONNECTION_SETUP := str "setup";
  ATTR_KEY_END_OF_CANDIDATES := str "end-of-candidates";
  ATTR_KEY_EXTMAP_ALLOW_MIXED := str "extmap-allow-mixed";
  ATTR_KEY_GROUP := str "group";
  ATTR_KEY_IDENTITY := str "identity";
  ATTR_KEY_MAX_MESSAGE_SIZE := str "max-message-size";
  ATTR_KEY_MID := str "mid";
  ATTR_KEY_MSID_SEMANTIC := str "msid-semantic";
  role_to_string := @role_to_string toy_sdp;
  with_value_attribute := @with_value_attribute toy_sdp;
  with_ice_credentials := @with_ice_credentials toy_sdp;
  with_fingerprint := @with_fingerprint toy_sdp;
  with_candidate := @with_candidate toy_sdp;
  with_media := @with_media toy_sdp;
  media_attribute := @media_attribute toy_sdp;
  session_attribute := @session_attribute toy_sdp;
  marshal := text_marshal;
  unmarshal := text_unmarshal;
|}.

#[local] Existing Instance text_sdp | 0.

(** ** The laws *)

#[local] Instance text_sdp_text : SdpText text_sdp.
Proof.
  refine {| attr_line := attribute_line |}.
  - intros k. unfold attribute_line. cbn. by rewrite app_nil_r.
  - done.
  - intros k. right. done.
  - intros id attributes media_attrs _ _ _. cbn [marshal text_sdp]. unfold text_marshal.
    cbn [with_media text_sdp toy_sdp version origin session_name time_descriptions session_attributes media_descriptions
      session_frame app fmap list_fmap concat]. rewrite app_nil_r. reflexivity.
Defined.

Lemma read_attribute_line a : attr_text a ->
  strip_prefix (str "a=") (attribute_line a) = Some (attr_key a ++ match attr_value a with Some v => str ":" ++ v | None => [] end) /\
  read_attribute (attr_key a ++ match attr_value a with Some v => str ":" ++ v | None => [] end) = a.
Proof.
  intros (_ & _ & Hc & _). split; [apply strip_prefix_app|]. unfold read_attribute. destruct a as [k [v|]]; cbn [attr_key attr_value].
  - change (str ":" ++ v) with (x3a :: v). by rewrite split_once_app.
  - rewrite app_nil_r. destruct (split_once _ k) as [[w r]|] eqn:E; [|done].
    apply split_once_Some in E as (c & Hx & _ & ->). cbn [attr_key] in Hc. apply sep_free_app in Hc as [_ [Hc _]%list.Forall_cons].
    congruence.
Qed.

Lemma read_sections_attributes l rest : Forall attr_text l ->
  read_sections ((attribute_line <$> l) ++ rest) = (l ++ (read_sections rest).1, (read_sections rest).2).
Proof.
  induction 1 as [|a l Ha _ IH]; [cbn; by destruct (read_sections rest)|].
  rewrite fmap_cons. cbn [app read_sections]. rewrite IH. change (is_media (attribute_line a)) with false. cbn iota.
  destruct (read_attribute_line a Ha) as [-> Hr]. by rewrite Hr.
Qed.

Lemma read_sections_pieces ls :
  read_sections (concat ((fun l => [l; []]) <$> ls) ++ [[]]) = read_sections ls.
Proof.
  induction ls as [|l ls IH]; [done|]. rewrite fmap_cons. cbn [concat app read_sections]. rewrite IH.
  change (is_media []) with false. cbn iota. change (strip_prefix (str "a=") []) with (@None bytes).
  by destruct (read_sections ls).
Qed.

Lemma read_sections_other l rest : is_media l = false -> strip_prefix (str "a=") l = None ->
  read_sections (l :: rest) = read_sections rest.
Proof. intros Hm Ha. cbn [read_sections]. rewrite Hm, Ha. by destruct (read_sections rest). Qed.

Lemma read_sections_frame id attributes media_attrs : Forall attr_text attributes -> Forall attr_text media_attrs ->
  read_sections (front_lines id ++ (attribute_line <$> attributes)
    ++ media_line :: str "c=IN IP4 0.0.0.0" :: (attribute_line <$> media_attrs)) = (attributes, [media_attrs]).
Proof.
  intros Ha Hm. unfold front_lines. cbn [app]. rewrite !read_sections_other by done.
  rewrite read_sections_attributes by done. cbn [read_sections].
  change (is_media media_line) with true. cbn iota.
  change (is_media (str "c=IN IP4 0.0.0.0")) with false. cbn iota.
  change (strip_prefix (str "a=") (str "c=IN IP4 0.0.0.0")) with (@None bytes). cbn iota.
  pose proof (read_sections_attributes media_attrs [] Hm) as Hr. rewrite app_nil_r in Hr. rewrite Hr.
  cbn [read_sections fst snd]. by rewrite !app_nil_r.
Qed.

#[local] Instance text_sdp_laws : SdpLaws text_sdp.
Proof.
  constructor; try reflexivity. intros id attributes media_attrs Hid Ha Hm. cbv zeta. eexists. split.
  - rewrite (marshal_text (sdp := text_sdp)) by done. cbn [unmarshal text_sdp]. unfold text_unmarshal.
    rewrite split_on_terminate by by apply (frame_lines_no_eol (sdp := text_sdp)).
    rewrite read_sections_pieces.
    pose proof (read_sections_frame id attributes media_attrs Ha Hm) as Hr.
    unfold front_lines, media_line in Hr. cbn [app attr_line text_sdp_text] in Hr |- *. rewrite Hr. reflexivity.
  - done.
Qed.

#[local] Existing Instances toy_crypto toy_crypto_laws toy_base64 toy_base64_laws toy_serde toy_serde_laws
  toy_p384 toy_p384_laws toy_rsa.

#[local] Instance toy_identity_text : IdentityText toy_base64 toy_serde.
Proof. split; [done|]. cbn. reflexivity. Qed.

#[local] Instance toy_credential_laws : CredentialLaws toy_ice.
Proof. split; [by intros now config provider a [= <-]|done]. Qed.

(** ** Witnesses *)

Lemma sample_signer : signer sample_identity DEFAULT_TOKEN_LIFETIME.
Proof. by split. Qed.

Lemma sample_in_range : in_range 0 DEFAULT_TOKEN_LIFETIME.
Proof. unfold in_range, i64_max. rewrite sample_seconds. lia. Qed.

Lemma sample_word : word (str "abcd") /\ no_eol (str "secret").
Proof. split; [split; [done|split]; by apply sep_free_bool|by apply sep_free_bool]. Qed.

Definition joining : Session * Description :=
  match session_with_advertised sample_addr [] true (str "abcd") (str "secret") (str "r") 5 with
  | Ok x => x
  | _ => (sample_session, sample_remote)
  end.

Lemma joining_new :
  session_with_advertised sample_addr [] true (str "abcd") (str "secret") (str "r") 5 = Ok (joining.1, joining.2).
Proof. vm_compute. reflexivity. Qed.

Lemma sample_unexpired : ~ expired 0 DEFAULT_TOKEN_LIFETIME (secs 86460).
Proof. unfold expired. rewrite sample_seconds. unfold secs. lia. Qed.

Lemma signed_offer_admitted_witness :
  exists text a claims,
    policy_admit (signal_offer 42 text (str "peer")) None (secs 86460) trusting = (Ok a, trusting) /\
    endpoint_of <$> remote_candidates a = endpoint_of <$> local_candidates joining.1 /\
    player a = Some (player_info_new claims (str "peer") None) /\ issuer claims = Some (str "example.com").
Proof.
  destruct (signed_offer_admitted sample_addr [] (str "abcd") (str "secret") (str "r") 5 joining.1 joining.2
    sample_identity DEFAULT_TOKEN_LIFETIME 42 (str "host") Full 12 0 joining_new (proj1 sample_word) (proj2 sample_word)
    sample_signer sample_in_range) as (offer & rest & text & value & _ & _ & H).
  destruct (H trusting (str "peer") None (secs 86460) eq_refl sample_unexpired)
    as (a & claims & H1 & _ & H3 & H4 & _ & H6).
  exists text, a, claims. split; [exact H1|]. split; [exact H3|]. split; [exact H4|exact H6].
Defined.

Definition signing_admitted : Admitted_ := {|
  a_policy := with_identity sample_identity (policy_new Full);
  a_offer := sample_offer;
  signaled_from := None;
  remote_description := sample_remote;
  remote_candidates := [];
  player := None;
  a_wall := 0;
|}.

Lemma signing_answers : exists answered,
  answer_advertising signing_admitted sample_addr [] (str "abcd") (str "secret") (str "r") 12 5 = Ok answered.
Proof.
  destruct (session_description _ _ _ _ _ _ _ _ _ answering_new (proj1 sample_word) (proj2 sample_word))
    as (Hd & Hi & H1 & H2).
  destruct (signed_text sample_identity DEFAULT_TOKEN_LIFETIME Full answering.2 (local_candidates answering_described)
    12 0 sample_signer sample_in_range Hd Hi H1 H2) as (text & value & Ha & _).
  unfold answer_advertising. rewrite answering_new. cbn [map_err]. rewrite res_bind_Ok. unfold accept.
  cbn [signing_admitted a_policy policy_deadline with_identity policy_new a_offer remote_description remote_candidates
       policy_ice_mode policy_identity a_wall].
  change (expect_offer sample_offer) with (@Ok ProtocolError unit tt). rewrite res_bind_Ok.
  rewrite answering_handled. cbn [map_err]. rewrite res_bind_Ok. unfold describe.
  change (encode_full ?d ?c 12) with (describe_text Full d c 12). cbn [sign_answer].
  change (signal_data (signal_answer _ ?t _)) with t. rewrite Ha. cbn [map_err]. rewrite !res_bind_Ok.
  eexists. reflexivity.
Qed.

Lemma signed_answer_accepted_witness :
  exists reply claims,
    verify_answer (signal_data reply) (secs 86460) (Some AnyToken) = (Ok (Some claims), Some AnyToken) /\
    connection_id reply = 42 /\ issuer claims = Some (str "example.com").
Proof.
  destruct signing_answers as [answered Ha].
  destruct (signed_answer_accepted signing_admitted sample_addr [] (str "abcd") (str "secret") (str "r") 12 5 answered
    sample_identity DEFAULT_TOKEN_LIFETIME Ha eq_refl (proj1 sample_word) (proj2 sample_word) sample_signer
    sample_in_range) as (s & d & reply & rest & value & cs & _ & _ & _ & Hid & _ & _ & Hv & _).
  destruct (Hv (secs 86460) sample_unexpired) as (claims & H1 & _ & H3).
  exists reply, claims. split; [exact H1|]. split; [exact Hid|exact H3].
Defined.
