(* ===== verification/Sockets.v ===== *)
(** * Sockets: the UDP sockets of discovery and of the server's sessions
    ([bevy-nethernet/src/socket.rs] and the binding of [nethernet-tokio/src/signaling/lan.rs])

    What the operating system answers to each call is an argument; a socket is what
    the calls have made of it.  Receiving reads from a queue of what the socket
    gives, through the caller's buffer. *)
From S2P Require Import Prelude Text Errors Codec SignalMsg Endpoint Router SharedSocket TokioBase LanTask.

Inductive ErrorKind := WouldBlock | OtherKind.

Record UdpSocket := {
  sock_addr : SocketAddr;
  sock_only_v6 : bool;
  sock_nonblocking : bool;
  sock_broadcast : bool;
}.

(** [UdpSocket::local_addr], [SocketAddr::is_ipv6]. *)
Definition is_ipv6 (a : SocketAddr) : bool := negb (is_ipv4 (ip a)).

(** The calls: each gives what it does or why it fails. *)
Class Os := {
  udp_bind : SocketAddr -> Res ErrorKind UdpSocket;
  udp_connect : UdpSocket -> SocketAddr -> Res ErrorKind UdpSocket;
  udp_local_addr : UdpSocket -> Res ErrorKind SocketAddr;
  set_nonblocking : UdpSocket -> Res ErrorKind UdpSocket;
  set_broadcast : UdpSocket -> Res ErrorKind UdpSocket;
  (** [Socket::new(Domain::IPV6, Type::DGRAM, Some(Protocol::UDP))], unbound. *)
  socket_new_v6 : Res ErrorKind UdpSocket;
  set_only_v6 : bool -> UdpSocket -> Res ErrorKind UdpSocket;
  socket_bind : UdpSocket -> SocketAddr -> Res ErrorKind UdpSocket;
  udp_send_to : UdpSocket -> bytes -> SocketAddr -> Res ErrorKind Z;
  get_if_addrs : Res ErrorKind (list (IpAddr * bool));
  tokio_from_std : UdpSocket -> Res ErrorKind UdpSocket;
}.

Definition UNSPECIFIED4 : IpAddr := Endpoint.V4 0 0 0 0.
Definition UNSPECIFIED6 : IpAddr := Endpoint.V6 0 0 0 0 0 0 0 0.
Definition is_unspecified_v4 (i : IpAddr) : bool := bool_decide (i = UNSPECIFIED4).

(** One attempt to receive. *)
Inductive Receipt :=
| Arrived (data : bytes) (from : SocketAddr)
| RecvFails (kind : ErrorKind).

Section sockets.
Context `{Os}.

Definition probe : Res ErrorKind IpAddr :=
  socket ← udp_bind (socket_addr_new UNSPECIFIED4 0);
  socket ← udp_connect socket (socket_addr_new (Endpoint.V4 8 8 8 8) 80);
  addr ← udp_local_addr socket;
  Ok (ip addr).

Definition local_bind_addr : SocketAddr :=
  socket_addr_new (match probe with Ok i => i | _ => LOCALHOST end) 0.

Record ServerMedia := {
  media_socket : UdpSocket;
  media_local_addr : SocketAddr;
  media_advertised : list IpAddr;
}.

Fixpoint push_interfaces (found : list IpAddr) (interfaces : list (IpAddr * bool)) : list IpAddr :=
  match interfaces with
  | [] => found
  | (i, is_loopback) :: interfaces =>
      push_interfaces
        (if is_ipv4 i && negb is_loopback && advertisable i false && negb (bool_decide (i ∈ found))
         then found ++ [i] else found) interfaces
  end.

Definition advertisable_addresses (primary : IpAddr) : list IpAddr :=
  push_interfaces [primary] (match get_if_addrs with Ok l => l | _ => [] end).

Definition bind_media : Res ErrorKind ServerMedia :=
  let primary := ip local_bind_addr in
  socket ← udp_bind (socket_addr_new UNSPECIFIED4 0);
  addr ← udp_local_addr socket;
  Ok {| media_socket := socket; media_local_addr := socket_addr_new primary (port addr);
        media_advertised := advertisable_addresses primary |}.

Definition bind_dual_stack (addr : SocketAddr) : Res ErrorKind UdpSocket :=
  match socket_new_v6 with
  | Ok socket =>
      socket ← set_only_v6 false socket;
      socket_bind socket (socket_addr_new UNSPECIFIED6 (port addr))
  | _ => udp_bind addr
  end.

Definition bind_discovery_socket (addr : SocketAddr) : Res ErrorKind UdpSocket :=
  socket ← (if is_unspecified_v4 (ip addr) then bind_dual_stack addr else udp_bind addr);
  socket ← set_nonblocking socket;
  set_broadcast socket.

Definition send_discovery (socket : UdpSocket) (buf : bytes) (addr : SocketAddr) : Res ErrorKind Z :=
  addr ← match ip addr with
         | Endpoint.V4 a b c d =>
             local ← udp_local_addr socket;
             Ok (if is_ipv6 local then socket_addr_new (to_ipv6_mapped a b c d) (port addr) else addr)
         | _ => Ok addr
         end;
  udp_send_to socket buf addr.

(** [recv_from]: the datagram fills the front of the buffer, as far as there is
    room; an empty queue would block. *)
Definition recv_from (buf : bytes) (queue : list Receipt)
    : Res ErrorKind (nat * SocketAddr) * bytes * list Receipt :=
  match queue with
  | [] => (Err WouldBlock, buf, [])
  | RecvFails kind :: queue => (Err kind, buf, queue)
  | Arrived data from :: queue =>
      let len := Nat.min (length data) (length buf) in
      (Ok (len, from), take len data ++ drop len buf, queue)
  end.

Fixpoint recv_discovery (limit : nat) (buf : bytes) (queue : list Receipt)
    : list (bytes * SocketAddr) * bytes * list Receipt :=
  match limit with
  | O => ([], buf, queue)
  | S limit =>
      match recv_from buf queue with
      | (Ok (len, addr), buf, queue) =>
          let '(received, buf', queue) := recv_discovery limit buf queue in
          ((take len buf, addr) :: received, buf', queue)
      | (Err WouldBlock, buf, queue) => ([], buf, queue)
      | (_, buf, queue) => recv_discovery limit buf queue
      end
  end.

(** ** [nethernet-tokio/src/signaling/lan.rs] *)

Definition tokio_bind_dual_stack (addr : SocketAddr) : Res ErrorKind UdpSocket :=
  match socket_new_v6 with
  | Ok socket =>
      socket ← set_only_v6 false socket;
      socket_bind socket (socket_addr_new UNSPECIFIED6 (port addr))
  | _ => udp_bind addr
  end.

Definition tokio_bind_discovery_socket (addr : SocketAddr) : Res ErrorKind UdpSocket :=
  socket ← (if is_unspecified_v4 (ip addr) then tokio_bind_dual_stack addr else udp_bind addr);
  socket ← set_nonblocking socket;
  socket ← set_broadcast socket;
  tokio_from_std socket.

End sockets.

(** ** Documented behaviour of the calls *)

(** The address a bind gives: the one asked for, with a port of the system's choice
    when none is named. *)
Definition bound_to (addr bound : SocketAddr) : Prop :=
  ip bound = ip addr /\ (port addr <> 0 -> port bound = port addr).

Class OsLaws (os : Os) := {
  udp_bind_spec addr s : udp_bind addr = Ok s -> bound_to addr (sock_addr s);
  udp_local_addr_spec s a : udp_local_addr s = Ok a -> a = sock_addr s;
  set_nonblocking_spec s s' : set_nonblocking s = Ok s' ->
    s' = {| sock_addr := sock_addr s; sock_only_v6 := sock_only_v6 s; sock_nonblocking := true;
            sock_broadcast := sock_broadcast s |};
  set_broadcast_spec s s' : set_broadcast s = Ok s' ->
    s' = {| sock_addr := sock_addr s; sock_only_v6 := sock_only_v6 s; sock_nonblocking := sock_nonblocking s;
            sock_broadcast := true |};
  set_only_v6_spec b s s' : set_only_v6 b s = Ok s' -> sock_only_v6 s' = b;
  socket_bind_spec s addr s' : socket_bind s addr = Ok s' ->
    bound_to addr (sock_addr s') /\ sock_only_v6 s' = sock_only_v6 s;
  tokio_from_std_spec s s' : tokio_from_std s = Ok s' -> s' = s;
}.

Section laws.
Context {os : Os} {laws : OsLaws os}.

(** ** Binding *)

Lemma bind_dual_stack_spec addr s : ip addr = UNSPECIFIED4 -> bind_dual_stack addr = Ok s ->
  (ip (sock_addr s) = UNSPECIFIED6 /\ sock_only_v6 s = false \/ ip (sock_addr s) = UNSPECIFIED4) /\
  (port addr <> 0 -> port (sock_addr s) = port addr).
Proof.
  intros Hi. unfold bind_dual_stack. destruct socket_new_v6 as [s0| |].
  - intros (s1 & H1%set_only_v6_spec & ([Hip Hport] & Ho)%socket_bind_spec)%res_bind_inv.
    split; [left; split; [done|congruence]|done].
  - intros [Hip Hport]%udp_bind_spec. rewrite <- Hi. auto.
  - intros [Hip Hport]%udp_bind_spec. rewrite <- Hi. auto.
Qed.

(** What a bound discovery socket is. *)
Definition discovery_socket (addr : SocketAddr) (s : UdpSocket) : Prop :=
  sock_nonblocking s = true /\ sock_broadcast s = true /\
  (port addr <> 0 -> port (sock_addr s) = port addr) /\
  (ip (sock_addr s) = ip addr \/
   ip addr = UNSPECIFIED4 /\ ip (sock_addr s) = UNSPECIFIED6 /\ sock_only_v6 s = false).

Lemma bind_discovery_socket_spec addr s : bind_discovery_socket addr = Ok s -> discovery_socket addr s.
Proof.
  unfold bind_discovery_socket.
  intros (s0 & H0 & (s1 & ->%set_nonblocking_spec & ->%set_broadcast_spec)%res_bind_inv)%res_bind_inv.
  unfold discovery_socket. cbn [sock_nonblocking sock_broadcast sock_addr sock_only_v6].
  split; [done|]. split; [done|]. revert H0. unfold is_unspecified_v4. case_bool_decide as Hi.
  - intros [[[H1 H2]|H1] Hp]%bind_dual_stack_spec; [| |done]; (split; [done|]).
    + right. by split_and!.
    + left. congruence.
  - intros [Hip Hp]%udp_bind_spec. auto.
Qed.

(** Both crates bind alike; the runtime takes the socket over. *)
Lemma tokio_bind_discovery_socket_eq addr :
  tokio_bind_discovery_socket addr = (s ← bind_discovery_socket addr; tokio_from_std s).
Proof.
  unfold tokio_bind_discovery_socket, bind_discovery_socket. unfold tokio_bind_dual_stack, bind_dual_stack.
  cbv [mbind res_bind]. repeat case_match; congruence.
Qed.

Lemma push_interfaces_fold l : forall found, push_interfaces found l =
  fold_left (fun found '(i, loopback) =>
    if is_ipv4 i && negb loopback && advertisable i false && negb (bool_decide (i ∈ found))
    then found ++ [i] else found) l found.
Proof. induction l as [|[i lb] l IH]; intros found; cbn; [done|]. apply IH. Qed.

(** The addresses of both crates agree on the same interfaces. *)
Lemma advertisable_addresses_eq primary :
  advertisable_addresses primary
  = TokioBase.advertisable_addresses primary (match get_if_addrs with Ok l => l | _ => [] end).
Proof. apply push_interfaces_fold. Qed.

(** A server's media socket listens on every interface at the port it announces;
    the announced address, that of the default route, leads the advertised ones,
    none of which repeats and the others of which are IPv4 addresses of interfaces
    that a peer may reach. *)
Theorem bind_media_announces m : bind_media = Ok m ->
  ip (sock_addr (media_socket m)) = UNSPECIFIED4 /\
  port (media_local_addr m) = port (sock_addr (media_socket m)) /\
  head (media_advertised m) = Some (ip (media_local_addr m)) /\ NoDup (media_advertised m) /\
  forall i, i ∈ media_advertised m -> i = ip (media_local_addr m) \/ is_ipv4 i = true /\ advertisable i false = true.
Proof.
  unfold bind_media. intros (s & [Hip _]%udp_bind_spec & (a & ->%udp_local_addr_spec & <-%Ok_inj)%res_bind_inv)%res_bind_inv.
  cbn [media_socket media_local_addr media_advertised ip port socket_addr_new]. split; [done|]. split; [done|].
  rewrite advertisable_addresses_eq.
  destruct (advertisable_addresses_spec (match probe with Ok i => i | _ => LOCALHOST end)
    (match get_if_addrs with Ok l => l | _ => [] end)) as (H1 & H2 & H3).
  split; [done|]. split; [done|]. intros i [->|(lb & _ & H4 & _ & H5)]%H3; auto.
Qed.

(** ** Sending *)

(** The destination is put into the family of the socket as the LAN task does. *)
Lemma send_discovery_family s buf addr : udp_local_addr s = Ok (sock_addr s) ->
  send_discovery s buf addr = udp_send_to s buf (socket_family addr (is_ipv6 (sock_addr s))).
Proof.
  intros Hl. unfold send_discovery, socket_family. destruct (ip addr) as [a b c d|]; [|done].
  rewrite Hl, !res_bind_Ok. done.
Qed.

(** A reply leaves for where its request came from.  On a socket that
    [bind_discovery_socket] gave, the server sees the canonical form of a source
    address of the socket's family (an IPv4 source behind a dual-stack socket is
    shown as IPv4) and [send_discovery] to that form is a send to the source
    itself; the socket is non-blocking, may broadcast and has the port asked for,
    and it takes IPv4 as well as IPv6 when it is bound to the IPv6 wildcard. *)
Theorem discovery_reply_reaches_source addr s buf from :
  bind_discovery_socket addr = Ok s -> udp_local_addr s = Ok (sock_addr s) ->
  ip_ok (ip from) -> is_ipv6 from = is_ipv6 (sock_addr s) ->
  discovery_socket addr s /\ send_discovery s buf (canonical from) = udp_send_to s buf from.
Proof.
  intros Hb%bind_discovery_socket_spec Hl Hok Hf. split; [done|]. rewrite send_discovery_family by done.
  f_equal. rewrite <- Hf. unfold is_ipv6. destruct (reply_reaches_source from Hok) as [H6 H4].
  destruct (is_ipv4 (ip from)); cbn [negb]; auto.
Qed.

(** ** Receiving *)

(** What there is to receive before the socket would block. *)
Fixpoint before_block (queue : list Receipt) : list Receipt :=
  match queue with
  | RecvFails WouldBlock :: _ | [] => []
  | r :: queue => r :: before_block queue
  end.

(** A datagram as a buffer of [room] bytes shows it. *)
Definition shown (room : nat) (r : Receipt) : option (bytes * SocketAddr) :=
  match r with Arrived data from => Some (take room data, from) | RecvFails _ => None end.

Lemma take_front len (data buf : bytes) : (len <= length data)%nat ->
  take len (take len data ++ drop len buf) = take len data.
Proof. intros Hl. rewrite take_app_length' by (rewrite length_take; lia). done. Qed.

Lemma omap_length_le {A B} (f : A -> option B) l : (length (omap f l) <= length l)%nat.
Proof. induction l as [|x l IH]; cbn; [done|]. destruct (f x); cbn; lia. Qed.

Lemma recv_discovery_reads limit : forall buf queue,
  (recv_discovery limit buf queue).1.1 = omap (shown (length buf)) (take limit (before_block queue)).
Proof.
  induction limit as [|limit IH]; intros buf queue; [done|]. cbn [recv_discovery].
  destruct queue as [|[data from|[|]] queue]; cbn [recv_from before_block take omap list_omap shown]; [done| |done|].
  - set (len := Nat.min (length data) (length buf)).
    assert (length (take len data ++ drop len buf) = length buf) as Hb.
    { rewrite length_app, length_take, length_drop. lia. }
    pose proof (IH (take len data ++ drop len buf) queue) as Hr. rewrite Hb in Hr.
    destruct (recv_discovery _ _ _) as [[received buf'] rest]. cbn [fst] in Hr |- *.
    rewrite take_front by lia. f_equal; [|exact Hr]. f_equal. unfold len.
    destruct (Nat.le_ge_cases (length data) (length buf)).
    + rewrite Nat.min_l by done. by rewrite !take_ge by lia.
    + by rewrite Nat.min_r.
  - apply IH.
Qed.

(** Receiving a frame's datagrams is exact.  [recv_discovery] gives, in the
    order of arrival, the datagrams among the first [limit] results before the
    socket would block, each cut only by the room of the buffer and never mixed
    with what an earlier datagram left in it; failed receives are skipped without
    ending the frame, and a frame never has more than [limit] datagrams. *)
Theorem recv_discovery_exact limit buf queue :
  let received := (recv_discovery limit buf queue).1.1 in
  received = omap (shown (length buf)) (take limit (before_block queue)) /\ (length received <= limit)%nat.
Proof.
  cbv zeta. rewrite recv_discovery_reads. split; [done|].
  etrans; [apply omap_length_le|]. rewrite length_take. lia.
Qed.
End laws.

(** ** A host where every call succeeds

    IPv6 is available, and a port is assigned when none is asked for. *)
Definition plain_socket (addr : SocketAddr) : UdpSocket :=
  {| sock_addr := socket_addr_new (ip addr) (if port addr =? 0 then 40000 else port addr);
     sock_only_v6 := true; sock_nonblocking := false; sock_broadcast := false |}.

#[local] Instance plain_os : Os := {|
  udp_bind addr := Ok (plain_socket addr);
  udp_connect s _ := Ok {| sock_addr := socket_addr_new (Endpoint.V4 192 168 1 10) (port (sock_addr s));
    sock_only_v6 := sock_only_v6 s; sock_nonblocking := sock_nonblocking s; sock_broadcast := sock_broadcast s |};
  udp_local_addr s := Ok (sock_addr s);
  set_nonblocking s := Ok {| sock_addr := sock_addr s; sock_only_v6 := sock_only_v6 s; sock_nonblocking := true;
    sock_broadcast := sock_broadcast s |};
  set_broadcast s := Ok {| sock_addr := sock_addr s; sock_only_v6 := sock_only_v6 s;
    sock_nonblocking := sock_nonblocking s; sock_broadcast := true |};
  socket_new_v6 := Ok (plain_socket (socket_addr_new UNSPECIFIED6 0));
  set_only_v6 b s := Ok {| sock_addr := sock_addr s; sock_only_v6 := b; sock_nonblocking := sock_nonblocking s;
    sock_broadcast := sock_broadcast s |};
  socket_bind s addr := Ok {| sock_addr := sock_addr (plain_socket addr); sock_only_v6 := sock_only_v6 s;
    sock_nonblocking := sock_nonblocking s; sock_broadcast := sock_broadcast s |};
  udp_send_to _ buf _ := Ok (blen buf);
  get_if_addrs := Ok [(Endpoint.V4 127 0 0 1, true); (Endpoint.V4 192 168 1 10, false); (Endpoint.V4 10 0 0 2, false)];
  tokio_from_std := Ok;
|}.

Lemma plain_bound addr : bound_to addr (sock_addr (plain_socket addr)).
Proof. split; [done|]. intros Hp. cbn. by rewrite (proj2 (Z.eqb_neq _ _) Hp). Qed.

#[local] Instance plain_os_laws : OsLaws plain_os.
Proof.
  split.
  - intros addr s <-%Ok_inj. apply plain_bound.
  - by intros s a <-%Ok_inj.
  - by intros s s' <-%Ok_inj.
  - by intros s s' <-%Ok_inj.
  - by intros b s s' <-%Ok_inj.
  - intros s addr s' <-%Ok_inj. split; [apply plain_bound|done].
  - by intros s s' <-%Ok_inj.
Qed.

(** The wildcard discovery port, and an IPv4 client as the dual-stack socket shows it. *)
Definition wildcard : SocketAddr := socket_addr_new UNSPECIFIED4 7551.
Definition mapped_client : SocketAddr := socket_addr_new (to_ipv6_mapped 192 168 1 20) 50000.
Definition wildcard_socket : UdpSocket :=
  {| sock_addr := socket_addr_new UNSPECIFIED6 7551; sock_only_v6 := false; sock_nonblocking := true;
     sock_broadcast := true |}.

Lemma discovery_reply_reaches_source_witness :
  canonical mapped_client = socket_addr_new (Endpoint.V4 192 168 1 20) 50000 /\
  send_discovery wildcard_socket (str "reply") (canonical mapped_client)
  = udp_send_to wildcard_socket (str "reply") mapped_client.
Proof.
  split; [reflexivity|].
  apply (discovery_reply_reaches_source wildcard wildcard_socket (str "reply") mapped_client);
    [reflexivity|reflexivity| |reflexivity].
  vm_compute. repeat split; congruence.
Defined.

(** A failed receive does not end the frame, and the short datagram after the long
    one shows nothing of it. *)
Example recv_discovery_example :
  (recv_discovery 3 (replicate 4 x00)
     [Arrived (str "longer") wildcard; RecvFails OtherKind; Arrived (str "ab") wildcard; Arrived (str "cd") wildcard]).1.1
  = [(str "long", wildcard); (str "ab", wildcard)].
Proof. reflexivity. Qed.

(** The announced address leads and is not repeated. *)
Example bind_media_example :
  media_advertised <$> bind_media = Ok [Endpoint.V4 192 168 1 10; Endpoint.V4 10 0 0 2].
Proof. reflexivity. Qed.
