(* ===== verification/LanDiscovery.v ===== *)
(** * LanDiscovery: a client finds a server on the network ([signaling/lan/mod.rs])

    The request that one signaler broadcasts, the response of another and what the
    first learns from it. *)
From S2P Require Import Prelude Text Errors Codec SignalMsg ServerDataModel Discovery Endpoint Sans LanSignaler.

(** ** Request, response, discovery *)

Section discovery.
Context {ops : CryptoOps} {laws : CryptoLaws ops}.

Lemma encode_response_Ok data sender : 22 + 2 * blen data <= u16_max ->
  exists buf, encode (Response (response_new data)) sender = Ok buf.
Proof.
  intros Hl. unfold encode. cbn [serialize Header_codec]. rewrite header_serialize_Ok, res_bind_Ok.
  cbn [packets_serialize serialize ResponsePacket_codec packet_id sender_id]. rewrite response_serialize_Ok, res_bind_Ok.
  cbv zeta. match goal with |- context [if ?c then _ else _] => destruct c eqn:E end; [|by eexists].
  exfalso. to_props. rewrite !blen_app, blen_hex_encode in E. unfold write_u16, write_u32, write_u64 in E.
  rewrite !blen_le_bytes in E. change (blen (replicate 2 x00)) with 2 in E.
  change (blen (replicate 8 x00)) with 8 in E. cbn [application_data response_new] in E. unfold u16_max in *. lia.
Qed.

(** The record of a server fits a datagram. *)
Definition announces (s : LanSignaler) (data : ServerData) : Prop :=
  server_data s = Some data /\ server_data_wf data /\
  exists bs, server_data_serialize data = Ok bs /\ 22 + 2 * blen bs <= u16_max.

(** A server answers a request where it came from. *)
Lemma request_answered id srv data from now req :
  encode (Request request_packet) id = Ok req -> is_u64 id -> is_u64 (own_id srv) -> id <> own_id srv ->
  announces srv data -> pinned_elsewhere srv id from now = false ->
  exists srv' bs resp,
    lan_handle (IDatagram req from now) srv = (Ok tt, srv') /\ output srv' = output srv ++ [Datagram resp from] /\
    address srv' id = Some from /\ server_data_decode bs = Ok data /\
    decode resp = Ok (Response (response_new bs), own_id srv).
Proof.
  intros Hreq Hid Hsrv Hne (Hdata & Hwf & bs & Hbs & Hfit) Hpin.
  assert (decode req = Ok (Request request_packet, id)) as Hdec by by apply decode_encode.
  destruct (encode_response_Ok bs (own_id srv) Hfit) as [resp Hresp].
  cbn [lan_handle]. unfold handle_datagram. rewrite Hdec. replace (id =? own_id srv) with false by lia. rewrite Hpin.
  unfold answer_request. cbn [server_data set_addresses own_id]. rewrite Hdata, Hbs, res_bind_Ok, Hresp.
  eexists _, bs, resp. split; [reflexivity|]. split; [done|]. split.
  { unfold address. cbn. by rewrite lookup_insert_eq. }
  split; [|by apply decode_encode].
  unfold server_data_decode. rewrite <- (app_nil_r bs). by rewrite (server_data_deserialize_serialize data bs []).
Qed.

(** A response is a discovery. *)
Lemma response_discovers c id bs data from now resp :
  decode resp = Ok (Response (response_new bs), id) -> server_data_decode bs = Ok data ->
  id <> own_id c -> pinned_elsewhere c id from now = false ->
  Z.of_nat (size (discovered c)) < max_discovered (config c) ->
  exists c', lan_handle (IDatagram resp from now) c = (Ok tt, c') /\
    output c' = output c ++ [ServerDiscovered id data] /\
    discovered c' !! id = Some data /\ address c' id = Some from.
Proof.
  intros Hdec Hdata Hne Hpin Hroom. cbn [lan_handle]. unfold handle_datagram. rewrite Hdec.
  replace (id =? own_id c) with false by lia. rewrite Hpin. cbn [config discovered set_addresses].
  replace (max_discovered (config c) <=? _) with false by lia. cbn [andb application_data response_new].
  rewrite Hdata. eexists. split; [reflexivity|]. split; [done|]. split; [cbn; apply lookup_insert_eq|].
  unfold address. cbn. by rewrite lookup_insert_eq.
Qed.

(** An update of a client that has not broadcast yet asks for servers. *)
Lemma update_broadcasts c addr now :
  lan_inv c -> broadcast_address (config c) = Some addr -> last_broadcast c = None ->
  exists c' req pre post,
    lan_handle (Update now) c = (Ok tt, c') /\ encode (Request request_packet) (own_id c) = Ok req /\
    output c' = pre ++ Datagram req addr :: post /\ own_id c' = own_id c /\ config c' = config c /\
    (size (discovered c') <= size (discovered c))%nat /\
    (forall id, addresses c !! id = None -> addresses c' !! id = None).
Proof.
  intros Hinv Hb Hl. cbn [lan_handle]. unfold handle_update.
  destruct (retransmit_spec now c) as (s1 & outs & -> & (Eo & Ec & Ea & Ed & _ & Elb & _) & Ho & _); [apply Hinv|].
  unfold broadcast. rewrite Ec, Hb, Elb, Hl. cbn [negb]. rewrite Eo.
  destruct (encode_request_Ok (own_id c)) as [req Hreq]. rewrite Hreq.
  assert (forall s, (size (discovered (expire now s)) <= size (discovered s))%nat /\
    (forall id, addresses s !! id = None -> addresses (expire now s) !! id = None)) as Hexp.
  { intros s. split.
    - cbn. apply map_size_filter.
    - intros id Hn. cbn. apply map_lookup_filter_None. by left. }
  set (s2 := if negb _ then _ else _).
  assert ((exists post, output s2 = output s1 ++ Datagram req addr :: post) /\
    own_id s2 = own_id c /\ config s2 = config c /\ discovered s2 = discovered c /\ addresses s2 = addresses c)
    as ([post Eout] & Eo2 & Ec2 & Ed2 & Ea2).
  { unfold s2. case_bool_decide; cbn [negb]; cbn; rewrite <- ?app_assoc; cbn [app];
      (split; [by eexists|by rewrite ?Eo, ?Ec, ?Ed, ?Ea]). }
  destruct (Hexp (set_last_broadcast (Some now) s2)) as [Hsz Had].
  eexists _, req, (output s1), (post ++ [_]).
  split; [reflexivity|]. split; [done|]. split; [cbn; rewrite Eout; by rewrite <- app_assoc|].
  split; [exact Eo2|]. split; [exact Ec2|]. cbn in Hsz, Had |- *. rewrite Ed2, Ea2 in *. by split.
Qed.

Lemma unknown_not_pinned s id from now : addresses s !! id = None -> pinned_elsewhere s id from now = false.
Proof. intros H. unfold pinned_elsewhere. by rewrite H. Qed.

(** C8: A client on the network finds a server.  A client that has not broadcast
    yet sends its request to the broadcast address on its first update; a server
    with data that fits a datagram, which has not pinned the client to another
    address, answers to the address the request came from; and the client, which
    does not know the server yet and has room for it, reports the server's id with
    the very data the server announces, remembers it and knows the server's
    address. *)
Theorem server_discovered c srv data addr from back t0 t1 t2 :
  lan_inv c -> is_u64 (own_id c) -> is_u64 (own_id srv) -> own_id c <> own_id srv ->
  broadcast_address (config c) = Some addr -> last_broadcast c = None ->
  addresses c !! own_id srv = None -> Z.of_nat (size (discovered c)) < max_discovered (config c) ->
  announces srv data -> pinned_elsewhere srv (own_id c) from t1 = false ->
  exists c1 req srv' resp c2,
    lan_handle (Update t0) c = (Ok tt, c1) /\ Datagram req addr ∈ output c1 /\
    lan_handle (IDatagram req from t1) srv = (Ok tt, srv') /\ output srv' = output srv ++ [Datagram resp from] /\
    lan_handle (IDatagram resp back t2) c1 = (Ok tt, c2) /\
    output c2 = output c1 ++ [ServerDiscovered (own_id srv) data] /\
    discovered c2 !! own_id srv = Some data /\ address c2 (own_id srv) = Some back.
Proof.
  intros Hinv Hc Hs Hne Hb Hl Hnew Hroom Hann Hpin.
  destruct (update_broadcasts c addr t0 Hinv Hb Hl)
    as (c1 & req & pre & post & Hu & Hreq & Ho & Eo & Ec & Hsz & Had).
  destruct (request_answered (own_id c) srv data from t1 req Hreq Hc Hs Hne Hann Hpin)
    as (srv' & bs & resp & Hr & Hro & _ & Hbs & Hresp).
  destruct (response_discovers c1 (own_id srv) bs data back t2 resp Hresp Hbs) as (c2 & H1 & H2 & H3 & H4).
  - congruence.
  - by apply unknown_not_pinned, Had.
  - rewrite Ec. lia.
  - exists c1, req, srv', resp, c2. split; [exact Hu|]. split; [|by split_and!].
    rewrite Ho. apply elem_of_app. right. apply elem_of_cons. by left.
Qed.
End discovery.

(** ** A concrete client and server *)

Definition seeking : LanSignaler := lan_new 1 {|
  discovery_port := LAN_DISCOVERY_PORT; broadcast_address := Some sample_peer; broadcast_interval := secs 2;
  address_timeout := secs 15; signal_retry_interval := secs 1; offer_retry_interval := secs 1; signal_retries := 3;
  max_discovered := 256 |}.

Definition serving : LanSignaler := set_server_data (Some sample_server) (lan_new 2 LanSignalerConfig_default).

Lemma serving_announces : announces serving sample_server.
Proof.
  split; [done|]. split; [exact sample_server_wf|]. eexists. split; [vm_compute; reflexivity|]. vm_compute. discriminate.
Qed.

Lemma server_discovered_witness :
  exists c1 req srv' resp c2,
    lan_handle (ops := toy_crypto) (Update 0) seeking = (Ok tt, c1) /\
    lan_handle (ops := toy_crypto) (IDatagram req sample_rogue 1) serving = (Ok tt, srv') /\
    lan_handle (ops := toy_crypto) (IDatagram resp sample_peer 2) c1 = (Ok tt, c2) /\
    discovered c2 !! 2 = Some sample_server.
Proof.
  destruct (server_discovered (ops := toy_crypto) (laws := toy_crypto_laws) seeking serving sample_server sample_peer
    sample_rogue sample_peer 0 1 2) as (c1 & req & srv' & resp & c2 & H1 & _ & H3 & _ & H5 & _ & H7 & _).
  - apply lan_new_inv. vm_compute. discriminate.
  - vm_compute. split; congruence.
  - vm_compute. split; congruence.
  - discriminate.
  - reflexivity.
  - reflexivity.
  - reflexivity.
  - vm_compute. reflexivity.
  - exact serving_announces.
  - reflexivity.
  - exists c1, req, srv', resp, c2. split; [exact H1|]. split; [exact H3|]. split; [exact H5|exact H7].
Defined.
