(* ===== verification/LanHost.v ===== *)
(** * LanHost: the LAN server and client with their sockets
    ([bevy-nethernet/src/{server,client,http_server}.rs], where they bind and where
    a frame reads and writes the discovery socket)

    [LanServer.update] takes the datagrams of a frame and gives those it sends; here
    they are what [recv_discovery] reads and [send_discovery] writes. *)
From S2P Require Import Prelude Text Errors Codec SignalMsg ServerDataModel Discovery Endpoint Router Sans LanSignaler.
From S2P Require Import LanDiscovery Candidate Identity ServerIdentity Webrtc Framing Transports.
From S2P Require Import Session Connection Admission Pending Pool ServerSessions.
From S2P Require LanClient IpRange HttpWire HttpStream HttpSignaler HttpServer.
From S2P Require Import LanServer SharedSocket TokioBase LanTask Sockets.

Section host.
Context `{b64 : Base64} `{serde : Serde} `{p384 : P384} `{rsa : Rsa} `{stun : Stun}.
Context {crypto : CryptoOps} {sdp : Sdp} {cand : IceCandidate} {cert : CertificateOps}
  {iceops : IceOps} {dtlsops : DtlsOps} {sctpops : SctpOps} {dcepops : DcepOps}.
Context `{os : Os}.

(** ** Binding *)

Definition receive_buffer : bytes := replicate (Z.to_nat MAX_DATAGRAM_SIZE) x00.

Record LanHost := {
  host_server : NetherServer;
  host_socket : UdpSocket;
  host_media : UdpSocket;
  host_buf : bytes;
}.

Definition lan_server_bind (network_id : Z) (bind_addr : SocketAddr)
    (conf : LanSignalerConfig -> LanSignalerConfig) : Res ErrorKind LanHost :=
  let config := conf LanSignalerConfig_default in
  socket ← bind_discovery_socket bind_addr;
  media ← bind_media;
  Ok {| host_server := server_new network_id config (media_local_addr media) (media_advertised media);
        host_socket := socket; host_media := media_socket media; host_buf := receive_buffer |}.

Definition lan_client_bind (network_id : Z) (conf : LanSignalerConfig -> LanSignalerConfig)
    : Res ErrorKind (LanClient.NetherClient * UdpSocket * UdpSocket) :=
  let d := LanSignalerConfig_default in
  let config := conf {|
    discovery_port := discovery_port d;
    broadcast_address := Some (socket_addr_new BROADCAST LAN_DISCOVERY_PORT);
    broadcast_interval := broadcast_interval d; address_timeout := address_timeout d;
    signal_retry_interval := signal_retry_interval d; offer_retry_interval := offer_retry_interval d;
    signal_retries := signal_retries d; max_discovered := max_discovered d |} in
  socket ← udp_bind (socket_addr_new UNSPECIFIED4 0);
  socket ← set_nonblocking socket;
  socket ← set_broadcast socket;
  media ← bind_media;
  Ok (LanClient.client_new network_id config (media_local_addr media) (media_advertised media),
      socket, media_socket media).

(** ** A frame *)

Definition set_server (s : NetherServer) (buf : bytes) (h : LanHost) : LanHost :=
  {| host_server := s; host_socket := host_socket h; host_media := host_media h; host_buf := buf |}.

(** The frame, with the outcome of each send and what is left to receive.  The code
    sends while it handles the signaler's outputs and ignores the outcomes, so the
    sends are listed after it, in their order. *)
Definition lan_server_frame (queue : list Receipt) (now : Instant) (draws : nat -> Draw)
    (msgs : list (NetherSessionId * ConnectionEvent)) (order : list NetherSessionId) (h : LanHost)
    : Res unit (LanHost * list (Res ErrorKind Z) * list Receipt) :=
  let got := recv_discovery MAX_DATAGRAMS_PER_TICK (host_buf h) queue in
  '(s, sent) ← LanServer.update got.1.1 now draws msgs order (host_server h);
  Ok (set_server s got.1.2 h, map (fun d => send_discovery (host_socket h) d.1 d.2) sent, got.2).


(** ** A request is answered within the frame *)

Lemma answer_request_grows addr s : exists outs, LanSignaler.output (answer_request addr s).2 = LanSignaler.output s ++ outs.
Proof.
  unfold answer_request. destruct (server_data s); [|exists []; by rewrite app_nil_r].
  destruct (_ ≫= _); cbn [snd]; [by eexists|exists []; by rewrite app_nil_r..].
Qed.

Lemma datagram_grows buf addr now s :
  exists outs, LanSignaler.output (handle_datagram buf addr now s).2 = LanSignaler.output s ++ outs.
Proof.
  assert (exists outs, LanSignaler.output s = LanSignaler.output s ++ outs) as Hno by (exists []; by rewrite app_nil_r).
  unfold handle_datagram. destruct (decode buf) as [[packet sender]|e|]; [|done..].
  destruct (_ =? _); [done|]. destruct (pinned_elsewhere _ _ _ _); [done|].
  destruct packet as [req|resp|msg]; [exact (answer_request_grows addr (set_addresses _ s))| |];
    (case_match; [done|]); case_match; cbn; by eauto.
Qed.

Lemma update_grows now s : lan_inv s ->
  exists outs, LanSignaler.output (handle_update now s).2 = LanSignaler.output s ++ outs.
Proof.
  intros Hinv. unfold handle_update.
  destruct (retransmit_spec now s) as (s1 & outs & -> & _ & Ho & _); [apply Hinv|].
  destruct (broadcast_spec now s1) as (s2 & outs2 & -> & Ho2 & _). cbn. rewrite Ho2, Ho, <- !app_assoc. by eexists.
Qed.

(** What the signaler has to send is sent by the end of the frame. *)
Definition sends_or_holds (d : bytes * SocketAddr) (t : NetherServer * list (bytes * SocketAddr)) : Prop :=
  d ∈ t.2 \/ LanSignaler.Datagram d.1 d.2 ∈ LanSignaler.output (LanServer.signaler t.1).

Lemma drain_machine_empties {M I O E T} `{Sans M I O E} (machine : T -> M) put (queue : M -> list O) body rounds :
  forall i (t t' : T), drain_machine machine put queue body rounds i t = Ok t' -> queue (machine t') = [].
Proof.
  induction rounds as [|rounds IH]; intros i t t'; cbn [drain_machine];
    destruct (length (queue (machine t))) as [|n] eqn:El.
  - intros <-%Ok_inj. by destruct (queue (machine t)).
  - done.
  - intros <-%Ok_inj. by destruct (queue (machine t)).
  - intros (t1 & _ & H2)%res_bind_inv. by eapply IH.
Qed.

Lemma outputs_sent d now draws s s' sent' :
  LanSignaler.Datagram d.1 d.2 ∈ LanSignaler.output (LanServer.signaler s) ->
  LanServer.drain_outputs 2 0 now draws (s, []) = Ok (s', sent') -> d ∈ sent'.
Proof.
  intros Hin Hd. assert (LanSignaler.output (LanServer.signaler s') = []) as He by exact (drain_machine_empties _ _ _ _ _ _ _ _ Hd).
  apply (drain_machine_invariant _ _ _ _ (sends_or_holds d)) in Hd.
  - destruct Hd as [Hd|Hd]; [done|]. cbn in Hd. rewrite He in Hd. by apply elem_of_nil in Hd.
  - intros [x sent] m Hp. unfold sends_or_holds. cbn [fst snd].
    change (lan_poll (LanServer.signaler x) = (None, m)) in Hp. unfold lan_poll in Hp.
    destruct (LanSignaler.output (LanServer.signaler x)) eqn:E; [|done]. injection Hp as <-. cbn. by rewrite E.
  - intros i [x sent] o m [x' sent2] Hp Hb. unfold sends_or_holds. cbn [fst snd].
    change (lan_poll (LanServer.signaler x) = (Some o, m)) in Hp. unfold lan_poll in Hp.
    destruct (LanSignaler.output (LanServer.signaler x)) as [|o' rest] eqn:E; [done|]. injection Hp as <- <-.
    unfold LanServer.output_body in Hb. destruct o' as [buf a|sig|id data|w]; cbn in Hb.
    + injection Hb as <- <-. intros [Hs|[Hs|Hs]%elem_of_cons].
      * left. apply elem_of_app. by left.
      * left. apply elem_of_app. right. apply list_elem_of_singleton. destruct d. cbn in Hs. by injection Hs as -> ->.
      * by right.
    + apply res_bind_inv in Hb as (x2 & (outs & Ho & _)%handle_signal_adds & [= <- <-]).
      intros [Hs|[Hs|Hs]%elem_of_cons]; [by left|done|]. right. rewrite Ho. apply elem_of_app. by left.
    + injection Hb as <- <-. intros [Hs|[Hs|Hs]%elem_of_cons]; [by left|done|by right].
    + injection Hb as <- <-. intros [Hs|[Hs|Hs]%elem_of_cons]; [by left|done|by right].
  - by right.
Qed.

Lemma feed_output i s s' : LanServer.feed_signaler i s = Ok s' ->
  LanServer.signaler s' = (lan_handle i (LanServer.signaler s)).2.
Proof.
  unfold LanServer.feed_signaler. cbn [handle LanSignaler_sans].
  destruct (lan_handle i (LanServer.signaler s)) as [[] l]; by intros [= <-].
Qed.

Lemma receive_grows l now : forall s s', LanServer.receive_datagrams l now s = Ok s' ->
  lan_inv (LanServer.signaler s) ->
  lan_inv (LanServer.signaler s') /\
  exists outs, LanSignaler.output (LanServer.signaler s') = LanSignaler.output (LanServer.signaler s) ++ outs.
Proof.
  induction l as [|[d a] l IH]; intros s s'; cbn [LanServer.receive_datagrams].
  { intros <-%Ok_inj Hinv. split; [done|]. exists []. by rewrite app_nil_r. }
  intros (s1 & H1%feed_output & H2)%res_bind_inv Hinv. apply IH in H2 as [Hi [outs Ho]].
  - split; [done|]. rewrite Ho, H1. cbn [lan_handle].
    destruct (datagram_grows d (socket_addr_new (to_canonical (ip a)) (port a)) now (LanServer.signaler s)) as [o1 ->].
    rewrite <- app_assoc. by eexists.
  - rewrite H1. by apply lan_handle_inv.
Qed.

Lemma receive_datagrams_app l1 l2 now : forall s,
  LanServer.receive_datagrams (l1 ++ l2) now s
  = (s1 ← LanServer.receive_datagrams l1 now s; LanServer.receive_datagrams l2 now s1).
Proof.
  induction l1 as [|[d a] l1 IH]; intros s; cbn [app LanServer.receive_datagrams]; [done|].
  destruct (LanServer.feed_signaler _ s); [|done..]. rewrite !res_bind_Ok. apply IH.
Qed.

Lemma lan_server_frame_inv queue now draws msgs order h h' sends queue' :
  lan_server_frame queue now draws msgs order h = Ok (h', sends, queue') ->
  exists s' sent,
    LanServer.update (recv_discovery LanServer.MAX_DATAGRAMS_PER_TICK (host_buf h) queue).1.1 now draws msgs order
      (host_server h) = Ok (s', sent) /\
    sends = map (fun d => send_discovery (host_socket h) d.1 d.2) sent.
Proof.
  unfold lan_server_frame. generalize (recv_discovery LanServer.MAX_DATAGRAMS_PER_TICK (host_buf h) queue).
  intros [[got buf] rest]. cbn [fst snd]. intros ([s' sent] & Hu & Heq)%res_bind_inv. exists s', sent. split; [done|].
  by apply Ok_inj in Heq as [= _ <- _].
Qed.

(** The parts of a frame that read the socket and that send. *)
Lemma update_parts got now draws msgs order s s' sent :
  (length got <= LanServer.MAX_DATAGRAMS_PER_TICK)%nat ->
  LanServer.update got now draws msgs order s = Ok (s', sent) ->
  exists s1 s2 s3, LanServer.receive_datagrams got now s = Ok s1 /\
    LanServer.feed_signaler (Update now) s1 = Ok s2 /\
    LanServer.drain_outputs 2 0 now draws (s2, []) = Ok (s3, sent).
Proof.
  intros Hl. unfold LanServer.update. rewrite take_ge by done.
  intros (s1 & H1 & (s2 & H2 & ([s3 sent3] & H3 & Heq)%res_bind_inv)%res_bind_inv)%res_bind_inv.
  apply Ok_inj, (f_equal snd) in Heq. cbn [snd] in Heq. subst. by exists s1, s2, s3.
Qed.

Context {crypto_laws : CryptoLaws crypto}.

(** C9: A request that reaches the discovery socket is answered from it within the
    frame.  When a frame of the LAN server reads a client's request from an address
    of the socket's family, and the server has data that fits a datagram and has not
    pinned the client elsewhere, then one of the frame's sends is the response with
    that data, to the very address the request came from, however the socket showed
    it and whatever else the frame read, was told by the pool or decided. *)
Theorem host_answers_request queue now draws msgs order h h' sends queue' pre post req from id data s1 :
  lan_inv (LanServer.signaler (host_server h)) ->
  udp_local_addr (host_socket h) = Ok (sock_addr (host_socket h)) ->
  ip_ok (ip from) -> is_ipv6 from = is_ipv6 (sock_addr (host_socket h)) ->
  (recv_discovery LanServer.MAX_DATAGRAMS_PER_TICK (host_buf h) queue).1.1 = pre ++ (req, from) :: post ->
  LanServer.receive_datagrams pre now (host_server h) = Ok s1 ->
  encode (Request request_packet) id = Ok req -> is_u64 id -> is_u64 (own_id (LanServer.signaler s1)) ->
  id <> own_id (LanServer.signaler s1) ->
  announces (LanServer.signaler s1) data ->
  pinned_elsewhere (LanServer.signaler s1) id (canonical from) now = false ->
  lan_server_frame queue now draws msgs order h = Ok (h', sends, queue') ->
  exists bs resp,
    decode resp = Ok (Response (response_new bs), own_id (LanServer.signaler s1)) /\
    server_data_decode bs = Ok data /\
    udp_send_to (host_socket h) resp from ∈ sends.
Proof.
  intros Hinv Hl Hok Hfam Hgot Hpre Hreq Hid Hown Hne Hann Hpin Hframe.
  apply lan_server_frame_inv in Hframe as (s' & sent & Hu & ->). apply update_parts in Hu.
  2: { rewrite recv_discovery_reads. etrans; [apply omap_length_le|]. rewrite length_take. apply Nat.le_min_l. }
  rewrite Hgot in Hu. destruct Hu as (s2 & s4 & s5 & Hr & H4%feed_output & Hd).
  destruct (request_answered id (LanServer.signaler s1) data (canonical from) now req Hreq Hid Hown Hne Hann Hpin)
    as (srv' & bs & resp & Hh & Ho & _ & Hbs & Hdec).
  exists bs, resp. split; [done|]. split; [done|].
  assert ((resp, canonical from) ∈ sent) as Hsent.
  2: { apply list_elem_of_In. apply in_map_iff. exists (resp, canonical from). cbn [fst snd].
    split; [|by apply list_elem_of_In]. rewrite send_discovery_family by done. f_equal. rewrite <- Hfam. unfold is_ipv6.
    destruct (reply_reaches_source from Hok) as [Hv6 Hv4]. destruct (is_ipv4 (ip from)); cbn [negb]; auto. }
  rewrite receive_datagrams_app, Hpre, res_bind_Ok in Hr. cbn [LanServer.receive_datagrams] in Hr.
  apply res_bind_inv in Hr as (s3 & H3%feed_output & Hr).
  change (socket_addr_new (to_canonical (ip from)) (port from)) with (canonical from) in H3. rewrite Hh in H3. cbn in H3.
  assert (lan_inv (LanServer.signaler s3)) as Hi3.
  { rewrite H3. pose proof (lan_handle_inv (IDatagram req (canonical from) now) (LanServer.signaler s1)) as Hi.
    rewrite Hh in Hi. apply Hi. by apply (receive_grows pre now (host_server h) s1 Hpre). }
  destruct (receive_grows _ _ _ _ Hr Hi3) as [Hi2 [outs2 Ho2]].
  destruct (update_grows now (LanServer.signaler s2) Hi2) as [outs4 Ho4].
  eapply (outputs_sent (resp, canonical from)); [|exact Hd]. cbn [fst snd].
  rewrite H4. cbn [lan_handle]. rewrite Ho4, Ho2, H3, Ho. do 2 (apply elem_of_app; left).
  apply elem_of_app. right. by apply list_elem_of_singleton.
Qed.

(** ** What binding gives *)

Context {os_laws : OsLaws os}.

(** A bound server is ready to answer: its signaler holds its invariant, its
    discovery socket is as [bind_discovery_socket] promises, its buffer takes any
    datagram, and its sessions announce the port of the media socket. *)
Lemma lan_server_bound network_id addr conf h :
  lan_server_bind network_id addr conf = Ok h -> 0 <= max_discovered (conf LanSignalerConfig_default) ->
  lan_inv (LanServer.signaler (host_server h)) /\ discovery_socket addr (host_socket h) /\
  length (host_buf h) = Z.to_nat MAX_DATAGRAM_SIZE /\
  port (LanServer.session_local_addr (host_server h)) = port (sock_addr (host_media h)) /\
  head (LanServer.advertised_addrs (host_server h)) = Some (ip (LanServer.session_local_addr (host_server h))).
Proof.
  unfold lan_server_bind. intros (s & Hs%bind_discovery_socket_spec & (m & Hm & Heq)%res_bind_inv)%res_bind_inv Hmax.
  apply bind_media_announces in Hm as (_ & Hp & Hh & _). apply Ok_inj in Heq as <-.
  cbn [host_server host_socket host_media host_buf LanServer.server_new LanServer.signaler LanServer.session_local_addr
    LanServer.advertised_addrs].
  split; [by apply lan_new_inv|]. split; [done|]. split; [apply length_replicate|]. by split.
Qed.

(** A bound client may broadcast, and does so to the discovery port. *)
Lemma lan_client_bound network_id c socket media :
  lan_client_bind network_id (fun c => c) = Ok (c, socket, media) ->
  sock_broadcast socket = true /\ sock_nonblocking socket = true /\
  broadcast_address (LanSignaler.config (LanClient.signaler c)) = Some (socket_addr_new BROADCAST LAN_DISCOVERY_PORT) /\
  port (LanClient.session_local_addr c) = port (sock_addr media).
Proof.
  unfold lan_client_bind.
  intros (s & _ & (s1 & ->%set_nonblocking_spec & (s2 & ->%set_broadcast_spec & (m & Hm & Heq)%res_bind_inv)%res_bind_inv)%res_bind_inv)%res_bind_inv.
  apply bind_media_announces in Hm as (_ & Hp & _). apply Ok_inj in Heq. simplify_eq. by split_and!.
Qed.
End host.

(** ** The HTTP server *)

Section http.
Context `{b64 : Base64} `{serde : Serde} `{p384 : P384} `{rsa : Rsa} `{net : IpRange.IpNetOps} `{stun : Stun}.
Context {crypto : CryptoOps} {sdp : Sdp} {cand : IceCandidate} {cert : CertificateOps}
  {iceops : IceOps} {dtlsops : DtlsOps} {sctpops : SctpOps} {dcepops : DcepOps}.
Context {httparse : HttpWire.Httparse} {types : HttpWire.HttpTypes} {tls : HttpStream.TlsOps}.
Context `{os : Os} {os_laws : OsLaws os}.

(** [TcpListener]: its address. *)
Class Tcp := {
  tcp_bind : SocketAddr -> Res ErrorKind SocketAddr;
  listener_nonblocking : SocketAddr -> Res ErrorKind SocketAddr;
}.

(** The server, its listener and its media socket. *)
Definition http_server_bind `{Tcp} (bind_addr : SocketAddr)
    (conf : HttpSignaler.HttpSignalerConfig -> HttpSignaler.HttpSignalerConfig)
    : Res ErrorKind (HttpServer.NetherHttpServer * SocketAddr * UdpSocket) :=
  let config := conf HttpSignaler.HttpSignalerConfig_default in
  listener ← tcp_bind bind_addr;
  listener ← listener_nonblocking listener;
  media ← bind_media;
  Ok (HttpServer.server_new config (media_local_addr media) (media_advertised media), listener, media_socket media).

Lemma http_server_bound `{Tcp} addr conf s listener media :
  http_server_bind addr conf = Ok (s, listener, media) ->
  port (HttpServer.session_local_addr s) = port (sock_addr media) /\
  head (HttpServer.advertised_addrs s) = Some (ip (HttpServer.session_local_addr s)) /\
  HttpServer.conns s = ∅ /\ ServerSessions.sessions (HttpServer.table s) = ∅.
Proof.
  unfold http_server_bind.
  intros (l & _ & (l2 & _ & (m & Hm & Heq)%res_bind_inv)%res_bind_inv)%res_bind_inv.
  apply bind_media_announces in Hm as (_ & Hp & Hh & _). apply Ok_inj in Heq. simplify_eq. by split_and!.
Qed.
End http.
