(* ===== verification/LanHostInstance.v ===== *)
(** * LanHostInstance: a LAN server behind a dual-stack socket answers an IPv4 client

    The theorem of [LanHost.v] on a concrete frame, over the host of [Sockets.v]
    where every call succeeds. *)
From S2P Require Import Prelude Text Errors Codec SignalMsg ServerDataModel Discovery Endpoint Router Sans.
From S2P Require Import LanSignaler LanDiscovery Candidate Identity ServerIdentity IdentityInstance Webrtc WebrtcInstance.
From S2P Require Import Framing Transports Session SessionInstance Connection Admission AdmissionInstance.
From S2P Require Import Pending Pool PoolInstance ServerSessions ServerInstance LanServer.
From S2P Require Import SharedSocket TokioBase LanTask Sockets LanHost.

#[local] Existing Instances toy_crypto toy_crypto_laws toy_base64 toy_serde toy_p384 toy_rsa pool_stun plain_os.

Definition answering_host : LanHost := {|
  host_server := LanServer.set_signaler serving (server_new 2 LanSignalerConfig_default sample_addr []);
  host_socket := wildcard_socket; host_media := plain_socket sample_addr; host_buf := replicate 256 x00 |}.

Definition discovery_request : bytes := match encode (Request request_packet) 1 with Ok b => b | _ => [] end.

Definition no_draw : nat -> Draw := fun _ =>
  {| draw_ufrag := []; draw_pwd := []; draw_random := []; draw_wall := 0; draw_clock := 0 |}.

Definition request_frame := lan_server_frame [Arrived discovery_request mapped_client] 5 no_draw [] [] answering_host.

Lemma request_frame_ok : is_ok request_frame = true.
Proof. vm_compute. reflexivity. Qed.

Lemma request_read :
  (recv_discovery LanServer.MAX_DATAGRAMS_PER_TICK (host_buf answering_host) [Arrived discovery_request mapped_client]).1.1
  = [] ++ (discovery_request, mapped_client) :: [].
Proof. vm_compute. reflexivity. Qed.

Lemma serving_inv : lan_inv serving.
Proof.
  assert (lan_inv (lan_new 2 LanSignalerConfig_default)) as [H1 H2 H3 H4]
    by (apply lan_new_inv; vm_compute; discriminate). by split.
Qed.

Lemma host_answers_request_witness :
  exists sends resp, (exists h queue, request_frame = Ok (h, sends, queue)) /\
    udp_send_to wildcard_socket resp mapped_client ∈ sends.
Proof.
  pose proof request_frame_ok as Hok. destruct request_frame as [[[h sends] queue]|e|] eqn:E;
    [|exfalso; discriminate Hok|exfalso; discriminate Hok].
  destruct (host_answers_request [Arrived discovery_request mapped_client] 5 no_draw [] [] answering_host h sends queue
    [] [] discovery_request mapped_client 1 sample_server (host_server answering_host)) as (bs & resp & _ & _ & H).
  - exact serving_inv.
  - reflexivity.
  - vm_compute. repeat split; congruence.
  - reflexivity.
  - exact request_read.
  - reflexivity.
  - vm_compute. reflexivity.
  - vm_compute. split; congruence.
  - vm_compute. split; congruence.
  - discriminate.
  - exact serving_announces.
  - reflexivity.
  - exact E.
  - exists sends, resp. split; [exists h, queue; reflexivity|exact H].
Defined.
