(* ===== verification/TokioSignals.v ===== *)
(** * TokioSignals: the stream of signals a signaling hands out
    ([signals] of [nethernet-tokio/src/signaling/{lan,http/server,http/client}.rs])

    The tasks publish signals on a broadcast channel of the runtime; [signals]
    turns a subscription into a stream that skips the notices of missed values.  The
    channel is a parameter with its documented behaviour: it keeps the newest values
    a receiver has not seen, up to its capacity, and tells how many it missed; the
    capacity is at least the one asked for and may be greater. *)
From S2P Require Import Prelude Text Errors SignalMsg.

Definition LAN_SIGNAL_CAPACITY : nat := 100.
Definition HTTP_SERVER_SIGNAL_CAPACITY : nat := 64.
Definition HTTP_CLIENT_SIGNAL_CAPACITY : nat := 16.

Inductive RecvResult := Received (s : Signal) | Lagged (n : nat) | Closed.

(** One receiver's view of the channel. *)
Class Broadcast := {
  Subscription : Type;
  subscribe : nat -> Subscription;
  publish : Signal -> Subscription -> Subscription;
  (** Every sender is dropped. *)
  hang_up : Subscription -> Subscription;
  (** [None] while the receiver waits. *)
  broadcast_recv : Subscription -> option RecvResult * Subscription;
  capacity : Subscription -> nat;
  unseen : Subscription -> list Signal;
  missed : Subscription -> nat;
  hung_up : Subscription -> bool;
}.

Class BroadcastLaws (bc : Broadcast) := {
  subscribe_spec cap : (0 < cap)%nat -> let c := subscribe cap in
    (cap <= capacity c)%nat /\ unseen c = [] /\ missed c = 0%nat /\ hung_up c = false;
  publish_spec s c : let l := unseen c ++ [s] in let over := (length l - capacity c)%nat in let c' := publish s c in
    capacity c' = capacity c /\ unseen c' = drop over l /\ missed c' = (missed c + over)%nat /\ hung_up c' = hung_up c;
  hang_up_spec c : let c' := hang_up c in
    capacity c' = capacity c /\ unseen c' = unseen c /\ missed c' = missed c /\ hung_up c' = true;
  broadcast_recv_spec c : let '(r, c') := broadcast_recv c in
    capacity c' = capacity c /\ hung_up c' = hung_up c /\ missed c' = 0%nat /\
    match missed c, unseen c with
    | S n, l => r = Some (Lagged (S n)) /\ unseen c' = l
    | O, s :: l => r = Some (Received s) /\ unseen c' = l
    | O, [] => r = (if hung_up c then Some Closed else None) /\ unseen c' = []
    end;
}.

Section stream.
Context {bc : Broadcast}.

(** What polling the stream comes to. *)
Inductive Polled := Item (s : Signal) | Ended | Waits | StillLooping.

(** The loop of [signals]; [fuel] bounds its turns. *)
Fixpoint signals_next (fuel : nat) (rx : Subscription) : Polled * Subscription :=
  match fuel with
  | O => (StillLooping, rx)
  | S fuel =>
      match broadcast_recv rx with
      | (Some (Received signal), rx) => (Item signal, rx)
      | (Some (Lagged _), rx) => signals_next fuel rx
      | (Some Closed, rx) => (Ended, rx)
      | (None, rx) => (Waits, rx)
      end
  end.

(** A history of the channel. *)
Inductive Happening := Published (s : Signal) | Polls | HangsUp.

Definition yields (p : Polled) : list Signal := match p with Item s => [s] | _ => [] end.

Fixpoint stream_run (history : list Happening) (rx : Subscription) : list Signal * Subscription :=
  match history with
  | [] => ([], rx)
  | Published s :: history => stream_run history (publish s rx)
  | HangsUp :: history => stream_run history (hang_up rx)
  | Polls :: history =>
      let '(p, rx) := signals_next 2 rx in
      let '(items, rx) := stream_run history rx in (yields p ++ items, rx)
  end.

Definition published (history : list Happening) : list Signal :=
  omap (fun h => match h with Published s => Some s | _ => None end) history.

(** The stream never has more than [cap] values before it. *)
Fixpoint keeps_up (cap waiting : nat) (history : list Happening) : bool :=
  match history with
  | [] => true
  | Published _ :: history => (waiting <? cap)%nat && keeps_up cap (S waiting) history
  | Polls :: history => keeps_up cap (pred waiting) history
  | HangsUp :: history => keeps_up cap waiting history
  end.

(** The streams of the three signalings, over a history from their subscription. *)
Definition lan_signals (history : list Happening) : list Signal * Subscription :=
  stream_run history (subscribe LAN_SIGNAL_CAPACITY).
Definition http_server_signals (history : list Happening) : list Signal * Subscription :=
  stream_run history (subscribe HTTP_SERVER_SIGNAL_CAPACITY).
Definition http_client_signals (history : list Happening) : list Signal * Subscription :=
  stream_run history (subscribe HTTP_CLIENT_SIGNAL_CAPACITY).

Context {laws : BroadcastLaws bc}.

(** Two turns always do: a notice is followed by a value, the end or a wait. *)
Lemma signals_next_spec rx :
  let '(p, rx') := signals_next 2 rx in
  capacity rx' = capacity rx /\ hung_up rx' = hung_up rx /\ missed rx' = 0%nat /\
  match unseen rx with
  | s :: l => p = Item s /\ unseen rx' = l
  | [] => p = (if hung_up rx then Ended else Waits) /\ unseen rx' = []
  end.
Proof.
  cbn [signals_next]. pose proof (broadcast_recv_spec rx) as H1. destruct (broadcast_recv rx) as [r rx1].
  destruct H1 as (Hc & Hh & Hm & H1). destruct (missed rx) as [|n].
  - destruct (unseen rx) as [|s l]; destruct H1 as [-> Hu]; [destruct (hung_up rx); by split_and!|by split_and!].
  - destruct H1 as [-> Hu]. pose proof (broadcast_recv_spec rx1) as H2. destruct (broadcast_recv rx1) as [r2 rx2].
    destruct H2 as (Hc2 & Hh2 & Hm2 & H2). rewrite Hm, Hu in H2. rewrite Hh in H2.
    destruct (unseen rx) as [|s l]; destruct H2 as [-> Hu2].
    + destruct (hung_up rx); (split; [congruence|]); (split; [congruence|]); by split.
    + split; [congruence|]. split; [congruence|]. by split.
Qed.

Lemma stream_run_sublist history : forall rx,
  let '(items, rx') := stream_run history rx in
  sublist (items ++ unseen rx') (unseen rx ++ published history).
Proof.
  induction history as [|[s| |] history IH]; intros rx; cbn [stream_run].
  - by rewrite app_nil_r.
  - change (published (Published s :: history)) with (s :: published history). specialize (IH (publish s rx)). destruct (stream_run history _) as [items rx'].
    destruct (publish_spec s rx) as (_ & Hu & _). rewrite Hu in IH. etrans; [exact IH|].
    rewrite (cons_middle s (unseen rx) (published history)), (assoc_L (++) (unseen rx)). apply sublist_app; [apply sublist_drop|done].
  - pose proof (signals_next_spec rx) as Hs. destruct (signals_next 2 rx) as [p rx1]. destruct Hs as (_ & _ & _ & Hs).
    specialize (IH rx1). destruct (stream_run history rx1) as [items rx']. rewrite <- (assoc_L (++)).
    destruct (unseen rx) as [|s l]; destruct Hs as [-> Hu]; rewrite Hu in IH.
    + by destruct (hung_up rx).
    + cbn. by apply sublist_skip.
  - specialize (IH (hang_up rx)). destruct (stream_run history _) as [items rx'].
    destruct (hang_up_spec rx) as (_ & Hu & _). by rewrite Hu in IH.
Qed.

(** More room does no harm. *)
Lemma keeps_up_mono cap cap' history : forall waiting,
  (cap <= cap')%nat -> keeps_up cap waiting history = true -> keeps_up cap' waiting history = true.
Proof.
  induction history as [|[s| |] history IH]; intros waiting Hle; cbn [keeps_up]; auto.
  rewrite !andb_true_iff, !Nat.ltb_lt. intros [? ?]. split; [lia|auto].
Qed.

Lemma stream_run_complete history : forall rx,
  keeps_up (capacity rx) (length (unseen rx)) history = true ->
  let '(items, rx') := stream_run history rx in items ++ unseen rx' = unseen rx ++ published history.
Proof.
  induction history as [|[s| |] history IH]; intros rx; cbn [stream_run keeps_up].
  - by rewrite app_nil_r.
  - change (published (Published s :: history)) with (s :: published history).
    intros [Hlt Hk]%andb_true_iff. apply Nat.ltb_lt in Hlt.
    destruct (publish_spec s rx) as (Hc & Hu & _). rewrite length_app in Hu. cbn [length] in Hu.
    replace (length (unseen rx) + 1 - capacity rx)%nat with 0%nat in Hu by lia. rewrite drop_0 in Hu.
    specialize (IH (publish s rx)). rewrite Hc, Hu, length_app in IH. cbn [length] in IH.
    rewrite Nat.add_1_r in IH. specialize (IH Hk). destruct (stream_run history _) as [items rx']. rewrite IH.
    by rewrite <- (assoc_L (++)).
  - intros Hk. pose proof (signals_next_spec rx) as Hs. destruct (signals_next 2 rx) as [p rx1].
    destruct Hs as (Hc & _ & _ & Hs). specialize (IH rx1). rewrite Hc in IH.
    destruct (unseen rx) as [|s l]; destruct Hs as [-> Hu]; rewrite Hu in IH; specialize (IH Hk);
      destruct (stream_run history rx1) as [items rx'].
    + by destruct (hung_up rx).
    + cbn. cbn in IH. by rewrite IH.
  - intros Hk. specialize (IH (hang_up rx)). destruct (hang_up_spec rx) as (Hc & Hu & _). rewrite Hc, Hu in IH.
    specialize (IH Hk). by destruct (stream_run history _) as [items rx'].
Qed.

(** C28: The stream of signals is faithful.  From its subscription on, whatever is
    published and however often it is polled, the stream hands out signals that were
    published, in their order and none twice; it loses none as long as no more of
    them wait for it than the capacity the channel was asked for, or in fact has; it
    ends only once the senders are gone and everything is handed out, and a poll
    never loops.  The channel is asked for a capacity other than 0, as in each of
    the three signalings. *)
Theorem signals_stream_faithful cap history :
  (0 < cap)%nat ->
  let '(items, rx) := stream_run history (subscribe cap) in
  sublist (items ++ unseen rx) (published history) /\
  (keeps_up cap 0 history = true \/ keeps_up (capacity (subscribe cap)) 0 history = true ->
     items ++ unseen rx = published history) /\
  ((signals_next 2 rx).1 = Ended <-> hung_up rx = true /\ unseen rx = []) /\
  (signals_next 2 rx).1 <> StillLooping.
Proof.
  intros Hcap. destruct (subscribe_spec cap Hcap) as (Hc & Hu & _ & _).
  pose proof (stream_run_sublist history (subscribe cap)) as Hs.
  pose proof (stream_run_complete history (subscribe cap)) as Hk. rewrite Hu in Hk.
  destruct (stream_run history (subscribe cap)) as [items rx]. rewrite Hu in Hs.
  split; [exact Hs|]. split; [intros [Hup|Hup]; apply Hk; [by eapply keeps_up_mono|exact Hup]|].
  pose proof (signals_next_spec rx) as Hn. destruct (signals_next 2 rx) as [p rx']. destruct Hn as (_ & _ & _ & Hn).
  cbn [fst]. destruct (unseen rx) as [|s l]; destruct Hn as [-> _]; [|naive_solver].
  destruct (hung_up rx); naive_solver.
Qed.
End stream.

(** ** A concrete channel *)

(** The capacity is rounded up to a power of two. *)

Record Ring := { ring_capacity : nat; ring_values : list Signal; ring_missed : nat; ring_closed : bool }.

#[local] Instance ring_broadcast : Broadcast := {|
  Subscription := Ring;
  subscribe cap := {| ring_capacity := 2 ^ Nat.log2_up cap; ring_values := []; ring_missed := 0; ring_closed := false |};
  publish s r :=
    let l := ring_values r ++ [s] in let over := (length l - ring_capacity r)%nat in
    {| ring_capacity := ring_capacity r; ring_values := drop over l; ring_missed := ring_missed r + over;
       ring_closed := ring_closed r |};
  hang_up r := {| ring_capacity := ring_capacity r; ring_values := ring_values r; ring_missed := ring_missed r;
                  ring_closed := true |};
  broadcast_recv r :=
    let rest l := {| ring_capacity := ring_capacity r; ring_values := l; ring_missed := 0; ring_closed := ring_closed r |} in
    match ring_missed r, ring_values r with
    | S n, l => (Some (Lagged (S n)), rest l)
    | O, s :: l => (Some (Received s), rest l)
    | O, [] => (if ring_closed r then Some Closed else None, rest [])
    end;
  capacity := ring_capacity; unseen := ring_values; missed := ring_missed; hung_up := ring_closed;
|}.

#[local] Instance ring_laws : BroadcastLaws ring_broadcast.
Proof.
  split; [|done..|].
  - intros cap Hcap. split_and!; [|done..]. cbn. destruct (decide (cap = 1%nat)) as [->|]; [done|].
    apply Nat.log2_up_spec. lia.
  - intros [cap [|s l] [|n] closed]; cbn; by split_and!.
Qed.

Definition numbered (n : Z) : Signal := signal_offer n (str "sdp") (str "peer").

(** Five signals for the four places of a channel that was asked for three: the
    first is lost, the others come in order. *)
Definition lagging : list Happening :=
  [Published (numbered 1); Published (numbered 2); Published (numbered 3); Published (numbered 4);
   Published (numbered 5); Polls; Polls; HangsUp].

(** Four signals fit. *)
Definition following : list Happening :=
  [Published (numbered 1); Published (numbered 2); Published (numbered 3); Published (numbered 4); Polls].

Lemma signals_stream_faithful_witness :
  (stream_run lagging (subscribe 3)).1 = [numbered 2; numbered 3] /\
  sublist [numbered 2; numbered 3; numbered 4; numbered 5] (published lagging) /\
  (stream_run following (subscribe 3)).1 ++ unseen (stream_run following (subscribe 3)).2 = published following.
Proof.
  pose proof (signals_stream_faithful 3 lagging ltac:(lia)) as H.
  destruct (stream_run lagging (subscribe 3)) as [items rx] eqn:E.
  vm_compute in E. injection E as <- <-. destruct H as [H _]. split; [reflexivity|]. split; [exact H|].
  pose proof (signals_stream_faithful 3 following ltac:(lia)) as H2.
  destruct (stream_run following (subscribe 3)) as [items rx]. destruct H2 as (_ & H2 & _). apply H2. right.
  vm_compute. reflexivity.
Defined.
