(* ===== verification/Plugins.v ===== *)
(** * Plugins: the systems that run the front ends once per frame
    (the [update] systems of [bevy-nethernet/src/{server,client,http_server,http_client}.rs])

    A system updates its resource and writes every event it has to the app; what
    schedules it belongs to the engine. *)
From S2P Require Import Prelude Text Errors Discovery Endpoint IpRange Router Identity Webrtc Transports ServerSessions.
From S2P Require HttpSignaler HttpWire HttpStream HttpServer HttpClient LanServer LanClient.

(** ** The loop over the events *)

(** A resource with a queue of events. *)
Class EventQueue (S E : Type) := {
  queued : S -> list E;
  pop_event : S -> option E * S;
  (** Popping takes the first event, or says that there is none. *)
  pop_event_spec s : match queued s with
                     | [] => pop_event s = (None, s)
                     | e :: rest => exists s', pop_event s = (Some e, s') /\ queued s' = rest
                     end;
}.

Section loop.
Context {S E : Type} `{EventQueue S E}.

(** [while let Some(event) = next_event()]; [None] when [fuel] turns were not enough. *)
Fixpoint write_events (fuel : nat) (s : S) : option (list E * S) :=
  match fuel with
  | O => None
  | Datatypes.S fuel =>
      match pop_event s with
      | (Some e, s) => '(es, s) ← write_events fuel s; Some (e :: es, s)
      | (None, s) => Some ([], s)
      end
  end.

(** The loop ends after one turn more than there are events, and writes them all. *)
Lemma write_events_all fuel : forall s, (length (queued s) < fuel)%nat ->
  exists s', write_events fuel s = Some (queued s, s') /\ queued s' = [].
Proof.
  induction fuel as [|fuel IH]; intros s Hl; [lia|]. cbn [write_events]. pose proof (pop_event_spec s) as Hp.
  destruct (queued s) as [|e rest] eqn:E0.
  - rewrite Hp. by exists s.
  - destruct Hp as (s1 & -> & Hq). destruct (IH s1) as (s' & Hw & He); [rewrite Hq; cbn in Hl; lia|].
    rewrite Hw, Hq. by exists s'.
Qed.

(** A system: the update of the frame, then the loop. *)
Definition run_system (update : S -> Res unit S) (s : S) : Res unit (list E * S) :=
  s ← update s;
  match write_events (Datatypes.S (length (queued s))) s with Some r => Ok r | None => Panic end.

(** A system writes, in order, exactly the events its resource has after the update,
    leaves none for the next frame, and panics only if the update does. *)
Lemma run_system_spec update s :
  match update s with
  | Ok s1 => exists s', run_system update s = Ok (queued s1, s') /\ queued s' = []
  | Err e => run_system update s = Err e
  | Panic => run_system update s = Panic
  end.
Proof.
  unfold run_system. destruct (update s) as [s1|e|]; [|done..]. rewrite res_bind_Ok.
  destruct (write_events_all (Datatypes.S (length (queued s1))) s1) as (s' & Hw & He); [lia|].
  rewrite Hw. by exists s'.
Qed.
End loop.

(** ** The four systems *)

Section systems.
Context `{b64 : Base64} `{serde : Serde} `{p384 : P384} `{rsa : Rsa} `{net : IpNetOps} `{stun : Stun}.
Context {crypto : CryptoOps} {sdp : Sdp} {cand : IceCandidate} {cert : CertificateOps}
  {iceops : IceOps} {dtlsops : DtlsOps} {sctpops : SctpOps} {dcepops : DcepOps}.
Context {httparse : HttpWire.Httparse} {types : HttpWire.HttpTypes} {access : HttpServer.HttpAccess types}
  {tls : HttpStream.TlsOps}.

#[global] Program Instance lan_server_events : EventQueue LanServer.NetherServer ServerEvent := {|
  queued s := events (LanServer.table s);
  pop_event s := let '(e, t) := next_event (LanServer.table s) in (e, LanServer.set_table t s);
|}.
Next Obligation.
  intros s. cbn. unfold next_event. destruct (events (LanServer.table s)); [by destruct s|]. by eexists.
Qed.

#[global] Program Instance http_server_events : EventQueue HttpServer.NetherHttpServer ServerEvent := {|
  queued s := events (HttpServer.table s);
  pop_event := HttpServer.http_next_event;
|}.
Next Obligation.
  intros s. unfold HttpServer.http_next_event, next_event.
  destruct (events (HttpServer.table s)); [by destruct s|]. by eexists.
Qed.

#[global] Program Instance lan_client_events : EventQueue LanClient.NetherClient LanClient.NetherClientEvent := {|
  queued := LanClient.events;
  pop_event := LanClient.next_event;
|}.
Next Obligation. intros s. unfold LanClient.next_event. destruct (LanClient.events s); [done|]. by eexists. Qed.

Definition lan_server_system (datagrams : list (bytes * SocketAddr)) (now : Instant) (draws : nat -> Draw) msgs order
    (s : LanServer.NetherServer) : Res unit (list ServerEvent * LanServer.NetherServer) :=
  run_system (fun s => '(s, _) ← LanServer.update datagrams now draws msgs order s; Ok s) s.

Definition http_server_system (f : HttpServer.Frame) (s : HttpServer.NetherHttpServer)
    : Res unit (list ServerEvent * HttpServer.NetherHttpServer) :=
  run_system (fun s => '(s, _) ← HttpServer.update f s; Ok s) s.

Definition lan_client_system (f : LanClient.Frame) (s : LanClient.NetherClient)
    : Res unit (list LanClient.NetherClientEvent * LanClient.NetherClient) :=
  run_system (fun s => '(s, _) ← LanClient.update f s; Ok s) s.

Context {raccess : HttpClient.ResponseAccess types} {names : HttpClient.ServerNames} {json : HttpSignaler.StatusJson}.

#[global] Program Instance http_client_events
    : EventQueue HttpClient.NetherHttpClient HttpClient.NetherHttpClientEvent := {|
  queued s := HttpClient.events (HttpClient.queues s);
  pop_event := HttpClient.next_event;
|}.
Next Obligation.
  intros s. unfold HttpClient.next_event. destruct (HttpClient.events (HttpClient.queues s)); [done|]. by eexists.
Qed.

Definition http_client_system (f : HttpClient.Frame) (s : HttpClient.NetherHttpClient)
    : Res unit (list HttpClient.NetherHttpClientEvent * HttpClient.NetherHttpClient) :=
  run_system (fun s => '(_, s) ← HttpClient.update f s; Ok s) s.

(** ** What the app sees of a LAN server *)

(** The app runs the system and calls methods, but leaves the events to the system. *)
Inductive app_run (s0 : LanServer.NetherServer) : list ServerEvent -> LanServer.NetherServer -> Prop :=
| app_new : app_run s0 [] s0
| app_system evs s datagrams now draws msgs order es s' :
    app_run s0 evs s -> lan_server_system datagrams now draws msgs order s = Ok (es, s') ->
    app_run s0 (evs ++ es) s'
| app_call evs s i s' : app_run s0 evs s -> LanServer.server_input i s = Ok (None, s') -> app_run s0 evs s'.

Lemma written_run fuel : forall s es s', write_events fuel s = Some (es, s') ->
  table_run (LanServer.table s) es (LanServer.table s').
Proof.
  induction fuel as [|fuel IH]; intros s es s'; [done|]. cbn [write_events pop_event lan_server_events].
  pose proof (table_run_one _ _ _ (ts_event (LanServer.table s))) as Hrun.
  destruct (next_event (LanServer.table s)) as [[e|] t]; cbn [fst snd option_list] in Hrun.
  - destruct (write_events fuel _) as [[es1 s1]|] eqn:Hw; [|done]. cbn. intros [= <- <-]. apply IH in Hw.
    exact (table_run_app _ [e] _ es1 _ Hrun Hw).
  - intros [= <- <-]. exact Hrun.
Qed.

Lemma system_run datagrams now draws msgs order s es s' :
  lan_server_system datagrams now draws msgs order s = Ok (es, s') ->
  table_run (LanServer.table s) es (LanServer.table s') /\ events (LanServer.table s') = [].
Proof.
  unfold lan_server_system. intros Hr.
  pose proof (run_system_spec (fun s => '(s, _) ← LanServer.update datagrams now draws msgs order s; Ok s) s) as Hs.
  unfold run_system in Hr at 1. cbv beta in Hs.
  destruct (LanServer.update datagrams now draws msgs order s) as [[s1 sent]|e|] eqn:Hu; [|done..].
  rewrite !res_bind_Ok in Hr. rewrite res_bind_Ok in Hs. destruct Hs as (s2 & Hrun & He).
  unfold run_system in Hrun. rewrite Hu, !res_bind_Ok in Hrun.
  destruct (write_events _ s1) as [[es1 s3]|] eqn:Hw; [|done].
  apply Ok_inj in Hr. injection Hr as <- <-. apply Ok_inj in Hrun. injection Hrun as -> ->. split; [|exact He].
  apply LanServer.update_run in Hu. apply written_run in Hw. exact (table_run_app _ [] _ _ _ Hu Hw).
Qed.

Lemma app_run_table s0 evs s : LanServer.table s0 = table_new -> app_run s0 evs s ->
  table_run table_new evs (LanServer.table s).
Proof.
  intros H0. induction 1 as [|evs s dg now draws msgs order es s' _ IH Hs|evs s i s' _ IH Hi].
  - rewrite H0. constructor.
  - apply system_run in Hs as [Hs _]. by eapply table_run_app.
  - apply LanServer.server_input_run in Hi. rewrite <- (app_nil_r evs). by eapply table_run_app.
Qed.

(** C11: After every frame the app knows the sessions.  However the app has called
    the LAN server between the frames, and whatever the network and the pool have
    done, the events the system has written so far, with those of this frame,
    replayed from the start, give exactly the sessions that the server has and that
    are connected; no event waits for another frame. *)
Theorem app_sees_sessions s0 evs s datagrams now draws msgs order es s' :
  LanServer.table s0 = table_new -> app_run s0 evs s ->
  lan_server_system datagrams now draws msgs order s = Ok (es, s') ->
  (forall id, id ∈ connected (evs ++ es) <->
     exists e, sessions (LanServer.table s') !! id = Some e /\ ready e = true) /\
  events (LanServer.table s') = [].
Proof.
  intros H0 Hrun Hs. pose proof Hs as [_ He]%system_run. split; [|exact He]. intros id.
  pose proof (app_run_table s0 (evs ++ es) s' H0) as Ht.
  destruct (table_run_inv _ _ (Ht (app_system _ _ _ _ _ _ _ _ _ _ Hrun Hs))) as [_ _ Hc].
  rewrite He, app_nil_r in Hc. apply Hc.
Qed.
End systems.
