(* ===== verification/PluginsInstance.v ===== *)
(** * PluginsInstance: a frame in which a session connects

    The theorem of [Plugins.v] on the LAN server of [ServerInstance.v]: an offer is
    answered and the pool reports the session in one frame. *)
From S2P Require Import Prelude Text Errors Codec SignalMsg ServerDataModel Discovery Endpoint Router Sans.
From S2P Require Import LanSignaler Candidate Identity ServerIdentity IdentityInstance Webrtc WebrtcInstance.
From S2P Require Import Framing Transports Session SessionInstance Connection Admission AdmissionInstance.
From S2P Require Import Pending Pool PoolInstance ServerSessions LanServer ServerInstance Plugins.

#[local] Existing Instances toy_crypto toy_base64 toy_serde toy_p384 toy_rsa pool_stun.
#[local] Existing Instance tiny_sdp | 0.

Definition system_connects (r : Res unit (list ServerEvent * NetherServer)) : bool :=
  match r with Ok ([SessionConnected id], _) => bool_decide (id = sample_id) | _ => false end.

Lemma system_connects_inv r : system_connects r = true -> exists s, r = Ok ([SessionConnected sample_id], s).
Proof.
  destruct r as [[[|[id|id] [|]] s]| |]; cbn [system_connects]; try done. intros ->%bool_decide_eq_true. by exists s.
Qed.

Lemma sample_connected : sample_id ∈ connected ([] ++ [SessionConnected sample_id]).
Proof. cbn. set_solver. Qed.

Lemma connecting_ok : exists s,
  lan_server_system [] 5 (fun _ => sample_draw) [(sample_id, EvReady None)] [] (offered_server None (str "x"))
  = Ok ([SessionConnected sample_id], s).
Proof. apply system_connects_inv. vm_compute. reflexivity. Qed.

Lemma no_sessions_yet : table (offered_server None (str "x")) = table_new.
Proof. reflexivity. Qed.

Lemma app_sees_sessions_witness :
  exists s e, app_run (offered_server None (str "x")) ([] ++ [SessionConnected sample_id]) s /\
    sessions (table s) !! sample_id = Some e /\ ready e = true.
Proof.
  destruct connecting_ok as [s Hs].
  destruct (app_sees_sessions _ [] _ _ _ _ _ _ _ s no_sessions_yet (app_new _) Hs) as [H _].
  destruct (proj1 (H sample_id) sample_connected) as (e & He & Hr).
  exists s, e. split; [exact (app_system _ _ _ _ _ _ _ _ _ _ (app_new _) Hs)|]. split; [exact He|exact Hr].
Defined.
